(* ===== verification/_CoqProject ===== *)
-Q . S2P
Prelude.v
Models.v
Db.v
Blobs.v
Entries.v
Projects.v
Credentials.v
Stats.v
Storage.v
DiskWalk.v
Config.v
Gc.v
GcRun.v
Orphans.v
Auth.v
Logins.v
Http.v
Decode.v
Metrics.v
App.v
Yocto.v
Listing.v
Admin.v
Server.v
Connect.v
Spec.v
Sweeps.v
AdminAudit.v
AuditRun.v
Uploads.v
Reads.v
Routes.v
Layers.v
Deadline.v
Push.v
PushWalk.v
PushRun.v
PushServer.v
Commands.v
Main.v
Demo.v
Scenarios.v
HttpTests.v
Findings.v
Witnesses.v
