(* ===== verification/Prelude.v ===== *)
(** * Marmotte: a verification development

    Marmotte is a cache server for Yocto builds: clients store build artifacts over
    HTTP under a project, a kind ([sstate] or [downloads]) and a path, and read them
    back.  Contents live in a directory of files named by their SHA-256; a SQLite
    database knows projects, credentials, entries, and how many entries refer to each
    file; a collector evicts entries past their age or over quota and frees files
    nobody refers to.  This development models the Rust code of the three crates under
    [crates/] and proves what makes it correct.  Comments name the functions and files
    they translate.

    ** How the code is modelled

    A function of the code is a computation [M E S A] (below): it takes a state [S] and
    a position in a stream of answers of the environment, and returns a value, an error
    or the fact that it panicked ([Stop Panicked]) with the new state.  Everything the
    code does not decide itself is asked from that stream: the clock and faults of the
    database ([Env] in Db.v), faults of the file system, partial writes and fresh
    names ([FsEnv] in Storage.v), random bytes, time and lost verification tasks
    ([AuthEnv] in Auth.v), system calls of the client ([WalkEnv], [Tree]).  Theorems hold for
    every stream, so for every pattern of failures; where one needs a run without
    failures it says so ([Quiet], [fs_quiet]).  A crash in the middle of a request is
    covered too: it leaves what a run leaves in which every later step fails.  Library
    code is a parameter with its documented laws: SHA-256, argon2, base64, moka's
    cache, serde, figment, the url crate, prometheus, the body limit of tower-http, the
    filters of tracing, sqlx's connections and migrator.  [wp] (below) is the weakest
    precondition that proofs go through; [wp_run] turns it into a statement about runs.

    Integers are in [Z].  The code computes on i64 and u64 with the release profile's
    wrap-around, which is written out where it can happen ([wrap_i64], [wrap_u64]);
    sums over rows in SQL fail on overflow as SQLite's do.  A refcount and the counters of
    usage are unbounded integers.

    ** The files

    - Prelude.v: effects, [wp], automation, lemmas on maps, sums and strings.
    - Models.v: rows, roles, kinds, errors ([marmotte-core/src/models.rs], [error.rs]).
    - Db.v: the tables of [migrations/0001_init.sql] with their constraints as an
      invariant ([schema_ok]), statements, transactions, [slack] (refcount minus
      references) ([db/mod.rs]).
    - Blobs.v, Entries.v, Projects.v, Credentials.v, Stats.v, Listing.v: the
      repositories [db/*.rs], one operation per function; Listing.v has the keyset
      pagination of [Entries::list].
    - Storage.v: a file system as a map from paths to contents, and [LocalFsStore] on it
      ([storage.rs]).  [store_ok] says that a file under a hash has that hash.
    - Config.v: [config.rs].
    - Gc.v, GcRun.v, DiskWalk.v, Orphans.v: [gc.rs]: the phases of a sweep, [GcSvc::run]
      with the release of blobs, [walk_blobs], and [orphan_scan].  [sys_ok] is the joint
      invariant of database and store: schema, references covered by refcounts, every
      entry backed by a file.
    - Auth.v: [auth.rs]: secrets, hashes, the verification cache, both authentications.
      Logins.v cuts [authenticate_project] at its awaits and interleaves logins with
      each other and with every write to the keys.
    - Http.v: responses, headers, credentials on the wire, errors as responses
      ([error.rs], the parsers of [middleware/*.rs] of marmotte-server).
    - Decode.v: the columns of the schema as raw values and the [FromRow]
      implementations of [db/*.rs] on them, which justify the typed tables of Db.v.
    - Metrics.v, App.v: [metrics.rs] and [state.rs].  App.v also has the classes
      [Steady], [Sweeps] and [Lossy]: relations between states that operations of three
      degrees of harm respect, and [Does R m], what handlers prove against them.
    - Yocto.v, Admin.v: the handlers of [routes/yocto.rs] and [routes/admin/*.rs].
    - Server.v: public routes, boot, [init]'s database part, background work, and
      [server_does], the step relation of the server: a request with any headers, a
      spawned task, a tick of the collector, a restart, a run of init.
    - Connect.v: [Db::connect], [connect_memory] and [migrate_at] of [db/mod.rs] over a
      machine with database files, of which boot is an abstraction.
    - AdminAudit.v, AuditRun.v: what each admin action does and what its line in the audit log
      says ([did]); the handlers of [routes/admin/*.rs] cut before that line, beside the
      steps of the server ([admin_step]).
    - Spec.v: the abstract cache (a map from keys to digests) and the refinement.
    - Sweeps.v, Uploads.v, Reads.v: a sweep of the collector cut at every statement, with
      what it has listed before; PUTs cut where the file is in place and the row is not;
      GETs cut between the row and the file.  Each runs beside the steps of the server.
    - Routes.v, Layers.v, Deadline.v: route tables, path patterns, [serve_http], and that
      it is [handle]; the body limit around it; the timeout around both, and what becomes
      of a handler that is dropped ([build_app] in [lib.rs]).
    - Push.v, PushWalk.v, PushRun.v, PushServer.v: the client [commands/push.rs]: one
      file with its retries, the walk, the concurrent run as a step relation, and the
      client against the server.
    - Commands.v, Main.v: [commands/init.rs]; the command line of [cli.rs], the dispatch
      and exit status of [main.rs], logging, and [commands/serve.rs] as a process that
      loads, listens, drains and ends ([serve_step]).
    - Demo.v, Findings.v, Witnesses.v: a concrete instance of every parameter and runs in
      it; runs in which the code does what its documentation rules out; every theorem
      with hypotheses applied at a concrete input.
    - Scenarios.v, HttpTests.v: the unit tests and the tests of the HTTP API, translated
      and run on the model.

    ** What is shown

    - The server as a whole: it refines the abstract cache, a key changes only through a
      PUT of a writer of its project ([Spec.server_refines_cache]), reads answer from
      the cache ([Spec.reads_answer_from_the_cache]), in every reachable state every
      entry can be served ([Server.reachable_serves_every_entry]), refcounts are exact
      until a project is deleted ([Spec.reachable_refcounts_exact]), strangers change
      nothing, what was put is got back, a restart recovers, an oversized body never
      becomes an entry ([Layers.upload_limit_enforced]), dropping a request tears nothing
      ([Deadline.dropping_tears_nothing]), connecting keeps every row
      ([Connect.connect_keeps_rows]).
    - Administration: what succeeds is done and logged ([AdminAudit.admin_requests_are_audited]),
      and no line of the log is without its deed, in any interleaving
      ([AuditRun.audit_log_is_true]); a deed without a line is possible
      ([Findings.work_without_a_line]).
    - In flight: uploads may run beside anything but a sweep; reads beside uploads in flight
      and all that may go on with them: a late one may miss but never serves something else; logins that overlap a revocation are the only ones it
      can miss, and only for the cache's time to live; a sweep keeps the invariant beside
      whole requests as long as none registers a content again between its listing and its
      unlinking ([tears]); a sweep between the phases of an upload is the other race that
      loses a blob (Findings.v).
    - The client and the process: every push ends with a right report, every file is
      found, what it reports is true of the server; the exit status tells whether all was
      pushed, and which panics there are (a semaphore or a cache beyond what their libraries
      allow, a standard stream that cannot be written); a serving process keeps the
      invariant until it has drained.
    - Components: sweeps keep the invariant, spare pinned entries, reach their goals and
      terminate; the quota phase evicts a shortest prefix in LRU order; orphan scans
      reconcile; uploads are content-addressed and fail without a trace; upserts and
      deletions move exactly one reference or nothing; authentication is sound and
      complete; pages cover the listing; every request of the API has its URL
      ([Routes.every_request_has_a_url]); a configuration that loads is exactly what was
      written ([Config.config_loads_exactly]); rows that the schema admits decode, and
      only those ([Decode.stored_rows_decode]).
    - Where the code departs from its documentation: Findings.v and the theorems
      [Orphans.orphan_scan_wipes_on_stat_error] and [Projects.project_delete_cascades].
    - The model against the code's own tests: [Scenarios.unit_tests_pass] and
      [HttpTests.http_tests_pass].

    ** Loops and fuel

    Loops over lists are structural.  Four loops carry fuel: [cleanup_loop] (GcRun.v)
    gets one more than there are blob rows, and each round that does not stop the loop
    removes one; [put_loop] (Push.v) gets 5, which is [MAX_RETRIES]; [traverse]
    (Listing.v), a client that follows cursors, gets the number of pages that the entries
    fill, which [page_count] computes; [walk_dir] (DiskWalk.v) gets a bound on
    the depth of the tree.  In each case a theorem shows that the fuel is never used up
    ([Stop OutOfFuel] is excluded together with panics).  [run_step] (PushRun.v)
    terminates by a measure; [login_run] (Logins.v) has its five stages.  The loop of a
    translated test gets the number of rounds it takes.

    ** What is not modelled

    - How axum combines routers is taken from its documentation; [serve_http] has the
      result: a path that no route has ends in the fallback of the router merged last.
    - A request is one step of [server_does], except where Uploads.v, Reads.v, Logins.v,
      Sweeps.v and AuditRun.v cut it.  SQLite's isolation of concurrent transactions is
      taken for granted.
    - The tracing layer, which only logs.  A dropped handler stops at an interaction with
      clock, database or disk; its counters in memory may run on to the next one.
    - moka's eviction by size is any decision not to find a value ([Moka]); concurrent
      logins with one key each run their own check, as [get_or_insert] of the code does.
    - Durability below the file system calls (fsync is a call that may fail), file
      permissions, symbolic links in the store.
    - clap's reading of the words of a command line, what the subscriber prints, what
      sqlx does with its options and the queue for connections of its pool, how reqwest
      builds its client: set-up without decisions of the program's own.
    - An overflow of the counters of usage, at 2^63 events or bytes in a day.
    - [ct_eq], a wrapper of the subtle crate that nothing calls.
    - File names of a push are Unicode text; percent-encoding is the url crate's. *)
From stdpp Require Import base numbers list strings gmap sorting pretty.
From Stdlib Require Import ZArith Lia.

#[global] Open Scope Z_scope.

(** ** Machine integers *)

Definition i64_max : Z := 2 ^ 63 - 1.
Definition in_i64 (z : Z) : Prop := - 2 ^ 63 <= z < 2 ^ 63.
Definition in_u64 (z : Z) : Prop := 0 <= z < 2 ^ 64.

(** Wrap-around of release builds ([overflow-checks] is off in the release
    profile), and the [as] casts between the two widths. *)
Definition wrap_u64 (z : Z) : Z := z mod 2 ^ 64.
Definition wrap_i64 (z : Z) : Z := (z + 2 ^ 63) mod 2 ^ 64 - 2 ^ 63.

(** ** Results and effects *)

(** A Rust computation ends with [Ok], with [Err], or it does not end with a
    value at all: it panicked, or a bounded unrolling of a loop was too short. *)
Inductive stop := Panicked | OutOfFuel.

Inductive res (E A : Type) : Type :=
| Ok (a : A)
| Err (e : E)
| Stop (w : stop).
Arguments Ok {E A} a.
Arguments Err {E A} e.
Arguments Stop {E A} w.

Definition res_map_err {E F A} (f : E → F) (r : res E A) : res F A :=
  match r with
  | Ok a => Ok a
  | Err e => Err (f e)
  | Stop w => Stop w
  end.

Definition is_ok {E A} (r : res E A) : bool :=
  match r with Ok _ => true | _ => false end.

(** The computation returned: it neither panicked nor ran out of fuel. *)
Definition no_stop {E A} (r : res E A) : Prop := match r with Stop _ => False | _ => True end.

(** A computation over the state [S] that can fail with [E]. The [nat] is the
    position in the stream of answers of the environment (clock, faults, ...):
    every interaction with the outside moves it by one. *)
Definition M (E S A : Type) : Type := S → nat → res E A * S * nat.

Definition ret {E S A} (a : A) : M E S A := λ s n, (Ok a, s, n).
Definition throw {E S A} (e : E) : M E S A := λ s n, (Err e, s, n).
Definition halt {E S A} (w : stop) : M E S A := λ s n, (Stop w, s, n).
Definition bind {E S A B} (m : M E S A) (k : A → M E S B) : M E S B :=
  λ s n, match m s n with
         | (Ok a, s', n') => k a s' n'
         | (Err e, s', n') => (Err e, s', n')
         | (Stop w, s', n') => (Stop w, s', n')
         end.
Lemma run_is {A S} (x : A * S * nat) a : x.1.1 = a → x = (a, x.1.2, x.2).
Proof. destruct x as [[? ?] ?]. by intros <-. Qed.
Lemma bind_ret {E S A B} (a : A) (k : A → M E S B) s n : bind (ret a) k s n = k a s n.
Proof. reflexivity. Qed.
Lemma bind_ret_r {E S A} (m : M E S A) s n : bind m ret s n = m s n.
Proof. unfold bind. by destruct (m s n) as [[[a|e|w] s'] n']. Qed.
Lemma bind_assoc {E S A B C} (m : M E S A) (k : A → M E S B) (l : B → M E S C) s n :
  bind (bind m k) l s n = bind m (λ a, bind (k a) l) s n.
Proof. unfold bind. by destruct (m s n) as [[[a|e|w] s'] n']. Qed.
Lemma bind_ext {E S A B} (m : M E S A) (k k' : A → M E S B) s n :
  (∀ a s n, k a s n = k' a s n) → bind m k s n = bind m k' s n.
Proof. intros Hk. unfold bind. by destruct (m s n) as [[[a|e|w] s'] n']. Qed.
Definition gets {E S A} (f : S → A) : M E S A := λ s n, (Ok (f s), s, n).
Definition modify {E S} (f : S → S) : M E S unit := λ s n, (Ok tt, f s, n).

(** [m.map_err(f)], and [?] through a [From] conversion. *)
Definition map_err {E F S A} (f : E → F) (m : M E S A) : M F S A :=
  λ s n, let '(r, s', n') := m s n in (res_map_err f r, s', n').

(** [match m { Ok(a) => .., Err(e) => .. }]: the error becomes a value. *)
Definition attempt {E F S A} (m : M E S A) : M F S (E + A) :=
  λ s n, match m s n with
         | (Ok a, s', n') => (Ok (inr a), s', n')
         | (Err e, s', n') => (Ok (inl e), s', n')
         | (Stop w, s', n') => (Stop w, s', n')
         end.

(** Running a computation of a component on its part of a larger state. *)
Record Lens (S T : Type) : Type := mkLens {
  lget : S → T;
  lset : T → S → S
}.
Arguments mkLens {S T} _ _.
Arguments lget {S T} _ _.
Arguments lset {S T} _ _ _.

Definition zoom {E S T A} (L : Lens S T) (m : M E T A) : M E S A :=
  λ s n, let '(r, t, n') := m (lget L s) n in (r, lset L t s, n').

Definition lens_fst {A B} : Lens (A * B) A := mkLens fst (λ a p, (a, p.2)).
Definition lens_snd {A B} : Lens (A * B) B := mkLens snd (λ b p, (p.1, b)).

Declare Scope rs_scope.
Delimit Scope rs_scope with rs.
Notation "'let*' x ':=' m 'in' k" := (bind m (λ x, k))
  (at level 10, x binder, m at level 100, k at level 200,
   format "'[v' 'let*'  x  ':='  m  'in' '/' k ']'") : rs_scope.
Notation "m ';*' k" := (bind m (λ _, k))
  (at level 100, k at level 200, right associativity,
   format "'[v' m  ';*' '/' k ']'") : rs_scope.
#[global] Open Scope rs_scope.

(** [for x in l { acc = body(acc, x)?; }] *)
Fixpoint foldM {E S A B} (body : B → A → M E S B) (acc : B) (l : list A) : M E S B :=
  match l with
  | [] => ret acc
  | x :: l' => let* acc' := body acc x in foldM body acc' l'
  end.

(** [opt.ok_or_else(..)?] *)
Definition ok_or {E S A} (e : E) (o : option A) : M E S A :=
  match o with Some a => ret a | None => throw e end.

(** ** Weakest preconditions *)

(** [wp m Q s]: whatever the environment answers, running [m] from [s] ends in a
    result and a state related by [Q]. *)
Definition wp {E S A} (m : M E S A) (Q : res E A → S → Prop) (s : S) : Prop :=
  ∀ n, Q (m s n).1.1 (m s n).1.2.

Definition bind_post {E S A B} (k : A → M E S B) (Q : res E B → S → Prop)
    : res E A → S → Prop :=
  λ r s, match r with
         | Ok a => wp (k a) Q s
         | Err e => Q (Err e) s
         | Stop w => Q (Stop w) s
         end.

Section wp_rules.
Context {E S : Type}.

Lemma wp_ret {A} (a : A) (Q : res E A → S → Prop) s : Q (Ok a) s → wp (ret a) Q s.
Proof. by intros H n. Qed.

Lemma wp_throw {A} (e : E) (Q : res E A → S → Prop) s : Q (Err e) s → wp (throw e) Q s.
Proof. by intros H n. Qed.

Lemma wp_halt {A} w (Q : res E A → S → Prop) s : Q (Stop w) s → wp (halt w) Q s.
Proof. by intros H n. Qed.

Lemma wp_bind {A B} (m : M E S A) (k : A → M E S B) Q s :
  wp m (bind_post k Q) s → wp (bind m k) Q s.
Proof.
  intros H n. specialize (H n). unfold bind.
  destruct (m s n) as [[[a|e|w] s'] n']; simpl in *; auto.
Qed.

Lemma wp_mono {A} (m : M E S A) (P Q : res E A → S → Prop) s :
  wp m P s → (∀ r s', P r s' → Q r s') → wp m Q s.
Proof. intros H HPQ n. auto. Qed.

Lemma wp_and {A} (m : M E S A) (P Q : res E A → S → Prop) s :
  wp m P s → wp m Q s → wp m (λ r s', P r s' ∧ Q r s') s.
Proof. intros H1 H2 n. split; auto. Qed.

Lemma wp_gets {A} (f : S → A) (Q : res E A → S → Prop) s :
  Q (Ok (f s)) s → wp (gets f) Q s.
Proof. by intros H n. Qed.

Lemma wp_modify (f : S → S) (Q : res E unit → S → Prop) s :
  Q (Ok tt) (f s) → wp (modify f) Q s.
Proof. by intros H n. Qed.

Lemma wp_map_err {F A} (f : F → E) (m : M F S A) (Q : res E A → S → Prop) s :
  wp m (λ r s', Q (res_map_err f r) s') s → wp (map_err f m) Q s.
Proof.
  intros H n. specialize (H n). unfold map_err.
  by destruct (m s n) as [[r s'] n'].
Qed.

Lemma wp_attempt {F A} (m : M F S A) (Q : res E (F + A) → S → Prop) s :
  wp m (λ r s', match r with
                | Ok a => Q (Ok (inr a)) s'
                | Err e => Q (Ok (inl e)) s'
                | Stop w => Q (Stop w) s'
                end) s →
  wp (attempt m) Q s.
Proof.
  intros H n. specialize (H n). unfold attempt.
  by destruct (m s n) as [[[a|e|w] s'] n'].
Qed.

Lemma wp_zoom {T A} (L : Lens S T) (m : M E T A) (Q : res E A → S → Prop) s :
  wp m (λ r t, Q r (lset L t s)) (lget L s) → wp (zoom L m) Q s.
Proof.
  intros H n. specialize (H n). unfold zoom.
  by destruct (m (lget L s) n) as [[r t] n'].
Qed.

Lemma wp_ok_or {A} (e : E) (o : option A) (Q : res E A → S → Prop) s :
  match o with Some a => Q (Ok a) s | None => Q (Err e) s end →
  wp (ok_or e o) Q s.
Proof. by destruct o; intros H n. Qed.

(** Loop rule: an invariant on the part of the list still to do. *)
Lemma wp_foldM {A B} (body : B → A → M E S B) (I : list A → B → S → Prop)
    (Q : res E B → S → Prop) :
  (∀ acc s, I [] acc s → Q (Ok acc) s) →
  (∀ x l acc s, I (x :: l) acc s →
     wp (body acc x) (λ r s', match r with
                              | Ok acc' => I l acc' s'
                              | Err e => Q (Err e) s'
                              | Stop w => Q (Stop w) s'
                              end) s) →
  ∀ l acc s, I l acc s → wp (foldM body acc l) Q s.
Proof.
  intros Hnil Hcons l. induction l as [|x l IH]; intros acc s HI; simpl.
  - apply wp_ret. auto.
  - apply wp_bind. eapply wp_mono; [by apply Hcons|].
    intros [acc'|e|w] s' H; simpl in *; auto.
Qed.

(** A [wp] is a statement about every single run. *)
Lemma wp_run {A} (m : M E S A) Q s n r s' n' :
  wp m Q s → m s n = (r, s', n') → Q r s'.
Proof. intros H Hm. specialize (H n). by rewrite Hm in H. Qed.
End wp_rules.

Arguments bind_post {E S A B} k Q r s /.

(** ** Automation *)

Create HintDb marmotte.

(** [wp_go] takes one computation apart up to the calls it has no rule for. *)
Ltac wp_step :=
  lazymatch goal with
  | |- bind_post _ _ _ _ => cbv beta iota delta [bind_post]
  | |- wp (bind _ _) _ _ => apply wp_bind
  | |- wp (ret _) _ _ => apply wp_ret; simpl
  | |- wp (throw _) _ _ => apply wp_throw; simpl
  | |- wp (halt _) _ _ => apply wp_halt; simpl
  | |- wp (gets _) _ _ => apply wp_gets; simpl
  | |- wp (modify _) _ _ => apply wp_modify; simpl
  | |- wp (map_err _ _) _ _ => apply wp_map_err; simpl
  | |- wp (attempt _) _ _ => apply wp_attempt; simpl
  | |- wp (zoom _ _) _ _ => apply wp_zoom; simpl
  | |- wp (ok_or _ _) _ _ => apply wp_ok_or; simpl
  end.
Ltac wp_go := repeat wp_step.

(** [wp_use H]: the specification [H] of the call at the head of the goal. *)
Tactic Notation "wp_use" uconstr(H) := eapply wp_mono; [eapply H|].
Tactic Notation "wp_use" uconstr(H) "as" simple_intropattern(r) simple_intropattern(s)
    simple_intropattern(p) :=
  eapply wp_mono; [eapply H|intros r s p; simpl].

(** Case analysis on the matches of a hypothesis or of the goal. *)
Ltac go_case := repeat (case_match || case_decide); simplify_eq/=.

(** ** Sums and counts over maps *)

Definition zsum (l : list Z) : Z := foldr Z.add 0 l.

#[export] Instance zsum_proper : Proper ((≡ₚ) ==> (=)) zsum.
Proof. intros l1 l2 Hp. unfold zsum. induction Hp; simpl; lia. Qed.

Lemma zsum_app l1 l2 : zsum (l1 ++ l2) = zsum l1 + zsum l2.
Proof. unfold zsum. induction l1; simpl; lia. Qed.

Lemma zsum_nonneg l : Forall (λ z, 0 <= z) l → 0 <= zsum l.
Proof. unfold zsum. induction 1; simpl; lia. Qed.

(** The rows of a table: the values of the map. *)
Definition rows {K A} `{Countable K} (m : gmap K A) : list A := (map_to_list m).*2.

Definition sum_map {K A} `{Countable K} (f : A → Z) (m : gmap K A) : Z :=
  zsum (f <$> rows m).

Section rows.
Context {K A : Type} `{Countable K}.
Implicit Types (m : gmap K A) (f : A → Z).

Lemma rows_empty : rows (∅ : gmap K A) = [].
Proof. unfold rows. by rewrite map_to_list_empty. Qed.

Lemma rows_insert m i x : m !! i = None → rows (<[i:=x]> m) ≡ₚ x :: rows m.
Proof. intros Hi. unfold rows. by rewrite map_to_list_insert. Qed.

Lemma rows_delete m i x : m !! i = Some x → rows m ≡ₚ x :: rows (delete i m).
Proof. intros Hi. unfold rows. by rewrite <-(map_to_list_delete m i x). Qed.

Lemma elem_of_rows m x : x ∈ rows m ↔ ∃ i, m !! i = Some x.
Proof.
  unfold rows. rewrite list_elem_of_fmap. split.
  - intros [[i y] [-> Hy]]. apply elem_of_map_to_list in Hy. eauto.
  - intros [i Hi]. exists (i, x). by rewrite elem_of_map_to_list.
Qed.

Lemma sum_map_empty f : sum_map f (∅ : gmap K A) = 0.
Proof. unfold sum_map. by rewrite rows_empty. Qed.

Lemma sum_map_insert f m i x :
  m !! i = None → sum_map f (<[i:=x]> m) = f x + sum_map f m.
Proof. intros Hi. unfold sum_map. by rewrite rows_insert. Qed.

Lemma sum_map_delete f m i x :
  m !! i = Some x → sum_map f m = f x + sum_map f (delete i m).
Proof. intros Hi. unfold sum_map. by rewrite (rows_delete m i x). Qed.

Lemma sum_map_update f m i x y :
  m !! i = Some x → sum_map f (<[i:=y]> m) = sum_map f m - f x + f y.
Proof.
  intros Hi. rewrite <-insert_delete_eq, sum_map_insert by apply lookup_delete_eq.
  rewrite (sum_map_delete f m i x) by done. lia.
Qed.

Lemma sum_map_nonneg f m : (∀ i x, m !! i = Some x → 0 <= f x) → 0 <= sum_map f m.
Proof.
  intros Hf. apply zsum_nonneg, Forall_fmap, Forall_forall.
  intros x [i Hi]%elem_of_rows. simpl. eauto.
Qed.

Lemma sum_map_ext f g m :
  (∀ i x, m !! i = Some x → f x = g x) → sum_map f m = sum_map g m.
Proof.
  intros Hfg. unfold sum_map. f_equal. apply list_fmap_ext.
  intros j x Hx. apply list_elem_of_lookup_2, elem_of_rows in Hx as [i Hi]. eauto.
Qed.

Lemma sum_map_zero f m : (∀ i x, m !! i = Some x → f x = 0) → sum_map f m = 0.
Proof.
  intros Hf. rewrite (sum_map_ext f (λ _, 0)) by eauto.
  unfold sum_map, zsum. induction (rows m); csimpl; lia.
Qed.
End rows.

(** The number of rows satisfying a test. *)
Definition count_map {K A} `{Countable K} (p : A → bool) (m : gmap K A) : Z :=
  sum_map (λ x, if p x then 1 else 0) m.

Lemma count_map_nonneg {K A} `{Countable K} (p : A → bool) (m : gmap K A) :
  0 <= count_map p m.
Proof. apply sum_map_nonneg. intros i x _. destruct (p x); lia. Qed.

Lemma count_map_pos {K A} `{Countable K} (p : A → bool) (m : gmap K A) i x :
  m !! i = Some x → p x = true → 1 <= count_map p m.
Proof.
  intros Hi Hp. pose proof (count_map_nonneg p (delete i m)) as Hn.
  unfold count_map in *. rewrite (sum_map_delete _ m i x) by done. rewrite Hp. lia.
Qed.

Lemma count_map_zero_inv {K A} `{Countable K} (p : A → bool) (m : gmap K A) i x :
  count_map p m = 0 → m !! i = Some x → p x = false.
Proof.
  intros H0 Hi. destruct (p x) eqn:Hp; [|done].
  pose proof (count_map_pos p m i x Hi Hp). lia.
Qed.

(** ** Selecting rows *)

(** [SELECT .. WHERE p], in no particular order. *)
Definition select {K A} `{Countable K} (p : A → bool) (m : gmap K A) : list A :=
  List.filter p (rows m).

(** [fetch_optional]: the first row of a selection. *)
Definition select_one {K A} `{Countable K} (p : A → bool) (m : gmap K A) : option A :=
  head (select p m).

Section select.
Context {K A : Type} `{Countable K}.
Implicit Types (m : gmap K A) (p : A → bool).

Lemma elem_of_select p m x : x ∈ select p m ↔ p x = true ∧ ∃ i, m !! i = Some x.
Proof.
  unfold select. rewrite list_elem_of_In, List.filter_In, <-list_elem_of_In, elem_of_rows.
  tauto.
Qed.

Lemma select_one_Some p m x : select_one p m = Some x → p x = true ∧ ∃ i, m !! i = Some x.
Proof.
  unfold select_one. intros Hx. apply elem_of_select.
  destruct (select p m); simplify_eq/=. left.
Qed.

Lemma select_one_None p m : select_one p m = None → ∀ i x, m !! i = Some x → p x = false.
Proof.
  unfold select_one. intros Hx i x Hi. destruct (p x) eqn:Hp; [|done].
  assert (x ∈ select p m) as Hin by (apply elem_of_select; eauto).
  destruct (select p m); [by apply not_elem_of_nil in Hin|done].
Qed.

(** With at most one matching row there is nothing to choose. *)
Lemma select_one_unique p m i x :
  (∀ j y, m !! j = Some y → p y = true → y = x) →
  m !! i = Some x → p x = true → select_one p m = Some x.
Proof.
  intros Huniq Hi Hp. destruct (select_one p m) as [y|] eqn:Hsel.
  - apply select_one_Some in Hsel as [Hy [j Hj]]. f_equal. eauto.
  - apply select_one_None with (i:=i) (x:=x) in Hsel; [congruence|done].
Qed.

Lemma select_one_absent p m :
  (∀ i x, m !! i = Some x → p x = false) → select_one p m = None.
Proof.
  intros Hp. destruct (select_one p m) as [y|] eqn:Hsel; [|done].
  apply select_one_Some in Hsel as [Hy [j Hj]]. rewrite (Hp j y Hj) in Hy. done.
Qed.
End select.

(** ** Strings *)

Fixpoint strip_prefix (p s : string) : option string :=
  match p, s with
  | EmptyString, _ => Some s
  | String a p', String b s' => if Ascii.eqb a b then strip_prefix p' s' else None
  | String _ _, EmptyString => None
  end.

Definition starts_with (p s : string) : bool :=
  match strip_prefix p s with Some _ => true | None => false end.

(** [haystack.contains(needle)] *)
Fixpoint contains (needle s : string) : bool :=
  starts_with needle s ||
  match s with EmptyString => false | String _ s' => contains needle s' end.

(** [s.split_once(c)]: around the first occurrence. *)
Fixpoint split_once (c : Ascii.ascii) (s : string) : option (string * string) :=
  match s with
  | EmptyString => None
  | String a s' =>
      if Ascii.eqb a c then Some (EmptyString, s')
      else match split_once c s' with
           | Some (u, v) => Some (String a u, v)
           | None => None
           end
  end.

Fixpoint forall_chars (p : Ascii.ascii → bool) (s : string) : bool :=
  match s with
  | EmptyString => true
  | String a s' => p a && forall_chars p s'
  end.

Lemma app_string_cons a (u v : string) : (String a u +:+ v = String a (u +:+ v))%string.
Proof. reflexivity. Qed.

Lemma app_string_nil (v : string) : (EmptyString +:+ v = v)%string.
Proof. reflexivity. Qed.

Lemma strip_prefix_Some p s t : strip_prefix p s = Some t ↔ s = (p +:+ t)%string.
Proof.
  revert s. induction p as [|a p IH]; intros s; simpl.
  - rewrite app_string_nil. split; congruence.
  - rewrite app_string_cons. destruct s as [|b s]; [done|].
    destruct (Ascii.eqb a b) eqn:Hab.
    + apply Ascii.eqb_eq in Hab as ->. rewrite IH. split; congruence.
    + apply Ascii.eqb_neq in Hab. split; congruence.
Qed.

Lemma split_once_Some c s u v :
  split_once c s = Some (u, v) → s = (u +:+ String c v)%string ∧
  forall_chars (λ a, negb (Ascii.eqb a c)) u = true.
Proof.
  revert u v. induction s as [|a s IH]; intros u v; simpl; [done|].
  destruct (Ascii.eqb a c) eqn:Hac.
  - apply Ascii.eqb_eq in Hac as ->. by intros [= <- <-].
  - destruct (split_once c s) as [[u' v']|] eqn:Hs; [|done].
    intros [= <- <-]. destruct (IH u' v' eq_refl) as [-> Hu].
    rewrite app_string_cons. simpl. by rewrite Hac, Hu.
Qed.

Lemma split_once_app c u v :
  forall_chars (λ a, negb (Ascii.eqb a c)) u = true →
  split_once c (u +:+ String c v)%string = Some (u, v).
Proof.
  induction u as [|a u IH].
  - intros _. rewrite app_string_nil. simpl. by rewrite Ascii.eqb_refl.
  - rewrite app_string_cons. intros [Ha Hu]%andb_prop. apply negb_true_iff in Ha.
    simpl. by rewrite Ha, IH.
Qed.

(** ** Machine integer lemmas *)

Lemma wrap_u64_id z : in_u64 z → wrap_u64 z = z.
Proof. intros H. apply Z.mod_small, H. Qed.

Lemma wrap_i64_id z : in_i64 z → wrap_i64 z = z.
Proof. unfold in_i64, wrap_i64. intros H. rewrite Z.mod_small; lia. Qed.

Lemma wrap_i64_in z : in_i64 (wrap_i64 z).
Proof.
  unfold in_i64, wrap_i64.
  pose proof (Z.mod_pos_bound (z + 2 ^ 63) (2 ^ 64) ltac:(lia)). lia.
Qed.

Lemma wrap_u64_in z : in_u64 (wrap_u64 z).
Proof. unfold in_u64, wrap_u64. apply Z.mod_pos_bound. lia. Qed.

#[global] Arguments strip_prefix : simpl never.
