(* ===== verification/Models.v ===== *)
(** * Domain types and errors

    [crates/marmotte-core/src/models.rs] and [error.rs]: the entity records
    stored in the database, the two enums with their textual forms, and the
    canonical error type.  The error payloads of the libraries underneath
    ([sqlx::Error], [std::io::Error]) are kept only as far as the program
    inspects them. *)
From stdpp Require Import base numbers strings pretty.
From S2P Require Import Prelude.

(** ** Errors *)

(** [sqlx::Error]: the database variant carries the extended SQLite result code
    and the message, which [map_unique] looks at. *)
Inductive SqlxError :=
| SqlxDatabase (code : option string) (message : string)
| SqlxOther (message : string).

Inductive IoErrorKind := IoNotFound | IoAlreadyExists | IoOtherKind.

(** [std::io::Error] *)
Record IoError := mkIoError { io_kind : IoErrorKind; io_message : string }.

Inductive CoreError :=
| NotFound (what : string)
| Forbidden (reason : string)
| Unauthorized
| Conflict (what : string)
| InvalidInput (msg : string)
| Quota (msg : string)
| Database (e : SqlxError)
| Migration (msg : string)
| Io (e : IoError)
| Crypto (msg : string)
| ConfigError (msg : string)
| Internal (msg : string).

#[export] Instance SqlxError_eq_dec : EqDecision SqlxError.
Proof. solve_decision. Defined.
#[export] Instance IoErrorKind_eq_dec : EqDecision IoErrorKind.
Proof. solve_decision. Defined.
#[export] Instance IoError_eq_dec : EqDecision IoError.
Proof. solve_decision. Defined.
#[export] Instance CoreError_eq_dec : EqDecision CoreError.
Proof. solve_decision. Defined.

(** ** Enums *)

Inductive Role := Read | Write.

Definition Role_as_str (r : Role) : string :=
  match r with
  | Read => "read"
  | Write => "write"
  end.

Definition Role_from_str (s : string) : res CoreError Role :=
  if String.eqb s "read" then Ok Read
  else if String.eqb s "write" then Ok Write
  else Err (InvalidInput ("unknown role: " +:+ s)).

Definition Role_allows_read (r : Role) : bool :=
  match r with Read | Write => true end.

Definition Role_allows_write (r : Role) : bool :=
  match r with Write => true | Read => false end.

Inductive Kind := Sstate | Downloads.

Definition Kind_as_str (k : Kind) : string :=
  match k with
  | Sstate => "sstate"
  | Downloads => "downloads"
  end.

Definition Kind_from_str (s : string) : res CoreError Kind :=
  if String.eqb s "sstate" then Ok Sstate
  else if String.eqb s "downloads" then Ok Downloads
  else Err (InvalidInput ("unknown kind: " +:+ s)).

#[export] Instance Role_eq_dec : EqDecision Role.
Proof. solve_decision. Defined.
#[export] Instance Kind_eq_dec : EqDecision Kind.
Proof. solve_decision. Defined.

Definition Kind_eqb (a b : Kind) : bool := bool_decide (a = b).

(** ** Entities *)

Record Project := mkProject {
  p_id : Z;
  p_name : string;
  p_quota_bytes : option Z;
  p_ttl_seconds : option Z;
  p_created_at : Z
}.

Record ApiKey := mkApiKey {
  k_id : Z;
  k_project_id : Z;
  k_key_lookup : string;
  k_key_hash : string;
  k_role : Role;
  k_label : option string;
  k_created_at : Z;
  k_revoked_at : option Z
}.

Record AdminToken := mkAdminToken {
  t_id : Z;
  t_token_lookup : string;
  t_token_hash : string;
  t_label : option string;
  t_created_at : Z;
  t_revoked_at : option Z
}.

Record Blob := mkBlob {
  b_hash : string;
  b_size_bytes : Z;
  b_refcount : Z;
  b_created_at : Z
}.

Record Entry := mkEntry {
  e_id : Z;
  e_project_id : Z;
  e_kind : Kind;
  e_path : string;
  e_blob_hash : string;
  e_size_bytes : Z;
  e_created_at : Z;
  e_last_accessed : Z;
  e_pinned : bool
}.

(** ** Lemmas *)

Lemma Role_from_as_str r : Role_from_str (Role_as_str r) = Ok r.
Proof. by destruct r. Qed.

Lemma Kind_from_as_str k : Kind_from_str (Kind_as_str k) = Ok k.
Proof. by destruct k. Qed.

Lemma Kind_eqb_eq a b : Kind_eqb a b = true ↔ a = b.
Proof. apply bool_decide_eq_true. Qed.

Lemma Kind_eqb_refl a : Kind_eqb a a = true.
Proof. by apply Kind_eqb_eq. Qed.

#[export] Instance Kind_as_str_inj : Inj (=) (=) Kind_as_str.
Proof. intros [] [] H; done. Qed.
#[export] Instance Role_as_str_inj : Inj (=) (=) Role_as_str.
Proof. intros [] [] H; done. Qed.

(** ** Theorems *)

(** The textual forms of roles and kinds are exact: parsing accepts what is
    printed and nothing else, case included, and an error names the text. *)
Theorem role_and_kind_text s r k :
  (Role_from_str s = Ok r ↔ s = Role_as_str r) ∧
  (Kind_from_str s = Ok k ↔ s = Kind_as_str k) ∧
  (∀ e, Role_from_str s = Err e → e = InvalidInput ("unknown role: " +:+ s)) ∧
  (∀ e, Kind_from_str s = Err e → e = InvalidInput ("unknown kind: " +:+ s)).
Proof.
  unfold Role_from_str, Kind_from_str. split_and!.
  - split; [|intros ->; apply Role_from_as_str].
    repeat case_match; intros [= <-]; by apply String.eqb_eq.
  - split; [|intros ->; apply Kind_from_as_str].
    repeat case_match; intros [= <-]; by apply String.eqb_eq.
  - intros e. by repeat case_match; intros [= <-].
  - intros e. by repeat case_match; intros [= <-].
Qed.
