(* ===== verification/Db.v ===== *)
(** * The database: schema, statements, transactions

    [crates/marmotte-core/migrations/0001_init.sql] and
    [crates/marmotte-core/src/db/mod.rs].  The tables are finite maps from the
    primary key to the row; the constraints of the schema (primary keys, UNIQUE,
    REFERENCES) are the predicate [schema_ok].  SQLite itself is not modelled:
    what it decides on its own (when a statement fails, in which order an
    unordered SELECT yields its rows, which fresh AUTOINCREMENT id it picks) is
    answered by the environment [Env], and every theorem holds for all answers. *)
From stdpp Require Import base numbers list strings gmap pretty.
From Stdlib Require Import ZArith Lia.
From S2P Require Import Prelude Models.

(** ** Tables *)

(** A row of [stats_counters]. *)
Record StatRow := mkStatRow {
  sr_project_id : option Z;
  sr_kind : string;
  sr_bucket_day : Z;
  sr_count : Z;
  sr_bytes : Z
}.

(** A row of [audit_log]; the detail column holds rendered JSON. *)
Record AuditRow := mkAuditRow {
  ar_id : Z;
  ar_timestamp : Z;
  ar_actor_token : option string;
  ar_action : string;
  ar_target : option string;
  ar_detail_json : option string
}.

(** The [seq_*] fields are the AUTOINCREMENT counters ([sqlite_sequence]). *)
Record Tables := mkTables {
  projects : gmap Z Project;
  api_keys : gmap Z ApiKey;
  admin_tokens : gmap Z AdminToken;
  blobs : gmap string Blob;
  entries : gmap Z Entry;
  stats_counters : list StatRow;
  audit_log : list AuditRow;
  seq_projects : Z;
  seq_api_keys : Z;
  seq_admin_tokens : Z;
  seq_entries : Z;
  seq_audit_log : Z
}.

(** The database right after the migration. *)
Definition empty_tables : Tables :=
  mkTables ∅ ∅ ∅ ∅ ∅ [] [] 0 0 0 0 0.

Definition set_projects (m : gmap Z Project) (sq : Z) (t : Tables) : Tables :=
  mkTables m (api_keys t) (admin_tokens t) (blobs t) (entries t) (stats_counters t)
    (audit_log t) sq (seq_api_keys t) (seq_admin_tokens t) (seq_entries t) (seq_audit_log t).
Definition set_api_keys (m : gmap Z ApiKey) (sq : Z) (t : Tables) : Tables :=
  mkTables (projects t) m (admin_tokens t) (blobs t) (entries t) (stats_counters t)
    (audit_log t) (seq_projects t) sq (seq_admin_tokens t) (seq_entries t) (seq_audit_log t).
Definition set_admin_tokens (m : gmap Z AdminToken) (sq : Z) (t : Tables) : Tables :=
  mkTables (projects t) (api_keys t) m (blobs t) (entries t) (stats_counters t)
    (audit_log t) (seq_projects t) (seq_api_keys t) sq (seq_entries t) (seq_audit_log t).
Definition set_blobs (m : gmap string Blob) (t : Tables) : Tables :=
  mkTables (projects t) (api_keys t) (admin_tokens t) m (entries t) (stats_counters t)
    (audit_log t) (seq_projects t) (seq_api_keys t) (seq_admin_tokens t) (seq_entries t)
    (seq_audit_log t).
Definition set_entries (m : gmap Z Entry) (sq : Z) (t : Tables) : Tables :=
  mkTables (projects t) (api_keys t) (admin_tokens t) (blobs t) m (stats_counters t)
    (audit_log t) (seq_projects t) (seq_api_keys t) (seq_admin_tokens t) sq (seq_audit_log t).
Definition set_stats_counters (l : list StatRow) (t : Tables) : Tables :=
  mkTables (projects t) (api_keys t) (admin_tokens t) (blobs t) (entries t) l
    (audit_log t) (seq_projects t) (seq_api_keys t) (seq_admin_tokens t) (seq_entries t)
    (seq_audit_log t).
Definition set_audit_log (l : list AuditRow) (sq : Z) (t : Tables) : Tables :=
  mkTables (projects t) (api_keys t) (admin_tokens t) (blobs t) (entries t) (stats_counters t)
    l (seq_projects t) (seq_api_keys t) (seq_admin_tokens t) (seq_entries t) sq.

(** ** The environment *)

(** What the outside decides at the [n]-th interaction.  [env_clock] is the
    system time in whole seconds relative to the Unix epoch; [env_fault] makes
    the statement executed there fail; [env_scan] is the order in which rows come
    out of a SELECT without ORDER BY; [env_gap] is how many AUTOINCREMENT ids are
    skipped (ids are promised to grow, not to be consecutive). *)
Class Env := mkEnv {
  env_clock : nat → Z;
  env_fault : nat → option SqlxError;
  env_scan : nat → ∀ A : Type, list A → list A;
  env_scan_perm : ∀ n A (l : list A), env_scan n A l ≡ₚ l;
  env_gap : nat → N
}.

(** An environment in which no statement fails. *)
Class Quiet `{!Env} : Prop := quiet : ∀ n, env_fault n = None.

(** SQLite's errors for the constraints of the schema. *)
Definition err_unique (column : string) : SqlxError :=
  SqlxDatabase (Some "2067") ("UNIQUE constraint failed: " +:+ column).
Definition err_foreign_key : SqlxError :=
  SqlxDatabase (Some "787") "FOREIGN KEY constraint failed".
Definition err_full : SqlxError :=
  SqlxDatabase (Some "13") "database or disk is full".

Section db.
Context {env : Env}.

Definition is_fault (x : SqlxError) : Prop := ∃ n, env_fault n = Some x.
(** A [CoreError] that only a failing statement can cause. *)
Definition db_fault (e : CoreError) : Prop := ∃ x, is_fault x ∧ e = Database x.

(** [now_unix]: [duration_since(UNIX_EPOCH).map_or(0, |d| d.as_secs() as i64)]. *)
Definition now_value (n : nat) : Z :=
  if env_clock n <? 0 then 0 else wrap_i64 (env_clock n).
Definition now_unix {E S} : M E S Z := λ s n, (Ok (now_value n), s, Datatypes.S n).
Definition clock_reading (now : Z) : Prop := ∃ n, now = now_value n.

(** One statement that writes: it fails as a whole or takes effect as a whole. *)
Definition exec {A} (st : nat → Tables → SqlxError + A * Tables) : M SqlxError Tables A :=
  λ t n, match env_fault n with
         | Some x => (Err x, t, Datatypes.S n)
         | None => match st n t with
                   | inl x => (Err x, t, Datatypes.S n)
                   | inr (a, t') => (Ok a, t', Datatypes.S n)
                   end
         end.

(** A SELECT whose result does not depend on the row order. *)
Definition query {A} (f : Tables → A) : M SqlxError Tables A :=
  exec (λ _ t, inr (f t, t)).

(** A SELECT without ORDER BY; [f] is what happens to the rows after the scan. *)
Definition query_scan {A B : Type} (rows_of : Tables → list A) (f : list A → B)
    : M SqlxError Tables B :=
  exec (λ n t, inr (f (env_scan n A (rows_of t)), t)).

(** [LIMIT ?]: a negative limit is no limit. *)
Definition sql_limit {A} (limit : Z) (l : list A) : list A :=
  if limit <? 0 then l else take (Z.to_nat limit) l.

(** The id AUTOINCREMENT gives to a new row: above every id ever used. *)
Definition alloc_id (sq : Z) (n : nat) : SqlxError + Z :=
  let id := sq + 1 + Z.of_N (env_gap n) in
  if id <=? i64_max then inr id else inl err_full.

(** [?] on a [sqlx::Result] in a function returning [CoreResult]. *)
Definition sql {A} (m : M SqlxError Tables A) : M CoreError Tables A := map_err Database m.

(** [let mut tx = pool.begin().await?; ..; tx.commit().await?;]: a transaction
    that is dropped before its commit succeeds is rolled back. *)
Definition transaction {A} (body : M CoreError Tables A) : M CoreError Tables A :=
  λ t n, match env_fault n with
         | Some x => (Err (Database x), t, Datatypes.S n)
         | None =>
             match body t (Datatypes.S n) with
             | (Ok a, t', n') =>
                 match env_fault n' with
                 | Some x => (Err (Database x), t, Datatypes.S n')
                 | None => (Ok a, t', Datatypes.S n')
                 end
             | (Err e, _, n') => (Err e, t, n')
             | (Stop w, _, n') => (Stop w, t, n')
             end
         end.
End db.

(** ** Constraints *)

Definition ids_ok {A} (id_of : A → Z) (m : gmap Z A) (sq : Z) : Prop :=
  0 <= sq <= i64_max ∧ ∀ i x, m !! i = Some x → id_of x = i ∧ 1 <= i <= sq.

Definition unique_on {A B} (f : A → B) (m : gmap Z A) : Prop :=
  ∀ i j x y, m !! i = Some x → m !! j = Some y → f x = f y → i = j.

(** The key of UNIQUE(project_id, kind, path). *)
Definition entry_key (e : Entry) : Z * Kind * string :=
  (e_project_id e, e_kind e, e_path e).

Record schema_ok (t : Tables) : Prop := mkSchemaOk {
  so_projects : ids_ok p_id (projects t) (seq_projects t);
  so_project_name : unique_on p_name (projects t);
  so_api_keys : ids_ok k_id (api_keys t) (seq_api_keys t);
  so_key_lookup : unique_on k_key_lookup (api_keys t);
  so_key_project : ∀ i k, api_keys t !! i = Some k → is_Some (projects t !! k_project_id k);
  so_admin_tokens : ids_ok t_id (admin_tokens t) (seq_admin_tokens t);
  so_token_lookup : unique_on t_token_lookup (admin_tokens t);
  so_blobs : ∀ h b, blobs t !! h = Some b → b_hash b = h;
  so_entries : ids_ok e_id (entries t) (seq_entries t);
  so_entry_key : unique_on entry_key (entries t);
  so_entry_project : ∀ i e, entries t !! i = Some e → is_Some (projects t !! e_project_id e);
  so_entry_blob : ∀ i e, entries t !! i = Some e → is_Some (blobs t !! e_blob_hash e);
  so_stats_project : ∀ r p, r ∈ stats_counters t → sr_project_id r = Some p →
    is_Some (projects t !! p)
}.

(** ** Reference counts *)

Definition refers_to (h : string) (e : Entry) : bool := String.eqb (e_blob_hash e) h.

(** How many entries name the blob [h], and what its row claims. *)
Definition ref_entries (t : Tables) (h : string) : Z := count_map (refers_to h) (entries t).
Definition refcount_of (t : Tables) (h : string) : Z :=
  match blobs t !! h with Some b => b_refcount b | None => 0 end.

(** The surplus of the stored refcount over the true one. *)
Definition slack (t : Tables) (h : string) : Z := refcount_of t h - ref_entries t h.

Definition refs_exact (t : Tables) : Prop := ∀ h, slack t h = 0.
Definition refs_covered (t : Tables) : Prop := ∀ h, 0 <= slack t h.

(** ** Rules for statements *)

Section rules.
Context {env : Env}.

Lemma wp_now {E S} (Q : res E Z → S → Prop) s :
  (∀ now, clock_reading now → Q (Ok now) s) → wp now_unix Q s.
Proof. intros H n. apply H. by exists n. Qed.

Lemma wp_exec {A} (st : nat → Tables → SqlxError + A * Tables) (Q : res SqlxError A → Tables → Prop) t :
  (∀ x, is_fault x → Q (Err x) t) →
  (∀ n, match st n t with inl x => Q (Err x) t | inr (a, t') => Q (Ok a) t' end) →
  wp (exec st) Q t.
Proof.
  intros Hf Hs n. unfold exec. destruct (env_fault n) as [x|] eqn:Hx; simpl.
  - apply Hf. by exists n.
  - specialize (Hs n). by destruct (st n t) as [x|[a t']].
Qed.

Lemma wp_query {A} (f : Tables → A) (Q : res SqlxError A → Tables → Prop) t :
  (∀ x, is_fault x → Q (Err x) t) → Q (Ok (f t)) t → wp (query f) Q t.
Proof. intros Hf Hs. by apply wp_exec. Qed.

Lemma wp_query_scan {A B} (rows_of : Tables → list A) (f : list A → B)
    (Q : res SqlxError B → Tables → Prop) t :
  (∀ x, is_fault x → Q (Err x) t) →
  (∀ l, l ≡ₚ rows_of t → Q (Ok (f l)) t) →
  wp (query_scan rows_of f) Q t.
Proof. intros Hf Hs. apply wp_exec; [done|]. intros n. apply Hs, env_scan_perm. Qed.

Lemma wp_sql {A} (m : M SqlxError Tables A) (Q : res CoreError A → Tables → Prop) t :
  wp m (λ r t', Q (res_map_err Database r) t') t → wp (sql m) Q t.
Proof. apply wp_map_err. Qed.

Lemma wp_transaction {A} (m : M CoreError Tables A) (Q : res CoreError A → Tables → Prop) t :
  (∀ x, is_fault x → Q (Err (Database x)) t) →
  wp m (λ r t', match r with
                | Ok a => Q (Ok a) t'
                | Err e => Q (Err e) t
                | Stop w => Q (Stop w) t
                end) t →
  wp (transaction m) Q t.
Proof.
  intros Hf Hm n. unfold transaction.
  destruct (env_fault n) as [x|] eqn:Hx; [apply Hf; by exists n|].
  specialize (Hm (Datatypes.S n)).
  destruct (m t (Datatypes.S n)) as [[[a|e|w] t'] n'] eqn:Hr; simpl in *; try done.
  destruct (env_fault n') as [x|] eqn:Hx'; [apply Hf; by exists n'|done].
Qed.

Lemma is_fault_quiet x : Quiet → ¬ is_fault x.
Proof. intros Hq [n Hn]. rewrite (Hq n) in Hn. done. Qed.

Lemma db_fault_quiet e : Quiet → ¬ db_fault e.
Proof. intros Hq [x [Hx _]]. by apply is_fault_quiet in Hx. Qed.

Lemma db_fault_intro x : is_fault x → db_fault (Database x).
Proof. intros Hx. by exists x. Qed.

(** The usual outcome of a repository call from [t]: success as described by
    [ok], or an error that leaves every table as it was. *)
Definition outcome {A} (t : Tables) (ok : A → Tables → Prop) (err : CoreError → Prop)
    : res CoreError A → Tables → Prop :=
  λ r t', match r with
          | Ok a => ok a t'
          | Err e => (db_fault e ∨ err e) ∧ t' = t
          | Stop _ => False
          end.

Lemma outcome_fault {A} t (ok : A → Tables → Prop) err x :
  is_fault x → outcome t ok err (Err (Database x)) t.
Proof. intros Hx. split; [left; by apply db_fault_intro|done]. Qed.

Lemma outcome_mono {A} t (ok ok' : A → Tables → Prop) (err err' : CoreError → Prop) r t' :
  outcome t ok err r t' →
  (∀ a u, ok a u → ok' a u) → (∀ e, err e → err' e) →
  outcome t ok' err' r t'.
Proof.
  destruct r as [a|e|w]; simpl; [|intros [[He|He] ->]|]; auto.
Qed.

(** Without failing statements, only the logical errors are left. *)
Lemma outcome_quiet {A} t (ok : A → Tables → Prop) err r t' :
  Quiet → outcome t ok err r t' →
  match r with
  | Ok a => ok a t'
  | Err e => err e ∧ t' = t
  | Stop _ => False
  end.
Proof.
  intros Hq. destruct r as [a|e|w]; simpl; [done| |done].
  intros [[He|He] ->]; [by apply db_fault_quiet in He|done].
Qed.

Lemma alloc_id_spec sq n id : alloc_id sq n = inr id → sq < id <= i64_max.
Proof. unfold alloc_id. case_match; [|done]. intros [= <-]. lia. Qed.
End rules.

#[export] Hint Resolve outcome_fault db_fault_intro : core.

(** The rules of [wp_go] for statements; the side goals of a failing statement
    go away through [outcome_fault]. *)
Ltac db_faulty :=
  let x := fresh "x" in let Hx := fresh "Hfault" in
  intros x Hx; cbn [res_map_err];
  solve [ apply outcome_fault; exact Hx | simpl; eauto 6 ].
Ltac db_step :=
  lazymatch goal with
  | |- wp (sql _) _ _ => apply wp_sql; simpl
  | |- wp now_unix _ _ => apply wp_now; intros ?now ?Hnow
  | |- wp (query _) _ _ => apply wp_query; [db_faulty|simpl]
  | |- wp (query_scan _ _) _ _ => apply wp_query_scan; [db_faulty|intros ?l ?Hl; simpl]
  | |- wp (exec _) _ _ => apply wp_exec; [db_faulty|intros ?n; simpl]
  | |- wp (transaction _) _ _ => apply wp_transaction; [db_faulty|]
  | |- _ => wp_step
  end.
Ltac db_go := repeat db_step.

(** ** Tables lemmas *)

Lemma ids_ok_insert {A} (id_of : A → Z) (m : gmap Z A) sq i x :
  ids_ok id_of m sq → sq < i <= i64_max → id_of x = i →
  ids_ok id_of (<[i:=x]> m) i ∧ m !! i = None.
Proof.
  intros [Hsq Hm] Hi Hx. split.
  - split; [lia|]. intros j y [[<- <-]|[Hne Hj]]%lookup_insert_Some.
    + lia.
    + destruct (Hm j y Hj). lia.
  - destruct (m !! i) as [y|] eqn:Hy; [|done]. destruct (Hm i y Hy). lia.
Qed.

Lemma ids_ok_update {A} (id_of : A → Z) (m : gmap Z A) sq i x y :
  ids_ok id_of m sq → m !! i = Some x → id_of y = id_of x →
  ids_ok id_of (<[i:=y]> m) sq.
Proof.
  intros [Hsq Hm] Hi Hx. split; [done|].
  intros j z [[<- <-]|[Hne Hj]]%lookup_insert_Some; [|by eauto].
  destruct (Hm i x Hi). split; [congruence|done].
Qed.

Lemma ids_ok_subseteq {A} (id_of : A → Z) (m m' : gmap Z A) sq :
  ids_ok id_of m sq → m' ⊆ m → ids_ok id_of m' sq.
Proof.
  intros [Hsq Hm] Hsub. split; [done|]. intros i x Hi.
  eapply Hm, lookup_weaken; eauto.
Qed.

Lemma unique_on_subseteq {A B} (f : A → B) (m m' : gmap Z A) :
  unique_on f m → m' ⊆ m → unique_on f m'.
Proof. intros Hu Hsub i j x y Hi Hj. eapply Hu; eapply lookup_weaken; eauto. Qed.

Lemma unique_on_insert {A B} (f : A → B) (m : gmap Z A) i x :
  unique_on f m → (∀ j y, m !! j = Some y → j ≠ i → f y ≠ f x) →
  unique_on f (<[i:=x]> m).
Proof.
  intros Hu Hx j k y z [[<- <-]|[Hj Hy]]%lookup_insert_Some
    [[<- <-]|[Hk Hz]]%lookup_insert_Some Hf; try done.
  - by destruct (Hx k z Hz).
  - by destruct (Hx j y Hy).
  - eauto.
Qed.

Lemma unique_on_update {A B} (f : A → B) (m : gmap Z A) i x y :
  unique_on f m → m !! i = Some x → f y = f x → unique_on f (<[i:=y]> m).
Proof.
  intros Hu Hi Hf. apply unique_on_insert; [done|].
  intros j z Hj Hne Heq. apply Hne. eapply Hu; eauto. congruence.
Qed.
