(* ===== verification/Blobs.v ===== *)
(** * Blob repository

    [crates/marmotte-core/src/db/blobs.rs]: the refcount primitives that the
    entry repository composes inside its transactions, and the queries the
    garbage collector uses. *)
From stdpp Require Import base numbers list strings gmap.
From Stdlib Require Import ZArith Lia.
From S2P Require Import Prelude Models Db.

(** SQLite's SUM over integers fails when the sum leaves the 64-bit range. *)
Definition err_overflow : SqlxError := SqlxDatabase (Some "1") "integer overflow".
Definition sql_sum (l : list Z) : SqlxError + Z :=
  if (- 2 ^ 63 <=? zsum l) && (zsum l <? 2 ^ 63) then inr (zsum l) else inl err_overflow.

Section blobs_repo.
Context {env : Env}.

Definition Blobs_get (hash : string) : M CoreError Tables (option Blob) :=
  sql (query (λ t, blobs t !! hash)).

(** [INSERT .. ON CONFLICT(hash) DO UPDATE SET refcount = refcount + 1
    RETURNING (refcount > 1)] *)
Definition Blobs_upsert_incr (hash : string) (size_bytes : Z) : M CoreError Tables bool :=
  let* now := now_unix in
  sql (exec (λ _ t,
    let b := match blobs t !! hash with
             | Some b => mkBlob (b_hash b) (b_size_bytes b) (b_refcount b + 1) (b_created_at b)
             | None => mkBlob hash size_bytes 1 now
             end in
    inr (1 <? b_refcount b, set_blobs (<[hash:=b]> (blobs t)) t))).

(** [UPDATE blobs SET refcount = refcount - 1 WHERE hash = ? RETURNING refcount] *)
Definition Blobs_decr (hash : string) : M CoreError Tables Z :=
  let* row := sql (exec (λ _ t,
    match blobs t !! hash with
    | Some b =>
        let b' := mkBlob (b_hash b) (b_size_bytes b) (b_refcount b - 1) (b_created_at b) in
        inr (Some (b_refcount b'), set_blobs (<[hash:=b']> (blobs t)) t)
    | None => inr (None, t)
    end)) in
  ok_or (NotFound ("blob " +:+ hash)) row.

(** [SELECT hash FROM blobs WHERE refcount = 0 LIMIT ?] *)
Definition zero_ref (b : Blob) : bool := b_refcount b =? 0.
Definition Blobs_zero_refcount (limit : Z) : M CoreError Tables (list string) :=
  sql (query_scan (λ t, select zero_ref (blobs t)) (λ l, sql_limit limit (b_hash <$> l))).

(** [DELETE FROM blobs WHERE hash = ?]: refused while an entry references the row. *)
Definition Blobs_delete (hash : string) : M CoreError Tables unit :=
  sql (exec (λ _ t,
    if bool_decide (is_Some (blobs t !! hash)) && (0 <? ref_entries t hash)
    then inl err_foreign_key
    else inr (tt, set_blobs (delete hash (blobs t)) t))).

(** [SELECT SUM(size_bytes) FROM blobs], [NULL] on the empty table. *)
Definition Blobs_total_size : M CoreError Tables Z :=
  sql (exec (λ _ t,
    match sql_sum (b_size_bytes <$> rows (blobs t)) with
    | inl x => inl x
    | inr total => inr (total, t)
    end)).
End blobs_repo.

(** ** What the primitives do to the tables *)

Definition incr_row (hash : string) (size_bytes now : Z) (o : option Blob) : Blob :=
  match o with
  | Some b => mkBlob (b_hash b) (b_size_bytes b) (b_refcount b + 1) (b_created_at b)
  | None => mkBlob hash size_bytes 1 now
  end.
Definition incr_blob (hash : string) (size_bytes now : Z) (t : Tables) : Tables :=
  set_blobs (<[hash := incr_row hash size_bytes now (blobs t !! hash)]> (blobs t)) t.

Definition decr_row (b : Blob) : Blob :=
  mkBlob (b_hash b) (b_size_bytes b) (b_refcount b - 1) (b_created_at b).
Definition decr_blob (hash : string) (t : Tables) : Tables :=
  set_blobs (alter decr_row hash (blobs t)) t.

Definition drop_blob (hash : string) (t : Tables) : Tables :=
  set_blobs (delete hash (blobs t)) t.

Definition total_size (t : Tables) : Z := sum_map b_size_bytes (blobs t).

Section blobs_spec.
Context {env : Env}.

Lemma Blobs_upsert_incr_spec hash size_bytes t :
  wp (Blobs_upsert_incr hash size_bytes)
    (outcome t (λ existed t', ∃ now, t' = incr_blob hash size_bytes now t ∧
       existed = (1 <? b_refcount (incr_row hash size_bytes now (blobs t !! hash))))
       (λ _, False)) t.
Proof. unfold Blobs_upsert_incr. db_go. by exists now. Qed.

Lemma Blobs_decr_spec hash t :
  wp (Blobs_decr hash)
    (outcome t
       (λ rc t', ∃ b, blobs t !! hash = Some b ∧ rc = b_refcount b - 1 ∧ t' = decr_blob hash t)
       (λ e, e = NotFound ("blob " +:+ hash) ∧ blobs t !! hash = None)) t.
Proof.
  unfold Blobs_decr. db_go.
  destruct (blobs t !! hash) as [b|] eqn:Hb; simpl; db_go; simpl; [|by eauto].
  exists b. split_and!; [done..|]. unfold decr_blob, decr_row. f_equal.
  apply map_eq. intros h'. rewrite lookup_alter, lookup_insert.
  case_decide; subst; [by rewrite Hb|done].
Qed.

Lemma Blobs_zero_refcount_spec limit t :
  wp (Blobs_zero_refcount limit)
    (outcome t (λ hs t', t' = t ∧ ∃ l, l ≡ₚ select zero_ref (blobs t) ∧
       hs = sql_limit limit (b_hash <$> l)) (λ _, False)) t.
Proof. unfold Blobs_zero_refcount. db_go. eauto. Qed.

Lemma Blobs_delete_spec hash t :
  wp (Blobs_delete hash)
    (outcome t (λ _ t', t' = drop_blob hash t ∧ (blobs t !! hash = None ∨ ref_entries t hash = 0))
       (λ e, e = Database err_foreign_key ∧ 0 < ref_entries t hash)) t.
Proof.
  unfold Blobs_delete. db_go. pose proof (count_map_nonneg (refers_to hash) (entries t)) as Hn.
  fold (ref_entries t hash) in Hn.
  destruct (bool_decide _ && _) eqn:Hc; simpl.
  - apply andb_prop in Hc as [_ Hc]. apply Z.ltb_lt in Hc. eauto.
  - split; [done|]. apply andb_false_iff in Hc as [Hc|Hc].
    + apply bool_decide_eq_false, eq_None_not_Some in Hc. by left.
    + right. apply Z.ltb_ge in Hc. lia.
Qed.

Lemma Blobs_total_size_spec t :
  wp Blobs_total_size
    (outcome t (λ n t', t' = t ∧ n = total_size t)
       (λ e, e = Database err_overflow ∧ ¬ in_i64 (total_size t))) t.
Proof.
  unfold Blobs_total_size. db_go. unfold sql_sum, total_size, sum_map, in_i64.
  destruct (_ && _) eqn:Hc; simpl; [done|].
  split; [right; split; [done|]|done]. intros Hin.
  apply andb_false_iff in Hc as [Hc|Hc]; [apply Z.leb_gt in Hc|apply Z.ltb_ge in Hc]; lia.
Qed.
End blobs_spec.

(** ** Effects on refcounts *)

Lemma refcount_incr hash size_bytes now t h :
  refcount_of (incr_blob hash size_bytes now t) h =
  refcount_of t h + (if String.eqb hash h then 1 else 0).
Proof.
  unfold refcount_of, incr_blob. simpl. rewrite lookup_insert.
  destruct (String.eqb_spec hash h) as [->|Hne]; case_decide; simplify_eq; [|lia].
  destruct (blobs t !! h) as [b|]; simpl; lia.
Qed.

Lemma refcount_decr hash t h :
  is_Some (blobs t !! hash) →
  refcount_of (decr_blob hash t) h =
  refcount_of t h - (if String.eqb hash h then 1 else 0).
Proof.
  intros [b Hb]. unfold refcount_of, decr_blob. simpl. rewrite lookup_alter.
  destruct (String.eqb_spec hash h) as [->|Hne]; case_decide; simplify_eq; [|lia].
  rewrite Hb. simpl. lia.
Qed.

Lemma schema_incr_blob hash size_bytes now t :
  schema_ok t → schema_ok (incr_blob hash size_bytes now t).
Proof.
  intros Hok. destruct Hok. split; simpl; try assumption.
  - intros h b [[<- <-]|[_ Hb]]%lookup_insert_Some; [|by eauto].
    unfold incr_row. destruct (blobs t !! hash) eqn:Hb; simpl; eauto.
  - intros i e Hi. apply lookup_insert_is_Some'. right. eauto.
Qed.

Lemma schema_decr_blob hash t : schema_ok t → schema_ok (decr_blob hash t).
Proof.
  intros Hok. destruct Hok. split; simpl; try assumption.
  - intros h b Hb. rewrite lookup_alter in Hb. case_decide; simplify_eq; [|by eauto].
    destruct (blobs t !! h) as [b'|] eqn:Hb'; simplify_eq/=. eauto.
  - intros i e Hi. rewrite lookup_alter. case_decide; subst; [|by eauto].
    apply fmap_is_Some. eauto.
Qed.

Lemma schema_drop_blob hash t :
  schema_ok t → ref_entries t hash = 0 → schema_ok (drop_blob hash t).
Proof.
  intros Hok Href. destruct Hok. split; simpl; try assumption.
  - intros h b [_ Hb]%lookup_delete_Some. eauto.
  - intros i e Hi. rewrite lookup_delete_ne; [by eauto|].
    intros ->. apply (count_map_zero_inv _ _ i e) in Href; [|done].
    unfold refers_to in Href. by rewrite String.eqb_refl in Href.
Qed.

(** A blob row without row or references has no slack. *)
Lemma ref_entries_missing t h : schema_ok t → blobs t !! h = None → ref_entries t h = 0.
Proof.
  intros Hok Hh. apply sum_map_zero. intros i e Hi.
  unfold refers_to. destruct (String.eqb_spec (e_blob_hash e) h) as [<-|]; [|done].
  destruct (so_entry_blob t Hok i e Hi) as [b Hb]. congruence.
Qed.
