(* ===== verification/Entries.v ===== *)
(** * Entry repository

    [crates/marmotte-core/src/db/entries.rs] without the listing (see
    [Listing.v]): the mapping from (project, kind, path) to a blob, with the
    refcount of the blob maintained in the same transaction. *)
From stdpp Require Import base numbers list strings gmap pretty.
From Stdlib Require Import ZArith Lia.
From S2P Require Import Prelude Models Db Blobs.

(** [WHERE project_id = ? AND kind = ? AND path = ?] *)
Definition has_key (project_id : Z) (kind : Kind) (path : string) (e : Entry) : bool :=
  (e_project_id e =? project_id) && Kind_eqb (e_kind e) kind && String.eqb (e_path e) path.

Definition entry_at (t : Tables) (project_id : Z) (kind : Kind) (path : string) : option Entry :=
  select_one (has_key project_id kind path) (entries t).

(** [WHERE project_id = ? AND id = ?] *)
Definition entry_of (t : Tables) (project_id id : Z) : option Entry :=
  match entries t !! id with
  | Some e => if e_project_id e =? project_id then Some e else None
  | None => None
  end.

Section entries_repo.
Context {env : Env}.

(** [INSERT INTO entries .. ON CONFLICT(project_id, kind, path) DO UPDATE SET
    blob_hash, size_bytes, last_accessed RETURNING id] *)
Definition upsert_entry_row (project_id : Z) (kind : Kind) (path new_blob_hash : string)
    (size_bytes now : Z) : M SqlxError Tables Z :=
  exec (λ n t,
    match entry_at t project_id kind path with
    | Some e =>
        if bool_decide (is_Some (blobs t !! new_blob_hash)) then
          let e' := mkEntry (e_id e) (e_project_id e) (e_kind e) (e_path e)
            new_blob_hash size_bytes (e_created_at e) now (e_pinned e) in
          inr (e_id e, set_entries (<[e_id e:=e']> (entries t)) (seq_entries t) t)
        else inl err_foreign_key
    | None =>
        match alloc_id (seq_entries t) n with
        | inl x => inl x
        | inr id =>
            if bool_decide (is_Some (projects t !! project_id)) &&
               bool_decide (is_Some (blobs t !! new_blob_hash)) then
              let e' := mkEntry id project_id kind path new_blob_hash size_bytes now now false in
              inr (id, set_entries (<[id:=e']> (entries t)) id t)
            else inl err_foreign_key
        end
    end).

Definition Entries_upsert (project_id : Z) (kind : Kind) (path new_blob_hash : string)
    (size_bytes : Z) : M CoreError Tables Entry :=
  transaction (
    let* prev := sql (query (λ t,
      match entry_at t project_id kind path with
      | Some e => Some (e_id e, e_blob_hash e)
      | None => None
      end)) in
    match prev with
    | Some (_, old_hash) =>
        if negb (String.eqb old_hash new_blob_hash) then
          Blobs_decr old_hash ;*
          Blobs_upsert_incr new_blob_hash size_bytes ;*
          ret tt
        else ret tt
    | None =>
        Blobs_upsert_incr new_blob_hash size_bytes ;*
        ret tt
    end ;*
    let* now := now_unix in
    let* id := sql (upsert_entry_row project_id kind path new_blob_hash size_bytes now) in
    ret (mkEntry id project_id kind path new_blob_hash size_bytes now now false)).

Definition Entries_find (project_id : Z) (kind : Kind) (path : string)
    : M CoreError Tables (option Entry) :=
  sql (query (λ t, entry_at t project_id kind path)).

(** [UPDATE entries SET last_accessed = ? WHERE id = ?]; an error is only logged. *)
Definition set_last_accessed (now : Z) (e : Entry) : Entry :=
  mkEntry (e_id e) (e_project_id e) (e_kind e) (e_path e) (e_blob_hash e)
    (e_size_bytes e) (e_created_at e) now (e_pinned e).
Definition Entries_touch (id : Z) : M CoreError Tables unit :=
  let* now := now_unix in
  let* _ := attempt (exec (λ _ t,
    inr (tt, set_entries (alter (set_last_accessed now) id (entries t)) (seq_entries t) t))) in
  ret tt.

(** [SELECT SUM(size_bytes) FROM entries WHERE project_id = ?] *)
Definition Entries_project_usage (project_id : Z) : M CoreError Tables Z :=
  sql (exec (λ _ t,
    match sql_sum (e_size_bytes <$> select (λ e, e_project_id e =? project_id) (entries t)) with
    | inl x => inl x
    | inr total => inr (total, t)
    end)).

Definition Entries_delete (project_id id : Z) : M CoreError Tables unit :=
  transaction (
    let* row := sql (query (λ t,
      match entry_of t project_id id with
      | Some e => Some (e_blob_hash e)
      | None => None
      end)) in
    let* hash := ok_or (NotFound ("entry " +:+ pretty id)) row in
    sql (exec (λ _ t, inr (tt, set_entries (delete id (entries t)) (seq_entries t) t))) ;*
    Blobs_decr hash ;*
    ret tt).

Definition set_entry_pinned (pinned : bool) (e : Entry) : Entry :=
  mkEntry (e_id e) (e_project_id e) (e_kind e) (e_path e) (e_blob_hash e)
    (e_size_bytes e) (e_created_at e) (e_last_accessed e) pinned.
Definition Entries_set_pinned (project_id id : Z) (pinned : bool) : M CoreError Tables unit :=
  let* rows_affected := sql (exec (λ _ t,
    match entry_of t project_id id with
    | Some e =>
        inr (1, set_entries (<[id:=set_entry_pinned pinned e]> (entries t)) (seq_entries t) t)
    | None => inr (0, t)
    end)) in
  if rows_affected =? 0 then throw (NotFound ("entry " +:+ pretty id)) else ret tt.
End entries_repo.

(** ** What the operations do to the tables *)

(** The row an upsert leaves behind: an existing row keeps its id, its creation
    time and its pin. *)
Definition upserted_row (t : Tables) (id project_id : Z) (kind : Kind) (path hash : string)
    (size_bytes now : Z) : Entry :=
  match entry_at t project_id kind path with
  | Some e => mkEntry (e_id e) project_id kind path hash size_bytes (e_created_at e) now (e_pinned e)
  | None => mkEntry id project_id kind path hash size_bytes now now false
  end.

Definition upserted_blobs (t : Tables) (project_id : Z) (kind : Kind) (path hash : string)
    (size_bytes now : Z) : Tables :=
  match entry_at t project_id kind path with
  | Some e => if String.eqb (e_blob_hash e) hash then t
              else incr_blob hash size_bytes now (decr_blob (e_blob_hash e) t)
  | None => incr_blob hash size_bytes now t
  end.

Definition upserted (t : Tables) (id project_id : Z) (kind : Kind) (path hash : string)
    (size_bytes now_blob now : Z) : Tables :=
  let row := upserted_row t id project_id kind path hash size_bytes now in
  set_entries (<[e_id row := row]> (entries t))
    (match entry_at t project_id kind path with Some _ => seq_entries t | None => id end)
    (upserted_blobs t project_id kind path hash size_bytes now_blob).

(** Removing one entry, with the reference it held. *)
Definition drop_entry (e : Entry) (t : Tables) : Tables :=
  decr_blob (e_blob_hash e) (set_entries (delete (e_id e) (entries t)) (seq_entries t) t).

Definition update_entry (id : Z) (e : Entry) (t : Tables) : Tables :=
  set_entries (<[id:=e]> (entries t)) (seq_entries t) t.

Definition project_usage (t : Tables) (project_id : Z) : Z :=
  sum_map (λ e, if e_project_id e =? project_id then e_size_bytes e else 0) (entries t).

(** ** Lookups *)

Lemma has_key_spec project_id kind path e :
  has_key project_id kind path e = true ↔ entry_key e = (project_id, kind, path).
Proof.
  unfold has_key, entry_key.
  rewrite !andb_true_iff, Z.eqb_eq, Kind_eqb_eq, String.eqb_eq.
  split; [intros [[-> ->] ->]; done|intros [= -> -> ->]; done].
Qed.

Lemma entry_at_Some t project_id kind path e :
  schema_ok t →
  entry_at t project_id kind path = Some e ↔
  entries t !! e_id e = Some e ∧ entry_key e = (project_id, kind, path).
Proof.
  intros Hok. split.
  - intros [Hk [i Hi]]%select_one_Some. apply has_key_spec in Hk.
    destruct (so_entries t Hok) as [_ Hid]. destruct (Hid i e Hi) as [-> _]. done.
  - intros [He Hk]. apply select_one_unique with (e_id e); [|done|by apply has_key_spec].
    intros j e' Hj Hk'%has_key_spec.
    assert (j = e_id e) as -> by (eapply (so_entry_key t Hok); eauto; congruence).
    congruence.
Qed.

Lemma entry_at_None t project_id kind path :
  entry_at t project_id kind path = None ↔
  ∀ i e, entries t !! i = Some e → entry_key e ≠ (project_id, kind, path).
Proof.
  split.
  - intros Hn i e Hi Hk. apply has_key_spec in Hk.
    by rewrite (select_one_None _ _ Hn i e Hi) in Hk.
  - intros Hn. apply select_one_absent. intros i e Hi.
    destruct (has_key project_id kind path e) eqn:Hk; [|done].
    apply has_key_spec in Hk. by destruct (Hn i e Hi).
Qed.

Lemma entry_of_Some t project_id id e :
  entry_of t project_id id = Some e ↔ entries t !! id = Some e ∧ e_project_id e = project_id.
Proof.
  unfold entry_of. destruct (entries t !! id) as [e'|]; [|naive_solver].
  destruct (Z.eqb_spec (e_project_id e') project_id); naive_solver.
Qed.

Lemma entry_of_None t project_id id :
  entry_of t project_id id = None ↔
  ∀ e, entries t !! id = Some e → e_project_id e ≠ project_id.
Proof.
  unfold entry_of. destruct (entries t !! id) as [e'|]; [|naive_solver].
  destruct (Z.eqb_spec (e_project_id e') project_id); naive_solver.
Qed.

(** ** Specifications *)

Section entries_spec.
Context {env : Env}.

(** The blob half of an upsert: the branch on the previous row of the entry. *)
Lemma upsert_blobs_wp t project_id kind path hash size_bytes (Q : res CoreError unit → Tables → Prop) :
  schema_ok t →
  (∀ x u, is_fault x → Q (Err (Database x)) u) →
  (∀ now, Q (Ok tt) (upserted_blobs t project_id kind path hash size_bytes now)) →
  wp (match match entry_at t project_id kind path with
            | Some e => Some (e_id e, e_blob_hash e)
            | None => None
            end with
      | Some (_, old_hash) =>
          if negb (String.eqb old_hash hash) then
            Blobs_decr old_hash ;* Blobs_upsert_incr hash size_bytes ;* ret tt
          else ret tt
      | None => Blobs_upsert_incr hash size_bytes ;* ret tt
      end) Q t.
Proof.
  intros Hok Hfault HQ. unfold upserted_blobs in HQ.
  destruct (entry_at t project_id kind path) as [e|] eqn:He.
  - apply entry_at_Some in He as [He _]; [|done].
    destruct (so_entry_blob t Hok _ _ He) as [b Hb].
    destruct (String.eqb_spec (e_blob_hash e) hash) as [Heq|Hne]; simpl.
    + apply wp_ret, (HQ 0).
    + wp_go. wp_use Blobs_decr_spec as [rc|x|w] u Hu; db_go.
      * destruct Hu as (b' & _ & _ & ->).
        wp_use Blobs_upsert_incr_spec as [ex|x|w] u Hu; db_go; [| |done].
        -- destruct Hu as (now & -> & _). apply HQ.
        -- destruct Hu as [[[y [Hy ->]]|[]] _]. by apply Hfault.
      * destruct Hu as [[[y [Hy ->]]|[_ Hn]] _]; [by apply Hfault|congruence].
      * done.
  - wp_go. wp_use Blobs_upsert_incr_spec as [ex|x|w] u Hu; db_go; [| |done].
    + destruct Hu as (now & -> & _). apply HQ.
    + destruct Hu as [[[y [Hy ->]]|[]] _]. by apply Hfault.
Qed.

Lemma upserted_blobs_hash t project_id kind path hash size_bytes now :
  schema_ok t →
  is_Some (blobs (upserted_blobs t project_id kind path hash size_bytes now) !! hash).
Proof.
  intros Hok. unfold upserted_blobs.
  destruct (entry_at t project_id kind path) as [e|] eqn:He.
  - apply entry_at_Some in He as [He _]; [|done].
    destruct (String.eqb_spec (e_blob_hash e) hash) as [<-|Hne].
    + by eapply so_entry_blob.
    + simpl. rewrite lookup_insert_eq. eauto.
  - simpl. rewrite lookup_insert_eq. eauto.
Qed.

Lemma upserted_blobs_rest t project_id kind path hash size_bytes now :
  let u := upserted_blobs t project_id kind path hash size_bytes now in
  entries u = entries t ∧ projects u = projects t ∧ seq_entries u = seq_entries t.
Proof. unfold upserted_blobs. by repeat case_match. Qed.

Definition upsert_ok (t : Tables) (project_id : Z) (kind : Kind) (path hash : string)
    (size_bytes : Z) (e : Entry) (t' : Tables) : Prop :=
  ∃ id now_blob now,
    t' = upserted t id project_id kind path hash size_bytes now_blob now ∧
    e = mkEntry (e_id (upserted_row t id project_id kind path hash size_bytes now))
          project_id kind path hash size_bytes now now false ∧
    clock_reading now ∧
    (entry_at t project_id kind path = None →
       seq_entries t < id <= i64_max ∧ is_Some (projects t !! project_id)).

Definition upsert_err (t : Tables) (project_id : Z) (kind : Kind) (path : string)
    (e : CoreError) : Prop :=
  entry_at t project_id kind path = None ∧
  (e = Database err_full ∨ e = Database err_foreign_key ∧ projects t !! project_id = None).

Lemma Entries_upsert_spec t project_id kind path hash size_bytes :
  schema_ok t →
  wp (Entries_upsert project_id kind path hash size_bytes)
    (outcome t (upsert_ok t project_id kind path hash size_bytes)
       (upsert_err t project_id kind path)) t.
Proof.
  intros Hok. unfold Entries_upsert. db_go.
  apply upsert_blobs_wp; [done|intros; simpl; by eauto|]. intros now_blob. db_go.
  unfold upsert_entry_row. db_go.
  pose proof (upserted_blobs_hash t project_id kind path hash size_bytes now_blob Hok) as Hh.
  pose proof (upserted_blobs_rest t project_id kind path hash size_bytes now_blob) as (He & Hp & Hs).
  set (u := upserted_blobs t project_id kind path hash size_bytes now_blob) in *.
  assert (entry_at u project_id kind path = entry_at t project_id kind path) as Hat
    by (unfold entry_at; by rewrite He).
  rewrite Hat, Hs, Hp, He, (bool_decide_eq_true_2 _ Hh).
  unfold upsert_ok, upsert_err, upserted, upserted_row.
  destruct (entry_at t project_id kind path) as [e|] eqn:Hold; simpl.
  - apply wp_ret. simpl. exists 0, now_blob, now.
    apply entry_at_Some in Hold as [_ [= <- <- <-]]; [|done]. done.
  - destruct (alloc_id (seq_entries t) n) as [x|id] eqn:Hid; simpl.
    { split; [|done]. right. split; [done|left]. unfold alloc_id in Hid. by case_match; simplify_eq. }
    apply alloc_id_spec in Hid.
    destruct (projects t !! project_id) eqn:Hproj; simpl.
    + apply wp_ret. simpl. exists id, now_blob, now. eauto 10.
    + eauto 10.
Qed.

Lemma Entries_find_spec t project_id kind path :
  wp (Entries_find project_id kind path)
    (outcome t (λ o t', t' = t ∧ o = entry_at t project_id kind path) (λ _, False)) t.
Proof. unfold Entries_find. db_go. done. Qed.

Definition delete_err (t : Tables) (project_id id : Z) (e : CoreError) : Prop :=
  e = NotFound ("entry " +:+ pretty id) ∧ entry_of t project_id id = None.

Lemma Entries_delete_spec t project_id id :
  schema_ok t →
  wp (Entries_delete project_id id)
    (outcome t (λ _ t', ∃ e, entry_of t project_id id = Some e ∧ t' = drop_entry e t)
       (delete_err t project_id id)) t.
Proof.
  intros Hok. unfold Entries_delete. db_go.
  destruct (entry_of t project_id id) as [e|] eqn:He; db_go; simpl.
  - pose proof He as [Hi Hp]%entry_of_Some.
    destruct (so_entry_blob t Hok _ _ Hi) as [b Hb].
    destruct (so_entries t Hok) as [_ Hid]. destruct (Hid _ _ Hi) as [Hid' _].
    wp_use Blobs_decr_spec as [rc|x|w] u Hu; db_go; [| |done].
    + destruct Hu as (b' & Hb' & _ & ->). exists e. split; [done|].
      unfold drop_entry. by rewrite Hid'.
    + destruct Hu as [[Hf|[_ Hn]] _]; [by eauto|]. simpl in Hn. congruence.
  - unfold delete_err. eauto.
Qed.

Lemma Entries_set_pinned_spec t project_id id pinned :
  wp (Entries_set_pinned project_id id pinned)
    (outcome t (λ _ t', ∃ e, entry_of t project_id id = Some e ∧
       t' = update_entry id (set_entry_pinned pinned e) t)
       (delete_err t project_id id)) t.
Proof.
  unfold Entries_set_pinned. db_go. unfold delete_err.
  destruct (entry_of t project_id id) as [e|] eqn:He; simpl; db_go; eauto.
Qed.

Lemma Entries_touch_spec t id :
  wp (Entries_touch id)
    (λ r t', r = Ok tt ∧
       (t' = t ∨ ∃ now, clock_reading now ∧
          t' = set_entries (alter (set_last_accessed now) id (entries t)) (seq_entries t) t)) t.
Proof.
  unfold Entries_touch. db_go.
  apply wp_exec; simpl; intros; db_go; eauto.
Qed.

Lemma select_sum {A} (m : gmap Z A) (p : A → bool) (f : A → Z) :
  zsum (f <$> select p m) = sum_map (λ x, if p x then f x else 0) m.
Proof.
  unfold select, sum_map. induction (rows m) as [|x l IH]; [done|].
  csimpl. rewrite <-IH. by destruct (p x).
Qed.

Lemma Entries_project_usage_spec t project_id :
  wp (Entries_project_usage project_id)
    (outcome t (λ n t', t' = t ∧ n = project_usage t project_id)
       (λ e, e = Database err_overflow ∧ ¬ in_i64 (project_usage t project_id))) t.
Proof.
  unfold Entries_project_usage. db_go. unfold sql_sum, in_i64. rewrite select_sum.
  fold (project_usage t project_id).
  destruct (_ && _) eqn:Hc; simpl; [done|].
  split; [right; split; [done|]|done]. intros Hin.
  apply andb_false_iff in Hc as [Hc|Hc]; [apply Z.leb_gt in Hc|apply Z.ltb_ge in Hc]; lia.
Qed.
End entries_spec.

(** ** Invariants *)

Definition ind (b : bool) : Z := if b then 1 else 0.

Lemma schema_set_entries t m sq :
  schema_ok t → ids_ok e_id m sq → unique_on entry_key m →
  (∀ i e, m !! i = Some e →
     is_Some (projects t !! e_project_id e) ∧ is_Some (blobs t !! e_blob_hash e)) →
  schema_ok (set_entries m sq t).
Proof.
  intros [] Hids Hkey Hfk. split; simpl; try assumption; intros i e Hi; by apply Hfk in Hi as [].
Qed.

Lemma schema_upserted_blobs t project_id kind path hash size_bytes now :
  schema_ok t → schema_ok (upserted_blobs t project_id kind path hash size_bytes now).
Proof.
  intros Hok. unfold upserted_blobs. repeat case_match;
    auto using schema_incr_blob, schema_decr_blob.
Qed.

Lemma upserted_row_key t id project_id kind path hash size_bytes now :
  entry_key (upserted_row t id project_id kind path hash size_bytes now)
    = (project_id, kind, path) ∧
  e_blob_hash (upserted_row t id project_id kind path hash size_bytes now) = hash.
Proof. unfold upserted_row. by case_match. Qed.

Lemma schema_upserted t id project_id kind path hash size_bytes now_blob now :
  schema_ok t →
  (entry_at t project_id kind path = None →
     seq_entries t < id <= i64_max ∧ is_Some (projects t !! project_id)) →
  schema_ok (upserted t id project_id kind path hash size_bytes now_blob now).
Proof.
  intros Hok Hnew. unfold upserted.
  pose proof (upserted_row_key t id project_id kind path hash size_bytes now) as [Hkey Hhash].
  pose proof (upserted_blobs_hash t project_id kind path hash size_bytes now_blob Hok) as Hh.
  pose proof (upserted_blobs_rest t project_id kind path hash size_bytes now_blob) as (Hes & Hp & _).
  pose proof (schema_upserted_blobs t project_id kind path hash size_bytes now_blob Hok) as Hok'.
  set (row := upserted_row _ _ _ _ _ _ _ _) in *.
  assert (e_id row = match entry_at t project_id kind path with Some e => e_id e | None => id end)
    as Hid by (unfold row, upserted_row; by case_match).
  apply schema_set_entries; [done| | |].
  - destruct (entry_at t project_id kind path) as [e|] eqn:He; rewrite Hid.
    + apply entry_at_Some in He as [He _]; [|done].
      eapply ids_ok_update; [apply so_entries|..]; done.
    + eapply ids_ok_insert; [apply so_entries|..]; [done| |done]. by apply Hnew.
  - apply unique_on_insert; [by apply so_entry_key|].
    intros j e Hj Hne Heq. rewrite Hkey in Heq. apply Hne. rewrite Hid.
    destruct (so_entries t Hok) as [_ Hids]. destruct (Hids j e Hj) as [Hje _].
    assert (entry_at t project_id kind path = Some e) as ->; [|done].
    apply entry_at_Some; [done|]. by rewrite Hje.
  - rewrite Hp. intros i e [[<- <-]|[_ Hi]]%lookup_insert_Some.
    + rewrite Hhash. split; [|done]. injection Hkey as -> _ _.
      destruct (entry_at t project_id kind path) as [e|] eqn:He; [|by apply Hnew].
      apply entry_at_Some in He as [He [= <- _ _]]; [|done]. by eapply so_entry_project.
    + split; [by eapply so_entry_project|]. eapply (so_entry_blob _ Hok'). by rewrite Hes.
Qed.

Lemma ref_entries_update t i e e' sq h :
  entries t !! i = Some e →
  ref_entries (set_entries (<[i:=e']> (entries t)) sq t) h =
  ref_entries t h - ind (refers_to h e) + ind (refers_to h e').
Proof. intros Hi. unfold ref_entries, count_map. simpl. by rewrite (sum_map_update _ _ i e). Qed.

Lemma ref_entries_insert t i e' sq h :
  entries t !! i = None →
  ref_entries (set_entries (<[i:=e']> (entries t)) sq t) h =
  ref_entries t h + ind (refers_to h e').
Proof.
  intros Hi. unfold ref_entries, count_map. simpl. rewrite sum_map_insert by done.
  unfold ind. lia.
Qed.

Lemma ref_entries_delete t i e sq h :
  entries t !! i = Some e →
  ref_entries (set_entries (delete i (entries t)) sq t) h =
  ref_entries t h - ind (refers_to h e).
Proof.
  intros Hi. unfold ref_entries, count_map. simpl.
  rewrite (sum_map_delete _ (entries t) i e) by done. unfold ind. lia.
Qed.

Lemma ref_entries_entries t u h : entries u = entries t → ref_entries u h = ref_entries t h.
Proof. unfold ref_entries. by intros ->. Qed.
Lemma refcount_of_blobs t u h : blobs u = blobs t → refcount_of u h = refcount_of t h.
Proof. unfold refcount_of. by intros ->. Qed.

Lemma fresh_id t id : schema_ok t → seq_entries t < id → entries t !! id = None.
Proof.
  intros Hok Hid. destruct (entries t !! id) as [e|] eqn:He; [|done].
  destruct (so_entries t Hok) as [_ Hids]. destruct (Hids _ _ He). lia.
Qed.

(** An upsert moves exactly the reference that it moves between entries. *)
Lemma slack_upserted t id project_id kind path hash size_bytes now_blob now h :
  schema_ok t →
  (entry_at t project_id kind path = None → seq_entries t < id) →
  slack (upserted t id project_id kind path hash size_bytes now_blob now) h = slack t h.
Proof.
  intros Hok Hnew. unfold slack.
  pose proof (upserted_row_key t id project_id kind path hash size_bytes now) as [_ Hhash].
  rewrite (refcount_of_blobs (upserted_blobs t project_id kind path hash size_bytes now_blob))
    by done.
  unfold upserted. set (row := upserted_row _ _ _ _ _ _ _ _) in *.
  assert (∀ m sq, ref_entries (set_entries m sq
            (upserted_blobs t project_id kind path hash size_bytes now_blob)) h
          = ref_entries (set_entries m sq t) h) as -> by done.
  assert (refers_to h row = String.eqb hash h) as Hrow by (unfold refers_to; by rewrite Hhash).
  unfold upserted_blobs. destruct (entry_at t project_id kind path) as [e|] eqn:He.
  - assert (e_id row = e_id e) as Hid by (unfold row, upserted_row; by rewrite He).
    apply entry_at_Some in He as [He _]; [|done].
    pose proof (so_entry_blob t Hok _ _ He) as Hb.
    rewrite Hid, (ref_entries_update _ _ e), Hrow by done. unfold refers_to.
    destruct (String.eqb_spec (e_blob_hash e) hash) as [Heq|Hne].
    + rewrite Heq. lia.
    + rewrite refcount_incr, refcount_decr by done. unfold ind. lia.
  - assert (e_id row = id) as Hid by (unfold row, upserted_row; by rewrite He).
    rewrite Hid, ref_entries_insert, Hrow, refcount_incr by auto using fresh_id.
    unfold ind. lia.
Qed.

Lemma schema_drop_entry t e :
  schema_ok t → entries t !! e_id e = Some e → schema_ok (drop_entry e t).
Proof.
  intros Hok He. apply schema_decr_blob, schema_set_entries; [done| | |].
  - eapply ids_ok_subseteq; [by apply so_entries|apply delete_subseteq].
  - eapply unique_on_subseteq; [by apply so_entry_key|apply delete_subseteq].
  - intros i e' [_ Hi]%lookup_delete_Some.
    split; [by eapply so_entry_project|by eapply so_entry_blob].
Qed.

Lemma slack_drop_entry t e h :
  schema_ok t → entries t !! e_id e = Some e → slack (drop_entry e t) h = slack t h.
Proof.
  intros Hok He. unfold slack, drop_entry.
  pose proof (so_entry_blob t Hok _ _ He) as Hb.
  rewrite refcount_decr by done.
  rewrite (ref_entries_entries (set_entries (delete (e_id e) (entries t)) (seq_entries t) t)) by done.
  rewrite (ref_entries_delete _ _ e) by done.
  rewrite (refcount_of_blobs t) by done. unfold refers_to, ind. lia.
Qed.

(** Changing the bookkeeping fields of a row (access time, pin) only. *)
Lemma schema_update_entry t e e' :
  schema_ok t → entries t !! e_id e = Some e → e_id e' = e_id e →
  entry_key e' = entry_key e → e_blob_hash e' = e_blob_hash e →
  schema_ok (update_entry (e_id e) e' t).
Proof.
  intros Hok He Hid Hkey Hh. apply schema_set_entries; [done| | |].
  - eapply ids_ok_update; [by apply so_entries|done..].
  - eapply unique_on_update; [by apply so_entry_key|done..].
  - intros i x [[<- <-]|[_ Hi]]%lookup_insert_Some.
    + rewrite Hh. injection Hkey as -> _ _.
      split; [by eapply so_entry_project|by eapply so_entry_blob].
    + split; [by eapply so_entry_project|by eapply so_entry_blob].
Qed.

Lemma slack_update_entry t e e' h :
  entries t !! e_id e = Some e → e_blob_hash e' = e_blob_hash e →
  slack (update_entry (e_id e) e' t) h = slack t h.
Proof.
  intros He Hh. unfold slack, update_entry. rewrite (ref_entries_update _ _ e) by done.
  unfold refers_to. rewrite Hh, (refcount_of_blobs t) by done. lia.
Qed.

(** An upsert is felt under its own key only. *)
Lemma entry_at_upserted_other t id project_id kind path hash size_bytes now_blob now p k x :
  schema_ok t →
  (entry_at t project_id kind path = None →
     seq_entries t < id <= i64_max ∧ is_Some (projects t !! project_id)) →
  (p, k, x) ≠ (project_id, kind, path) →
  entry_at (upserted t id project_id kind path hash size_bytes now_blob now) p k x = entry_at t p k x.
Proof.
  intros Hok Hnew Hne.
  pose proof (schema_upserted t id project_id kind path hash size_bytes now_blob now Hok Hnew) as Hok'.
  pose proof (upserted_row_key t id project_id kind path hash size_bytes now) as [Hkey _].
  set (row := upserted_row _ _ _ _ _ _ _ _) in *.
  assert (∀ e, entries t !! e_id row = Some e → entry_key e = (project_id, kind, path)) as Hold.
  { intros e. unfold row, upserted_row. destruct (entry_at t project_id kind path) as [e0|] eqn:He0.
    - apply entry_at_Some in He0 as [He0 Hk]; [|done]. simpl. congruence.
    - simpl. rewrite fresh_id; [done|done|]. by apply Hnew. }
  apply option_eq. intros e. rewrite !entry_at_Some by done.
  unfold upserted. cbn [set_entries entries]. fold row. rewrite lookup_insert.
  case_decide as Hid; [|done]. split; intros [He Hk]; exfalso; apply Hne.
  - injection He as <-. congruence.
  - rewrite <-Hk. apply Hold. by rewrite Hid.
Qed.

(** ** Theorems *)

(** C26: a PUT into the database registers the entry under its key with the new
    hash and size (keeping id, creation time and pin of an existing row), leaves
    every other entry alone, keeps the schema constraints, and moves exactly one
    reference: no refcount drifts from the number of entries. *)
Theorem upsert_keeps_refcounts `{!Env} project_id kind path hash size_bytes t n e t' n' :
  schema_ok t →
  Entries_upsert project_id kind path hash size_bytes t n = (Ok e, t', n') →
  schema_ok t' ∧ (∀ h, slack t' h = slack t h) ∧
  (∃ row, entry_at t' project_id kind path = Some row ∧ e_id row = e_id e ∧
     e_blob_hash row = hash ∧ e_size_bytes row = size_bytes ∧
     (∀ old, entry_at t project_id kind path = Some old →
        e_id row = e_id old ∧ e_created_at row = e_created_at old ∧ e_pinned row = e_pinned old)) ∧
  (∀ i, i ≠ e_id e → entries t' !! i = entries t !! i).
Proof.
  intros Hok Hrun.
  destruct (wp_run _ _ _ _ _ _ _ (Entries_upsert_spec t project_id kind path hash size_bytes Hok) Hrun)
    as (id & now_blob & now & -> & -> & _ & Hnew).
  pose proof (schema_upserted t id project_id kind path hash size_bytes now_blob now Hok Hnew) as Hok'.
  split_and!; [done| | |].
  - intros h. apply slack_upserted; [done|]. intros Hn. by apply Hnew.
  - exists (upserted_row t id project_id kind path hash size_bytes now).
    pose proof (upserted_row_key t id project_id kind path hash size_bytes now) as [Hkey Hh].
    split_and!; [|done|done|unfold upserted_row; by case_match|].
    + apply entry_at_Some; [done|]. split; [|done].
      unfold upserted. cbn [set_entries entries]. apply lookup_insert_eq.
    + intros old Hold. unfold upserted_row. by rewrite Hold.
  - intros i Hi. unfold upserted. cbn [set_entries entries]. by apply lookup_insert_ne.
Qed.

(** The transaction is atomic: when registering or deleting an entry fails,
    every table is exactly as before; a deletion is refused only for an id the
    project does not own, and neither operation panics. *)
Theorem entry_errors_change_nothing `{!Env} project_id kind path hash size_bytes id t n :
  schema_ok t →
  let put := Entries_upsert project_id kind path hash size_bytes t n in
  let del := Entries_delete project_id id t n in
  (no_stop put.1.1 ∧ (is_ok put.1.1 = false → put.1.2 = t)) ∧
  (no_stop del.1.1 ∧ (is_ok del.1.1 = false → del.1.2 = t) ∧
   (del.1.1 = Err (NotFound ("entry " +:+ pretty id)) → entry_of t project_id id = None)).
Proof.
  intros Hok put del. split.
  - pose proof (Entries_upsert_spec t project_id kind path hash size_bytes Hok n) as Hout.
    fold put in Hout. destruct put as [[[e|x|w] t'] n']; simpl in *; [done| |done].
    by destruct Hout as [_ ->].
  - pose proof (Entries_delete_spec t project_id id Hok n) as Hout.
    fold del in Hout. destruct del as [[[[]|x|w] t'] n']; simpl in *; [done| |done].
    destruct Hout as [Hx ->]. split_and!; try done. intros [= ->].
    destruct Hx as [(? & _ & ?)|[_ ?]]; done.
Qed.

(** Deleting an entry removes that row only, gives its reference back, and
    leaves schema and refcounts consistent. *)
Theorem delete_releases_reference `{!Env} project_id id t n t' n' :
  schema_ok t → Entries_delete project_id id t n = (Ok tt, t', n') →
  ∃ e, entry_of t project_id id = Some e ∧ entries t' = delete id (entries t) ∧
    (∀ h, refcount_of t' h = refcount_of t h - (if String.eqb (e_blob_hash e) h then 1 else 0)) ∧
    (∀ h, slack t' h = slack t h) ∧ schema_ok t'.
Proof.
  intros Hok Hrun.
  destruct (wp_run _ _ _ _ _ _ _ (Entries_delete_spec t project_id id Hok) Hrun) as (e & He & ->).
  pose proof He as [Hi _]%entry_of_Some.
  destruct (so_entries t Hok) as [_ Hid]. destruct (Hid _ _ Hi) as [<- _].
  exists e. split; [done|]. split; [done|]. split_and!;
    [|by intros; apply slack_drop_entry|by apply schema_drop_entry].
  intros h. unfold drop_entry. rewrite refcount_decr; [done|]. exact (so_entry_blob t Hok _ _ Hi).
Qed.
