(* ===== verification/Projects.v ===== *)
(** * Project repository

    [crates/marmotte-core/src/db/projects.rs].  Deleting a project cascades to its
    keys, entries and counters; it does not touch the blobs table, which is what
    [slack_drop_project] measures. *)
From stdpp Require Import base numbers list strings gmap sorting pretty.
From Stdlib Require Import ZArith Lia.
From S2P Require Import Prelude Models Db Blobs Entries.

Definition p_le (p q : Project) : Prop := p_id p <= p_id q.
#[export] Instance p_le_dec : RelDecision p_le.
Proof. intros p q. apply Z_le_dec. Defined.

(** [map_unique]: a UNIQUE violation becomes [Conflict]. *)
Definition map_unique (name : string) (e : SqlxError) : CoreError :=
  match e with
  | SqlxDatabase code message =>
      if bool_decide (code = Some "2067"%string) || contains "UNIQUE" message
      then Conflict ("project name '" +:+ name +:+ "' already exists")
      else Database e
  | SqlxOther _ => Database e
  end.

Definition has_name (name : string) (p : Project) : bool := String.eqb (p_name p) name.

Definition set_p_name (name : string) (p : Project) : Project :=
  mkProject (p_id p) name (p_quota_bytes p) (p_ttl_seconds p) (p_created_at p).
Definition set_p_quota (q : option Z) (p : Project) : Project :=
  mkProject (p_id p) (p_name p) q (p_ttl_seconds p) (p_created_at p).
Definition set_p_ttl (ttl : option Z) (p : Project) : Project :=
  mkProject (p_id p) (p_name p) (p_quota_bytes p) ttl (p_created_at p).

(** [DELETE FROM projects WHERE id = ?] with the ON DELETE CASCADE clauses of
    api_keys, entries and stats_counters. *)
Definition drop_project (id : Z) (t : Tables) : Tables :=
  mkTables
    (delete id (projects t))
    (filter (λ '(_, k), k_project_id k ≠ id) (api_keys t))
    (admin_tokens t)
    (blobs t)
    (filter (λ '(_, e), e_project_id e ≠ id) (entries t))
    (filter (λ r, sr_project_id r ≠ Some id) (stats_counters t))
    (audit_log t)
    (seq_projects t) (seq_api_keys t) (seq_admin_tokens t) (seq_entries t) (seq_audit_log t).

Section projects_repo.
Context {env : Env}.

Definition Projects_create (name : string) (quota_bytes ttl_seconds : option Z)
    : M CoreError Tables Project :=
  let* now := now_unix in
  let* id := map_err (map_unique name) (exec (λ n t,
    match alloc_id (seq_projects t) n with
    | inl x => inl x
    | inr id =>
        match select_one (has_name name) (projects t) with
        | Some _ => inl (err_unique "projects.name")
        | None =>
            let p := mkProject id name quota_bytes ttl_seconds now in
            inr (id, set_projects (<[id:=p]> (projects t)) id t)
        end
    end)) in
  ret (mkProject id name quota_bytes ttl_seconds now).

Definition Projects_get (id : Z) : M CoreError Tables Project :=
  let* row := sql (query (λ t, projects t !! id)) in
  ok_or (NotFound ("project " +:+ pretty id)) row.

Definition Projects_get_by_name (name : string) : M CoreError Tables Project :=
  let* row := sql (query (λ t, select_one (has_name name) (projects t))) in
  ok_or (NotFound ("project '" +:+ name +:+ "'")) row.

(** [SELECT .. ORDER BY id] *)
Definition Projects_list : M CoreError Tables (list Project) :=
  sql (query (λ t, merge_sort p_le (rows (projects t)))).

(** [UPDATE projects SET name = ? WHERE id = ?] *)
Definition update_project_name (name : string) (id : Z) : M SqlxError Tables unit :=
  exec (λ _ t,
    match projects t !! id with
    | None => inr (tt, t)
    | Some p =>
        match select_one (λ q, has_name name q && negb (p_id q =? id)) (projects t) with
        | Some _ => inl (err_unique "projects.name")
        | None => inr (tt, set_projects (<[id:=set_p_name name p]> (projects t)) (seq_projects t) t)
        end
    end).
Definition update_project_with (f : Project → Project) (id : Z) : M SqlxError Tables unit :=
  exec (λ _ t, inr (tt, set_projects (alter f id (projects t)) (seq_projects t) t)).

Definition Projects_update (id : Z) (new_name : option string)
    (quota_bytes ttl_seconds : option (option Z)) : M CoreError Tables Project :=
  transaction (
    match new_name with
    | Some name => map_err (map_unique name) (update_project_name name id)
    | None => ret tt
    end ;*
    match quota_bytes with
    | Some q => sql (update_project_with (set_p_quota q) id)
    | None => ret tt
    end ;*
    match ttl_seconds with
    | Some ttl => sql (update_project_with (set_p_ttl ttl) id)
    | None => ret tt
    end) ;*
  Projects_get id.

Definition Projects_delete (id : Z) : M CoreError Tables unit :=
  let* rows_affected := sql (exec (λ _ t,
    match projects t !! id with
    | Some _ => inr (1, drop_project id t)
    | None => inr (0, t)
    end)) in
  if rows_affected =? 0 then throw (NotFound ("project " +:+ pretty id)) else ret tt.
End projects_repo.

(** ** What an update does *)

Definition apply_opt {A} (f : A → Project → Project) (o : option A) (p : Project) : Project :=
  match o with Some a => f a p | None => p end.

Definition updated_project (new_name : option string) (quota_bytes ttl_seconds : option (option Z))
    (p : Project) : Project :=
  apply_opt set_p_ttl ttl_seconds (apply_opt set_p_quota quota_bytes (apply_opt set_p_name new_name p)).

Definition name_taken (t : Tables) (name : string) : Prop :=
  ∃ i p, projects t !! i = Some p ∧ p_name p = name.
Definition name_taken_by_other (t : Tables) (id : Z) (name : string) : Prop :=
  ∃ i p, i ≠ id ∧ projects t !! i = Some p ∧ p_name p = name.

Definition conflict_of (name : string) : CoreError :=
  Conflict ("project name '" +:+ name +:+ "' already exists").

Lemma map_unique_unique name : map_unique name (err_unique "projects.name") = conflict_of name.
Proof. reflexivity. Qed.
Lemma map_unique_full name : map_unique name err_full = Database err_full.
Proof. reflexivity. Qed.

(** ** Specifications *)

Section projects_spec.
Context {env : Env}.

Definition create_err (t : Tables) (name : string) (e : CoreError) : Prop :=
  (∃ x, is_fault x ∧ e = map_unique name x) ∨
  (e = conflict_of name ∧ name_taken t name) ∨
  e = Database err_full.

Lemma Projects_create_spec t name quota_bytes ttl_seconds :
  wp (Projects_create name quota_bytes ttl_seconds)
    (outcome t (λ p t', ∃ id now, clock_reading now ∧ seq_projects t < id <= i64_max ∧
         p = mkProject id name quota_bytes ttl_seconds now ∧ ¬ name_taken t name ∧
         t' = set_projects (<[id:=p]> (projects t)) id t)
       (create_err t name)) t.
Proof.
  unfold Projects_create, create_err. db_go. destruct (alloc_id (seq_projects t) n) as [x|id] eqn:Hid.
  { unfold alloc_id in Hid. case_match; simplify_eq/=. by eauto 6. }
  apply alloc_id_spec in Hid.
  destruct (select_one (has_name name) (projects t)) as [p|] eqn:Hsel; simpl.
  - split; [right; right; left|done]. split; [done|].
    apply select_one_Some in Hsel as [Hn%String.eqb_eq [i Hi]]. by exists i, p.
  - apply wp_ret. simpl. exists id, now. split_and!; try done; try lia.
    intros (i & p & Hi & Hn). apply select_one_None with (i:=i) (x:=p) in Hsel; [|done].
    unfold has_name in Hsel. by rewrite Hn, String.eqb_refl in Hsel.
Qed.

Lemma Projects_get_spec t id :
  wp (Projects_get id)
    (outcome t (λ p t', t' = t ∧ projects t !! id = Some p)
       (λ e, e = NotFound ("project " +:+ pretty id) ∧ projects t !! id = None)) t.
Proof. unfold Projects_get. db_go. destruct (projects t !! id); simpl; eauto. Qed.

Lemma Projects_get_by_name_spec t name :
  wp (Projects_get_by_name name)
    (outcome t (λ p t', t' = t ∧ p_name p = name ∧ ∃ i, projects t !! i = Some p)
       (λ e, e = NotFound ("project '" +:+ name +:+ "'") ∧ ¬ name_taken t name)) t.
Proof.
  unfold Projects_get_by_name. db_go.
  destruct (select_one (has_name name) (projects t)) as [p|] eqn:Hsel; simpl.
  - apply select_one_Some in Hsel as [Hn%String.eqb_eq Hi]. eauto.
  - split; [right; split; [done|]|done]. intros (i & p & Hi & Hn).
    apply select_one_None with (i:=i) (x:=p) in Hsel; [|done].
    unfold has_name in Hsel. by rewrite Hn, String.eqb_refl in Hsel.
Qed.

Lemma Projects_list_spec t :
  wp Projects_list
    (outcome t (λ l t', t' = t ∧ l = merge_sort p_le (rows (projects t))) (λ _, False)) t.
Proof. unfold Projects_list. db_go. done. Qed.

Lemma Projects_delete_spec t id :
  wp (Projects_delete id)
    (outcome t (λ _ t', is_Some (projects t !! id) ∧ t' = drop_project id t)
       (λ e, e = NotFound ("project " +:+ pretty id) ∧ projects t !! id = None)) t.
Proof. unfold Projects_delete. db_go. destruct (projects t !! id); simpl; db_go; eauto. Qed.
End projects_spec.

(** ** Updating *)

(** The tables after [Projects_update] committed. *)
Definition updated_tables (t : Tables) (id : Z) (new_name : option string)
    (quota_bytes ttl_seconds : option (option Z)) : Tables :=
  set_projects (alter (updated_project new_name quota_bytes ttl_seconds) id (projects t))
    (seq_projects t) t.

Lemma set_projects_same t : set_projects (projects t) (seq_projects t) t = t.
Proof. by destruct t. Qed.

Lemma updated_tables_absent t id new_name quota_bytes ttl_seconds :
  projects t !! id = None → updated_tables t id new_name quota_bytes ttl_seconds = t.
Proof.
  intros Hid. unfold updated_tables. rewrite alter_id; [apply set_projects_same|].
  intros p Hp. congruence.
Qed.

Section projects_update.
Context {env : Env}.

Definition update_err (t : Tables) (id : Z) (new_name : option string) (e : CoreError) : Prop :=
  ∃ name, new_name = Some name ∧
    ((∃ x, is_fault x ∧ e = map_unique name x) ∨
     (e = conflict_of name ∧ name_taken_by_other t id name)).

Definition name_free (t : Tables) (id : Z) (new_name : option string) : Prop :=
  ∀ name, new_name = Some name → is_Some (projects t !! id) → ¬ name_taken_by_other t id name.

Lemma other_with_name t id name :
  schema_ok t →
  match select_one (λ q, has_name name q && negb (p_id q =? id)) (projects t) with
  | Some _ => name_taken_by_other t id name
  | None => ¬ name_taken_by_other t id name
  end.
Proof.
  intros Hok. destruct (so_projects t Hok) as [_ Hids].
  destruct (select_one _ _) as [q|] eqn:Hsel.
  - apply select_one_Some in Hsel as [[Hn%String.eqb_eq Hid]%andb_prop [i Hi]].
    destruct (Hids i q Hi) as [<- _]. exists (p_id q), q. split_and!; [|done..].
    intros Heq. rewrite Heq, Z.eqb_refl in Hid. done.
  - intros (i & q & Hne & Hi & Hn). destruct (Hids i q Hi) as [Hq _].
    apply select_one_None with (i:=i) (x:=q) in Hsel; [|done].
    unfold has_name in Hsel. rewrite Hn, String.eqb_refl in Hsel. simpl in Hsel.
    apply negb_false_iff, Z.eqb_eq in Hsel. congruence.
Qed.

Lemma update_name_wp t id new_name :
  schema_ok t →
  wp (match new_name with
      | Some name => map_err (map_unique name) (update_project_name name id)
      | None => ret tt
      end)
    (outcome t (λ _ t', t' = set_projects (alter (apply_opt set_p_name new_name) id (projects t))
                               (seq_projects t) t ∧ name_free t id new_name)
       (update_err t id new_name)) t.
Proof.
  intros Hok. destruct new_name as [name|].
  - unfold update_project_name, update_err. wp_go.
    apply wp_exec; [intros x Hx; simpl; split; [right; exists name; by eauto|done]|intros _].
    pose proof (other_with_name t id name Hok) as Hother.
    destruct (projects t !! id) as [p|] eqn:Hp; simpl.
    + destruct (select_one _ _) eqn:Hsel; simpl;
        [split; [right; exists name; by auto|done]|]. split.
      * do 2 f_equal. apply map_eq. intros j. rewrite lookup_alter, lookup_insert.
        case_decide; subst; [by rewrite Hp|done].
      * intros name' [= <-] _. done.
    + split.
      * rewrite alter_id; [by rewrite set_projects_same|]. intros p Hp'. congruence.
      * intros ? ? [? ?]. congruence.
  - db_go. split; [|done]. rewrite alter_id; [by rewrite set_projects_same|done].
Qed.

Lemma update_field_wp {A} (f : A → Project → Project) (o : option A) id t :
  wp (match o with Some a => sql (update_project_with (f a) id) | None => ret tt end)
    (outcome t (λ _ t', t' = set_projects (alter (apply_opt f o) id (projects t))
                               (seq_projects t) t) (λ _, False)) t.
Proof.
  destruct o as [a|]; unfold update_project_with; db_go; [done|].
  rewrite alter_id; [by rewrite set_projects_same|done].
Qed.

(** An error of [Projects_update] leaves the tables as they were, with one
    exception: the row was updated and only the SELECT after the commit failed. *)
Lemma Projects_update_spec t id new_name quota_bytes ttl_seconds :
  schema_ok t →
  wp (Projects_update id new_name quota_bytes ttl_seconds)
    (λ r t', let u := updated_tables t id new_name quota_bytes ttl_seconds in
       match r with
       | Ok p => t' = u ∧ name_free t id new_name ∧
           ∃ old, projects t !! id = Some old ∧
                  p = updated_project new_name quota_bytes ttl_seconds old
       | Err e =>
           (t' = t ∧ (db_fault e ∨ update_err t id new_name e ∨
              e = NotFound ("project " +:+ pretty id) ∧ projects t !! id = None)) ∨
           (t' = u ∧ name_free t id new_name ∧ db_fault e)
       | Stop _ => False
       end) t.
Proof.
  intros Hok. unfold Projects_update. wp_go.
  apply wp_transaction; [intros x Hx; simpl; left; by eauto|]. wp_go.
  wp_use update_name_wp as [u1|e|w] t1 H1; [done| |by destruct H1 as [[?|?] ->]; eauto|done].
  destruct H1 as [-> Hfree]. wp_go.
  wp_use (update_field_wp set_p_quota) as [u2|e|w] t2 H2; [hnf in H2; subst t2; wp_go|by destruct H2 as [[?|[]] _]; eauto|done].
  wp_use (update_field_wp set_p_ttl) as [u3|e|w] t3 H3; [hnf in H3; subst t3|by destruct H3 as [[?|[]] _]; eauto|done].
  assert (set_projects (alter (apply_opt set_p_ttl ttl_seconds) id (alter (apply_opt set_p_quota
    quota_bytes) id (alter (apply_opt set_p_name new_name) id (projects t)))) (seq_projects t) t
    = updated_tables t id new_name quota_bytes ttl_seconds) as Hu.
  { unfold updated_tables. by rewrite !alter_alter_eq. }
  unfold set_projects at 1. simpl. fold (set_projects (alter (apply_opt set_p_ttl ttl_seconds) id (alter
    (apply_opt set_p_quota quota_bytes) id (alter (apply_opt set_p_name new_name) id (projects t))))
    (seq_projects t) t). rewrite Hu.
  wp_use Projects_get_spec as [p|e|w] t4 H4; [| |done].
  - destruct H4 as [-> Hp]. split_and!; [done..|]. simpl in Hp. rewrite lookup_alter_eq in Hp.
    destruct (projects t !! id) as [old|]; simplify_eq/=. eauto.
  - destruct H4 as [[Hf|[-> Hn]] ->]; [by eauto|]. left.
    simpl in Hn. rewrite lookup_alter_eq, fmap_None in Hn.
    rewrite updated_tables_absent by done. eauto.
Qed.
End projects_update.

(** ** Invariants *)

Lemma schema_set_projects t m sq :
  schema_ok t → ids_ok p_id m sq → unique_on p_name m →
  (∀ i, is_Some (projects t !! i) → is_Some (m !! i)) →
  schema_ok (set_projects m sq t).
Proof. intros [] Hids Hname Hdom. split; simpl; eauto. Qed.

Lemma schema_create_project t id name quota_bytes ttl_seconds now :
  schema_ok t → seq_projects t < id <= i64_max → ¬ name_taken t name →
  schema_ok (set_projects (<[id:=mkProject id name quota_bytes ttl_seconds now]> (projects t)) id t).
Proof.
  intros Hok Hid Hname. apply schema_set_projects; [done| | |].
  - eapply ids_ok_insert; [by apply so_projects|done..].
  - apply unique_on_insert; [by apply so_project_name|]. simpl.
    intros j p Hj _ Heq. apply Hname. by exists j, p.
  - intros i Hi. apply lookup_insert_is_Some'. by right.
Qed.

Lemma updated_project_id n q l p : p_id (updated_project n q l p) = p_id p.
Proof. by destruct n, q, l. Qed.
Lemma updated_project_name n q l p :
  p_name (updated_project n q l p) = from_option id (p_name p) n.
Proof. by destruct n, q, l. Qed.

Lemma alter_as_insert {K A} `{Countable K} (f : A → A) (m : gmap K A) i x :
  m !! i = Some x → alter f i m = <[i:=f x]> m.
Proof.
  intros Hi. apply map_eq. intros j. rewrite lookup_alter, lookup_insert.
  case_decide; subst; [by rewrite Hi|done].
Qed.

Lemma schema_updated_tables t id new_name quota_bytes ttl_seconds :
  schema_ok t → name_free t id new_name →
  schema_ok (updated_tables t id new_name quota_bytes ttl_seconds).
Proof.
  intros Hok Hfree.
  destruct (projects t !! id) as [p|] eqn:Hp; [|by rewrite updated_tables_absent].
  unfold updated_tables. rewrite (alter_as_insert _ _ _ p) by done.
  apply schema_set_projects; [done| | |].
  - eapply ids_ok_update; [by apply so_projects|done|apply updated_project_id].
  - apply unique_on_insert; [by apply so_project_name|].
    intros j q Hj Hne. rewrite updated_project_name.
    destruct new_name as [name|]; simpl; intros Heq.
    + apply (Hfree name); [done|by eauto|]. by exists j, q.
    + apply Hne. by eapply (so_project_name t Hok).
  - intros i Hi. apply lookup_insert_is_Some'. by right.
Qed.

Lemma schema_drop_project t id : schema_ok t → schema_ok (drop_project id t).
Proof.
  intros []. split; simpl; try assumption.
  - eapply ids_ok_subseteq; [done|apply delete_subseteq].
  - eapply unique_on_subseteq; [done|apply delete_subseteq].
  - eapply ids_ok_subseteq; [done|apply map_filter_subseteq].
  - eapply unique_on_subseteq; [done|apply map_filter_subseteq].
  - intros i k [Hk Hne]%map_lookup_filter_Some. rewrite lookup_delete_ne; eauto.
  - eapply ids_ok_subseteq; [done|apply map_filter_subseteq].
  - eapply unique_on_subseteq; [done|apply map_filter_subseteq].
  - intros i e [He Hne]%map_lookup_filter_Some. rewrite lookup_delete_ne; eauto.
  - intros i e [He _]%map_lookup_filter_Some. eauto.
  - intros r p [Hne Hr]%list_elem_of_filter Hp. rewrite lookup_delete_ne; [by eauto|congruence].
Qed.

(** How many entries of a project refer to a blob. *)
Definition project_refs (t : Tables) (id : Z) (h : string) : Z :=
  count_map (λ e, (e_project_id e =? id) && refers_to h e) (entries t).

Lemma count_map_filter (m : gmap Z Entry) id h :
  count_map (refers_to h) (filter (λ '(_, e), e_project_id e ≠ id) m) =
  count_map (refers_to h) m - count_map (λ e, (e_project_id e =? id) && refers_to h e) m.
Proof.
  induction m as [|i e m Hi IH] using map_ind.
  { rewrite map_filter_empty. unfold count_map. by rewrite !sum_map_empty. }
  rewrite map_filter_insert. unfold count_map in *.
  rewrite !(sum_map_insert _ m i e) by done. case_decide as Hp.
  - rewrite sum_map_insert by (apply map_lookup_filter_None; by left).
    rewrite IH. apply Z.eqb_neq in Hp. rewrite Hp. simpl. lia.
  - apply Z.eqb_eq in Hp. rewrite Hp. simpl.
    rewrite delete_id by done. rewrite IH. lia.
Qed.

(** The cascade removes the entries but not the references they held. *)
Lemma slack_drop_project t id h :
  slack (drop_project id t) h = slack t h + project_refs t id h.
Proof.
  unfold slack, project_refs, ref_entries. simpl.
  rewrite count_map_filter. change (refcount_of (drop_project id t) h) with (refcount_of t h). lia.
Qed.

(** ** Theorems *)

(** With no failing statement, creating a project succeeds only if the name is
    free, and then adds exactly that row under a fresh id; a taken name is
    answered with a Conflict, and no error changes the tables. *)
Theorem project_create_unique_name `{!Env} name quota_bytes ttl_seconds t n r t' n' :
  Quiet → schema_ok t →
  Projects_create name quota_bytes ttl_seconds t n = (r, t', n') →
  match r with
  | Ok p => ¬ name_taken t name ∧ schema_ok t' ∧ projects t !! p_id p = None ∧
      projects t' = <[p_id p := p]> (projects t) ∧
      p_name p = name ∧ p_quota_bytes p = quota_bytes ∧ p_ttl_seconds p = ttl_seconds
  | Err e => t' = t ∧ (e = conflict_of name ∧ name_taken t name ∨ e = Database err_full)
  | Stop _ => False
  end.
Proof.
  intros Hq Hok Hrun.
  pose proof (outcome_quiet _ _ _ _ _ Hq
    (wp_run _ _ _ _ _ _ _ (Projects_create_spec t name quota_bytes ttl_seconds) Hrun)) as Hr.
  destruct r as [p|e|w]; [| |done].
  - destruct Hr as (id & now & _ & Hid & -> & Hfree & ->).
    pose proof (schema_create_project t id name quota_bytes ttl_seconds now Hok Hid Hfree).
    split_and!; try done. simpl. by destruct (ids_ok_insert p_id (projects t) (seq_projects t) id
      (mkProject id name quota_bytes ttl_seconds now) (so_projects t Hok) Hid eq_refl).
  - destruct Hr as [[(x & Hx%is_fault_quiet & _)|[?| ->]] ->]; [done|done|by auto|by auto].
Qed.

(** C33: with no failing statement, a PATCH applies exactly the fields it names, all
    of them or none: it fails only for an unknown id or a name that another
    project has, and then changes nothing. *)
Theorem project_update_all_or_nothing `{!Env} id new_name quota_bytes ttl_seconds t n r t' n' :
  Quiet → schema_ok t →
  Projects_update id new_name quota_bytes ttl_seconds t n = (r, t', n') →
  schema_ok t' ∧
  match r with
  | Ok p => ∃ old, projects t !! id = Some old ∧
      p = mkProject (p_id old) (default (p_name old) new_name)
            (default (p_quota_bytes old) quota_bytes) (default (p_ttl_seconds old) ttl_seconds)
            (p_created_at old) ∧
      projects t' = <[id := p]> (projects t) ∧ entries t' = entries t ∧ api_keys t' = api_keys t
  | Err e => t' = t ∧
      (e = NotFound ("project " +:+ pretty id) ∧ projects t !! id = None ∨
       ∃ name, new_name = Some name ∧ e = conflict_of name ∧ name_taken_by_other t id name)
  | Stop _ => False
  end.
Proof.
  intros Hq Hok Hrun.
  pose proof (wp_run _ _ _ _ _ _ _ (Projects_update_spec t id new_name quota_bytes ttl_seconds Hok) Hrun)
    as Hr.
  simpl in Hr. destruct r as [p|e|w]; [| |done].
  - destruct Hr as (-> & Hfree & old & Hold & ->). split; [by apply schema_updated_tables|].
    exists old. split_and!; try done.
    + by destruct old, new_name, quota_bytes, ttl_seconds.
    + unfold updated_tables. simpl. by apply alter_as_insert.
  - destruct Hr as [[-> Hwhy]|(_ & _ & He)]; [|by apply db_fault_quiet in He].
    split_and!; [done..|].
    destruct Hwhy as [He|[(name & -> & [(x & Hx%is_fault_quiet & _)|[-> Ht]])|[-> Hn]]];
      [by apply db_fault_quiet in He|done|done|by eauto|by auto].
Qed.

(** C34: deleting a project takes its keys, entries and counters with it and nothing
    of the others, and keeps the schema.  The blob rows are not touched at all: the
    references that the removed entries held stay counted, so a blob that only
    this project used keeps a positive refcount for ever. *)
Theorem project_delete_cascades `{!Env} id t n t' n' :
  schema_ok t → Projects_delete id t n = (Ok tt, t', n') →
  schema_ok t' ∧ projects t' = delete id (projects t) ∧ blobs t' = blobs t ∧
  (∀ i e, entries t' !! i = Some e ↔ entries t !! i = Some e ∧ e_project_id e ≠ id) ∧
  (∀ i k, api_keys t' !! i = Some k ↔ api_keys t !! i = Some k ∧ k_project_id k ≠ id) ∧
  (∀ r, r ∈ stats_counters t' ↔ r ∈ stats_counters t ∧ sr_project_id r ≠ Some id) ∧
  (∀ h, slack t' h = slack t h + project_refs t id h).
Proof.
  intros Hok Hrun. destruct (wp_run _ _ _ _ _ _ _ (Projects_delete_spec t id) Hrun) as [_ ->].
  split; [by apply schema_drop_project|]. split; [done|]. split; [done|]. split_and!.
  - intros i e. apply map_lookup_filter_Some.
  - intros i k. apply map_lookup_filter_Some.
  - intros r. simpl. rewrite list_elem_of_filter. tauto.
  - intros h. apply slack_drop_project.
Qed.
