(* ===== verification/Credentials.v ===== *)
(** * API keys and admin tokens

    [crates/marmotte-core/src/db/api_keys.rs] and [db/admin_tokens.rs]: both
    tables store a lookup hash (UNIQUE) and a verifier, and revoke by setting
    [revoked_at]. *)
From stdpp Require Import base numbers list strings gmap sorting pretty.
From Stdlib Require Import ZArith Lia.
From S2P Require Import Prelude Models Db Blobs Entries Projects.

Definition is_null {A} (o : option A) : bool := match o with None => true | Some _ => false end.

(** ** API keys *)

Definition k_le (a b : ApiKey) : Prop := k_id a <= k_id b.
#[export] Instance k_le_dec : RelDecision k_le.
Proof. intros a b. apply Z_le_dec. Defined.

(** [WHERE project_id = ? AND key_lookup = ? AND revoked_at IS NULL] *)
Definition active_key (project_id : Z) (key_lookup : string) (k : ApiKey) : bool :=
  (k_project_id k =? project_id) && String.eqb (k_key_lookup k) key_lookup &&
  is_null (k_revoked_at k).

Definition revoke_key (now : Z) (k : ApiKey) : ApiKey :=
  mkApiKey (k_id k) (k_project_id k) (k_key_lookup k) (k_key_hash k) (k_role k)
    (k_label k) (k_created_at k) (Some now).

Definition t_le (a b : AdminToken) : Prop := t_id a <= t_id b.
#[export] Instance t_le_dec : RelDecision t_le.
Proof. intros a b. apply Z_le_dec. Defined.

Definition active_token (lookup : string) (k : AdminToken) : bool :=
  String.eqb (t_token_lookup k) lookup && is_null (t_revoked_at k).

Definition revoke_token (now : Z) (k : AdminToken) : AdminToken :=
  mkAdminToken (t_id k) (t_token_lookup k) (t_token_hash k) (t_label k) (t_created_at k) (Some now).

Section credentials_repo.
Context {env : Env}.

Definition ApiKeys_create (project_id : Z) (key_lookup key_hash : string) (role : Role)
    (label : option string) : M CoreError Tables ApiKey :=
  let* now := now_unix in
  let* id := sql (exec (λ n t,
    match alloc_id (seq_api_keys t) n with
    | inl x => inl x
    | inr id =>
        if negb (is_null (select_one (λ k, String.eqb (k_key_lookup k) key_lookup) (api_keys t)))
        then inl (err_unique "api_keys.key_lookup")
        else if is_null (projects t !! project_id) then inl err_foreign_key
        else
          let k := mkApiKey id project_id key_lookup key_hash role label now None in
          inr (id, set_api_keys (<[id:=k]> (api_keys t)) id t)
    end)) in
  ret (mkApiKey id project_id key_lookup key_hash role label now None).

Definition ApiKeys_find_active_by_lookup (project_id : Z) (key_lookup : string)
    : M CoreError Tables (option ApiKey) :=
  sql (query (λ t, select_one (active_key project_id key_lookup) (api_keys t))).

(** [SELECT .. WHERE project_id = ? ORDER BY id] *)
Definition ApiKeys_list (project_id : Z) : M CoreError Tables (list ApiKey) :=
  sql (query (λ t, merge_sort k_le (select (λ k, k_project_id k =? project_id) (api_keys t)))).

Definition ApiKeys_revoke (project_id id : Z) : M CoreError Tables unit :=
  let* now := now_unix in
  let* rows_affected := sql (exec (λ _ t,
    match api_keys t !! id with
    | Some k =>
        if (k_project_id k =? project_id) && is_null (k_revoked_at k)
        then inr (1, set_api_keys (<[id:=revoke_key now k]> (api_keys t)) (seq_api_keys t) t)
        else inr (0, t)
    | None => inr (0, t)
    end)) in
  if rows_affected =? 0 then throw (NotFound ("api_key " +:+ pretty id)) else ret tt.

(** ** Admin tokens *)

Definition AdminTokens_create (token_lookup token_hash : string) (label : option string)
    : M CoreError Tables AdminToken :=
  let* now := now_unix in
  let* id := sql (exec (λ n t,
    match alloc_id (seq_admin_tokens t) n with
    | inl x => inl x
    | inr id =>
        if negb (is_null (select_one (λ k, String.eqb (t_token_lookup k) token_lookup) (admin_tokens t)))
        then inl (err_unique "admin_tokens.token_lookup")
        else
          let k := mkAdminToken id token_lookup token_hash label now None in
          inr (id, set_admin_tokens (<[id:=k]> (admin_tokens t)) id t)
    end)) in
  ret (mkAdminToken id token_lookup token_hash label now None).

Definition AdminTokens_find_active_by_lookup (lookup : string)
    : M CoreError Tables (option AdminToken) :=
  sql (query (λ t, select_one (active_token lookup) (admin_tokens t))).

Definition AdminTokens_list : M CoreError Tables (list AdminToken) :=
  sql (query (λ t, merge_sort t_le (rows (admin_tokens t)))).

Definition AdminTokens_revoke (id : Z) : M CoreError Tables unit :=
  let* now := now_unix in
  let* rows_affected := sql (exec (λ _ t,
    match admin_tokens t !! id with
    | Some k =>
        if is_null (t_revoked_at k)
        then inr (1, set_admin_tokens (<[id:=revoke_token now k]> (admin_tokens t)) (seq_admin_tokens t) t)
        else inr (0, t)
    | None => inr (0, t)
    end)) in
  if rows_affected =? 0 then throw (NotFound ("admin_token " +:+ pretty id)) else ret tt.
End credentials_repo.

(** ** Specifications *)

Section credentials_spec.
Context {env : Env}.

Definition key_lookup_taken (t : Tables) (lookup : string) : Prop :=
  ∃ i k, api_keys t !! i = Some k ∧ k_key_lookup k = lookup.
Definition token_lookup_taken (t : Tables) (lookup : string) : Prop :=
  ∃ i k, admin_tokens t !! i = Some k ∧ t_token_lookup k = lookup.

Lemma is_null_None {A} (o : option A) : is_null o = true ↔ o = None.
Proof. by destruct o. Qed.

Lemma select_one_taken {A} (f : A → string) (m : gmap Z A) s :
  match select_one (λ k, String.eqb (f k) s) m with
  | Some _ => ∃ i k, m !! i = Some k ∧ f k = s
  | None => ¬ ∃ i k, m !! i = Some k ∧ f k = s
  end.
Proof.
  destruct (select_one _ m) as [k|] eqn:Hsel.
  - apply select_one_Some in Hsel as [Hk%String.eqb_eq [i Hi]]. eauto.
  - intros (i & k & Hi & Hk). apply select_one_None with (i:=i) (x:=k) in Hsel; [|done].
    by apply String.eqb_neq in Hsel.
Qed.

Definition key_create_err (t : Tables) (project_id : Z) (lookup : string) (e : CoreError) : Prop :=
  e = Database err_full ∨
  (e = Database (err_unique "api_keys.key_lookup") ∧ key_lookup_taken t lookup) ∨
  (e = Database err_foreign_key ∧ projects t !! project_id = None).

Lemma ApiKeys_create_spec t project_id lookup hash role label :
  wp (ApiKeys_create project_id lookup hash role label)
    (outcome t (λ k t', ∃ id now, clock_reading now ∧ seq_api_keys t < id <= i64_max ∧
         k = mkApiKey id project_id lookup hash role label now None ∧
         ¬ key_lookup_taken t lookup ∧ is_Some (projects t !! project_id) ∧
         t' = set_api_keys (<[id:=k]> (api_keys t)) id t)
       (key_create_err t project_id lookup)) t.
Proof.
  unfold ApiKeys_create, key_create_err. db_go.
  pose proof (select_one_taken k_key_lookup (api_keys t) lookup) as Htaken.
  destruct (alloc_id (seq_api_keys t) n) as [x|id] eqn:Hid.
  { unfold alloc_id in Hid. case_match; simplify_eq/=. eauto. }
  apply alloc_id_spec in Hid.
  destruct (select_one _ _); simpl; [by eauto 6|].
  destruct (projects t !! project_id) as [p|]; simpl; [|by eauto 6].
  apply wp_ret. simpl. exists id, now. split_and!; by eauto || lia.
Qed.

Lemma ApiKeys_find_active_spec t project_id lookup :
  wp (ApiKeys_find_active_by_lookup project_id lookup)
    (outcome t (λ o t', t' = t ∧ o = select_one (active_key project_id lookup) (api_keys t))
       (λ _, False)) t.
Proof. unfold ApiKeys_find_active_by_lookup. db_go. done. Qed.

Definition revocable (t : Tables) (project_id id : Z) (k : ApiKey) : Prop :=
  api_keys t !! id = Some k ∧ k_project_id k = project_id ∧ k_revoked_at k = None.

Lemma ApiKeys_revoke_spec t project_id id :
  wp (ApiKeys_revoke project_id id)
    (outcome t (λ _ t', ∃ k now, revocable t project_id id k ∧
         t' = set_api_keys (<[id:=revoke_key now k]> (api_keys t)) (seq_api_keys t) t)
       (λ e, e = NotFound ("api_key " +:+ pretty id) ∧ ∀ k, ¬ revocable t project_id id k)) t.
Proof.
  unfold ApiKeys_revoke, revocable. db_go.
  destruct (api_keys t !! id) as [k|] eqn:Hk; simpl; db_go.
  - destruct (Z.eqb_spec (k_project_id k) project_id) as [Hp|Hp]; simpl.
    + destruct (k_revoked_at k) eqn:Hr; simpl; db_go; [|by eauto 10].
      split; [|done]. right. split; [done|]. intros k' (? & ? & ?). congruence.
    + db_go. split; [|done]. right. split; [done|]. intros k' (? & ? & ?). congruence.
  - split; [|done]. right. split; [done|]. by intros k' (? & _).
Qed.

Lemma AdminTokens_create_spec t lookup hash label :
  wp (AdminTokens_create lookup hash label)
    (outcome t (λ k t', ∃ id now, clock_reading now ∧ seq_admin_tokens t < id <= i64_max ∧
         k = mkAdminToken id lookup hash label now None ∧ ¬ token_lookup_taken t lookup ∧
         t' = set_admin_tokens (<[id:=k]> (admin_tokens t)) id t)
       (λ e, e = Database err_full ∨
         (e = Database (err_unique "admin_tokens.token_lookup") ∧ token_lookup_taken t lookup))) t.
Proof.
  unfold AdminTokens_create. db_go.
  pose proof (select_one_taken t_token_lookup (admin_tokens t) lookup) as Htaken.
  destruct (alloc_id (seq_admin_tokens t) n) as [x|id] eqn:Hid.
  { unfold alloc_id in Hid. case_match; simplify_eq/=. eauto. }
  apply alloc_id_spec in Hid.
  destruct (select_one _ _); simpl; [by eauto 6|].
  apply wp_ret. simpl. exists id, now. split_and!; by eauto || lia.
Qed.

Lemma AdminTokens_find_active_spec t lookup :
  wp (AdminTokens_find_active_by_lookup lookup)
    (outcome t (λ o t', t' = t ∧ o = select_one (active_token lookup) (admin_tokens t))
       (λ _, False)) t.
Proof. unfold AdminTokens_find_active_by_lookup. db_go. done. Qed.

Lemma AdminTokens_revoke_spec t id :
  wp (AdminTokens_revoke id)
    (outcome t (λ _ t', ∃ k now, admin_tokens t !! id = Some k ∧ t_revoked_at k = None ∧
         t' = set_admin_tokens (<[id:=revoke_token now k]> (admin_tokens t)) (seq_admin_tokens t) t)
       (λ e, e = NotFound ("admin_token " +:+ pretty id) ∧
         ∀ k, admin_tokens t !! id = Some k → is_Some (t_revoked_at k))) t.
Proof.
  unfold AdminTokens_revoke. db_go.
  destruct (admin_tokens t !! id) as [k|] eqn:Hk; simpl; db_go.
  - destruct (t_revoked_at k) eqn:Hr; simpl; db_go; [|by eauto 10].
    split; [|done]. right. split; [done|]. intros k' [= <-]. by rewrite Hr.
  - split; [|done]. right. split; [done|]. by intros k' ?.
Qed.
End credentials_spec.

(** ** Invariants *)

Lemma schema_set_api_keys t m sq :
  schema_ok t → ids_ok k_id m sq → unique_on k_key_lookup m →
  (∀ i k, m !! i = Some k → is_Some (projects t !! k_project_id k)) →
  schema_ok (set_api_keys m sq t).
Proof. intros [] Hids Hu Hfk. by split. Qed.

Lemma schema_create_key t id project_id lookup hash role label now :
  schema_ok t → seq_api_keys t < id <= i64_max → ¬ key_lookup_taken t lookup →
  is_Some (projects t !! project_id) →
  schema_ok (set_api_keys
    (<[id:=mkApiKey id project_id lookup hash role label now None]> (api_keys t)) id t).
Proof.
  intros Hok Hid Hfree Hp. apply schema_set_api_keys; [done| | |].
  - eapply ids_ok_insert; [by apply so_api_keys|done..].
  - apply unique_on_insert; [by apply so_key_lookup|]. simpl.
    intros j k Hj _ Heq. apply Hfree. by exists j, k.
  - intros i k [[<- <-]|[_ Hi]]%lookup_insert_Some; [done|by eapply so_key_project].
Qed.

Lemma schema_revoke_key t id k now :
  schema_ok t → api_keys t !! id = Some k →
  schema_ok (set_api_keys (<[id:=revoke_key now k]> (api_keys t)) (seq_api_keys t) t).
Proof.
  intros Hok Hk. apply schema_set_api_keys; [done| | |].
  - eapply ids_ok_update; [by apply so_api_keys|done..].
  - eapply unique_on_update; [by apply so_key_lookup|done..].
  - intros i k' [[<- <-]|[_ Hi]]%lookup_insert_Some; simpl; by eapply so_key_project.
Qed.

Lemma schema_set_admin_tokens t m sq :
  schema_ok t → ids_ok t_id m sq → unique_on t_token_lookup m →
  schema_ok (set_admin_tokens m sq t).
Proof. intros [] Hids Hu. by split. Qed.

Lemma schema_create_token t id lookup hash label now :
  schema_ok t → seq_admin_tokens t < id <= i64_max → ¬ token_lookup_taken t lookup →
  schema_ok (set_admin_tokens
    (<[id:=mkAdminToken id lookup hash label now None]> (admin_tokens t)) id t).
Proof.
  intros Hok Hid Hfree. apply schema_set_admin_tokens; [done| |].
  - eapply ids_ok_insert; [by apply so_admin_tokens|done..].
  - apply unique_on_insert; [by apply so_token_lookup|]. simpl.
    intros j k Hj _ Heq. apply Hfree. by exists j, k.
Qed.

Lemma schema_revoke_token t id k now :
  schema_ok t → admin_tokens t !! id = Some k →
  schema_ok (set_admin_tokens (<[id:=revoke_token now k]> (admin_tokens t)) (seq_admin_tokens t) t).
Proof.
  intros Hok Hk. apply schema_set_admin_tokens; [done| |].
  - eapply ids_ok_update; [by apply so_admin_tokens|done..].
  - eapply unique_on_update; [by apply so_token_lookup|done..].
Qed.
