(* ===== verification/Stats.v ===== *)
(** * Counters and audit log

    [crates/marmotte-core/src/db/stats.rs].  [audit_since] returns the rows; the JSON
    it builds from them is [Admin.audit_row_to_json], and an audit detail is kept as
    its rendered text. *)
From stdpp Require Import base numbers list strings gmap sorting.
From Stdlib Require Import ZArith Lia.
From S2P Require Import Prelude Models Db Blobs.

(** The conflict target [(project_id, kind, bucket_day)]: SQLite never considers
    a NULL equal to another NULL in a UNIQUE or PRIMARY KEY constraint. *)
Definition same_bucket (project_id : option Z) (kind : string) (bucket : Z) (r : StatRow) : bool :=
  match project_id, sr_project_id r with
  | Some p, Some q => p =? q
  | _, _ => false
  end && String.eqb (sr_kind r) kind && (sr_bucket_day r =? bucket).

(** The sums are unbounded; SQLite would turn one beyond 2^63 into a REAL. *)
Definition add_to_row (count bytes : Z) (r : StatRow) : StatRow :=
  mkStatRow (sr_project_id r) (sr_kind r) (sr_bucket_day r) (sr_count r + count) (sr_bytes r + bytes).

(** [INSERT .. ON CONFLICT DO UPDATE SET count = count + excluded.count, ..]:
    at most one row is in conflict. *)
Fixpoint bump_row (project_id : option Z) (kind : string) (bucket count bytes : Z)
    (l : list StatRow) : list StatRow :=
  match l with
  | [] => [mkStatRow project_id kind bucket count bytes]
  | r :: l' =>
      if same_bucket project_id kind bucket r then add_to_row count bytes r :: l'
      else r :: bump_row project_id kind bucket count bytes l'
  end.

(** [WHERE kind = ? AND bucket_day >= ? AND (? IS NULL OR project_id = ?)] *)
Definition stat_matches (project_id : option Z) (kind : string) (since_day : Z) (r : StatRow) : bool :=
  String.eqb (sr_kind r) kind && (since_day <=? sr_bucket_day r) &&
  match project_id with
  | None => true
  | Some p => match sr_project_id r with Some q => q =? p | None => false end
  end.

Definition ts_ge (a b : AuditRow) : Prop := ar_timestamp b <= ar_timestamp a.
#[export] Instance ts_ge_dec : RelDecision ts_ge.
Proof. intros a b. apply Z_le_dec. Defined.

Section stats_repo.
Context {env : Env}.

Definition Stats_bump (project_id : option Z) (kind : string) (count bytes : Z)
    : M CoreError Tables unit :=
  let* now := now_unix in
  let bucket := Z.quot now 86400 in
  sql (exec (λ _ t,
    match project_id with
    | Some p =>
        if bool_decide (is_Some (projects t !! p))
        then inr (tt, set_stats_counters (bump_row project_id kind bucket count bytes (stats_counters t)) t)
        else inl err_foreign_key
    | None => inr (tt, set_stats_counters (bump_row project_id kind bucket count bytes (stats_counters t)) t)
    end)).

Definition Stats_sum (project_id : option Z) (kind : string) (since_day : Z)
    : M CoreError Tables (Z * Z) :=
  sql (exec (λ _ t,
    let l := List.filter (stat_matches project_id kind since_day) (stats_counters t) in
    match sql_sum (sr_count <$> l), sql_sum (sr_bytes <$> l) with
    | inr c, inr b => inr ((c, b), t)
    | inl x, _ | _, inl x => inl x
    end)).

Definition Stats_audit (actor_token : option string) (action : string) (target : option string)
    (detail : option string) : M CoreError Tables unit :=
  let* now := now_unix in
  sql (exec (λ n t,
    match alloc_id (seq_audit_log t) n with
    | inl x => inl x
    | inr id =>
        inr (tt, set_audit_log (audit_log t ++ [mkAuditRow id now actor_token action target detail]) id t)
    end)).

(** [WHERE timestamp >= ? ORDER BY timestamp DESC LIMIT ?] *)
Definition Stats_audit_since (since_ts limit : Z) : M CoreError Tables (list AuditRow) :=
  sql (query_scan audit_log
    (λ l, sql_limit limit (merge_sort ts_ge (List.filter (λ r, since_ts <=? ar_timestamp r) l)))).
End stats_repo.

(** ** Specifications *)

Definition stat_total (f : StatRow → Z) (t : Tables) (project_id : option Z) (kind : string)
    (since_day : Z) : Z :=
  zsum (f <$> List.filter (stat_matches project_id kind since_day) (stats_counters t)).

(** Whether a bump for [p] on day [bucket] counts in the sum asked for by [q]. *)
Definition bump_counts (p : option Z) (bucket : Z) (q : option Z) (since_day : Z) : bool :=
  (since_day <=? bucket) &&
  match q with
  | None => true
  | Some q' => match p with Some p' => p' =? q' | None => false end
  end.

Lemma bump_row_total (f : StatRow → Z) p kind bucket count bytes q since_day d l :
  (∀ r, f (add_to_row count bytes r) = f r + d) →
  f (mkStatRow p kind bucket count bytes) = d →
  zsum (f <$> List.filter (stat_matches q kind since_day) (bump_row p kind bucket count bytes l)) =
  zsum (f <$> List.filter (stat_matches q kind since_day) l) +
  (if bump_counts p bucket q since_day then d else 0).
Proof.
  intros Hadd Hnew. induction l as [|r l IH]; simpl.
  - unfold stat_matches, bump_counts. simpl. rewrite String.eqb_refl. simpl.
    destruct (_ && _); csimpl; unfold zsum; simpl; rewrite ?Hnew; lia.
  - destruct (same_bucket p kind bucket r) eqn:Hsame; simpl.
    + assert (stat_matches q kind since_day (add_to_row count bytes r)
              = stat_matches q kind since_day r) as -> by done.
      assert (stat_matches q kind since_day r = bump_counts p bucket q since_day) as ->.
      { unfold same_bucket in Hsame. unfold stat_matches, bump_counts.
        apply andb_prop in Hsame as [[Hp Hk]%andb_prop Hb].
        apply Z.eqb_eq in Hb as ->. rewrite Hk. simpl.
        destruct p as [p|], (sr_project_id r) as [p'|]; try done.
        by apply Z.eqb_eq in Hp as ->. }
      destruct (bump_counts p bucket q since_day); csimpl; [|lia].
      unfold zsum. simpl. rewrite Hadd. lia.
    + destruct (stat_matches q kind since_day r); csimpl; [|done].
      unfold zsum in *. simpl. rewrite IH. lia.
Qed.

Definition bumped (p : option Z) (kind : string) (bucket count bytes : Z) (t : Tables) : Tables :=
  set_stats_counters (bump_row p kind bucket count bytes (stats_counters t)) t.

Lemma bump_row_elem p kind bucket count bytes l r :
  r ∈ bump_row p kind bucket count bytes l →
  sr_project_id r = p ∨ ∃ r', r' ∈ l ∧ sr_project_id r = sr_project_id r'.
Proof.
  induction l as [|r' l IH]; simpl.
  - intros ->%list_elem_of_singleton. by left.
  - destruct (same_bucket p kind bucket r').
    + intros [->|Hr]%elem_of_cons; right; [exists r'|exists r]; (split; [set_solver|done]).
    + intros [->|Hr]%elem_of_cons; [right; exists r'; set_solver|].
      destruct (IH Hr) as [?|(r2 & ? & ?)]; [by left|right; exists r2; set_solver].
Qed.

Section stats_spec.
Context {env : Env}.

Lemma Stats_bump_spec t p kind count bytes :
  wp (Stats_bump p kind count bytes)
    (outcome t (λ _ t', ∃ now, clock_reading now ∧
         (∀ p', p = Some p' → is_Some (projects t !! p')) ∧
         t' = bumped p kind (Z.quot now 86400) count bytes t)
       (λ e, e = Database err_foreign_key ∧ ∃ p', p = Some p' ∧ projects t !! p' = None)) t.
Proof.
  unfold Stats_bump, bumped. db_go. destruct p as [p|]; simpl; [|by exists now].
  case_bool_decide as Hp; simpl.
  - exists now. split_and!; [done| |done]. by intros p' [= <-].
  - apply eq_None_not_Some in Hp. eauto 8.
Qed.

Lemma Stats_sum_spec t q kind since_day :
  wp (Stats_sum q kind since_day)
    (outcome t (λ cb t', t' = t ∧
         cb = (stat_total sr_count t q kind since_day, stat_total sr_bytes t q kind since_day))
       (λ e, e = Database err_overflow)) t.
Proof.
  unfold Stats_sum. db_go. unfold sql_sum, stat_total. repeat case_match; simplify_eq/=; eauto.
Qed.

Lemma Stats_audit_spec t actor action target detail :
  wp (Stats_audit actor action target detail)
    (outcome t (λ _ t', ∃ id now, clock_reading now ∧ seq_audit_log t < id <= i64_max ∧
         t' = set_audit_log (audit_log t ++ [mkAuditRow id now actor action target detail]) id t)
       (λ e, e = Database err_full)) t.
Proof.
  unfold Stats_audit. db_go. destruct (alloc_id (seq_audit_log t) n) as [x|id] eqn:Hid.
  - unfold alloc_id in Hid. case_match; simplify_eq/=. eauto.
  - apply alloc_id_spec in Hid. simpl. eauto 6.
Qed.
End stats_spec.

Lemma schema_bumped t p kind bucket count bytes :
  schema_ok t → (∀ p', p = Some p' → is_Some (projects t !! p')) →
  schema_ok (bumped p kind bucket count bytes t).
Proof.
  intros [] Hp. split; simpl; try assumption.
  intros r q Hr Hq. apply bump_row_elem in Hr as [Heq|(r' & Hr' & Heq)];
    rewrite Heq in Hq; eauto.
Qed.

Lemma schema_set_audit_log t l sq : schema_ok t → schema_ok (set_audit_log l sq t).
Proof. intros []. by split. Qed.

(** Without a project there is never a conflict. *)
Lemma bump_row_no_project kind bucket count bytes l :
  bump_row None kind bucket count bytes l = l ++ [mkStatRow None kind bucket count bytes].
Proof. induction l as [|r l IH]; simpl; [done|]. by rewrite IH. Qed.

(** ** Theorems *)

(** A bump adds its count and bytes to every sum that covers its project, kind
    and day, and to no other sum over that kind; the schema constraints hold on,
    and a failing bump changes nothing. *)
Theorem bump_adds_to_sums `{!Env} p kind count bytes t n r t' n' :
  schema_ok t → Stats_bump p kind count bytes t n = (r, t', n') →
  schema_ok t' ∧
  match r with
  | Ok _ => ∃ now, clock_reading now ∧ ∀ q since_day,
      let counts := bump_counts p (Z.quot now 86400) q since_day in
      stat_total sr_count t' q kind since_day =
        stat_total sr_count t q kind since_day + (if counts then count else 0) ∧
      stat_total sr_bytes t' q kind since_day =
        stat_total sr_bytes t q kind since_day + (if counts then bytes else 0)
  | Err e => t' = t ∧ (db_fault e ∨ ∃ p', p = Some p' ∧ projects t !! p' = None)
  | Stop _ => False
  end.
Proof.
  intros Hok Hrun. pose proof (wp_run _ _ _ _ _ _ _ (Stats_bump_spec t p kind count bytes) Hrun) as Hr.
  destruct r as [[]|e|w]; simpl in Hr; [| |done].
  - destruct Hr as (now & Hnow & Hp & ->). split; [by apply schema_bumped|].
    exists now. split; [done|]. intros q since_day. unfold stat_total, bumped. simpl.
    split; by apply bump_row_total.
  - destruct Hr as [[He|[_ He]] ->]; auto.
Qed.
