(* ===== verification/Storage.v ===== *)
(** * Content-addressed blob store

    [crates/marmotte-core/src/storage.rs].  The file system under the storage root is a map from paths (lists of components) to
    contents, with the set of existing directories.  SHA-256 is a parameter: all
    that is used is that its rendering is 64 lowercase hexadecimal digits. *)
From stdpp Require Import base numbers list strings gmap.
From Stdlib Require Import ZArith Lia Init.Byte.
From S2P Require Import Prelude Models.

(** ** File system *)

Abbreviation path := (list string).
Abbreviation bytes := (list byte).

Record Fs := mkFs { fs_files : gmap path bytes; fs_dirs : gset path }.

Definition set_files (m : gmap path bytes) (fs : Fs) : Fs := mkFs m (fs_dirs fs).

(** What the operating system decides: an operation may fail (a failing write
    may have written a prefix), and fresh UUIDs. *)
Class FsEnv := mkFsEnv {
  fs_fault : nat → option (IoError * nat);
  fs_uuid : nat → string
}.

Definition is_hex_lower (a : Ascii.ascii) : bool :=
  let n := Ascii.nat_of_ascii a in
  ((48 <=? n) && (n <=? 57))%nat || ((97 <=? n) && (n <=? 102))%nat.
(** [char::is_ascii_hexdigit] accepts both cases. *)
Definition is_ascii_hexdigit (a : Ascii.ascii) : bool :=
  let n := Ascii.nat_of_ascii a in
  is_hex_lower a || ((65 <=? n) && (n <=? 70))%nat.

Definition is_hash (s : string) : bool :=
  (String.length s =? 64)%nat && forall_chars is_hex_lower s.

(** [hex::encode(Sha256::digest(bytes))] *)
Class Sha256 := mkSha256 {
  sha256_hex : bytes → string;
  sha256_hex_is_hash : ∀ b, is_hash (sha256_hex b) = true
}.

Section fs_ops.
Context {fsenv : FsEnv}.

(** One file-system operation; [part] is the effect of a failing attempt. *)
Definition fs_op {A} (part : nat → Fs → Fs) (op : Fs → IoError + A * Fs) : M IoError Fs A :=
  λ fs n, match fs_fault n with
          | Some (e, k) => (Err e, part k fs, S n)
          | None => match op fs with
                    | inl e => (Err e, fs, S n)
                    | inr (a, fs') => (Ok a, fs', S n)
                    end
          end.
Definition no_part (_ : nat) (fs : Fs) : Fs := fs.

Definition err_not_found : IoError := mkIoError IoNotFound "No such file or directory (os error 2)".

Definition parent (p : path) : path := removelast p.

(** The prefixes of a path, itself included. *)
Fixpoint ancestors (p : path) : list path :=
  match p with
  | [] => [[]]
  | c :: p' => [] :: (cons c <$> ancestors p')
  end.

Definition fs_create_dir_all (p : path) : M IoError Fs unit :=
  fs_op no_part (λ fs,
    if existsb (λ q, bool_decide (is_Some (fs_files fs !! q))) (ancestors p)
    then inl (mkIoError IoOtherKind "Not a directory (os error 20)")
    else inr (tt, mkFs (fs_files fs) (list_to_set (ancestors p) ∪ fs_dirs fs))).

(** [File::create]: truncates an existing file. *)
Definition fs_create (p : path) : M IoError Fs unit :=
  fs_op no_part (λ fs,
    if bool_decide (parent p ∈ fs_dirs fs) && negb (bool_decide (p ∈ fs_dirs fs))
    then inr (tt, set_files (<[p:=[]]> (fs_files fs)) fs)
    else inl err_not_found).

Definition append_to (p : path) (b : bytes) (fs : Fs) : Fs :=
  set_files (alter (λ c, c ++ b) p (fs_files fs)) fs.

Definition fs_write_all (p : path) (b : bytes) : M IoError Fs unit :=
  fs_op (λ k, append_to p (take k b)) (λ fs, inr (tt, append_to p b fs)).

(** [flush] and [sync_all]. *)
Definition fs_flush : M IoError Fs unit := fs_op no_part (λ fs, inr (tt, fs)).
Definition fs_sync_all : M IoError Fs unit := fs_op no_part (λ fs, inr (tt, fs)).

Definition fs_remove_file (p : path) : M IoError Fs unit :=
  fs_op no_part (λ fs,
    match fs_files fs !! p with
    | Some _ => inr (tt, set_files (delete p (fs_files fs)) fs)
    | None => inl err_not_found
    end).

(** rename(2): the target appears at once with the whole content. *)
Definition fs_rename (src dst : path) : M IoError Fs unit :=
  fs_op no_part (λ fs,
    match fs_files fs !! src with
    | Some c =>
        if bool_decide (parent dst ∈ fs_dirs fs)
        then inr (tt, set_files (<[dst:=c]> (delete src (fs_files fs))) fs)
        else inl err_not_found
    | None => inl err_not_found
    end).

(** [File::open]; the handle gives the content, which nobody modifies in place. *)
Definition fs_open (p : path) : M IoError Fs bytes :=
  fs_op no_part (λ fs,
    match fs_files fs !! p with
    | Some c => inr (c, fs)
    | None => inl err_not_found
    end).

(** [Path::exists]: an error counts as absent. *)
Definition fs_exists {E} (p : path) : M E Fs bool :=
  let* r := attempt (fs_op no_part (λ fs,
    inr (bool_decide (is_Some (fs_files fs !! p)) || bool_decide (p ∈ fs_dirs fs), fs))) in
  ret (match r with inr b => b | inl _ => false end).

(** The files and the directories directly in a directory. *)
Definition files_in (dir : path) (fs : Fs) : list path :=
  List.filter (λ p, bool_decide (parent p = dir)) (map_to_list (fs_files fs)).*1.
Definition dirs_in (dir : path) (fs : Fs) : list path :=
  List.filter (λ p, bool_decide (parent p = dir ∧ p ≠ [])) (elements (fs_dirs fs)).

(** [read_dir], the steps of its iterator (of which any may fail, the last one
    included), and [DirEntry::file_type] as far as it tells directories. *)
Definition fs_read_dir (dir : path) : M IoError Fs (list path) :=
  fs_op no_part (λ fs,
    if bool_decide (dir ∈ fs_dirs fs) then inr (files_in dir fs ++ dirs_in dir fs, fs)
    else inl err_not_found).
Definition fs_next_entry : M IoError Fs unit := fs_op no_part (λ fs, inr (tt, fs)).
Definition fs_is_dir (p : path) : M IoError Fs bool :=
  fs_op no_part (λ fs, inr (bool_decide (p ∈ fs_dirs fs), fs)).

Definition new_uuid {E S} : M E S string := λ s n, (Ok (fs_uuid n), s, Datatypes.S n).

Definition io {A} (m : M IoError Fs A) : M CoreError Fs A := map_err Io m.
End fs_ops.

(** ** The store *)

Record Written := mkWritten { w_hash : string; w_size_bytes : Z }.

(** [&s[a..b]]: panics outside the string and inside a UTF-8 sequence. *)
Definition is_char_boundary (s : string) (i : nat) : bool :=
  (i =? 0)%nat || (i =? String.length s)%nat ||
  match String.get i s with
  | Some a => negb ((128 <=? Ascii.nat_of_ascii a) && (Ascii.nat_of_ascii a <? 192))%nat
  | None => false
  end.
Definition slice {E S} (s : string) (a b : nat) : M E S string :=
  if is_char_boundary s a && is_char_boundary s b && (a <=? b)%nat
  then ret (String.substring a (b - a) s) else halt Panicked.

(** Where the blob with a given hash lives. *)
Definition blob_components (hash : string) : path :=
  ["blobs"; String.substring 0 2 hash; String.substring 2 2 hash; hash]%string.

Section store.
Context {fsenv : FsEnv} {sha : Sha256}.
(** The storage root, as [Path::display] shows it. *)
Variable root : string.

Definition display (p : path) : string := root +:+ String.concat EmptyString ((λ c, "/" +:+ c) <$> p).

Definition LocalFsStore_open : M CoreError Fs unit :=
  io (fs_create_dir_all ["blobs"%string]) ;*
  io (fs_create_dir_all ["tmp"%string]) ;*
  let* ents := io (fs_read_dir ["tmp"%string]) in
  foldM (λ _ p,
    io fs_next_entry ;*
    let* _ := attempt (fs_remove_file p) in
    ret tt) tt ents ;*
  io fs_next_entry.

Definition LocalFsStore_blob_path (hex_hash : string) : M CoreError Fs path :=
  let* a := slice hex_hash 0 2 in
  let* b := slice hex_hash 2 4 in
  ret ["blobs"%string; a; b; hex_hash].

(** The loop over the chunks of the body: the bytes hashed so far and their number. *)
Definition write_chunk (tmp : path) (acc : bytes * Z) (chunk : IoError + bytes)
    : M CoreError Fs (bytes * Z) :=
  match chunk with
  | inl e => throw (Io e)
  | inr c =>
      io (fs_write_all tmp c) ;*
      ret (acc.1 ++ c, wrap_i64 (acc.2 + Z.of_nat (length c)))
  end.

Definition LocalFsStore_write_streamed (body : list (IoError + bytes)) : M CoreError Fs Written :=
  let* uuid := new_uuid in
  let tmp := ["tmp"%string; uuid] in
  io (fs_create tmp) ;*
  let* acc := foldM (write_chunk tmp) ([], 0) body in
  io fs_flush ;*
  io fs_sync_all ;*
  let hash := sha256_hex acc.1 in
  let* dest := LocalFsStore_blob_path hash in
  io (fs_create_dir_all (parent dest)) ;*
  let* present := fs_exists dest in
  (if present : bool then
     let* _ := attempt (fs_remove_file tmp) in ret tt
   else
     map_err (λ e, Io (mkIoError (io_kind e) ("rename to " +:+ display dest +:+ ": " +:+ io_message e)))
       (fs_rename tmp dest)) ;*
  ret (mkWritten hash acc.2).

Definition LocalFsStore_read_blob (hash : string) : M CoreError Fs bytes :=
  let* p := LocalFsStore_blob_path hash in
  map_err (λ e, match io_kind e with
                | IoNotFound => NotFound ("blob " +:+ hash)
                | _ => Io e
                end) (fs_open p).

Definition LocalFsStore_delete_blob (hash : string) : M CoreError Fs unit :=
  let* p := LocalFsStore_blob_path hash in
  let* r := attempt (fs_remove_file p) in
  match r with
  | inr _ => ret tt
  | inl e => match io_kind e with
             | IoNotFound => ret tt
             | _ => throw (Io e)
             end
  end.

End store.

(** ** Layout *)

Definition is_tmp (p : path) : Prop := ∃ u, p = ["tmp"%string; u].

(** Every file is an upload in flight or a blob stored under the hash of its
    content; directories never sit where a file belongs, and everything sits in a
    directory. *)
Record store_ok `{!Sha256} (fs : Fs) : Prop := mkStoreOk {
  st_files : ∀ p c, fs_files fs !! p = Some c →
    is_tmp p ∨ ∃ h, p = blob_components h ∧ sha256_hex c = h;
  st_dirs : ∀ p, p ∈ fs_dirs fs →
    p = [] ∨ p = ["tmp"%string] ∨ (head p = Some "blobs"%string ∧ length p ≤ 3)%nat;
  st_parents : ∀ p, is_Some (fs_files fs !! p) ∨ p ∈ fs_dirs fs → parent p ∈ fs_dirs fs
}.

(** What [open] establishes. *)
Definition opened (fs : Fs) : Prop :=
  ["blobs"%string] ∈ fs_dirs fs ∧ ["tmp"%string] ∈ fs_dirs fs.

(** The content of a blob, by hash. *)
Definition blob_at (fs : Fs) (h : string) : option bytes := fs_files fs !! blob_components h.

(** The store without what is under [tmp/]. *)
Definition same_blobs (fs fs' : Fs) : Prop :=
  (∀ p, ¬ is_tmp p → fs_files fs' !! p = fs_files fs !! p) ∧ fs_dirs fs ⊆ fs_dirs fs'.

Section fs_rules.
Context {fsenv : FsEnv}.

Definition fs_faulty (e : IoError) : Prop := ∃ n k, fs_fault n = Some (e, k).

(** No file-system operation fails. *)
Definition fs_quiet : Prop := ∀ n, fs_fault n = None.

Lemma fs_quiet_faulty e : fs_quiet → ¬ fs_faulty e.
Proof. intros Hq (n & k & H). by rewrite (Hq n) in H. Qed.

(** A failure that comes from the operating system. *)
Definition io_fault (e : CoreError) : Prop :=
  ∃ x, fs_faulty x ∧ ∃ msg, e = Io (mkIoError (io_kind x) msg).

Lemma io_fault_intro x : fs_faulty x → io_fault (Io x).
Proof. intros Hx. exists x. split; [done|]. destruct x as [k m]. by exists m. Qed.

Lemma wp_fs_op {A} part (op : Fs → IoError + A * Fs) (Q : res IoError A → Fs → Prop) fs :
  (∀ x k, fs_faulty x → Q (Err x) (part k fs)) →
  match op fs with inl x => Q (Err x) fs | inr (a, fs') => Q (Ok a) fs' end →
  wp (fs_op part op) Q fs.
Proof.
  intros Hf Ho n. unfold fs_op. destruct (fs_fault n) as [[x k]|] eqn:Hx; simpl.
  - apply Hf. by exists n, k.
  - by destruct (op fs) as [x|[a fs']].
Qed.

Lemma wp_io {A} (m : M IoError Fs A) (Q : res CoreError A → Fs → Prop) fs :
  wp m (λ r fs', Q (res_map_err Io r) fs') fs → wp (io m) Q fs.
Proof. apply wp_map_err. Qed.

Lemma wp_new_uuid {E S} (Q : res E string → S → Prop) s :
  (∀ u, Q (Ok u) s) → wp new_uuid Q s.
Proof. intros H n. apply H. Qed.
End fs_rules.

#[export] Hint Resolve io_fault_intro : marmotte.

(** The paths of the store never collide. *)
Lemma blob_not_tmp h : ¬ is_tmp (blob_components h).
Proof. by intros [u Hu]. Qed.

Lemma blob_components_inj h h' : blob_components h = blob_components h' → h = h'.
Proof. by intros [= _ _ ->]. Qed.
#[export] Hint Resolve blob_not_tmp : marmotte.

(** *** Slicing hashes *)

Lemma forall_chars_get p s i a : forall_chars p s = true → String.get i s = Some a → p a = true.
Proof.
  revert i. induction s as [|b s IH]; intros i; simpl; [done|].
  intros [Hb Hs]%andb_prop. destruct i as [|i]; [congruence|eauto].
Qed.

Lemma get_lt s i : (i < String.length s)%nat → ∃ a, String.get i s = Some a.
Proof.
  revert i. induction s as [|b s IH]; intros i; simpl; [lia|].
  destruct i as [|i]; [eauto|]. intros. apply IH. lia.
Qed.

Lemma is_hash_boundary h i : is_hash h = true → (i ≤ 64)%nat → is_char_boundary h i = true.
Proof.
  intros [Hlen Hh]%andb_prop Hi. apply Nat.eqb_eq in Hlen.
  unfold is_char_boundary. rewrite Hlen.
  destruct (Nat.eqb_spec i 64) as [->|Hne]; [by rewrite orb_true_r|].
  destruct (get_lt h i) as [a Ha]; [lia|]. rewrite Ha.
  pose proof (forall_chars_get _ _ _ _ Hh Ha) as Hhex.
  unfold is_hex_lower in Hhex.
  assert (Ascii.nat_of_ascii a < 128)%nat as Hlt.
  { apply orb_prop in Hhex as [Hx|Hx]; apply andb_prop in Hx as [_ Hx];
      apply Nat.leb_le in Hx; lia. }
  apply Nat.leb_gt in Hlt. rewrite Hlt. by rewrite !orb_true_r.
Qed.

Lemma wp_blob_path h (Q : res CoreError path → Fs → Prop) fs :
  is_hash h = true → Q (Ok (blob_components h)) fs → wp (LocalFsStore_blob_path h) Q fs.
Proof.
  intros Hh HQ. unfold LocalFsStore_blob_path, slice.
  rewrite !is_hash_boundary by (done || lia). simpl. by wp_go.
Qed.

(** *** Invariants *)

Section invariants.
Context {fsenv : FsEnv} {sha : Sha256}.

Lemma same_blobs_refl fs : same_blobs fs fs.
Proof. done. Qed.

Lemma same_blobs_trans fs1 fs2 fs3 : same_blobs fs1 fs2 → same_blobs fs2 fs3 → same_blobs fs1 fs3.
Proof.
  intros [H1 Hd1] [H2 Hd2]. split; [|set_solver]. intros p Hp. by rewrite H2, H1.
Qed.

Lemma same_blobs_at fs fs' h : same_blobs fs fs' → blob_at fs' h = blob_at fs h.
Proof. intros [H _]. apply H. auto with marmotte. Qed.

Lemma store_ok_blob fs h c : store_ok fs → blob_at fs h = Some c → sha256_hex c = h.
Proof.
  intros Hok Hc. destruct (st_files _ Hok _ _ Hc) as [Ht|(h' & Hp & Hs)].
  - by apply blob_not_tmp in Ht.
  - by apply blob_components_inj in Hp as ->.
Qed.

#[local] Instance is_tmp_dec p : Decision (is_tmp p).
Proof.
  refine (match p with
          | [d; u] => cast_if (decide (d = "tmp"%string))
          | _ => right _
          end); abstract (try (by intros [? [=]]); subst; by eexists).
Defined.

(** Touching a file under [tmp/] keeps the store. *)
Lemma store_ok_tmp fs fs' :
  store_ok fs → same_blobs fs fs' → fs_dirs fs' = fs_dirs fs →
  (∀ u, is_Some (fs_files fs' !! ["tmp"%string; u]) →
     is_Some (fs_files fs !! ["tmp"%string; u]) ∨ ["tmp"%string] ∈ fs_dirs fs) →
  store_ok fs'.
Proof.
  intros [Hf Hd Hp] [Hs _] Heq Htmp. split.
  - intros p c Hpc. destruct (decide (is_tmp p)) as [?|Hn]; [by left|].
    rewrite Hs in Hpc by done. eauto.
  - by rewrite Heq.
  - intros p. rewrite Heq. intros [Hpc|?]; [|auto].
    destruct (decide (is_tmp p)) as [[u ->]|Hn].
    + destruct (Htmp u Hpc) as [?|?]; [|done]. apply (Hp ["tmp"%string; u]). by left.
    + rewrite Hs in Hpc by done. auto.
Qed.

Lemma same_blobs_tmp_files fs m u :
  (∀ p, p ≠ ["tmp"%string; u] → m !! p = fs_files fs !! p) → same_blobs fs (set_files m fs).
Proof.
  intros Hm. split; [|done]. intros p Hp. apply Hm. intros ->. apply Hp. by exists u.
Qed.

Lemma append_to_tmp fs u b : same_blobs fs (append_to ["tmp"%string; u] b fs).
Proof. apply (same_blobs_tmp_files _ _ u). intros p Hp. by rewrite lookup_alter_ne. Qed.

(** Creating the shard directory of a blob. *)
Definition with_dirs (p : path) (fs : Fs) : Fs :=
  mkFs (fs_files fs) (list_to_set (ancestors p) ∪ fs_dirs fs).

Lemma same_blobs_with_dirs p fs : same_blobs fs (with_dirs p fs).
Proof. split; [done|]. set_solver. Qed.

Lemma ancestors_shard a b q :
  q ∈ ancestors ["blobs"%string; a; b] →
  q = [] ∨ head q = Some "blobs"%string ∧ (length q ≤ 3)%nat.
Proof. simpl. rewrite !elem_of_cons. intros [->|[->|[->|[->|H]]]]; simpl; auto. set_solver. Qed.

Lemma ancestors_parent p q : q ∈ ancestors p → parent q ∈ ancestors p.
Proof.
  revert q. induction p as [|c p IH]; intros q; simpl.
  - intros ->%list_elem_of_singleton. by left.
  - intros [->|(q' & -> & Hq)%list_elem_of_fmap]%elem_of_cons; [by left|].
    destruct q' as [|c' q']; [by left|]. right. apply list_elem_of_fmap. by exists (parent (c' :: q')); auto.
Qed.

Lemma with_dirs_parents d fs :
  (∀ p, is_Some (fs_files fs !! p) ∨ p ∈ fs_dirs fs → parent p ∈ fs_dirs fs) →
  ∀ p, is_Some (fs_files (with_dirs d fs) !! p) ∨ p ∈ fs_dirs (with_dirs d fs) →
    parent p ∈ fs_dirs (with_dirs d fs).
Proof.
  intros Hp p. unfold with_dirs. cbn [fs_dirs fs_files].
  rewrite !elem_of_union, !elem_of_list_to_set.
  intros [?|[?%ancestors_parent|?]]; auto.
Qed.

Lemma store_ok_shard fs a b : store_ok fs → store_ok (with_dirs ["blobs"%string; a; b] fs).
Proof.
  intros [Hf Hd Hp]. split; [done| |by apply with_dirs_parents]. intros p.
  unfold with_dirs. cbn [fs_dirs].
  rewrite elem_of_union, elem_of_list_to_set. intros [Hq|Hq]; [|by auto].
  apply ancestors_shard in Hq. tauto.
Qed.

Lemma store_ok_no_file_above fs a b q :
  store_ok fs → q ∈ ancestors ["blobs"%string; a; b] → fs_files fs !! q = None.
Proof.
  intros [Hf _ _] Hq. apply eq_None_not_Some. intros [c Hc].
  apply ancestors_shard in Hq. destruct (Hf _ _ Hc) as [[u ->]|(h & -> & _)]; simpl in Hq;
    destruct Hq as [Hq|[Hq Hl]]; try done; simpl in Hl; lia.
Qed.

Lemma create_shard_succeeds fs a b :
  store_ok fs →
  existsb (λ q, bool_decide (is_Some (fs_files fs !! q))) (ancestors ["blobs"%string; a; b]) = false.
Proof.
  intros Hok. apply not_true_iff_false. intros (q & Hq & Hc)%existsb_exists.
  apply bool_decide_eq_true in Hc. rewrite <-list_elem_of_In in Hq.
  rewrite (store_ok_no_file_above _ _ _ _ Hok Hq) in Hc. by destruct Hc.
Qed.

Lemma wp_create_shard h fs (Q : res CoreError unit → Fs → Prop) :
  store_ok fs → (∀ e, io_fault e → Q (Err e) fs) →
  Q (Ok tt) (with_dirs (parent (blob_components h)) fs) →
  wp (io (fs_create_dir_all (parent (blob_components h)))) Q fs.
Proof.
  intros Hok Hf HQ. apply wp_io, wp_fs_op.
  - intros x k Hx. apply Hf. auto with marmotte.
  - cbn [parent blob_components removelast]. by rewrite (create_shard_succeeds fs).
Qed.

Lemma store_ok_blob_not_dir fs h : store_ok fs → blob_components h ∉ fs_dirs fs.
Proof.
  intros [_ Hd _] Hin. destruct (Hd _ Hin) as [?|[?|[_ Hl]]]; try done.
  simpl in Hl. lia.
Qed.

Lemma store_ok_insert fs h c :
  store_ok fs → sha256_hex c = h → parent (blob_components h) ∈ fs_dirs fs →
  store_ok (set_files (<[blob_components h:=c]> (fs_files fs)) fs).
Proof.
  intros [Hf Hd Hp] Hh Hdir. split; [|done|].
  - intros p c'; simpl; intros [[<- <-]|[_ Hpc]]%lookup_insert_Some; [right; by exists h|eauto].
  - intros p; simpl. intros [[c' [[<- _]|[_ Hpc]]%lookup_insert_Some]|?]; [done|eauto..].
Qed.

Lemma store_ok_subseteq fs m :
  store_ok fs → m ⊆ fs_files fs → store_ok (set_files m fs).
Proof.
  intros [Hf Hd Hp] Hm. split; [|done|].
  - intros p c Hpc. eapply Hf, lookup_weaken; eauto.
  - intros p [[c Hpc]|?]; apply Hp; [left|by right]. exists c. eapply lookup_weaken; eauto.
Qed.

Lemma store_ok_delete fs p : store_ok fs → store_ok (set_files (delete p (fs_files fs)) fs).
Proof. intros Hok. apply store_ok_subseteq; [done|apply delete_subseteq]. Qed.
End invariants.

(** ** Specifications *)

(** The chunks that arrived before the body ended or failed. *)
Definition body_of (chunks : list bytes) : list (IoError + bytes) := inr <$> chunks.

Section specs.
Context {fsenv : FsEnv} {sha : Sha256}.
Variable root : string.

(** Where a failed upload may leave the store: nothing but [tmp/] and new
    directories changed. *)
Definition write_failed (body : list (IoError + bytes)) (fs : Fs) (e : CoreError) (fs' : Fs) : Prop :=
  (opened fs → (∀ u, ["tmp"%string; u] ∉ fs_dirs fs) →
     io_fault e ∨ ∃ x, inl x ∈ body ∧ e = Io x) ∧
  store_ok fs' ∧ same_blobs fs fs'.

(** A finished upload: the blob is in place, the others are untouched.  An
    existing file with this hash is kept, unless looking for it failed. *)
Definition write_done (content : bytes) (fs : Fs) (w : Written) (fs' : Fs) : Prop :=
  w_hash w = sha256_hex content ∧
  w_size_bytes w = wrap_i64 (Z.of_nat (length content)) ∧
  store_ok fs' ∧
  (∃ c, blob_at fs' (w_hash w) = Some c ∧ (c = content ∨ blob_at fs (w_hash w) = Some c)) ∧
  (∀ h, h ≠ w_hash w → blob_at fs' h = blob_at fs h) ∧
  fs_dirs fs ⊆ fs_dirs fs'.

Lemma wrap_i64_add a b : wrap_i64 (wrap_i64 a + b) = wrap_i64 (a + b).
Proof.
  unfold wrap_i64. f_equal.
  replace ((a + 2 ^ 63) mod 2 ^ 64 - 2 ^ 63 + b + 2 ^ 63)
    with ((a + 2 ^ 63) mod 2 ^ 64 + b) by lia.
  rewrite Zplus_mod_idemp_l. f_equal. lia.
Qed.

(** The chunk loop: the temporary file holds exactly the bytes hashed so far. *)
Lemma write_chunks_spec u body fs (Q : res CoreError (bytes * Z) → Fs → Prop) :
  fs_files fs !! ["tmp"%string; u] = Some [] →
  (∀ chunks m, body = body_of chunks →
     (∀ p, p ≠ ["tmp"%string; u] → m !! p = fs_files fs !! p) →
     m !! ["tmp"%string; u] = Some (concat chunks) →
     Q (Ok (concat chunks, wrap_i64 (Z.of_nat (length (concat chunks))))) (set_files m fs)) →
  (∀ e m, (io_fault e ∨ ∃ x, inl x ∈ body ∧ e = Io x) →
     (∀ p, p ≠ ["tmp"%string; u] → m !! p = fs_files fs !! p) →
     Q (Err e) (set_files m fs)) →
  wp (foldM (write_chunk ["tmp"%string; u]) ([], 0) body) Q fs.
Proof.
  intros Htmp Hok Herr.
  eapply (wp_foldM _ (λ rest acc fs', ∃ done m, body = body_of done ++ rest ∧
    fs' = set_files m fs ∧ acc = (concat done, wrap_i64 (Z.of_nat (length (concat done)))) ∧
    (∀ p, p ≠ ["tmp"%string; u] → m !! p = fs_files fs !! p) ∧
    m !! ["tmp"%string; u] = Some (concat done))).
  - intros acc fs' (chunks & m & -> & -> & -> & Hm & Hc).
    apply Hok; [by rewrite app_nil_r|done..].
  - intros chunk rest acc fs' (chunks & m & Hbody & -> & -> & Hm & Hc).
    assert (∀ b p, p ≠ ["tmp"%string; u] →
      fs_files (append_to ["tmp"%string; u] b (set_files m fs)) !! p = fs_files fs !! p) as Hm'.
    { intros b p Hp. simpl. rewrite lookup_alter_ne by done. auto. }
    unfold write_chunk. destruct chunk as [x|c]; wp_go.
    + apply Herr; [|done]. right. exists x. rewrite Hbody. set_solver.
    + apply wp_io, wp_fs_op.
      * intros x k Hx. apply Herr; [left; auto with marmotte|apply Hm'].
      * simpl. wp_go. exists (chunks ++ [c]). eexists. split; [|split; [done|split; [|split]]].
        -- unfold body_of in *. rewrite fmap_app, <-app_assoc. done.
        -- rewrite concat_app. simpl. rewrite app_nil_r. f_equal.
           by rewrite wrap_i64_add, length_app, Nat2Z.inj_add.
        -- apply Hm'.
        -- simpl. rewrite lookup_alter_eq, Hc. simpl. f_equal.
           rewrite concat_app. simpl. by rewrite app_nil_r.
  - exists [], (fs_files fs). split_and!; try done. by destruct fs.
Qed.
(** Renaming a complete temporary file into its place. *)
Lemma rename_places u content fs fs1 :
  let hash := sha256_hex content in
  let dest := blob_components hash in
  store_ok fs1 → same_blobs fs fs1 → parent dest ∈ fs_dirs fs1 →
  fs_files fs1 !! ["tmp"%string; u] = Some content →
  wp (fs_rename ["tmp"%string; u] dest)
    (λ r fs', match r with
              | Ok _ => write_done content fs (mkWritten hash (wrap_i64 (Z.of_nat (length content)))) fs'
              | Err x => fs_faulty x ∧ fs' = fs1
              | Stop _ => False
              end) fs1.
Proof.
  intros hash dest Hok Hsame Hdir Htmp.
  apply wp_fs_op; [by eauto|]. rewrite Htmp, bool_decide_eq_true_2 by done.
  split_and!; try done; simpl.
  - refine (store_ok_insert (set_files (delete ["tmp"%string; u] (fs_files fs1)) fs1)
      hash content _ eq_refl Hdir).
    apply store_ok_delete; done.
  - exists content. split; [|by left]. apply lookup_insert_eq.
  - intros h Hh. rewrite <-(same_blobs_at fs fs1 h Hsame). unfold blob_at. simpl.
    rewrite lookup_insert_ne, lookup_delete_ne; [done..|].
    intros Heq. apply Hh. by apply blob_components_inj.
  - apply Hsame.
Qed.

(** The final step, from a complete temporary file; [fs] is where the upload started. *)
Lemma write_place_spec u content fs fs1 (Q : res CoreError Written → Fs → Prop) :
  let hash := sha256_hex content in
  let dest := blob_components hash in
  store_ok fs1 → same_blobs fs fs1 → parent dest ∈ fs_dirs fs1 →
  fs_files fs1 !! ["tmp"%string; u] = Some content →
  (∀ e fs', io_fault e → store_ok fs' → same_blobs fs fs' → Q (Err e) fs') →
  (∀ w fs', write_done content fs w fs' → Q (Ok w) fs') →
  wp (let* present := fs_exists dest in
      (if present : bool then
         let* _ := attempt (fs_remove_file ["tmp"%string; u]) in ret tt
       else
         map_err (λ e, Io (mkIoError (io_kind e)
             ("rename to " +:+ display root dest +:+ ": " +:+ io_message e)))
           (fs_rename ["tmp"%string; u] dest)) ;*
      ret (mkWritten hash (wrap_i64 (Z.of_nat (length content))))) Q fs1.
Proof.
  intros hash dest Hok Hsame Hdir Htmp Herr Hdone.
  pose proof (rename_places u content fs fs1 Hok Hsame Hdir Htmp) as Hrename. fold hash dest in Hrename.
  wp_go. unfold fs_exists. wp_go. apply wp_fs_op; simpl.
  - intros x k Hx. wp_go. eapply wp_mono; [exact Hrename|].
    intros [?|x'|?] fs'; simpl; [|intros [? ->]|done].
    + intros Hw. wp_go. by apply Hdone.
    + apply Herr; [|done..]. exists x'. eauto.
  - wp_go. destruct (fs_files fs1 !! dest) as [c|] eqn:Hc; simpl.
    + assert (∀ fs', store_ok fs' → same_blobs fs1 fs' → write_done content fs
        (mkWritten hash (wrap_i64 (Z.of_nat (length content)))) fs') as Hkeep.
      { intros fs' Hok' Hs'. pose proof (same_blobs_trans _ _ _ Hsame Hs') as Hs.
        split_and!; try done; simpl.
        - exists c. split; [by rewrite (same_blobs_at fs1)|right].
          by rewrite <-(same_blobs_at fs fs1).
        - intros h _. by apply same_blobs_at.
        - apply Hs. }
      wp_go. apply wp_fs_op; simpl.
      * intros. wp_go. by apply Hdone, Hkeep.
      * rewrite Htmp. wp_go. apply Hdone, Hkeep.
        -- apply store_ok_delete; done.
        -- refine (same_blobs_tmp_files fs1 (delete ["tmp"%string; u] (fs_files fs1)) u _).
           intros p Hp. by rewrite lookup_delete_ne.
    + rewrite bool_decide_eq_false_2 by (by apply store_ok_blob_not_dir). simpl.
      wp_go. eapply wp_mono; [exact Hrename|].
      intros [?|x'|?] fs'; simpl; [|intros [? ->]|done].
      * intros Hw. wp_go. by apply Hdone.
      * apply Herr; [|done..]. exists x'. eauto.
Qed.

(** Whatever becomes of the temporary file of an upload, the store stays in order. *)
Lemma store_ok_upload fs m u :
  store_ok fs → (∀ p, p ≠ ["tmp"%string; u] → m !! p = fs_files fs !! p) →
  m = fs_files fs ∨ ["tmp"%string] ∈ fs_dirs fs → store_ok (set_files m fs).
Proof.
  intros Hok Hm Hu. eapply store_ok_tmp; [done|by eapply same_blobs_tmp_files|done|].
  intros u'. destruct Hu as [->|?]; auto.
Qed.

Lemma write_streamed_outcome body fs :
  store_ok fs →
  wp (LocalFsStore_write_streamed root body) (λ r fs', match r with
    | Ok w => ∃ chunks, body = body_of chunks ∧ write_done (concat chunks) fs w fs'
    | Err e => write_failed body fs e fs'
    | Stop _ => False
    end) fs.
Proof.
  intros Hok. unfold LocalFsStore_write_streamed. wp_go. apply wp_new_uuid. intros u. wp_go.
  pose proof (λ m, store_ok_upload fs m u Hok) as Hst.
  assert (∀ e m, (io_fault e ∨ ∃ x, inl x ∈ body ∧ e = Io x) →
    (∀ p, p ≠ ["tmp"%string; u] → m !! p = fs_files fs !! p) →
    m = fs_files fs ∨ ["tmp"%string] ∈ fs_dirs fs →
    write_failed body fs e (set_files m fs)) as Hfail.
  { intros e m He Hm Hu. split; [done|]. split; [by apply Hst|by eapply same_blobs_tmp_files]. }
  apply wp_io, wp_fs_op; simpl.
  { intros x k Hx. replace fs with (set_files (fs_files fs) fs) at 2 by (by destruct fs).
    apply Hfail; [left; auto with marmotte|done|by left]. }
  destruct (bool_decide _ && _) eqn:Hcr; simpl.
  2: { split; [|done]. intros Hop Hu. exfalso. apply andb_false_iff in Hcr.
       rewrite bool_decide_eq_false, negb_false_iff, bool_decide_eq_true in Hcr.
       destruct Hcr as [H|H]; [by apply H, Hop|by destruct (Hu u)]. }
  apply andb_prop in Hcr as [Hdir%bool_decide_eq_true _].
  wp_go. apply write_chunks_spec; simpl.
  - apply lookup_insert_eq.
  - intros chunks m Hbody Hm Htmp.
    assert (∀ p, p ≠ ["tmp"%string; u] → m !! p = fs_files fs !! p) as Hm'.
    { intros p Hp. rewrite Hm by done. by rewrite lookup_insert_ne. }
    set (content := concat chunks) in *. set (fs1 := set_files m fs).
    assert (∀ e, io_fault e → write_failed body fs e fs1) as Hfail1 by (intros; apply Hfail; auto).
    do 2 (wp_go; apply wp_io, wp_fs_op; simpl; [intros; apply Hfail1; auto with marmotte|]).
    wp_go. apply wp_blob_path; [apply sha256_hex_is_hash|]. wp_go.
    assert (store_ok fs1) as Hok1.
    { apply Hst; auto. }
    refine (wp_create_shard _ fs1 _ Hok1 _ _); [auto|]. cbv beta iota delta [bind_post].
    eapply (write_place_spec u content fs (with_dirs _ fs1)); try done.
    + by apply store_ok_shard.
    + eapply same_blobs_trans; [|apply same_blobs_with_dirs].
      by apply (same_blobs_tmp_files _ _ u).
    + simpl. set_solver.
    + intros e fs' He Hok' Hs. split; [by auto|done].
    + intros w fs' Hw. by exists chunks.
  - intros e m He Hm. apply Hfail; [done| |by right]. intros p Hp.
    rewrite Hm by done. by rewrite lookup_insert_ne.
Qed.

Lemma read_blob_outcome h fs :
  is_hash h = true →
  wp (LocalFsStore_read_blob h) (λ r fs', fs' = fs ∧ match r with
    | Ok c => blob_at fs h = Some c
    | Err e => (∃ x, fs_faulty x) ∨ e = NotFound ("blob " +:+ h) ∧ blob_at fs h = None
    | Stop _ => False
    end) fs.
Proof.
  intros Hh. unfold LocalFsStore_read_blob. wp_go. apply wp_blob_path; [done|]. wp_go.
  apply wp_fs_op; simpl.
  - intros x k Hx. split; [done|]. left. by exists x.
  - unfold blob_at. destruct (fs_files fs !! blob_components h); simpl; auto.
Qed.

Definition drop_blob_file (h : string) (fs : Fs) : Fs :=
  set_files (delete (blob_components h) (fs_files fs)) fs.

Lemma delete_blob_outcome h fs :
  is_hash h = true →
  wp (LocalFsStore_delete_blob h) (λ r fs', match r with
    | Ok _ => fs' = drop_blob_file h fs ∨ (fs' = fs ∧ ∃ x, fs_faulty x ∧ io_kind x = IoNotFound)
    | Err e => fs' = fs ∧ io_fault e
    | Stop _ => False
    end) fs.
Proof.
  intros Hh. unfold LocalFsStore_delete_blob. wp_go. apply wp_blob_path; [done|]. wp_go.
  apply wp_fs_op; simpl.
  - intros x k Hx. destruct (io_kind x) eqn:Hk; wp_go; auto with marmotte.
    right. split; [done|]. by exists x.
  - unfold drop_blob_file. destruct (fs_files fs !! blob_components h) eqn:Hc; simpl; wp_go; auto.
    left. rewrite delete_id by done. by destruct fs.
Qed.
(** *** Opening *)

Lemma store_ok_top_dir fs d :
  store_ok fs → d = "blobs"%string ∨ d = "tmp"%string →
  existsb (λ q, bool_decide (is_Some (fs_files fs !! q))) (ancestors [d]) = false ∧
  store_ok (with_dirs [d] fs).
Proof.
  intros Hok Hd. split.
  - apply not_true_iff_false. intros (q & Hq & Hc)%existsb_exists.
    apply bool_decide_eq_true in Hc as [c Hc]. rewrite <-list_elem_of_In in Hq.
    simpl in Hq. rewrite !elem_of_cons in Hq.
    destruct (st_files _ Hok _ _ Hc) as [[u ->]|(h & -> & _)];
      destruct Hq as [Hq|[Hq|Hq]]; try done; by apply not_elem_of_nil in Hq.
  - split; [apply Hok| |apply with_dirs_parents, Hok]. intros p. unfold with_dirs. cbn [fs_dirs].
    rewrite elem_of_union, elem_of_list_to_set. simpl. rewrite !elem_of_cons.
    intros [Hp|Hp]; [|by apply (st_dirs _ Hok)].
    destruct Hp as [->|[->|Hn]]; [by left| |by apply not_elem_of_nil in Hn].
    destruct Hd as [->| ->]; [right; right; split; [done|simpl; lia]|by right; left].
Qed.

Lemma wp_create_top d fs (Q : res CoreError unit → Fs → Prop) :
  store_ok fs → d = "blobs"%string ∨ d = "tmp"%string →
  (∀ e, io_fault e → Q (Err e) fs) → Q (Ok tt) (with_dirs [d] fs) →
  wp (io (fs_create_dir_all [d])) Q fs.
Proof.
  intros Hok Hd Hf HQ. apply wp_io, wp_fs_op.
  - intros x k Hx. apply Hf. auto with marmotte.
  - destruct (store_ok_top_dir fs d Hok Hd) as [-> _]. exact HQ.
Qed.

(** What purging has done so far, whether it went on to the end or not. *)
Definition purged (ents : list path) (fs : Fs) (r : res CoreError unit) (fs' : Fs) : Prop :=
  store_ok fs' ∧ same_blobs fs fs' ∧ fs_dirs fs' = fs_dirs fs ∧
  (∀ p, fs_files fs !! p = None → fs_files fs' !! p = None) ∧
  match r with
  | Ok _ => fs_quiet → ∀ p, p ∈ ents → fs_files fs' !! p = None
  | Err e => io_fault e
  | Stop _ => False
  end.

Lemma purged_step u ents fs fs1 r fs' :
  fs1 = fs ∨ fs1 = set_files (delete ["tmp"%string; u] (fs_files fs)) fs →
  (fs_quiet → fs_files fs1 !! ["tmp"%string; u] = None) →
  purged ents fs1 r fs' → purged (["tmp"%string; u] :: ents) fs r fs'.
Proof.
  intros Hfs1 Hgone (Hok' & Hs & Hd & Hn & Hr).
  assert (same_blobs fs fs1 ∧ fs_dirs fs1 = fs_dirs fs ∧
    ∀ p, fs_files fs !! p = None → fs_files fs1 !! p = None) as (Hs1 & Hd1 & Hn1).
  { destruct Hfs1 as [->| ->]; [done|]. split_and!; [|done|].
    - apply (same_blobs_tmp_files _ _ u). intros p Hp. by rewrite lookup_delete_ne.
    - intros p Hp. cbn [set_files fs_files]. by apply lookup_delete_None; right. }
  split_and!; [done|by eapply same_blobs_trans|congruence|auto|].
  destruct r as [[]|e|w]; [|done..]. intros Hq p [->|Hp]%elem_of_cons; auto.
Qed.

Lemma purge_tmp_spec ents fs :
  store_ok fs → Forall is_tmp ents →
  wp (foldM (λ _ p, io fs_next_entry ;* let* _ := attempt (F := CoreError) (fs_remove_file p) in ret tt)
        tt ents) (purged ents fs) fs.
Proof.
  intros Hok Hents. revert fs Hok. induction Hents as [|p ents [u ->] _ IH]; intros fs Hok; simpl.
  { apply wp_ret. split_and!; try done. set_solver. }
  wp_go. apply wp_io, wp_fs_op; simpl; [intros x k Hx; split_and!; auto with marmotte; done|].
  wp_go. apply wp_fs_op; simpl.
  - intros x k Hx. wp_go. wp_use IH; [done|]. intros r fs'. apply purged_step; [by left|].
    intros Hquiet. by apply fs_quiet_faulty in Hx.
  - destruct (fs_files fs !! ["tmp"%string; u]) as [c|] eqn:Hc; wp_go.
    + wp_use (IH (set_files (delete ["tmp"%string; u] (fs_files fs)) fs)); [by apply store_ok_delete|].
      intros r fs'. apply purged_step; [by right|]. intros _. apply lookup_delete_eq.
    + wp_use IH; [done|]. intros r fs'. apply purged_step; [by left|done].
Qed.

Lemma elem_of_files_in dir fs p :
  p ∈ files_in dir fs ↔ parent p = dir ∧ is_Some (fs_files fs !! p).
Proof.
  unfold files_in. rewrite list_elem_of_In, List.filter_In, <-list_elem_of_In, list_elem_of_fmap.
  rewrite bool_decide_eq_true. split.
  - intros [([p' c] & -> & Hp%elem_of_map_to_list) Hd]. split; [done|by exists c].
  - intros [Hd [c Hc]]. split; [|done]. exists (p, c). by rewrite elem_of_map_to_list.
Qed.

Lemma elem_of_dirs_in dir fs p :
  p ∈ dirs_in dir fs ↔ parent p = dir ∧ p ≠ [] ∧ p ∈ fs_dirs fs.
Proof.
  unfold dirs_in. rewrite list_elem_of_In, List.filter_In, <-list_elem_of_In, elem_of_elements.
  rewrite bool_decide_eq_true. tauto.
Qed.

Lemma open_outcome fs :
  store_ok fs →
  wp LocalFsStore_open (λ r fs', store_ok fs' ∧ same_blobs fs fs' ∧
    match r with
    | Ok _ => opened fs' ∧ (fs_quiet → ∀ p, is_tmp p → fs_files fs' !! p = None)
    | Err e => io_fault e
    | Stop _ => False
    end) fs.
Proof.
  intros Hok. unfold LocalFsStore_open. wp_step.
  apply wp_create_top; [done|by left|by intros|]. wp_go.
  destruct (store_ok_top_dir fs "blobs" Hok) as [_ Hok1]; [by left|].
  assert (same_blobs fs (with_dirs ["tmp"%string] (with_dirs ["blobs"%string] fs))) as Hs2.
  { eapply same_blobs_trans; apply same_blobs_with_dirs. }
  apply wp_create_top; [done|by right|intros e He; split_and!; [done|apply same_blobs_with_dirs|done]|].
  destruct (store_ok_top_dir _ "tmp" Hok1) as [_ Hok2]; [by right|].
  set (fs2 := with_dirs ["tmp"%string] (with_dirs ["blobs"%string] fs)) in *. wp_go.
  apply wp_io, wp_fs_op; simpl; [by eauto with marmotte|].
  rewrite bool_decide_eq_true_2 by (unfold fs2; simpl; set_solver). wp_go.
  assert (∀ p, p ∈ files_in ["tmp"%string] fs2 ↔ is_tmp p ∧ is_Some (fs_files fs2 !! p)) as Htmp.
  { intros p. rewrite elem_of_files_in. split.
    - intros [Hd [c Hc]]. split; [|by exists c].
      destruct (st_files _ Hok2 _ _ Hc) as [?|(h & -> & _)]; done.
    - by intros [[u ->] Hc]. }
  assert (dirs_in ["tmp"%string] fs2 = []) as ->.
  { apply elem_of_nil_inv. intros p (Hp & Hne & Hin)%elem_of_dirs_in.
    destruct (st_dirs _ Hok2 _ Hin) as [?|[?|[Hh _]]]; [done|by subst|].
    destruct p as [|c [|d p]]; [done|done|]. injection Hp as -> _. discriminate Hh. }
  rewrite app_nil_r.
  wp_use purge_tmp_spec; [done|apply Forall_forall; intros p Hp; by apply Htmp|].
  intros r fs' (Hok' & Hs & Hd & Hn & Hr). pose proof (same_blobs_trans _ _ _ Hs2 Hs) as Hs'.
  destruct r as [[]|e|w]; simpl; [|done|done]. wp_go.
  apply wp_io, wp_fs_op; simpl; [intros; split_and!; auto with marmotte|].
  split; [done|]. split; [done|]. split.
  { unfold opened. rewrite Hd. unfold fs2. simpl. set_solver. }
  intros Hquiet p Hp. destruct (fs_files fs2 !! p) eqn:Hpf; [|by apply Hn].
  apply Hr; [done|]. apply Htmp. by rewrite Hpf.
Qed.
End specs.

(** Directories never sit where an upload puts its file. *)
Lemma tmp_not_dir `{!Sha256} fs u : store_ok fs → ["tmp"%string; u] ∉ fs_dirs fs.
Proof. intros [_ Hd _] [?|[?|[? _]]]%Hd; done. Qed.

(** ** Theorems *)

(** C24: a finished upload is content-addressed: the hash and size reported are
    those of the bytes received, the file under that hash holds these bytes (or
    the ones that were already stored under the same hash), every other blob is
    as before, and the layout invariant holds. *)
Theorem write_streamed_stores `{!FsEnv, !Sha256} root body fs n w fs' n' :
  store_ok fs → LocalFsStore_write_streamed root body fs n = (Ok w, fs', n') →
  ∃ chunks, body = inr <$> chunks ∧
    w_hash w = sha256_hex (concat chunks) ∧
    w_size_bytes w = wrap_i64 (Z.of_nat (length (concat chunks))) ∧
    (∃ c, blob_at fs' (w_hash w) = Some c ∧ sha256_hex c = w_hash w ∧
       (c = concat chunks ∨ blob_at fs (w_hash w) = Some c)) ∧
    (∀ h, h ≠ w_hash w → blob_at fs' h = blob_at fs h) ∧
    store_ok fs'.
Proof.
  intros Hok Hrun.
  destruct (wp_run _ _ _ _ _ _ _ (write_streamed_outcome root body fs Hok) Hrun)
    as (chunks & -> & Hh & Hs & Hok' & (c & Hc & Hcase) & Hoth & _).
  exists chunks. split_and!; try done. exists c. split_and!; try done.
  by eapply store_ok_blob.
Qed.

(** C25: an upload that breaks off, for whatever reason and at whatever moment,
    never panics, publishes nothing and loses nothing: all blobs are as before.
    With its directories in place the cause is the client or the disk. *)
Theorem write_streamed_failure_harmless `{!FsEnv, !Sha256} root body fs n r fs' n' :
  store_ok fs → LocalFsStore_write_streamed root body fs n = (r, fs', n') →
  is_ok r = false →
  ∃ e, r = Err e ∧ store_ok fs' ∧ (∀ h, blob_at fs' h = blob_at fs h) ∧
    (opened fs → io_fault e ∨ ∃ x, inl x ∈ body ∧ e = Io x).
Proof.
  intros Hok Hrun Hr.
  pose proof (wp_run _ _ _ _ _ _ _ (write_streamed_outcome root body fs Hok) Hrun) as Hout.
  destruct r as [w|e|w]; [done| |done]. destruct Hout as (Hwhy & Hok' & Hsame).
  exists e. split_and!; try done.
  - intros h. by apply same_blobs_at.
  - intros Hop. apply Hwhy; [done|]. intros u. by apply tmp_not_dir.
Qed.

(** What was uploaded can be read back: with a disk that works, uploading any
    list of chunks ends, and reading the hash it returns yields content with that
    hash, the uploaded bytes unless another file had their hash before. *)
Theorem write_then_read `{!FsEnv, !Sha256} root chunks fs n :
  fs_quiet → store_ok fs → opened fs →
  ∃ c, ((let* w := LocalFsStore_write_streamed root (inr <$> chunks) in
         LocalFsStore_read_blob (w_hash w)) fs n).1.1 = Ok c ∧
    sha256_hex c = sha256_hex (concat chunks) ∧
    (c = concat chunks ∨ blob_at fs (sha256_hex (concat chunks)) = Some c).
Proof.
  intros Hq Hok Hop.
  assert (wp (let* w := LocalFsStore_write_streamed root (inr <$> chunks) in
              LocalFsStore_read_blob (w_hash w)) (λ r _, ∃ c, r = Ok c ∧
    sha256_hex c = sha256_hex (concat chunks) ∧
    (c = concat chunks ∨ blob_at fs (sha256_hex (concat chunks)) = Some c)) fs) as Hwp; [|apply (Hwp n)].
  apply wp_bind. wp_use write_streamed_outcome; [done|]. intros [w|e|w] fs' Hw; simpl; [| |done].
  - destruct Hw as (chunks' & Heq%(inj _) & Hh & _ & Hok' & (c & Hc & Hcase) & _). subst chunks'.
    rewrite Hh in *. wp_use read_blob_outcome; [apply sha256_hex_is_hash|].
    intros [c'|e|w'] fs2 [-> Hr]; [| |done].
    + exists c. split; [congruence|]. split; [by eapply store_ok_blob|done].
    + destruct Hr as [[x Hx%fs_quiet_faulty]|[_ Hn]]; [done|done|congruence].
  - destruct Hw as [Hwhy _]. exfalso.
    destruct (Hwhy Hop) as [(x & Hx%fs_quiet_faulty & _)|(x & Hx & _)];
      [intros u; by apply tmp_not_dir|done|done|].
    by apply list_elem_of_fmap in Hx as (? & ? & _).
Qed.

(** Opening the store creates both directories and, with a disk that works,
    removes every leftover of an interrupted upload; no blob is touched, and
    opening can only fail because the disk does. *)
Theorem open_purges_tmp `{!FsEnv, !Sha256} fs n r fs' n' :
  store_ok fs → LocalFsStore_open fs n = (r, fs', n') →
  store_ok fs' ∧ (∀ h, blob_at fs' h = blob_at fs h) ∧
  match r with
  | Ok _ => opened fs' ∧ (fs_quiet → ∀ u, fs_files fs' !! ["tmp"%string; u] = None)
  | Err e => io_fault e
  | Stop _ => False
  end.
Proof.
  intros Hok Hrun.
  destruct (wp_run _ _ _ _ _ _ _ (open_outcome fs Hok) Hrun) as (Hok' & Hsame & Hr).
  split_and!; [done|intros h; by apply same_blobs_at|].
  destruct r as [[]|e|w]; [|done..]. destruct Hr as [Hop Hp].
  split; [done|]. intros Hq u. apply Hp; [done|]. by exists u.
Qed.
