(* ===== verification/DiskWalk.v ===== *)
(** * Walking the blob directory

    [walk_blobs] of [crates/marmotte-core/src/gc.rs]: the recursive traversal by which
    the orphan scan learns which blobs are on disk.  In a store that is in order it
    ends, and if it does not fail it finds exactly the blobs. *)
From stdpp Require Import base numbers list strings gmap.
From Stdlib Require Import ZArith Lia.
From S2P Require Import Prelude Models Storage.

(** The file names that [walk_blobs] takes for hashes. *)
Definition looks_like_hash (name : string) : bool :=
  (String.length name =? 64)%nat && forall_chars is_ascii_hexdigit name.

Section walk.
Context {fsenv : FsEnv}.

(** One call on the directory [dir]; every call of the operating system may fail. *)
Fixpoint walk_dir (fuel : nat) (dir : path) (out : gset string) : M CoreError Fs (gset string) :=
  match fuel with
  | O => halt OutOfFuel
  | S fuel =>
      let* ents := io (fs_read_dir dir) in
      let* out := foldM (λ out ent,
        io fs_next_entry ;*
        let* is_dir := io (fs_is_dir ent) in
        if is_dir : bool then walk_dir fuel ent out
        else ret (match last ent with
                  | Some name => if looks_like_hash name then {[name]} ∪ out else out
                  | None => out
                  end)) out ents in
      io fs_next_entry ;*
      ret out
  end.

(** Each nested call is one level further down, so the depth of the tree is enough. *)
Definition depth (fs : Fs) : nat := foldr max 0%nat (length <$> elements (fs_dirs fs)).
Definition walk_blobs : M CoreError Fs (gset string) :=
  let* fuel := gets (λ fs, S (depth fs)) in
  walk_dir fuel ["blobs"%string] ∅.
End walk.

(** ** What a walk finds *)

(** A file with a plausible name somewhere below [dir]. *)
Definition below (fs : Fs) (dir : path) (h : string) : Prop :=
  ∃ q, is_Some (fs_files fs !! (dir ++ q)) ∧ last q = Some h ∧ looks_like_hash h = true.

(** ... and how a single entry of a directory leads to it. *)
Definition found (fs : Fs) (ent : path) (h : string) : Prop :=
  (is_Some (fs_files fs !! ent) ∧ ent ∉ fs_dirs fs ∧ last ent = Some h ∧ looks_like_hash h = true) ∨
  (ent ∈ fs_dirs fs ∧ below fs ent h).

Lemma depth_bound fs d : d ∈ fs_dirs fs → (length d ≤ depth fs)%nat.
Proof.
  unfold depth. rewrite <-elem_of_elements. generalize (elements (fs_dirs fs)).
  induction l as [|x l IH]; [set_solver|]. rewrite fmap_cons. simpl.
  intros [->|Hd]%elem_of_cons; [|apply IH in Hd]; lia.
Qed.

Lemma is_hash_looks h : is_hash h = true → looks_like_hash h = true.
Proof.
  unfold is_hash, looks_like_hash. rewrite !andb_true_iff. intros [-> Hh]. split; [done|].
  revert Hh. generalize h. clear h. intros h. induction h as [|a h IH]; simpl; [done|].
  rewrite !andb_true_iff. intros [Ha Hh]. split; [|by apply IH].
  unfold is_ascii_hexdigit. by rewrite Ha.
Qed.

Lemma found_file fs ent h :
  is_Some (fs_files fs !! ent) → ent ∉ fs_dirs fs →
  found fs ent h ↔ last ent = Some h ∧ looks_like_hash h = true.
Proof. unfold found. tauto. Qed.

Section well_formed.
Context {sha : Sha256} (fs : Fs) (Hok : store_ok fs).

Lemma file_not_dir p : is_Some (fs_files fs !! p) → p ∉ fs_dirs fs ∧ p ≠ [].
Proof using Hok.
  intros [c Hc]. destruct (st_files _ Hok _ _ Hc) as [[u ->]|(h & -> & _)].
  - split; [|done]. intros [?|[?|[? _]]]%(st_dirs _ Hok); done.
  - split; [|done]. intros [?|[?|[_ Hl]]]%(st_dirs _ Hok); [done..|]. simpl in Hl. lia.
Qed.

(** Whatever lies below a path makes it a directory. *)
Lemma above_is_dir d q :
  q ≠ [] → is_Some (fs_files fs !! (d ++ q)) ∨ d ++ q ∈ fs_dirs fs → d ∈ fs_dirs fs.
Proof using Hok.
  induction q as [|x q IH] using rev_ind; [done|]. intros _ Hq.
  apply (st_parents _ Hok) in Hq. unfold parent in Hq. rewrite app_assoc, removelast_last in Hq.
  destruct q as [|y q]; [by rewrite app_nil_r in Hq|]. apply IH; [done|by right].
Qed.

Lemma child_path p : p ≠ [] → ∃ x, p = parent p ++ [x].
Proof. intros Hp. exists (List.last p EmptyString). by apply app_removelast_last. Qed.

Lemma below_entries dir h :
  below fs dir h ↔ ∃ ent, ent ∈ files_in dir fs ++ dirs_in dir fs ∧ found fs ent h.
Proof using Hok.
  split.
  - intros (q & Hq & Hlast & Hlooks). destruct q as [|c [|c' q]]; [done| |].
    + exists (dir ++ [c]). rewrite elem_of_app, elem_of_files_in. unfold parent.
      rewrite removelast_last. split; [by left|]. left.
      split_and!; [done|by apply file_not_dir|by rewrite last_snoc|done].
    + assert (dir ++ [c] ∈ fs_dirs fs) as Hdir.
      { apply (above_is_dir _ (c' :: q)); [done|]. rewrite <-app_assoc. by left. }
      exists (dir ++ [c]). rewrite elem_of_app, elem_of_dirs_in. unfold parent.
      rewrite removelast_last. split; [right; split_and!; [done|by destruct dir|done]|].
      right. split; [done|]. exists (c' :: q). by rewrite <-app_assoc.
  - intros (ent & Hent & Hf). rewrite elem_of_app, elem_of_files_in, elem_of_dirs_in in Hent.
    assert (∃ x, ent = dir ++ [x]) as [x ->].
    { destruct Hent as [[<- Hin]|(<- & Hne & _)]; apply child_path; [by apply file_not_dir|done]. }
    destruct Hf as [(Hfile & _ & Hlast & Hl)|[_ (q & Hq & Hlast & Hl)]].
    + rewrite last_snoc in Hlast. injection Hlast as ->. by exists [h].
    + exists (x :: q). rewrite <-app_assoc in Hq. split_and!; [done| |done].
      destruct q; [done|]. by rewrite last_cons_cons.
Qed.

(** In a store in order, what looks like a blob below [blobs/] is one. *)
Lemma below_blobs h : below fs ["blobs"%string] h ↔ is_Some (blob_at fs h).
Proof using Hok.
  split.
  - intros (q & [c Hc] & Hlast & _).
    destruct (st_files _ Hok _ _ Hc) as [[u Hu]|(h' & Hp & _)]; [done|].
    injection Hp as ->. injection Hlast as <-. by exists c.
  - intros [c Hc]. exists [String.substring 0 2 h; String.substring 2 2 h; h].
    split_and!; [by exists c|done|]. apply is_hash_looks.
    rewrite <-(store_ok_blob _ _ _ Hok Hc). apply sha256_hex_is_hash.
Qed.

Context {fsenv : FsEnv}.

(** A walk that looks for [P] from [out]: it finds all of it and nothing else, or it
    fails, and in any case it only looks. *)
Definition walked_below (P : string → Prop) (out : gset string) (r : res CoreError (gset string)) (fs' : Fs) : Prop :=
  fs' = fs ∧ match r with
             | Ok D => ∀ h, h ∈ D ↔ h ∈ out ∨ P h
             | Err e => io_fault e
             | Stop _ => False
             end.

Lemma walk_dir_spec fuel dir out :
  dir ∈ fs_dirs fs → (∀ d, d ∈ fs_dirs fs → (length d < fuel + length dir)%nat) →
  wp (walk_dir fuel dir out) (walked_below (below fs dir) out) fs.
Proof using Hok.
  revert dir out. induction fuel as [|fuel IH]; intros dir out Hdir Hfuel.
  { specialize (Hfuel _ Hdir). lia. }
  cbn [walk_dir]. wp_go. apply wp_io, wp_fs_op; simpl; [by split; auto with marmotte|].
  rewrite bool_decide_eq_true_2 by done. wp_go.
  set (ents := files_in dir fs ++ dirs_in dir fs).
  eapply (wp_foldM _ (λ rest acc fs', fs' = fs ∧ ∃ seen, ents = seen ++ rest ∧
    ∀ h, h ∈ acc ↔ h ∈ out ∨ ∃ ent, ent ∈ seen ∧ found fs ent h)).
  - intros acc fs' [-> (seen & Hents & Hacc)]. rewrite app_nil_r in Hents. subst seen. simpl. wp_go.
    apply wp_io, wp_fs_op; simpl; [by split; auto with marmotte|]. wp_go.
    split; [done|]. intros h. by rewrite Hacc, below_entries.
  - intros ent rest acc fs' [-> (seen & Hents & Hacc)]. simpl. wp_go.
    apply wp_io, wp_fs_op; simpl; [by split; auto with marmotte|]. wp_go.
    apply wp_io, wp_fs_op; simpl; [by split; auto with marmotte|].
    assert (∀ D : gset string, (∀ h, h ∈ D ↔ h ∈ acc ∨ found fs ent h) → fs = fs ∧ ∃ seen', ents = seen' ++ rest ∧
      ∀ h, h ∈ D ↔ h ∈ out ∨ ∃ e, e ∈ seen' ∧ found fs e h) as Hstep.
    { intros D HD. split; [done|]. exists (seen ++ [ent]). split; [by rewrite <-app_assoc|].
      intros h. rewrite HD, Hacc. set_solver. }
    assert (ent ∈ ents) as Hin by (rewrite Hents; set_solver).
    unfold ents in Hin. rewrite elem_of_app, elem_of_files_in, elem_of_dirs_in in Hin.
    destruct (bool_decide_reflect (ent ∈ fs_dirs fs)) as [Hd|Hd].
    + wp_use IH; [done| |].
      { intros d Hdd. specialize (Hfuel d Hdd). destruct Hin as [[_ Hf]|(<- & Hne & _)].
        - by apply file_not_dir in Hf as [? _].
        - destruct (child_path ent Hne) as [x Hx]. rewrite Hx, length_app. simpl. lia. }
      intros [D|e|w] fs' [-> HD]; simpl in *; [|done..]. apply Hstep. intros h. rewrite HD.
      unfold found. naive_solver.
    + destruct Hin as [[_ Hf]|(_ & _ & ?)]; [|done]. wp_go. apply Hstep.
      intros h. rewrite (found_file fs ent h Hf Hd).
      destruct (last ent) as [name|]; [destruct (looks_like_hash name) eqn:Hlk|].
      * rewrite elem_of_union, elem_of_singleton. naive_solver.
      * naive_solver congruence.
      * naive_solver.
  - split; [done|]. exists []. split; [done|]. set_solver.
Qed.

Lemma walk_blobs_spec :
  ["blobs"%string] ∈ fs_dirs fs →
  wp walk_blobs (λ r fs', fs' = fs ∧ match r with
    | Ok D => ∀ h, h ∈ D ↔ is_Some (blob_at fs h)
    | Err e => io_fault e
    | Stop _ => False
    end) fs.
Proof using Hok.
  intros Hdir. unfold walk_blobs. apply wp_bind, wp_gets. cbv beta iota delta [bind_post]. wp_use walk_dir_spec; [done| |].
  { intros d Hd%depth_bound. simpl. lia. }
  intros [D|e|w] fs' [-> HD]; (split; [done|]); [|done..].
  intros h. rewrite HD, <-below_blobs. set_solver.
Qed.
End well_formed.
