(* ===== verification/Config.v ===== *)
(** * Configuration

    [crates/marmotte-core/src/config.rs].  Reading TOML and the environment is
    figment's work; a [Raw*] record is what it found for one section, and
    [*_deserialize] is serde's derived code: a missing field takes its
    [#[serde(default)]], a missing required field or a number outside its type is
    an error. *)
From stdpp Require Import base numbers list strings.
From Stdlib Require Import ZArith Lia.
From S2P Require Import Prelude Models.

Inductive LogFormat := Json | Pretty.

Record ServerConfig := mkServerConfig {
  listen : string;
  storage_root : string;
  request_timeout_secs : Z;
  upload_max_bytes : Z
}.
Record DatabaseConfig := mkDatabaseConfig { db_path : string; busy_timeout_ms : Z }.
Record GcConfig := mkGcConfig {
  interval_secs : Z;
  default_ttl_sstate_days : Z;
  default_ttl_downloads_days : Z;
  global_quota_bytes : Z;
  trigger_threshold_pct : Z
}.
Record AuthConfig := mkAuthConfig { verify_cache_size : Z; verify_cache_ttl_secs : Z }.
Record LoggingConfig := mkLoggingConfig { level : string; format : LogFormat }.
Record Config := mkConfig {
  server : ServerConfig;
  database : DatabaseConfig;
  gc : GcConfig;
  auth : AuthConfig;
  logging : LoggingConfig
}.

(** ** Defaults *)

Definition default_request_timeout_secs : Z := 300.
Definition default_upload_max_bytes : Z := 5368709120.
Definition default_busy_timeout_ms : Z := 5000.
Definition default_interval_secs : Z := 300.
Definition default_trigger_threshold_pct : Z := 90.
Definition default_cache_size : Z := 1024.
Definition default_cache_ttl_secs : Z := 300.
Definition default_level : string := "info".
Definition default_format : LogFormat := Json.

Definition AuthConfig_default : AuthConfig := mkAuthConfig default_cache_size default_cache_ttl_secs.
Definition LoggingConfig_default : LoggingConfig := mkLoggingConfig default_level default_format.

(** ** Deserialization *)

Definition u64_of (z : Z) : option Z := if (0 <=? z) && (z <? 2 ^ 64) then Some z else None.
Definition u8_of (z : Z) : option Z := if (0 <=? z) && (z <? 256) then Some z else None.

(** A field with [#[serde(default = "f")]]. *)
Definition field_or {A B} (conv : A → option B) (d : B) (f : option A) : option B :=
  match f with Some a => conv a | None => Some d end.

(** [#[serde(rename_all = "lowercase")]] *)
Definition LogFormat_of (s : string) : option LogFormat :=
  if String.eqb s "json" then Some Json
  else if String.eqb s "pretty" then Some Pretty
  else None.
Definition LogFormat_to (f : LogFormat) : string :=
  match f with Json => "json" | Pretty => "pretty" end.

Record RawServer := mkRawServer {
  raw_listen : option string;
  raw_storage_root : option string;
  raw_request_timeout_secs : option Z;
  raw_upload_max_bytes : option Z
}.
Record RawGc := mkRawGc {
  raw_interval_secs : option Z;
  raw_ttl_sstate : option Z;
  raw_ttl_downloads : option Z;
  raw_global_quota : option Z;
  raw_threshold : option Z
}.

(** [parse_addr] is [SocketAddr]'s own deserializer. *)
Definition ServerConfig_deserialize (parse_addr : string → option string) (r : RawServer)
    : option ServerConfig :=
  l ← raw_listen r ≫= parse_addr;
  s ← raw_storage_root r;
  t ← field_or u64_of default_request_timeout_secs (raw_request_timeout_secs r);
  u ← field_or u64_of default_upload_max_bytes (raw_upload_max_bytes r);
  Some (mkServerConfig l s t u).

Definition DatabaseConfig_deserialize (path : option string) (busy : option Z)
    : option DatabaseConfig :=
  p ← path;
  b ← field_or u64_of default_busy_timeout_ms busy;
  Some (mkDatabaseConfig p b).

Definition GcConfig_deserialize (r : RawGc) : option GcConfig :=
  i ← field_or u64_of default_interval_secs (raw_interval_secs r);
  s ← raw_ttl_sstate r ≫= u64_of;
  d ← raw_ttl_downloads r ≫= u64_of;
  q ← raw_global_quota r ≫= u64_of;
  p ← field_or u8_of default_trigger_threshold_pct (raw_threshold r);
  Some (mkGcConfig i s d q p).

Definition AuthConfig_deserialize (size ttl : option Z) : option AuthConfig :=
  s ← field_or u64_of default_cache_size size;
  t ← field_or u64_of default_cache_ttl_secs ttl;
  Some (mkAuthConfig s t).

Definition LoggingConfig_deserialize (lvl fmt : option string) : option LoggingConfig :=
  f ← field_or LogFormat_of default_format fmt;
  Some (mkLoggingConfig (default default_level lvl) f).

Record RawConfig := mkRawConfig {
  raw_server : option RawServer;
  raw_database : option (option string * option Z);
  raw_gc : option RawGc;
  raw_auth : option (option Z * option Z);
  raw_logging : option (option string * option string)
}.

(** A section with [#[serde(default)]]. *)
Definition section_or {A B} (d : B) (conv : A → option B) (r : option A) : option B :=
  match r with None => Some d | Some a => conv a end.

Definition Config_deserialize (parse_addr : string → option string) (r : RawConfig) : option Config :=
  server ← raw_server r ≫= ServerConfig_deserialize parse_addr;
  database ← raw_database r ≫= uncurry DatabaseConfig_deserialize;
  gc ← raw_gc r ≫= GcConfig_deserialize;
  auth ← section_or AuthConfig_default (uncurry AuthConfig_deserialize) (raw_auth r);
  logging ← section_or LoggingConfig_default (uncurry LoggingConfig_deserialize) (raw_logging r);
  Some (mkConfig server database gc auth logging).

(** figment: what the file and the [MARMOTTE_*] variables hold, merged, or why the file
    cannot be read; its message when extraction fails; and how addresses are parsed. *)
Class Figment := mkFigment {
  figment_read : string → string + RawConfig;
  figment_message : RawConfig → string;
  parse_addr : string → option string
}.

Definition Config_load `{!Figment} (path : string) : CoreError + Config :=
  match figment_read path with
  | inl msg => inl (ConfigError msg)
  | inr raw =>
      match Config_deserialize parse_addr raw with
      | Some c => inr c
      | None => inl (ConfigError (figment_message raw))
      end
  end.

(** ** Bounds *)

(** What deserialization promises the collector: each number within its type. *)
Record gc_config_ok (c : GcConfig) : Prop := mkGcConfigOk {
  gc_interval : in_u64 (interval_secs c);
  gc_sstate : in_u64 (default_ttl_sstate_days c);
  gc_downloads : in_u64 (default_ttl_downloads_days c);
  gc_quota : in_u64 (global_quota_bytes c);
  gc_pct : 0 <= trigger_threshold_pct c < 256
}.

Lemma u64_of_Some z v : u64_of z = Some v → v = z ∧ in_u64 v.
Proof.
  unfold u64_of, in_u64. destruct (_ && _) eqn:H; [|done]. intros [= <-].
  apply andb_prop in H as [H1%Z.leb_le H2%Z.ltb_lt]. lia.
Qed.

Lemma u8_of_Some z v : u8_of z = Some v → v = z ∧ 0 <= v < 256.
Proof.
  unfold u8_of. destruct (_ && _) eqn:H; [|done]. intros [= <-].
  apply andb_prop in H as [H1%Z.leb_le H2%Z.ltb_lt]. lia.
Qed.

(** ** What the file says *)

Lemma u64_of_iff z v : u64_of z = Some v ↔ z = v ∧ in_u64 v.
Proof.
  split; [by intros [-> ?]%u64_of_Some|]. intros [-> [Hlo Hhi]]. unfold u64_of.
  apply Z.leb_le in Hlo as ->. by apply Z.ltb_lt in Hhi as ->.
Qed.
Lemma u8_of_iff z v : u8_of z = Some v ↔ z = v ∧ 0 <= v < 256.
Proof.
  split; [by intros [-> ?]%u8_of_Some|]. intros [-> [Hlo Hhi]]. unfold u8_of.
  apply Z.leb_le in Hlo as ->. by apply Z.ltb_lt in Hhi as ->.
Qed.
Lemma LogFormat_of_iff s f : LogFormat_of s = Some f ↔ s = LogFormat_to f.
Proof.
  unfold LogFormat_of. destruct (String.eqb_spec s "json") as [->|Hj]; [by destruct f|].
  destruct (String.eqb_spec s "pretty") as [->|Hp]; destruct f; simpl; naive_solver.
Qed.

(** A field that must be there, and one with a default; [R] says which values it takes. *)
Lemma required_iff {A B} (conv : A → option B) (R : A → B → Prop) f v :
  (∀ a b, conv a = Some b ↔ R a b) → f ≫= conv = Some v ↔ ∃ a, f = Some a ∧ R a v.
Proof.
  intros Hc. rewrite bind_Some. split; intros (a & Ha & Hv); exists a; (split; [done|]); by apply Hc.
Qed.
Lemma optional_iff (conv : Z → option Z) (R : Z → Prop) d f v :
  (∀ a b, conv a = Some b ↔ a = b ∧ R b) → R d → field_or conv d f = Some v ↔ v = default d f ∧ R v.
Proof.
  intros Hc Hd. destruct f as [a|]; simpl; [rewrite Hc; naive_solver|]. split; [by intros [= <-]|by intros [-> _]].
Qed.

(** The configuration [c] that a file with the sections [r] stands for: what must be there
    is there, what may be missing has its default, and every number is in its type. *)
Definition number_in (R : Z → Prop) (d : Z) (f : option Z) (v : Z) : Prop := v = default d f ∧ R v.
Definition byte_sized (z : Z) : Prop := 0 <= z < 256.
Definition server_read (parse_addr : string → option string) (r : RawServer) (c : ServerConfig) : Prop :=
  (∃ a, raw_listen r = Some a ∧ parse_addr a = Some (listen c)) ∧
  raw_storage_root r = Some (storage_root c) ∧
  number_in in_u64 300 (raw_request_timeout_secs r) (request_timeout_secs c) ∧
  number_in in_u64 (5 * 1024 ^ 3) (raw_upload_max_bytes r) (upload_max_bytes c).
Definition database_read (r : option string * option Z) (c : DatabaseConfig) : Prop :=
  r.1 = Some (db_path c) ∧ number_in in_u64 5000 r.2 (busy_timeout_ms c).
Definition gc_read (r : RawGc) (c : GcConfig) : Prop :=
  number_in in_u64 300 (raw_interval_secs r) (interval_secs c) ∧
  (raw_ttl_sstate r = Some (default_ttl_sstate_days c) ∧ in_u64 (default_ttl_sstate_days c)) ∧
  (raw_ttl_downloads r = Some (default_ttl_downloads_days c) ∧ in_u64 (default_ttl_downloads_days c)) ∧
  (raw_global_quota r = Some (global_quota_bytes c) ∧ in_u64 (global_quota_bytes c)) ∧
  number_in byte_sized 90 (raw_threshold r) (trigger_threshold_pct c).
Definition auth_read (r : option (option Z * option Z)) (c : AuthConfig) : Prop :=
  let '(size, ttl) := default (None, None) r in
  number_in in_u64 1024 size (verify_cache_size c) ∧ number_in in_u64 300 ttl (verify_cache_ttl_secs c).
Definition logging_read (r : option (option string * option string)) (c : LoggingConfig) : Prop :=
  let '(lvl, fmt) := default (None, None) r in
  level c = default "info"%string lvl ∧ default "json"%string fmt = LogFormat_to (format c).
Definition config_read (parse_addr : string → option string) (r : RawConfig) (c : Config) : Prop :=
  (∃ x, raw_server r = Some x ∧ server_read parse_addr x (server c)) ∧
  (∃ x, raw_database r = Some x ∧ database_read x (database c)) ∧
  (∃ x, raw_gc r = Some x ∧ gc_read x (gc c)) ∧
  auth_read (raw_auth r) (auth c) ∧ logging_read (raw_logging r) (logging c).

Lemma u64_field d f v : in_u64 d → field_or u64_of d f = Some v ↔ number_in in_u64 d f v.
Proof. apply optional_iff, u64_of_iff. Qed.
Lemma u64_required f v : f ≫= u64_of = Some v ↔ f = Some v ∧ in_u64 v.
Proof. rewrite (required_iff _ _ _ _ u64_of_iff). naive_solver. Qed.

Lemma ServerConfig_deserialize_iff p r c : ServerConfig_deserialize p r = Some c ↔ server_read p r c.
Proof.
  unfold ServerConfig_deserialize, server_read. rewrite <-!u64_field by (unfold in_u64; lia).
  change 300 with default_request_timeout_secs. change (5 * 1024 ^ 3) with default_upload_max_bytes.
  destruct c as [l s t u]; cbn [listen storage_root request_timeout_secs upload_max_bytes].
  split.
  - intros (l' & Hl & (s' & Hs & (t' & Ht & (u' & Hu & [= <- <- <- <-])%bind_Some)%bind_Some)%bind_Some)%bind_Some.
    apply bind_Some in Hl. done.
  - intros ((a & Ha & Hl) & -> & -> & ->). rewrite Ha. simpl. by rewrite Hl.
Qed.
Lemma DatabaseConfig_deserialize_iff r c : uncurry DatabaseConfig_deserialize r = Some c ↔ database_read r c.
Proof.
  destruct r as [path busy], c as [p b]. unfold database_read, DatabaseConfig_deserialize. simpl.
  rewrite <-u64_field by (unfold in_u64; lia). change 5000 with default_busy_timeout_ms. split.
  - by intros (p' & -> & (b' & -> & [= -> ->])%bind_Some)%bind_Some.
  - intros [-> ->]. done.
Qed.
Lemma GcConfig_deserialize_iff r c : GcConfig_deserialize r = Some c ↔ gc_read r c.
Proof.
  destruct c as [i s d q p]. unfold gc_read, GcConfig_deserialize, byte_sized. simpl.
  rewrite <-u64_field, <-!u64_required by (unfold in_u64; lia).
  unfold number_in at 1. rewrite <-(optional_iff u8_of _ 90 _ _ u8_of_iff) by lia.
  change 300 with default_interval_secs. change 90 with default_trigger_threshold_pct. split.
  - by intros (? & -> & (? & -> & (? & -> & (? & -> & (? & -> & [= -> -> -> -> ->])%bind_Some)%bind_Some)%bind_Some)%bind_Some)%bind_Some.
  - intros (-> & -> & -> & -> & ->). done.
Qed.
Lemma GcConfig_deserialize_ok r c : GcConfig_deserialize r = Some c → gc_config_ok c.
Proof. intros ([_ Hi] & [_ Hs] & [_ Hd] & [_ Hq] & [_ Hp])%GcConfig_deserialize_iff. by split. Qed.
Lemma AuthConfig_deserialize_iff r c :
  section_or AuthConfig_default (uncurry AuthConfig_deserialize) r = Some c ↔ auth_read r c.
Proof.
  assert (section_or AuthConfig_default (uncurry AuthConfig_deserialize) r =
    uncurry AuthConfig_deserialize (default (None, None) r)) as -> by by destruct r.
  unfold auth_read. destruct (default (None, None) r) as [size ttl], c as [s t]. simpl.
  rewrite <-!u64_field by (unfold in_u64; lia). unfold AuthConfig_deserialize.
  change 1024 with default_cache_size. change 300 with default_cache_ttl_secs. split.
  - by intros (? & -> & (? & -> & [= -> ->])%bind_Some)%bind_Some.
  - intros [-> ->]. done.
Qed.
Lemma LoggingConfig_deserialize_iff r c :
  section_or LoggingConfig_default (uncurry LoggingConfig_deserialize) r = Some c ↔ logging_read r c.
Proof.
  assert (section_or LoggingConfig_default (uncurry LoggingConfig_deserialize) r =
    uncurry LoggingConfig_deserialize (default (None, None) r)) as -> by by destruct r.
  unfold logging_read. destruct (default (None, None) r) as [lvl fmt], c as [l f]. simpl.
  unfold LoggingConfig_deserialize. change "info"%string with default_level.
  assert (field_or LogFormat_of default_format fmt = Some f ↔ default "json"%string fmt = LogFormat_to f) as <-.
  { rewrite <-LogFormat_of_iff. by destruct fmt. }
  split; [by intros (? & -> & [= <- ->])%bind_Some|]. by intros [-> ->].
Qed.
Lemma Config_deserialize_iff p r c : Config_deserialize p r = Some c ↔ config_read p r c.
Proof.
  unfold Config_deserialize, config_read.
  rewrite <-(required_iff _ _ _ _ (ServerConfig_deserialize_iff p)),
    <-(required_iff _ _ _ _ DatabaseConfig_deserialize_iff), <-(required_iff _ _ _ _ GcConfig_deserialize_iff),
    <-AuthConfig_deserialize_iff, <-LoggingConfig_deserialize_iff.
  destruct c as [s d g a l]. simpl. split.
  - by intros (? & -> & (? & -> & (? & -> & (? & -> & (? & -> & [= -> -> -> -> ->])%bind_Some)%bind_Some)%bind_Some)%bind_Some)%bind_Some.
  - intros (-> & -> & -> & -> & ->). done.
Qed.

(** ** Theorems *)

(** C38: loading is exactly reading: [Config::load] returns [c] if and only if figment read
    the file and the environment, [server], [database] and [gc] are there with their
    required fields (the address, which parses, the storage root, the path of the
    database, both times to live and the quota), each of which is what [c] has, every
    optional field of [c] is what was given or its documented default, also in sections
    left out as a whole, the format is one of the two, and every number fits its type;
    anything else is a configuration error. *)
Theorem config_loads_exactly `{!Figment} path :
  (∀ c, Config_load path = inr c ↔ ∃ raw, figment_read path = inr raw ∧ config_read parse_addr raw c) ∧
  (∀ e, Config_load path = inl e → ∃ msg, e = ConfigError msg).
Proof.
  unfold Config_load. destruct (figment_read path) as [msg|raw]; [split; [naive_solver|by intros e [= <-]; exists msg]|].
  split; [|intros e; destruct (Config_deserialize parse_addr raw); [done|intros [= <-]; by eexists]].
  intros c. pose proof (Config_deserialize_iff parse_addr raw c) as Hiff.
  destruct (Config_deserialize parse_addr raw) as [c'|] eqn:Hc; split.
  - intros [= <-]. exists raw. split; [done|]. by apply Hiff.
  - intros (? & [= <-] & Hr). apply Hiff in Hr. congruence.
  - done.
  - intros (? & [= <-] & Hr). by apply Hiff in Hr.
Qed.
