(* ===== verification/Gc.v ===== *)
(** * Garbage collector: the phases on the database

    [crates/marmotte-core/src/gc.rs]: the TTL, quota and global phase of a sweep
    and its report.  What a phase does is a list of evictions ([evicts]) described
    by [progress] and [phase].  The cleanup of blobs and the whole sweep are in
    [GcRun.v], the orphan scan in [Orphans.v]. *)
From stdpp Require Import base numbers list strings gmap sorting pretty relations.
From Stdlib Require Import ZArith Lia.
From S2P Require Import Prelude Models Db Blobs Entries Projects Storage Config.

Record GcReport := mkGcReport {
  evicted_entries : Z;
  evicted_bytes : Z;
  freed_blobs : Z;
  usage_global_bytes : Z
}.
Definition GcReport_default : GcReport := mkGcReport 0 0 0 0.

(** [rep.evicted_entries += 1; rep.evicted_bytes += size as u64;] *)
Definition count_eviction (size : Z) (rep : GcReport) : GcReport :=
  mkGcReport (wrap_u64 (evicted_entries rep + 1)) (wrap_u64 (evicted_bytes rep + wrap_u64 size))
    (freed_blobs rep) (usage_global_bytes rep).
Definition count_freed (rep : GcReport) : GcReport :=
  mkGcReport (evicted_entries rep) (evicted_bytes rep) (wrap_u64 (freed_blobs rep + 1))
    (usage_global_bytes rep).
Definition set_usage (usage : Z) (rep : GcReport) : GcReport :=
  mkGcReport (evicted_entries rep) (evicted_bytes rep) (freed_blobs rep) usage.

(** The database and the store under one run. *)
Abbreviation Sys := (Tables * Fs)%type.

(** The columns that the phases select. *)
Definition ttl_row (e : Entry) : Z * Z * string * Z :=
  (e_id e, e_project_id e, e_blob_hash e, e_size_bytes e).
Definition lru_row (e : Entry) : Z * Z * Z := (e_id e, e_project_id e, e_size_bytes e).

(** The WHERE clause of the TTL phase, on an entry joined with its project. *)
Definition ttl_where (ps : gmap Z Project) (kind : Kind) (now cutoff_default : Z) (e : Entry) : bool :=
  match ps !! e_project_id e with
  | None => false
  | Some p =>
      Kind_eqb (e_kind e) kind && negb (e_pinned e) &&
      (e_last_accessed e <? now - default 0 (p_ttl_seconds p)) &&
      (bool_decide (is_Some (p_ttl_seconds p)) || (e_last_accessed e <? cutoff_default))
  end.

(** [ORDER BY last_accessed ASC, id ASC] *)
Definition lru_le (a b : Entry) : Prop :=
  e_last_accessed a < e_last_accessed b ∨
  (e_last_accessed a = e_last_accessed b ∧ e_id a <= e_id b).
#[export] Instance lru_le_dec : RelDecision lru_le.
Proof. intros a b. unfold lru_le. apply _. Defined.
#[export] Instance lru_le_total : Total lru_le.
Proof. intros a b. unfold lru_le. lia. Qed.
#[export] Instance lru_le_trans : Transitive lru_le.
Proof. intros a b c. unfold lru_le. lia. Qed.

Definition lru_of (p : Entry → bool) (t : Tables) : list Entry :=
  merge_sort lru_le (select (λ e, p e && negb (e_pinned e)) (entries t)).

Section gc_ops.
Context {env : Env} {fsenv : FsEnv}.

Definition on_db {A} (m : M CoreError Tables A) : M CoreError Sys A := zoom lens_fst m.
Definition on_fs {A} (m : M CoreError Fs A) : M CoreError Sys A := zoom lens_snd m.

(** ** Phase 1: TTL *)

Definition default_ttl_days (cfg : GcConfig) (kind : Kind) : Z :=
  match kind with
  | Sstate => default_ttl_sstate_days cfg
  | Downloads => default_ttl_downloads_days cfg
  end.
(** [(default_ttl_days * 86_400) as i64], in release arithmetic. *)
Definition default_secs (cfg : GcConfig) (kind : Kind) : Z :=
  wrap_i64 (wrap_u64 (default_ttl_days cfg kind * 86400)).

Definition ttl_evict (dry_run : bool) (rep : GcReport) (row : Z * Z * string * Z)
    : M CoreError Tables GcReport :=
  let '(id, project_id, _, size) := row in
  (if dry_run then ret tt else Entries_delete project_id id) ;*
  ret (count_eviction size rep).

Definition ttl_kind (cfg : GcConfig) (dry_run : bool) (now : Z) (rep : GcReport) (kind : Kind)
    : M CoreError Tables GcReport :=
  let cutoff_default := wrap_i64 (now - default_secs cfg kind) in
  let* candidates := sql (query_scan
    (λ t, select (ttl_where (projects t) kind now cutoff_default) (entries t))
    (λ l, ttl_row <$> l)) in
  foldM (ttl_evict dry_run) rep candidates.

Definition ttl_phase (cfg : GcConfig) (rep : GcReport) (dry_run : bool) : M CoreError Tables GcReport :=
  let* now := now_unix in
  foldM (ttl_kind cfg dry_run now) rep [Sstate; Downloads].

(** ** Phases 2 and 3: least recently used first *)

(** The eviction loop of both phases: stop as soon as the usage fits. *)
Fixpoint evict_lru (dry_run : bool) (quota : Z) (cands : list (Z * Z * Z)) (usage : Z)
    (rep : GcReport) : M CoreError Tables GcReport :=
  match cands with
  | [] => ret rep
  | (id, project_id, size) :: rest =>
      if usage <=? quota then ret rep
      else
        (if dry_run then ret tt else Entries_delete project_id id) ;*
        evict_lru dry_run quota rest (wrap_i64 (usage - size)) (count_eviction size rep)
  end.

Definition quota_project (dry_run : bool) (rep : GcReport) (p : Project) : M CoreError Tables GcReport :=
  match p_quota_bytes p with
  | None => ret rep
  | Some quota =>
      let* usage := Entries_project_usage (p_id p) in
      if usage <=? quota then ret rep
      else
        let* to_evict := sql (query (λ t,
          lru_row <$> lru_of (λ e, e_project_id e =? p_id p) t)) in
        evict_lru dry_run quota to_evict usage rep
  end.

Definition quota_phase (rep : GcReport) (dry_run : bool) : M CoreError Tables GcReport :=
  let* ps := Projects_list in
  foldM (quota_project dry_run) rep ps.

Definition global_phase (cfg : GcConfig) (rep : GcReport) (dry_run : bool) : M CoreError Tables GcReport :=
  let* usage := Blobs_total_size in
  let quota := wrap_i64 (global_quota_bytes cfg) in
  if usage <=? quota then ret rep
  else
    let* candidates := sql (query (λ t, lru_row <$> lru_of (λ _, true) t)) in
    evict_lru dry_run quota candidates usage rep.
End gc_ops.

(** ** Evictions *)

(** [evicts P l t t']: the entries [l], all satisfying [P], are removed one after
    the other with the reference that each of them holds. *)
Inductive evicts (P : Entry → Prop) : list Entry → Tables → Tables → Prop :=
| evicts_nil t : evicts P [] t t
| evicts_cons e l t t' :
    entries t !! e_id e = Some e → P e →
    evicts P l (drop_entry e t) t' → evicts P (e :: l) t t'.
#[export] Hint Constructors evicts : marmotte.

Definition sizes (l : list Entry) : Z := zsum (e_size_bytes <$> l).

Lemma sizes_cons e l : sizes (e :: l) = e_size_bytes e + sizes l.
Proof. reflexivity. Qed.
Lemma sizes_app l1 l2 : sizes (l1 ++ l2) = sizes l1 + sizes l2.
Proof. unfold sizes. by rewrite fmap_app, zsum_app. Qed.

Section evicts.
Implicit Types (t : Tables) (P : Entry → Prop) (l : list Entry).

Lemma evicts_app P l1 l2 t1 t2 t3 :
  evicts P l1 t1 t2 → evicts P l2 t2 t3 → evicts P (l1 ++ l2) t1 t3.
Proof. induction 1; simpl; eauto with marmotte. Qed.

Lemma evicts_snoc P l e t t' :
  evicts P l t t' → entries t' !! e_id e = Some e → P e →
  evicts P (l ++ [e]) t (drop_entry e t').
Proof. intros Hl He HP. eapply evicts_app; eauto with marmotte. Qed.

Lemma evicts_mono P Q l t t' :
  (∀ e, e ∈ l → P e → Q e) → evicts P l t t' → evicts Q l t t'.
Proof.
  intros HPQ. induction 1 as [|e l t t' He HP _ IH]; [constructor|].
  econstructor; [done|apply HPQ; [left|done]|].
  apply IH. intros. apply HPQ; [by right|done].
Qed.

Lemma evicts_forall P l t t' : evicts P l t t' → Forall P l.
Proof. induction 1; constructor; auto. Qed.

Lemma evicts_schema P l t t' : evicts P l t t' → schema_ok t → schema_ok t'.
Proof. induction 1; auto using schema_drop_entry. Qed.

Lemma evicts_slack P l t t' h : evicts P l t t' → schema_ok t → slack t' h = slack t h.
Proof.
  induction 1 as [|e l t t' He _ _ IH]; intros Hok; [done|].
  rewrite IH, slack_drop_entry by auto using schema_drop_entry. done.
Qed.

(** What an eviction never touches. *)
Lemma evicts_frame P l t t' :
  evicts P l t t' →
  projects t' = projects t ∧ api_keys t' = api_keys t ∧ admin_tokens t' = admin_tokens t ∧
  stats_counters t' = stats_counters t ∧ audit_log t' = audit_log t ∧
  seq_entries t' = seq_entries t.
Proof. induction 1 as [|e l t t' _ _ _ IH]; [done|]. destruct IH as (->&->&->&->&->&->). done. Qed.

Lemma evicts_lookup P l t t' i :
  evicts P l t t' →
  entries t' !! i = if bool_decide (i ∈ e_id <$> l) then None else entries t !! i.
Proof.
  induction 1 as [t|e l t t' He _ _ IH]; [by rewrite bool_decide_eq_false_2 by set_solver|].
  rewrite IH. simpl. repeat case_bool_decide; try (set_solver).
  - assert (i = e_id e) as -> by set_solver. by rewrite lookup_delete_eq.
  - rewrite lookup_delete_ne by set_solver. done.
Qed.

Lemma evicts_in P l t t' e : evicts P l t t' → e ∈ l → entries t !! e_id e = Some e.
Proof.
  induction 1 as [t|e' l t t' He _ _ IH]; [set_solver|].
  intros [->|Hl]%elem_of_cons; [done|]. apply IH in Hl.
  simpl in Hl. by apply lookup_delete_Some in Hl as [_ ?].
Qed.

Lemma evicts_NoDup P l t t' : evicts P l t t' → NoDup (e_id <$> l).
Proof.
  induction 1 as [t|e l t t' He _ Hl IH]; constructor; [|done].
  intros (e' & Heq & Hin)%list_elem_of_fmap. eapply evicts_in in Hin; [|done].
  simpl in Hin. rewrite Heq, lookup_delete_eq in Hin. done.
Qed.

(** The blob rows stay, only their refcounts move. *)
Lemma evicts_blob P l t t' h :
  evicts P l t t' →
  (λ b, (b_hash b, b_size_bytes b)) <$> blobs t' !! h = (λ b, (b_hash b, b_size_bytes b)) <$> blobs t !! h.
Proof.
  induction 1 as [|e l t t' _ _ _ IH]; [done|]. rewrite IH. simpl.
  rewrite lookup_alter. case_decide; [subst|done]. by destruct (blobs t !! _).
Qed.

Lemma total_size_decr t h : total_size (decr_blob h t) = total_size t.
Proof.
  unfold total_size, decr_blob. simpl.
  destruct (blobs t !! h) as [b|] eqn:Hb.
  - rewrite (alter_as_insert _ _ _ b), (sum_map_update _ _ h b) by done. simpl. lia.
  - by rewrite alter_id by (intros ? Hx; simplify_eq).
Qed.

Lemma evicts_total_size P l t t' : evicts P l t t' → total_size t' = total_size t.
Proof.
  induction 1 as [|e l t t' _ _ _ IH]; [done|]. rewrite IH. unfold drop_entry. by rewrite total_size_decr.
Qed.

Lemma project_usage_drop t e p :
  entries t !! e_id e = Some e →
  project_usage (drop_entry e t) p =
  project_usage t p - (if e_project_id e =? p then e_size_bytes e else 0).
Proof.
  intros He. unfold project_usage, drop_entry, decr_blob, set_blobs, set_entries. cbn [entries].
  rewrite (sum_map_delete _ (entries t) (e_id e) e) by done. lia.
Qed.

Lemma evicts_usage P l t t' p :
  evicts P l t t' → (∀ e, P e → e_project_id e = p) →
  project_usage t' p = project_usage t p - sizes l.
Proof.
  intros H Hp. induction H as [|e l t t' He HP _ IH]; [unfold sizes; simpl; lia|].
  rewrite IH, project_usage_drop by done. rewrite (Hp e HP), Z.eqb_refl.
  rewrite sizes_cons. lia.
Qed.
End evicts.

(** ** The eviction loops *)

(** The report after the evictions [l]. *)
Definition report (l : list Entry) (rep : GcReport) : GcReport :=
  foldl (λ r e, count_eviction (e_size_bytes e) r) rep l.

Lemma report_app l1 l2 rep : report (l1 ++ l2) rep = report l2 (report l1 rep).
Proof. apply foldl_app. Qed.

Section gc_spec.
Context {env : Env}.
Implicit Types (t : Tables) (l : list Entry) (rep : GcReport) (dry_run : bool).

(** One iteration of the loops: the entry is there, so deleting it can only fail
    because the database fails. *)
Lemma delete_candidate dry_run e t :
  schema_ok t → entries t !! e_id e = Some e →
  wp (if dry_run then ret tt else Entries_delete (e_project_id e) (e_id e))
    (outcome t (λ _ t', t' = if dry_run then t else drop_entry e t) (λ _, False)) t.
Proof.
  intros Hok He. assert (entry_of t (e_project_id e) (e_id e) = Some e) as Hof
    by (by apply entry_of_Some).
  destruct dry_run; [by apply wp_ret|].
  wp_use Entries_delete_spec as r t' H; [done|].
  eapply outcome_mono; [exact H|..].
  - intros _ u (e' & He' & ->). congruence.
  - intros x [_ Hx]. congruence.
Qed.

(** The candidates that are still to be looked at are still in the table. *)
Definition pending t l : Prop := NoDup (e_id <$> l) ∧ ∀ e, e ∈ l → entries t !! e_id e = Some e.

Lemma pending_next (dry_run : bool) t e l :
  pending t (e :: l) → pending (if dry_run then t else drop_entry e t) l.
Proof.
  intros [Hnd Hin]. simpl in Hnd. apply NoDup_cons in Hnd as [Hni Hnd]. split; [done|].
  intros e' He'. destruct dry_run; [apply Hin; by right|].
  simpl. rewrite lookup_delete_ne; [apply Hin; by right|].
  intros Heq. apply Hni, list_elem_of_fmap. eauto.
Qed.

(** What the loops have in common after the entries [l] have been dealt with. *)
Definition progress (P : Entry → Prop) (dry_run : bool) t l t' : Prop :=
  if dry_run then t' = t ∧ Forall P l else evicts P l t t'.

Lemma progress_nil P dry_run t : progress P dry_run t [] t.
Proof. destruct dry_run; [by split|constructor]. Qed.

Lemma progress_snoc P dry_run t l t' e :
  progress P dry_run t l t' → entries t' !! e_id e = Some e → P e →
  progress P dry_run t (l ++ [e]) (if dry_run then t' else drop_entry e t').
Proof.
  destruct dry_run; simpl.
  - intros [-> Hl] _ He. split; [done|]. by apply Forall_app_2; [|constructor].
  - intros. by apply evicts_snoc.
Qed.

Lemma progress_app P dry_run t1 t2 t3 l1 l2 :
  progress P dry_run t1 l1 t2 → progress P dry_run t2 l2 t3 →
  progress P dry_run t1 (l1 ++ l2) t3.
Proof.
  destruct dry_run; simpl.
  - intros [-> H1] [-> H2]. split; [done|]. by apply Forall_app_2.
  - apply evicts_app.
Qed.

Lemma progress_mono (P Q : Entry → Prop) dry_run t l t' :
  (∀ e, P e → Q e) → progress P dry_run t l t' → progress Q dry_run t l t'.
Proof.
  intros HPQ. destruct dry_run; simpl; [intros [-> Hl]; eauto using Forall_impl|].
  intros H. eapply evicts_mono; [|done]. auto.
Qed.

Lemma progress_schema P dry_run t l t' : progress P dry_run t l t' → schema_ok t → schema_ok t'.
Proof. destruct dry_run; simpl; [by intros [-> _]|apply evicts_schema]. Qed.

Lemma progress_projects P dry_run t l t' : progress P dry_run t l t' → projects t' = projects t.
Proof. destruct dry_run; simpl; [by intros [-> _]|intros H; by apply (evicts_frame _ _ _ _ H)]. Qed.

(** A phase: it ends with a report of exactly what it evicted, or with the
    failure of a statement after having evicted something. *)
Definition phase (P : Entry → Prop) (dry_run : bool) (err : CoreError → Prop)
    (done : list Entry → Tables → Prop) rep t (r : res CoreError GcReport) t' : Prop :=
  match r with
  | Ok rep' => ∃ l, rep' = report l rep ∧ progress P dry_run t l t' ∧ done l t'
  | Err e => (db_fault e ∨ err e) ∧ ∃ l, progress P dry_run t l t'
  | Stop _ => False
  end.

Lemma ttl_loop_spec (P : Entry → Prop) dry_run cands rep t :
  schema_ok t → pending t cands → Forall P cands →
  wp (foldM (ttl_evict dry_run) rep (ttl_row <$> cands))
    (phase P dry_run (λ _, False) (λ l _, l = cands) rep t) t.
Proof.
  intros Hok Hpend HP.
  eapply (wp_foldM _ (λ rows rep' t', ∃ l rest, rows = ttl_row <$> rest ∧ cands = l ++ rest ∧
    rep' = report l rep ∧ progress P dry_run t l t' ∧ pending t' rest)).
  - intros rep' t' (l & rest & Hnil & -> & -> & Hpr & _). destruct rest; [|done].
    exists l. rewrite app_nil_r. done.
  - intros row rows rep' t' (l & rest & Heq & -> & -> & Hpr & Hpe).
    destruct rest as [|e rest]; simplify_eq/=.
    assert (entries t' !! e_id e = Some e) as He by (apply Hpe; left).
    db_go. wp_use delete_candidate; [by eapply progress_schema|done|].
    intros [[]|x|w] u Hu; simpl; [| |done].
    + hnf in Hu. subst u. db_go. exists (l ++ [e]), rest. split_and!; try done.
      * by rewrite <-app_assoc.
      * by rewrite report_app.
      * apply progress_snoc; try done.
        rewrite Forall_app, Forall_cons in HP. tauto.
      * by apply pending_next.
    + destruct Hu as [[Hx|[]] ->]. split; [by left|]. eauto.
  - exists [], cands. split_and!; try done. apply progress_nil.
Qed.

(** The usage counter of the LRU loops. *)
Definition remaining (usage : Z) l : Z := foldl (λ u e, wrap_i64 (u - e_size_bytes e)) usage l.

(** The loop evicts a prefix of its candidates: as few as bring the counter
    under the quota, or all of them. *)
Definition lru_done (quota usage : Z) (cands l : list Entry) : Prop :=
  (∃ rest, cands = l ++ rest ∧ (rest = [] ∨ remaining usage l <= quota)) ∧
  (∀ l1 e l2, l = l1 ++ e :: l2 → quota < remaining usage l1).

Lemma evict_lru_spec (P : Entry → Prop) dry_run quota cands usage rep t :
  schema_ok t → pending t cands → Forall P cands →
  wp (evict_lru dry_run quota (lru_row <$> cands) usage rep)
    (phase P dry_run (λ _, False) (λ l _, lru_done quota usage cands l) rep t) t.
Proof.
  revert usage rep t. induction cands as [|e cands IH]; intros usage rep t Hok Hpend HP; simpl.
  - apply wp_ret. exists []. split_and!; [done|apply progress_nil|].
    split; [exists []; auto|]. by intros [].
  - destruct (Z.leb_spec usage quota) as [Hle|Hgt].
    { apply wp_ret. exists []. split_and!; [done|apply progress_nil|].
      split; [exists (e :: cands); auto|]. by intros []. }
    assert (entries t !! e_id e = Some e) as He by (apply Hpend; left).
    apply Forall_cons in HP as [HPe HP].
    db_go. wp_use delete_candidate; [done|done|].
    intros [[]|x|w] u Hu; simpl; [| |done].
    + hnf in Hu. subst u.
      pose proof (progress_snoc P dry_run t [] t e (progress_nil _ _ _) He HPe) as Hone. simpl in Hone.
      wp_use IH; [by eapply progress_schema|by apply pending_next|done|].
      intros [rep'|x|w] u; simpl; [| |done].
      * intros (l & -> & Hpr & (rest & -> & Hrest) & Hmin). exists (e :: l).
        split_and!; [done|by eapply (progress_app _ _ _ _ _ [e])|].
        split; [exists rest; auto|].
        intros [|e1 l1] e2 l2 Heq; simplify_eq/=; [lia|by eapply Hmin].
      * intros [Hx [l Hpr]]. split; [done|]. exists (e :: l).
        by eapply (progress_app _ _ _ _ _ [e]).
    + destruct Hu as [[Hx|[]] ->]. split; [by left|]. exists []. apply progress_nil.
Qed.
(** *** Candidates *)

Lemma rows_ids t : schema_ok t → e_id <$> rows (entries t) = (map_to_list (entries t)).*1.
Proof.
  intros Hok. unfold rows. rewrite <-list_fmap_compose. apply list_fmap_ext.
  intros j [i e] Hj%list_elem_of_lookup_2%elem_of_map_to_list. simpl.
  by apply (so_entries t Hok).
Qed.

Lemma pending_select t (p : Entry → bool) : schema_ok t → pending t (select p (entries t)).
Proof.
  intros Hok. split.
  - assert (NoDup (e_id <$> rows (entries t))) as Hnd
      by (rewrite rows_ids by done; apply NoDup_fst_map_to_list).
    unfold select. revert Hnd. induction (rows (entries t)) as [|e l IH]; [done|].
    simpl. intros [Hni Hnd]%NoDup_cons. destruct (p e); simpl; [|by apply IH].
    apply NoDup_cons. split; [|by apply IH].
    intros (e' & Heq & Hin)%list_elem_of_fmap. apply Hni, list_elem_of_fmap.
    exists e'. split; [done|]. rewrite list_elem_of_In, List.filter_In, <-list_elem_of_In in Hin.
    tauto.
  - intros e (_ & i & Hi)%elem_of_select.
    destruct (so_entries t Hok) as [_ Hid]. by destruct (Hid _ _ Hi) as [-> _].
Qed.

Lemma pending_perm t l l' : l ≡ₚ l' → pending t l' → pending t l.
Proof. intros Hp [Hnd Hin]. split; [by rewrite Hp|]. intros e. rewrite Hp. auto. Qed.

Lemma elem_of_candidates t (p : Entry → bool) e :
  schema_ok t → e ∈ select p (entries t) ↔ p e = true ∧ entries t !! e_id e = Some e.
Proof.
  intros Hok. rewrite elem_of_select. split; [|naive_solver].
  intros (Hp & i & Hi). destruct (so_entries t Hok) as [_ Hid].
  by destruct (Hid _ _ Hi) as [-> _].
Qed.

Lemma lru_of_perm (p : Entry → bool) t :
  lru_of p t ≡ₚ select (λ e, p e && negb (e_pinned e)) (entries t).
Proof. apply merge_sort_Permutation. Qed.

(** *** TTL phase *)

(** An entry is due when it is unpinned and older than the TTL of its project, or
    than the default of its kind. *)
Definition ttl_due (cfg : GcConfig) (ps : gmap Z Project) (now : Z) (e : Entry) : bool :=
  ttl_where ps (e_kind e) now (wrap_i64 (now - default_secs cfg (e_kind e))) e.

Definition due (cfg : GcConfig) t now (e : Entry) : Prop := ttl_due cfg (projects t) now e = true.

Lemma ttl_where_kind ps kind now cutoff e : ttl_where ps kind now cutoff e = true → e_kind e = kind.
Proof.
  unfold ttl_where. destruct (ps !! _); [|done].
  rewrite !andb_true_iff, Kind_eqb_eq. tauto.
Qed.

Lemma ttl_due_unpinned cfg ps now e : ttl_due cfg ps now e = true → e_pinned e = false.
Proof.
  unfold ttl_due, ttl_where. destruct (ps !! _); [|done].
  rewrite !andb_true_iff, negb_true_iff. tauto.
Qed.

Definition all_due cfg t now (k : Kind) l : Prop :=
  ∀ e, e ∈ l ↔ entries t !! e_id e = Some e ∧ e_kind e = k ∧ due cfg t now e.

Lemma ttl_kind_spec cfg dry_run now rep k t :
  schema_ok t →
  wp (ttl_kind cfg dry_run now rep k)
    (phase (due cfg t now) dry_run (λ _, False) (λ l _, all_due cfg t now k l) rep t) t.
Proof.
  intros Hok. unfold ttl_kind. wp_go. apply wp_sql, wp_query_scan.
  { intros x Hx. simpl. split; [by left; apply db_fault_intro|].
    exists []. apply progress_nil. }
  intros l Hl. simpl. db_go.
  assert (∀ e, e ∈ l ↔ entries t !! e_id e = Some e ∧ e_kind e = k ∧ due cfg t now e) as Hin.
  { intros e. rewrite Hl, elem_of_candidates by done. unfold due, ttl_due. split.
    - intros [Hw He]. pose proof (ttl_where_kind _ _ _ _ _ Hw) as <-. done.
    - intros (He & <- & Hw). done. }
  wp_use (ttl_loop_spec (due cfg t now)); [done|eapply pending_perm; [exact Hl|by apply pending_select]|..].
  { apply Forall_forall. intros e He. by apply Hin. }
  intros [rep'|x|w] u; simpl; [|done|done].
  intros (l' & -> & Hpr & ->). eauto.
Qed.

Lemma ttl_phase_spec cfg rep dry_run t :
  schema_ok t →
  wp (ttl_phase cfg rep dry_run)
    (λ r t', ∃ now, clock_reading now ∧
       phase (due cfg t now) dry_run (λ _, False)
         (λ l _, ∀ e, e ∈ l ↔ entries t !! e_id e = Some e ∧ due cfg t now e) rep t r t') t.
Proof.
  intros Hok. unfold ttl_phase. db_go. simpl. db_go.
  wp_use ttl_kind_spec; [done|].
  intros [rep1|x|w] t1; simpl; [| |done].
  2: { intros [Hx Hl]. exists now. done. }
  intros (l1 & -> & Hpr1 & Hall1). db_go.
  pose proof (progress_projects _ _ _ _ _ Hpr1) as Hps.
  pose proof (progress_schema _ _ _ _ _ Hpr1 Hok) as Hok1.
  assert (∀ e, due cfg t1 now e ↔ due cfg t now e) as Hdue by (intros; unfold due; by rewrite Hps).
  wp_use ttl_kind_spec; [done|].
  intros [rep2|x|w] t2; simpl; [| |done].
  - intros (l2 & -> & Hpr2 & Hall2). apply wp_ret. exists now. split; [done|].
    exists (l1 ++ l2). split_and!.
    + by rewrite report_app.
    + eapply progress_app; [done|]. eapply progress_mono; [|done]. apply Hdue.
    + intros e. rewrite elem_of_app, (Hall1 e), (Hall2 e), Hdue.
      assert (e_kind e = Downloads → entries t1 !! e_id e = Some e ↔ entries t !! e_id e = Some e)
        as Hsame.
      { intros Hk. destruct dry_run; simpl in Hpr1; [by destruct Hpr1 as [-> _]|].
        rewrite (evicts_lookup _ _ _ _ _ Hpr1). case_bool_decide as Hin; [|done].
        split; [done|]. intros He.
        apply list_elem_of_fmap in Hin as (e' & Heq & Hin).
        pose proof (evicts_in _ _ _ _ _ Hpr1 Hin) as He'. rewrite <-Heq in He'.
        apply Hall1 in Hin as (_ & Hk' & _). congruence. }
      destruct (e_kind e); naive_solver.
  - intros [Hx [l2 Hpr2]]. exists now. split; [done|]. split; [done|].
    exists (l1 ++ l2). eapply progress_app; [done|]. eapply progress_mono; [|done]. apply Hdue.
Qed.

(** *** Quota phases *)

Definition unpinned (e : Entry) : Prop := e_pinned e = false.

Definition quota_done (p : Project) t l t' : Prop :=
  match p_quota_bytes p with
  | None => l = []
  | Some quota =>
      (l = [] ∧ project_usage t (p_id p) <= quota) ∨
      lru_done quota (project_usage t (p_id p)) (lru_of (λ e, e_project_id e =? p_id p) t) l
  end.

Lemma lru_pending (q : Entry → bool) t : schema_ok t → pending t (lru_of q t).
Proof. intros Hok. eapply pending_perm; [apply lru_of_perm|by apply pending_select]. Qed.

Lemma elem_of_lru (q : Entry → bool) t e :
  schema_ok t →
  e ∈ lru_of q t ↔ q e = true ∧ e_pinned e = false ∧ entries t !! e_id e = Some e.
Proof.
  intros Hok. rewrite lru_of_perm, elem_of_candidates, andb_true_iff, negb_true_iff by done. tauto.
Qed.

Lemma lru_forall (q : Entry → bool) t (P : Entry → Prop) :
  schema_ok t → (∀ e, q e = true → e_pinned e = false → P e) → Forall P (lru_of q t).
Proof. intros Hok HP. apply Forall_forall. intros e (?&?&?)%elem_of_lru; auto. Qed.

Definition overflow_err (e : CoreError) : Prop := e = Database err_overflow.

Lemma quota_project_spec dry_run rep p t :
  schema_ok t →
  wp (quota_project dry_run rep p)
    (phase (λ e, unpinned e ∧ e_project_id e = p_id p) dry_run overflow_err
       (λ l t', quota_done p t l t') rep t) t.
Proof.
  intros Hok. unfold quota_project, quota_done.
  assert (∀ P : Entry → Prop, progress P dry_run t [] t) as Hnil by (intros; apply progress_nil).
  destruct (p_quota_bytes p) as [quota|]; [|apply wp_ret; by exists []].
  db_go. wp_use Entries_project_usage_spec as [usage|x|w] u Hu; simpl; [| |done].
  - destruct Hu as [-> ->]. destruct (Z.leb_spec (project_usage t (p_id p)) quota).
    + apply wp_ret. exists []. auto.
    + db_go. wp_use (evict_lru_spec (λ e, unpinned e ∧ e_project_id e = p_id p));
        [done|by apply lru_pending|..].
      { apply lru_forall; [done|]. intros e He Hp. split; [done|lia]. }
      intros [rep'|x|w] u; simpl; [| |done].
      * intros (l & -> & Hpr & Hd). exists l. auto.
      * intros [[?|[]] ?]. auto.
  - destruct Hu as [[Hx|[Hx _]] ->]; (split; [|by exists []]); [by left|by right].
Qed.

Lemma global_phase_spec cfg rep dry_run t :
  schema_ok t →
  wp (global_phase cfg rep dry_run)
    (phase unpinned dry_run overflow_err
       (λ l t', (l = [] ∧ total_size t <= wrap_i64 (global_quota_bytes cfg)) ∨
          lru_done (wrap_i64 (global_quota_bytes cfg)) (total_size t) (lru_of (λ _, true) t) l)
       rep t) t.
Proof.
  intros Hok. unfold global_phase.
  assert (∀ P : Entry → Prop, progress P dry_run t [] t) as Hnil by (intros; apply progress_nil).
  db_go. wp_use Blobs_total_size_spec as [usage|x|w] u Hu; simpl; [| |done].
  - destruct Hu as [-> ->].
    destruct (Z.leb_spec (total_size t) (wrap_i64 (global_quota_bytes cfg))).
    + apply wp_ret. exists []. auto.
    + db_go. wp_use (evict_lru_spec unpinned); [done|by apply lru_pending|by apply lru_forall|].
      intros [rep'|x|w] u; simpl; [| |done].
      * intros (l & -> & Hpr & Hd). exists l. auto.
      * intros [[?|[]] ?]. auto.
  - destruct Hu as [[Hx|[Hx _]] ->]; (split; [|by exists []]); [by left|by right].
Qed.
End gc_spec.

(** *** Meeting the quotas *)

Definition sizes_nonneg (t : Tables) : Prop := ∀ i e, entries t !! i = Some e → 0 <= e_size_bytes e.

(** A project fits its quota, or has nothing left that may be evicted. *)
Definition quota_met (p : Project) (t : Tables) : Prop :=
  ∀ quota, p_quota_bytes p = Some quota →
    project_usage t (p_id p) <= quota ∨
    ∀ i e, entries t !! i = Some e → e_project_id e = p_id p → e_pinned e = true.

Lemma sizes_nonneg_mono t t' : entries t' ⊆ entries t → sizes_nonneg t → sizes_nonneg t'.
Proof. intros Hsub Hs i e Hi. eapply Hs, lookup_weaken; eauto. Qed.

Lemma evicts_subseteq P l t t' : evicts P l t t' → entries t' ⊆ entries t.
Proof.
  intros H. apply map_subseteq_spec. intros i e.
  rewrite (evicts_lookup _ _ _ _ _ H). by case_bool_decide.
Qed.

Lemma project_usage_nonneg t p : sizes_nonneg t → 0 <= project_usage t p.
Proof. intros Hs. apply sum_map_nonneg. intros i e Hi. case_match; [by eauto|done]. Qed.

Lemma evicts_usage_le P l t t' p :
  evicts P l t t' → sizes_nonneg t → project_usage t' p <= project_usage t p.
Proof.
  induction 1 as [|e l t t' He _ _ IH]; intros Hs; [done|].
  pose proof (Hs _ _ He) as Hsize.
  etransitivity; [apply IH|].
  - eapply sizes_nonneg_mono; [|done]. apply delete_subseteq.
  - rewrite project_usage_drop by done. case_match; lia.
Qed.

Lemma quota_met_evicts P l t t' p :
  evicts P l t t' → sizes_nonneg t → quota_met p t → quota_met p t'.
Proof.
  intros H Hs Hq quota Hquota. destruct (Hq quota Hquota) as [Hle|Hall].
  - left. pose proof (evicts_usage_le _ _ _ _ (p_id p) H Hs). lia.
  - right. intros i e Hi. eapply Hall, lookup_weaken; [done|by eapply evicts_subseteq].
Qed.

(** As long as the true usage stays in range, the counter is the true usage. *)
Lemma remaining_exact usage l :
  in_i64 usage → Forall (λ e, 0 <= e_size_bytes e) l → 0 <= usage - sizes l →
  remaining usage l = usage - sizes l.
Proof.
  unfold in_i64. revert usage. induction l as [|e l IH]; intros usage Hu Hl Hr.
  - unfold sizes. simpl. lia.
  - apply Forall_cons in Hl as [He Hl]. rewrite sizes_cons in *. simpl.
    assert (0 <= sizes l) by (apply zsum_nonneg, Forall_fmap; done).
    rewrite wrap_i64_id by (unfold in_i64; lia). rewrite IH by (done || lia). lia.
Qed.

Lemma evicts_sizes_nonneg P l t t' :
  evicts P l t t' → sizes_nonneg t → Forall (λ e, 0 <= e_size_bytes e) l.
Proof. intros H Hs. apply Forall_forall. intros e He. eapply Hs, evicts_in; eauto. Qed.

Lemma quota_done_met p t l t' :
  schema_ok t → sizes_nonneg t → in_i64 (project_usage t (p_id p)) →
  evicts (λ e, unpinned e ∧ e_project_id e = p_id p) l t t' →
  quota_done p t l t' → quota_met p t'.
Proof.
  intros Hok Hs Hin Hev Hd quota Hq. unfold quota_done in Hd. rewrite Hq in Hd.
  pose proof (evicts_usage _ _ _ _ (p_id p) Hev ltac:(intros ? []; done)) as Hu.
  destruct Hd as [[-> Hle]|[(rest & Hl & [->|Hr]) _]].
  - left. rewrite Hu. unfold sizes. simpl. lia.
  - right. intros i e Hi Hp. destruct (e_pinned e) eqn:Hpin; [done|exfalso].
    rewrite app_nil_r in Hl.
    pose proof (evicts_schema _ _ _ _ Hev Hok) as Hok'.
    destruct (so_entries t' Hok') as [_ Hid]. destruct (Hid _ _ Hi) as [<- _].
    rewrite (evicts_lookup _ _ _ _ _ Hev) in Hi. case_bool_decide as Hni; [done|].
    apply Hni, list_elem_of_fmap. exists e. split; [done|]. rewrite <-Hl.
    apply elem_of_lru; [done|]. split_and!; [lia|done|done].
  - left. rewrite Hu, <-remaining_exact; [done|done|by eapply evicts_sizes_nonneg|].
    rewrite <-Hu. apply project_usage_nonneg. eapply sizes_nonneg_mono; [|done].
    by eapply evicts_subseteq.
Qed.

Section quota_phase.
Context {env : Env}.

Lemma quota_phase_spec (dry_run : bool) rep t :
  schema_ok t →
  wp (quota_phase rep dry_run)
    (phase unpinned dry_run overflow_err
       (λ l t', dry_run = false → sizes_nonneg t → (∀ p, in_i64 (project_usage t p)) →
          ∀ i p, projects t !! i = Some p → quota_met p t') rep t) t.
Proof.
  intros Hok. unfold quota_phase. db_go.
  wp_use Projects_list_spec as [ps|x|w] u Hu; simpl; [| |done].
  2: { destruct Hu as [[Hx|[]] ->]. split; [by left|]. exists []. apply progress_nil. }
  destruct Hu as [-> Hps].
  eapply (wp_foldM _ (λ rest rep' t', ∃ l done, ps = done ++ rest ∧ rep' = report l rep ∧
    progress unpinned dry_run t l t' ∧
    (dry_run = false → sizes_nonneg t → (∀ p, in_i64 (project_usage t p)) →
       Forall (λ p, quota_met p t') done))).
  - intros rep' t' (l & dn & Hdn & -> & Hpr & Hmet). exists l. split_and!; [done..|].
    intros Hd Hs Hin i p Hp. rewrite app_nil_r in Hdn. subst dn.
    specialize (Hmet Hd Hs Hin). rewrite Forall_forall in Hmet. apply Hmet.
    rewrite Hps, merge_sort_Permutation, elem_of_rows. eauto.
  - intros p rest rep' t' (l & dn & -> & -> & Hpr & Hmet).
    pose proof (progress_schema _ _ _ _ _ Hpr Hok) as Hok'.
    wp_use quota_project_spec; [done|].
    intros [rep2|x|w] t2; simpl; [| |done].
    + intros (l2 & -> & Hpr2 & Hd2). exists (l ++ l2), (dn ++ [p]). split_and!.
      * by rewrite <-app_assoc.
      * by rewrite report_app.
      * eapply progress_app; [done|]. eapply progress_mono; [|done]. by intros ? [].
      * intros -> Hs Hin. simpl in *. specialize (Hmet eq_refl Hs Hin).
        pose proof (sizes_nonneg_mono _ _ (evicts_subseteq _ _ _ _ Hpr) Hs) as Hs'.
        apply Forall_app_2; [|constructor; [|done]].
        -- eapply Forall_impl; [done|]. intros q. by eapply quota_met_evicts.
        -- eapply quota_done_met; [done|done| |done|done].
           pose proof (evicts_usage_le _ _ _ _ (p_id p) Hpr Hs).
           pose proof (project_usage_nonneg t' (p_id p) Hs').
           specialize (Hin (p_id p)). unfold in_i64 in *. lia.
    + intros [Hx [l2 Hpr2]]. split; [done|]. exists (l ++ l2).
      eapply progress_app; [done|]. eapply progress_mono; [|done]. by intros ? [].
  - exists [], []. split_and!; [done|done|apply progress_nil|]. intros. constructor.
Qed.
End quota_phase.

(** ** Theorems *)

(** C22: the quota phase goes through the unpinned entries of a project from the
    least recently used on, removes a prefix of that order, and stops as soon as
    the rest fits: one entry less and the project would still be over quota. *)
Theorem quota_evicts_lru_prefix `{!Env} rep p quota t n rep' t' n' :
  schema_ok t → p_quota_bytes p = Some quota → quota < project_usage t (p_id p) →
  sizes_nonneg t → in_i64 (project_usage t (p_id p)) →
  quota_project false rep p t n = (Ok rep', t', n') →
  ∃ l rest, lru_of (λ e, e_project_id e =? p_id p) t = l ++ rest ∧
    StronglySorted lru_le (l ++ rest) ∧
    (∀ i, entries t' !! i = if bool_decide (i ∈ e_id <$> l) then None else entries t !! i) ∧
    project_usage t' (p_id p) = project_usage t (p_id p) - sizes l ∧
    (rest = [] ∨ project_usage t' (p_id p) <= quota) ∧
    (∀ l1 e, l = l1 ++ [e] → quota < project_usage t (p_id p) - sizes l1) ∧
    rep' = report l rep.
Proof.
  intros Hok Hq Hover Hnn Hin Hrun.
  pose proof (wp_run _ _ _ _ _ _ _ (quota_project_spec false rep p t Hok) Hrun)
    as (l & -> & Hev & Hd).
  simpl in Hev. unfold quota_done in Hd. rewrite Hq in Hd.
  destruct Hd as [[-> Hle]|[(rest & Hl & Hrest) Hmin]]; [lia|].
  pose proof (evicts_usage _ _ _ _ (p_id p) Hev ltac:(by intros ? [])) as Hu.
  pose proof (evicts_sizes_nonneg _ _ _ _ Hev Hnn) as Hall.
  assert (0 <= project_usage t (p_id p) - sizes l) as Hrange.
  { rewrite <-Hu. apply project_usage_nonneg. eapply sizes_nonneg_mono; [by eapply evicts_subseteq|done]. }
  exists l, rest. split_and!; try done.
  - rewrite <-Hl. apply StronglySorted_merge_sort; apply _.
  - intros i. by eapply evicts_lookup.
  - destruct Hrest as [->|Hr]; [by left|right]. rewrite Hu, <-remaining_exact; done.
  - intros l1 e ->. specialize (Hmin l1 e [] eq_refl). rewrite sizes_app in Hrange.
    apply Forall_app in Hall as [Hl1 He]. apply Forall_cons in He as [He _].
    rewrite sizes_cons in Hrange. change (sizes []) with 0 in Hrange.
    rewrite remaining_exact in Hmin; [done|done|done|lia].
Qed.
