(* ===== verification/GcRun.v ===== *)
(** * A sweep of the garbage collector

    The cleanup of blobs and [GcSvc::run] of [crates/marmotte-core/src/gc.rs].  The
    mutex of [GcSvc] makes a sweep one computation with respect to other sweeps.
    [free_step] is what the cleanup may do at any moment, [sys_ok] the invariant of
    database and store that every step keeps, [run_goals] what a finished sweep
    has achieved; dry runs come last. *)
From stdpp Require Import base numbers list strings gmap sorting pretty relations.
From Stdlib Require Import ZArith Lia.
From S2P Require Import Prelude Models Db Blobs Entries Projects Storage Config Gc.

Section run_ops.
Context {env : Env} {fsenv : FsEnv}.

(** ** Phase 4: blobs without references *)

Definition BATCH : Z := 1000.

Definition free_blob (dry_run : bool) (rep : GcReport) (hash : string) : M CoreError Sys GcReport :=
  (if dry_run then ret tt
   else
     let* _ := attempt (F := CoreError) (on_fs (LocalFsStore_delete_blob hash)) in
     on_db (Blobs_delete hash)) ;*
  ret (count_freed rep).

(** The [loop]; every round but the last removes a row, so the number of rows is
    enough fuel ([cleanup_blobs_spec]). *)
Fixpoint cleanup_loop (fuel : nat) (rep : GcReport) (dry_run : bool) : M CoreError Sys GcReport :=
  match fuel with
  | O => halt OutOfFuel
  | S fuel =>
      let* batch := on_db (Blobs_zero_refcount BATCH) in
      match batch with
      | [] => ret rep
      | _ =>
          let* rep := foldM (free_blob dry_run) rep batch in
          if dry_run then ret rep else cleanup_loop fuel rep dry_run
      end
  end.

Definition cleanup_blobs (rep : GcReport) (dry_run : bool) : M CoreError Sys GcReport :=
  let* fuel := gets (λ s : Sys, S (size (blobs s.1))) in
  cleanup_loop fuel rep dry_run.

(** ** A sweep *)

Definition GcSvc_run (cfg : GcConfig) (dry_run : bool) : M CoreError Sys GcReport :=
  let rep := GcReport_default in
  let* rep := on_db (ttl_phase cfg rep dry_run) in
  let* rep := on_db (quota_phase rep dry_run) in
  let* rep := on_db (global_phase cfg rep dry_run) in
  let* rep := cleanup_blobs rep dry_run in
  let* usage := on_db Blobs_total_size in
  ret (set_usage usage rep).

End run_ops.

(** ** Freeing blobs *)

(** The only changes the cleanup may make: unlink the file, or forget the row, of
    a blob that no entry references. *)
Inductive free_step : Sys → Sys → Prop :=
| free_unlink t fs h b :
    blobs t !! h = Some b → b_refcount b = 0 → ref_entries t h = 0 →
    free_step (t, fs) (t, drop_blob_file h fs)
| free_row t fs h b :
    blobs t !! h = Some b → b_refcount b = 0 → ref_entries t h = 0 →
    free_step (t, fs) (drop_blob h t, fs).
#[export] Hint Constructors free_step : marmotte.

(** Blob rows are named after digests. *)
Definition hashes_ok (t : Tables) : Prop := ∀ h b, blobs t !! h = Some b → is_hash h = true.

(** What the cleanup relies on. *)
Record refs_ok (t : Tables) : Prop := mkRefsOk {
  ro_schema : schema_ok t;
  ro_covered : refs_covered t;
  ro_hashes : hashes_ok t
}.

Lemma zero_ref_unused t h b :
  refs_covered t → blobs t !! h = Some b → b_refcount b = 0 → ref_entries t h = 0.
Proof.
  intros Hc Hb H0. specialize (Hc h). unfold slack, refcount_of in Hc. rewrite Hb in Hc.
  pose proof (count_map_nonneg (refers_to h) (entries t)). unfold ref_entries in *. lia.
Qed.

Lemma slack_drop_blob t h b h' :
  blobs t !! h = Some b → b_refcount b = 0 → slack (drop_blob h t) h' = slack t h'.
Proof.
  intros Hb H0. unfold slack, refcount_of. simpl.
  change (ref_entries (drop_blob h t) h') with (ref_entries t h').
  destruct (decide (h = h')) as [<-|Hne].
  - rewrite lookup_delete_eq, Hb. lia.
  - by rewrite lookup_delete_ne.
Qed.

Lemma free_step_refs s s' : free_step s s' → refs_ok s.1 → refs_ok s'.1.
Proof.
  intros Hst [Hok Hc Hh]. destruct Hst as [|t fs h b Hb H0 Href]; simpl in *; [done|]. split.
  - by apply schema_drop_blob.
  - intros h'. by rewrite (slack_drop_blob t h b).
  - intros h' b'. unfold drop_blob, set_blobs. cbn [blobs].
    intros [_ Hb']%lookup_delete_Some. eauto.
Qed.

Lemma free_steps_refs s s' : rtc free_step s s' → refs_ok s.1 → refs_ok s'.1.
Proof. induction 1; eauto using free_step_refs. Qed.

Lemma free_steps_slack s s' h : rtc free_step s s' → slack s'.1 h = slack s.1 h.
Proof.
  induction 1 as [|s1 s2 s3 Hst _ IH]; [done|]. rewrite IH.
  destruct Hst as [|t fs h' b Hb H0 _]; simpl; [done|]. by apply (slack_drop_blob t h' b).
Qed.

(** Nothing else in the database moves. *)
Lemma free_steps_frame s s' :
  rtc free_step s s' →
  entries s'.1 = entries s.1 ∧ projects s'.1 = projects s.1 ∧ api_keys s'.1 = api_keys s.1 ∧
  admin_tokens s'.1 = admin_tokens s.1 ∧ stats_counters s'.1 = stats_counters s.1 ∧
  audit_log s'.1 = audit_log s.1 ∧ blobs s'.1 ⊆ blobs s.1.
Proof.
  induction 1 as [|s1 s2 s3 Hst _ IH]; [done|].
  destruct IH as (->&->&->&->&->&->&Hb).
  destruct Hst; simpl in *; split_and!; try done.
  etransitivity; [done|]. apply delete_subseteq.
Qed.

Section cleanup.
Context {env : Env} {fsenv : FsEnv} {sha : Sha256}.

(** A blob row that waits to be freed. *)
Definition waiting (t : Tables) (h : string) : Prop := ∃ b, blobs t !! h = Some b ∧ b_refcount b = 0.

Lemma free_blob_spec h rep s :
  refs_ok s.1 → waiting s.1 h →
  wp (free_blob false rep h) (λ r s', rtc free_step s s' ∧
    match r with
    | Ok rep' => rep' = count_freed rep ∧ blobs s'.1 = delete h (blobs s.1)
    | Err e => db_fault e
    | Stop _ => False
    end) s.
Proof.
  intros [Hok Hc Hh] (b & Hb & H0). destruct s as [t fs]. simpl in *.
  pose proof (zero_ref_unused _ _ _ Hc Hb H0) as Href.
  unfold free_blob, on_db, on_fs. wp_go.
  wp_use delete_blob_outcome; [by eapply Hh|].
  assert (∀ fs', rtc free_step (t, fs) (t, fs') → wp (zoom lens_fst (Blobs_delete h))
    (bind_post (λ _, ret (count_freed rep)) (λ r s', rtc free_step (t, fs) s' ∧
      match r with
      | Ok rep' => rep' = count_freed rep ∧ blobs s'.1 = delete h (blobs t)
      | Err e => db_fault e
      | Stop _ => False
      end)) (t, fs')) as Hrow.
  { intros fs' Hsteps. wp_go. wp_use Blobs_delete_spec as [[]|x|w] u Hu; wp_go; [| |done].
    - destruct Hu as [-> _]. split; [|done].
      eapply rtc_r; [done|]. eauto with marmotte.
    - destruct Hu as [[Hx|[_ Hr]] ->]; [done|lia]. }
  intros [[]|x|w] fs'; simpl; [| |done].
  - intros Hfs. apply Hrow. destruct Hfs as [->|[-> _]]; [|done].
    apply rtc_once. eauto with marmotte.
  - intros [-> _]. by apply Hrow.
Qed.

Lemma iter_count_freed n rep : Nat.iter n count_freed (count_freed rep) = Nat.iter (S n) count_freed rep.
Proof. symmetry. apply Nat.iter_succ_r. Qed.

(** One batch. *)
Lemma free_batch_spec batch rep s :
  refs_ok s.1 → NoDup batch → (∀ h, h ∈ batch → waiting s.1 h) →
  wp (foldM (free_blob false) rep batch) (λ r s', rtc free_step s s' ∧
    match r with
    | Ok rep' => rep' = Nat.iter (length batch) count_freed rep ∧
                 (size (blobs s'.1) + length batch = size (blobs s.1))%nat
    | Err e => db_fault e
    | Stop _ => False
    end) s.
Proof.
  revert rep s. induction batch as [|h batch IH]; intros rep s Hok Hnd Hw; simpl.
  { apply wp_ret. split_and!; [apply rtc_refl|done|lia]. }
  apply NoDup_cons in Hnd as [Hni Hnd].
  wp_go. wp_use free_blob_spec; [done|by apply Hw; left|].
  intros [rep1|x|w] s1 [Hst H1]; simpl; [|done..].
  destruct H1 as [-> Hb1]. wp_use IH; [by eapply free_steps_refs|done| |].
  - intros h' Hh'. destruct (Hw h' ltac:(by right)) as (b & Hb & H0).
    exists b. split; [|done]. rewrite Hb1, lookup_delete_ne; [done|]. by intros ->.
  - intros r s2 [Hst2 H2]. split; [by etransitivity|].
    destruct r as [rep2|x|w]; [|done..]. destruct H2 as [-> Hsz]. split.
    + by rewrite iter_count_freed.
    + destruct (Hw h ltac:(by left)) as (b & Hb & _).
      assert (size (blobs s1.1) + 1 = size (blobs s.1))%nat; [|lia].
      rewrite Hb1, map_size_delete, Hb. simpl.
      assert (size (blobs s.1) ≠ 0)%nat; [|lia].
      intros Hz%map_size_empty_inv. by rewrite Hz in Hb.
Qed.

Lemma zero_batch t l :
  schema_ok t → l ≡ₚ select zero_ref (blobs t) →
  let batch := sql_limit BATCH (b_hash <$> l) in
  NoDup batch ∧ (∀ h, h ∈ batch → waiting t h) ∧
  (batch = [] → ∀ h b, blobs t !! h = Some b → b_refcount b ≠ 0).
Proof.
  intros Hok Hl batch. unfold batch, sql_limit. simpl Z.ltb. cbv iota.
  assert (NoDup (b_hash <$> l)) as Hnd.
  { rewrite Hl. unfold select, rows.
    assert (NoDup (b_hash <$> (map_to_list (blobs t)).*2)) as Hall.
    { rewrite <-list_fmap_compose.
      assert (b_hash ∘ snd <$> map_to_list (blobs t) = (map_to_list (blobs t)).*1) as ->.
      { apply list_fmap_ext. intros j [h b] Hj%list_elem_of_lookup_2%elem_of_map_to_list.
        simpl. by apply (so_blobs t Hok). }
      apply NoDup_fst_map_to_list. }
    revert Hall. induction ((map_to_list (blobs t)).*2) as [|b m IH]; [done|]. simpl.
    intros [Hni Hnd]%NoDup_cons. destruct (zero_ref b); simpl; [|by apply IH].
    apply NoDup_cons. split; [|by apply IH].
    intros (b' & Heq & Hin)%list_elem_of_fmap. apply Hni, list_elem_of_fmap.
    exists b'. split; [done|].
    rewrite list_elem_of_In, List.filter_In, <-list_elem_of_In in Hin. tauto. }
  split_and!.
  - eapply sublist_NoDup; [done|apply sublist_take].
  - intros h Hin. apply (subseteq_take) in Hin. apply list_elem_of_fmap in Hin as (b & -> & Hb).
    rewrite Hl in Hb. apply elem_of_select in Hb as (Hz%Z.eqb_eq & h & Hb).
    exists b. by rewrite (so_blobs t Hok _ _ Hb).
  - intros Hnil h b Hb H0.
    assert (b ∈ l) as Hin by (rewrite Hl; apply elem_of_select; split; [by apply Z.eqb_eq|eauto]).
    destruct l; [by apply not_elem_of_nil in Hin|done].
Qed.

(** The number of blob rows is enough fuel: the loop ends, with no blob left
    waiting or with the failure of a statement. *)
Lemma cleanup_loop_spec fuel rep s :
  refs_ok s.1 → (size (blobs s.1) < fuel)%nat →
  wp (cleanup_loop fuel rep false) (λ r s', rtc free_step s s' ∧
    match r with
    | Ok rep' => (∀ h, ¬ waiting s'.1 h) ∧
        ∃ n, rep' = Nat.iter n count_freed rep ∧ (size (blobs s'.1) + n = size (blobs s.1))%nat
    | Err e => db_fault e
    | Stop _ => False
    end) s.
Proof.
  revert rep s. induction fuel as [|fuel IH]; intros rep s Hok Hfuel; [lia|].
  destruct s as [t fs]. simpl. unfold on_db. wp_go.
  wp_use Blobs_zero_refcount_spec as [batch|x|w] u Hu; simpl; [| |done].
  2: { destruct Hu as [[Hx|[]] ->]. split; [apply rtc_refl|done]. }
  destruct Hu as (-> & l & Hl & ->).
  destruct (zero_batch t l (ro_schema _ Hok) Hl) as (Hnd & Hw & Hnil).
  destruct (sql_limit BATCH (b_hash <$> l)) as [|h batch] eqn:Hb.
  { apply wp_ret. split; [apply rtc_refl|]. split; [|exists 0%nat; simpl; auto with lia].
    intros h (b & Hh & H0). by eapply Hnil. }
  wp_go. wp_use free_batch_spec; [done|done|done|].
  intros [rep1|x|w] s1 [Hst H1]; [|done..]. destruct H1 as [-> Hsz]. simpl in Hsz, Hfuel.
  cbv beta iota delta [bind_post].
  wp_use IH; [by eapply free_steps_refs|lia|].
  intros r s2 [Hst2 H2]. split; [by etransitivity|].
  destruct r as [rep2|x|w]; [|done..]. destruct H2 as (Hno & n & -> & Hsz2). split; [done|].
  exists (n + length (h :: batch))%nat. split; [by rewrite Nat.iter_add|simpl in *; lia].
Qed.

Lemma cleanup_blobs_spec rep s :
  refs_ok s.1 →
  wp (cleanup_blobs rep false) (λ r s', rtc free_step s s' ∧
    match r with
    | Ok rep' => (∀ h, ¬ waiting s'.1 h) ∧
        ∃ n, rep' = Nat.iter n count_freed rep ∧ (size (blobs s'.1) + n = size (blobs s.1))%nat
    | Err e => db_fault e
    | Stop _ => False
    end) s.
Proof. intros Hok. apply wp_bind, wp_gets. cbv beta iota delta [bind_post]. apply cleanup_loop_spec; [done|lia]. Qed.
End cleanup.

(** ** The invariant of database and store together *)

(** Every cache entry can be served: its blob is on disk under its hash. *)
Definition available (s : Sys) : Prop :=
  ∀ i e, entries s.1 !! i = Some e → is_Some (blob_at s.2 (e_blob_hash e)).

Record sys_ok `{!Sha256} (s : Sys) : Prop := mkSysOk {
  sys_refs : refs_ok s.1;
  sys_store : store_ok s.2;
  sys_available : available s
}.

Section sys_ok.
Context {sha : Sha256}.

Lemma hashes_ok_evicts P l t t' : evicts P l t t' → hashes_ok t → hashes_ok t'.
Proof.
  intros H Hh h b Hb. pose proof (evicts_blob _ _ _ _ h H) as Heq. rewrite Hb in Heq.
  destruct (blobs t !! h) as [b'|] eqn:Hb'; [|done]. by eapply Hh.
Qed.

Lemma refs_ok_evicts P l t t' : evicts P l t t' → refs_ok t → refs_ok t'.
Proof.
  intros H [Hok Hc Hh]. split.
  - by eapply evicts_schema.
  - intros h. rewrite (evicts_slack _ _ _ _ h H) by done. apply Hc.
  - by eapply hashes_ok_evicts.
Qed.

Lemma sys_ok_evicts P l t t' fs : evicts P l t t' → sys_ok (t, fs) → sys_ok (t', fs).
Proof.
  intros H [Hr Hs Ha]. split; simpl in *; [by eapply refs_ok_evicts|done|].
  intros i e Hi. eapply Ha, lookup_weaken; [done|by eapply evicts_subseteq].
Qed.

Lemma unreferenced t h i e :
  ref_entries t h = 0 → entries t !! i = Some e → e_blob_hash e ≠ h.
Proof.
  intros Href Hi Heq. pose proof (count_map_zero_inv _ _ i e Href Hi) as Hr.
  apply String.eqb_eq in Heq. unfold refers_to in Hr. congruence.
Qed.

Lemma ref_entries_pos t i e : entries t !! i = Some e → 1 <= ref_entries t (e_blob_hash e).
Proof.
  intros Hi. pose proof (count_map_nonneg (refers_to (e_blob_hash e)) (entries t)) as Hn.
  destruct (Z.eq_dec (ref_entries t (e_blob_hash e)) 0) as [Hz|Hz].
  - by destruct (unreferenced _ _ _ _ Hz Hi).
  - unfold ref_entries in *. lia.
Qed.

(** Unlinking a blob that no entry names. *)
Lemma available_drop_file t fs h :
  ref_entries t h = 0 → available (t, fs) → available (t, drop_blob_file h fs).
Proof.
  intros Href Ha i e Hi. simpl in *. unfold blob_at, drop_blob_file. cbn [set_files fs_files].
  rewrite lookup_delete_ne; [by apply (Ha i e)|].
  intros Heq%blob_components_inj. by eapply unreferenced.
Qed.

Lemma free_step_ok s s' : free_step s s' → sys_ok s → sys_ok s'.
Proof.
  intros Hst [Hr Hs Ha]. split.
  - by eapply free_step_refs.
  - destruct Hst; simpl in *; [by apply store_ok_delete|done].
  - destruct Hst; simpl in *; [by apply available_drop_file|exact Ha].
Qed.

Lemma free_steps_ok s s' : rtc free_step s s' → sys_ok s → sys_ok s'.
Proof. induction 1; eauto using free_step_ok. Qed.

(** Files are only ever unlinked, and never one that an entry needs. *)
Lemma free_step_files s s' h c :
  free_step s s' → blob_at s'.2 h = Some c → blob_at s.2 h = Some c.
Proof.
  intros Hst. destruct Hst; simpl; [|done].
  unfold blob_at, drop_blob_file. cbn [set_files fs_files].
  by intros [_ ?]%lookup_delete_Some.
Qed.

Lemma free_steps_files s s' h c :
  rtc free_step s s' → blob_at s'.2 h = Some c → blob_at s.2 h = Some c.
Proof. induction 1; eauto using free_step_files. Qed.
End sys_ok.

Lemma free_steps_dirs s s' : rtc free_step s s' → fs_dirs s'.2 = fs_dirs s.2.
Proof. induction 1 as [|s1 s2 s3 Hst _ IH]; [done|]. rewrite IH. by destruct Hst. Qed.

(** ** A whole sweep *)

Lemma report_counts l rep :
  freed_blobs (report l rep) = freed_blobs rep ∧
  wrap_u64 (evicted_entries (report l rep)) = wrap_u64 (evicted_entries rep + Z.of_nat (length l)) ∧
  wrap_u64 (evicted_bytes (report l rep)) = wrap_u64 (evicted_bytes rep + sizes l).
Proof.
  revert rep. induction l as [|e l IH]; intros rep.
  - simpl. unfold sizes. simpl. by rewrite !Z.add_0_r.
  - simpl. destruct (IH (count_eviction (e_size_bytes e) rep)) as (-> & -> & ->).
    split_and!; [done|..]; unfold wrap_u64; cbn [count_eviction evicted_entries evicted_bytes];
      unfold wrap_u64; rewrite Zplus_mod_idemp_l; [f_equal; lia|].
    rewrite sizes_cons, <-Z.add_assoc, (Z.add_comm (_ mod _)), Z.add_assoc, Zplus_mod_idemp_r.
    f_equal. lia.
Qed.

Lemma report_in_u64 l rep :
  in_u64 (evicted_entries rep) → in_u64 (evicted_bytes rep) →
  in_u64 (evicted_entries (report l rep)) ∧ in_u64 (evicted_bytes (report l rep)).
Proof.
  revert rep. induction l as [|e l IH]; intros rep H1 H2; [done|]. simpl.
  apply IH; apply wrap_u64_in.
Qed.

(** The report of a run that evicted [l] and freed [n] blobs. *)
Definition run_report (l : list Entry) (n : nat) (usage : Z) : GcReport :=
  mkGcReport (wrap_u64 (Z.of_nat (length l))) (wrap_u64 (sizes l)) (wrap_u64 (Z.of_nat n)) usage.

Lemma freed_count n rep :
  freed_blobs rep = 0 →
  Nat.iter n count_freed rep =
    mkGcReport (evicted_entries rep) (evicted_bytes rep) (wrap_u64 (Z.of_nat n)) (usage_global_bytes rep).
Proof.
  intros H0. induction n as [|n IH]; simpl.
  - destruct rep; simpl in *. by subst.
  - rewrite IH. unfold count_freed, wrap_u64. cbn [evicted_entries evicted_bytes freed_blobs usage_global_bytes].
    f_equal. rewrite Zplus_mod_idemp_l. f_equal. lia.
Qed.

Lemma run_report_eq l n usage :
  set_usage usage (Nat.iter n count_freed (report l GcReport_default)) = run_report l n usage.
Proof.
  destruct (report_counts l GcReport_default) as (Hf & He & Hb).
  destruct (report_in_u64 l GcReport_default) as [He' Hb']; [done..|].
  rewrite wrap_u64_id in He, Hb by done.
  rewrite freed_count by done. unfold run_report, set_usage. cbn [evicted_entries evicted_bytes].
  by rewrite He, Hb.
Qed.

Section run.
Context {env : Env} {fsenv : FsEnv} {sha : Sha256}.

(** What a finished run has achieved: nothing due, no quota violated by entries
    that could go, no blob waiting. *)
Definition run_goals (cfg : GcConfig) (now : Z) (t : Tables) (s' : Sys) : Prop :=
  (∀ i e, entries s'.1 !! i = Some e → ¬ due cfg t now e) ∧
  (sizes_nonneg t → (∀ p, in_i64 (project_usage t p)) →
     ∀ i p, projects t !! i = Some p → quota_met p s'.1) ∧
  (∀ h, ¬ waiting s'.1 h).

Lemma quota_met_entries p t t' : entries t' = entries t → quota_met p t → quota_met p t'.
Proof. unfold quota_met, project_usage. by intros ->. Qed.

(** The phases in a row reach the goals: nothing is due after the first, every quota is
    met after the second, and neither later evictions nor freed blobs undo that. *)
Lemma run_goals_met cfg now t t1 t2 t3 fs s' l1 l2 l3 :
  schema_ok t → evicts unpinned l1 t t1 →
  (∀ e, e ∈ l1 ↔ entries t !! e_id e = Some e ∧ due cfg t now e) →
  evicts unpinned l2 t1 t2 →
  (sizes_nonneg t1 → (∀ p, in_i64 (project_usage t1 p)) →
     ∀ i p, projects t1 !! i = Some p → quota_met p t2) →
  evicts unpinned l3 t2 t3 → rtc free_step (t3, fs) s' → (∀ h, ¬ waiting s'.1 h) →
  run_goals cfg now t s'.
Proof.
  intros Hsch Hup1 Hall Hev2 Hquota Hev3 Hfree Hno.
  pose proof (free_steps_frame _ _ Hfree) as (Hent & _). simpl in Hent.
  pose proof (evicts_subseteq _ _ _ _ Hup1) as Hsub1.
  split_and!; [|intros Hs Hin i p Hp|done].
  - intros i e Hi Hdue. rewrite Hent in Hi.
    assert (entries t1 !! i = Some e) as Hi1.
    { eapply lookup_weaken; [done|]. eapply evicts_subseteq, evicts_app; done. }
    rewrite (evicts_lookup _ _ _ _ _ Hup1) in Hi1. case_bool_decide as Hni; [done|].
    destruct (so_entries t Hsch) as [_ Hid]. destruct (Hid _ _ Hi1) as [<- _].
    apply Hni, list_elem_of_fmap. exists e. split; [done|]. by apply Hall.
  - pose proof (sizes_nonneg_mono _ _ Hsub1 Hs) as Hs1.
    eapply quota_met_entries; [done|]. eapply quota_met_evicts; [exact Hev3| |].
    { eapply sizes_nonneg_mono; [by eapply evicts_subseteq|done]. }
    eapply Hquota; [done| |].
    + intros q. pose proof (evicts_usage_le _ _ _ _ q Hup1 Hs).
      pose proof (project_usage_nonneg t1 q Hs1). specialize (Hin q). unfold in_i64 in *. lia.
    + pose proof (evicts_frame _ _ _ _ Hup1) as (-> & _). done.
Qed.

Lemma GcSvc_run_spec cfg s :
  refs_ok s.1 →
  wp (GcSvc_run cfg false) (λ r s', ∃ l t1,
    evicts unpinned l s.1 t1 ∧ rtc free_step (t1, s.2) s' ∧
    match r with
    | Ok rep => ∃ now n, clock_reading now ∧ rep = run_report l n (total_size s'.1) ∧
        (size (blobs s'.1) + n = size (blobs t1))%nat ∧ run_goals cfg now s.1 s'
    | Err e => db_fault e ∨ overflow_err e
    | Stop _ => False
    end) s.
Proof.
  destruct s as [t fs]. intros Hok. simpl in *. pose proof (ro_schema _ Hok) as Hsch.
  unfold GcSvc_run, on_db. wp_go.
  wp_use ttl_phase_spec; [done|]. intros [rep1|x|w] t1 (now & Hnow & H1); simpl in *; [| |done].
  2: { destruct H1 as [Hx [l Hl]]. exists l, t1. split; [|split; [apply rtc_refl|tauto]].
       eapply evicts_mono; [|done]. intros e _. apply ttl_due_unpinned. }
  destruct H1 as (l1 & -> & Hev1 & Hall).
  assert (evicts unpinned l1 t t1) as Hup1
    by (eapply evicts_mono; [|done]; intros e _; apply ttl_due_unpinned).
  pose proof (evicts_schema _ _ _ _ Hup1 Hsch) as Hsch1.
  wp_go. wp_use quota_phase_spec; [done|]. intros [rep2|x|w] t2 H2; simpl in *; [| |done].
  2: { destruct H2 as [Hx [l2 Hl2]]. exists (l1 ++ l2), t2. split; [by eapply evicts_app|].
       split; [apply rtc_refl|tauto]. }
  destruct H2 as (l2 & -> & Hev2 & Hquota).
  pose proof (evicts_app _ _ _ _ _ _ Hup1 Hev2) as Hup2.
  pose proof (evicts_schema _ _ _ _ Hup2 Hsch) as Hsch2.
  wp_go. wp_use global_phase_spec; [done|]. intros [rep3|x|w] t3 H3; simpl in *; [| |done].
  2: { destruct H3 as [Hx [l3 Hl3]]. exists ((l1 ++ l2) ++ l3), t3. split; [by eapply evicts_app|].
       split; [apply rtc_refl|tauto]. }
  destruct H3 as (l3 & -> & Hev3 & _).
  pose proof (evicts_app _ _ _ _ _ _ Hup2 Hev3) as Hup3.
  pose proof (refs_ok_evicts _ _ _ _ Hup3 Hok) as Hok3.
  wp_go. wp_use cleanup_blobs_spec; [done|].
  intros [rep4|x|w] [t4 fs4] [Hfree H4]; cbv beta iota delta [bind_post]; [| |done].
  2: { exists ((l1 ++ l2) ++ l3), t3. split_and!; [done|done|by left]. }
  destruct H4 as (Hno & n & -> & Hsz). simpl in *.
  wp_go. wp_use Blobs_total_size_spec. intros [u|x|w] t5 H5; simpl; [| |done].
  - destruct H5 as [-> ->]. apply wp_ret. exists ((l1 ++ l2) ++ l3), t3. split_and!; [done|done|].
    exists now, n. split; [done|]. split; [rewrite <-run_report_eq, !report_app; done|].
    split; [done|]. exact (run_goals_met _ _ _ _ _ _ _ _ _ _ _ Hsch Hup1 Hall Hev2 (Hquota eq_refl) Hev3 Hfree Hno).
  - exists ((l1 ++ l2) ++ l3), t3. destruct H5 as [[Hx|[Hx _]] ->]; auto.
Qed.
End run.

(** ** Dry runs *)

Section dry_run.
Context {env : Env} {fsenv : FsEnv}.

Lemma on_db_same {A} (m : M CoreError Tables A) (Q : res CoreError A → Sys → Prop) s :
  wp m (λ r t', t' = s.1 ∧ no_stop r) s.1 → (∀ r, no_stop r → Q r s) → wp (on_db m) Q s.
Proof.
  intros Hm HQ. apply wp_zoom. eapply wp_mono; [exact Hm|].
  intros r t' [-> Hr]. destruct s. by apply HQ.
Qed.

Lemma free_dry_spec batch rep s :
  wp (foldM (free_blob true) rep batch)
    (λ r s', s' = s ∧ r = Ok (Nat.iter (length batch) count_freed rep)) s.
Proof.
  revert rep. induction batch as [|h batch IH]; intros rep; simpl; [by apply wp_ret|].
  unfold free_blob at 1. wp_go. wp_use IH. intros r s' [-> ->]. by rewrite iter_count_freed.
Qed.

Lemma outcome_same {A} t (ok : A → Tables → Prop) err r t' :
  (∀ a u, ok a u → u = t) → outcome t ok err r t' → t' = t ∧ no_stop r.
Proof. intros Hok. destruct r; simpl; [by eauto|by intros [_ ->]|done]. Qed.

Lemma cleanup_dry_spec rep s : wp (cleanup_blobs rep true) (λ r s', s' = s ∧ no_stop r) s.
Proof.
  apply wp_bind, wp_gets. cbv beta iota delta [bind_post]. simpl.
  apply wp_bind. apply on_db_same.
  { wp_use Blobs_zero_refcount_spec. intros r u. apply outcome_same. by intros ? ? []. }
  intros [[|h batch]|x|w] Hr; [by apply wp_ret| |done..].
  cbv beta iota delta [bind_post]. apply wp_bind. wp_use free_dry_spec.
  intros r s' [-> ->]. by apply wp_ret.
Qed.

Lemma phase_dry (P : Entry → Prop) err done rep t r t' :
  phase P true err done rep t r t' → t' = t ∧ no_stop r.
Proof. destruct r; simpl; [by intros (?&_&[]&_)|by intros (_&?&[])|done]. Qed.

Lemma GcSvc_run_dry_spec cfg s :
  schema_ok s.1 → wp (GcSvc_run cfg true) (λ r s', s' = s ∧ no_stop r) s.
Proof.
  intros Hok. unfold GcSvc_run.
  apply wp_bind, on_db_same.
  { wp_use ttl_phase_spec; [done|]. intros r t' (now & _ & H). by apply phase_dry in H. }
  intros [rep1|x|w] Hr; [|done..]. apply wp_bind, on_db_same.
  { wp_use quota_phase_spec; [done|]. intros r t' H. by apply phase_dry in H. }
  intros [rep2|x|w] Hr2; [|done..]. apply wp_bind, on_db_same.
  { wp_use global_phase_spec; [done|]. intros r t' H. by apply phase_dry in H. }
  intros [rep3|x|w] Hr3; [|done..]. apply wp_bind. wp_use cleanup_dry_spec.
  intros [rep4|x|w] s' [-> Hr4]; [|done..]. apply wp_bind, on_db_same.
  { wp_use Blobs_total_size_spec. intros r u. apply outcome_same. by intros ? ? []. }
  intros [n|x|w] Hr5; [|done..]. by apply wp_ret.
Qed.
End dry_run.

(** ** Theorems *)

(** Whatever the clock, the database and the file system do, a sweep, dry or
    not, keeps the invariant of database and store: the schema constraints, the
    refcounts covering the references, every file stored under its hash, and
    every entry backed by a file.  It never panics and never loops. *)
Theorem gc_run_keeps_invariant `{!Env, !FsEnv, !Sha256} cfg dry_run s n r s' n' :
  sys_ok s → GcSvc_run cfg dry_run s n = (r, s', n') → sys_ok s' ∧ no_stop r.
Proof.
  intros Hs Hrun. destruct dry_run.
  - by destruct (wp_run _ _ _ _ _ _ _ (GcSvc_run_dry_spec cfg s (ro_schema _ (sys_refs _ Hs))) Hrun) as [-> Hr].
  - destruct (wp_run _ _ _ _ _ _ _ (GcSvc_run_spec cfg s (sys_refs _ Hs)) Hrun)
      as (l & t1 & Hev & Hfree & Hr).
    split; [|by destruct r]. eapply free_steps_ok; [done|].
    eapply sys_ok_evicts; [done|]. by destruct s.
Qed.

(** C19: a sweep never takes a pinned entry, never modifies the entries it keeps
    nor the content of their blobs, and touches nothing but entries and blobs,
    even when it fails half way. *)
Theorem gc_run_spares_pinned `{!Env, !FsEnv, !Sha256} cfg s n r s' n' :
  sys_ok s → GcSvc_run cfg false s n = (r, s', n') →
  (∀ i e, entries s.1 !! i = Some e → e_pinned e = true → entries s'.1 !! i = Some e) ∧
  (∀ i e, entries s'.1 !! i = Some e → entries s.1 !! i = Some e ∧
     blob_at s'.2 (e_blob_hash e) = blob_at s.2 (e_blob_hash e)) ∧
  projects s'.1 = projects s.1 ∧ api_keys s'.1 = api_keys s.1 ∧
  admin_tokens s'.1 = admin_tokens s.1 ∧ stats_counters s'.1 = stats_counters s.1 ∧
  audit_log s'.1 = audit_log s.1.
Proof.
  intros Hs Hrun.
  destruct (wp_run _ _ _ _ _ _ _ (GcSvc_run_spec cfg s (sys_refs _ Hs)) Hrun)
    as (l & t1 & Hev & Hfree & _).
  pose proof (free_steps_frame _ _ Hfree) as (He & Hp & Hk & Ht & Hst & Ha & _). simpl in *.
  pose proof (evicts_frame _ _ _ _ Hev) as (Hp' & Hk' & Ht' & Hst' & Ha' & _).
  assert (sys_ok s') as Hs'.
  { eapply free_steps_ok; [done|]. eapply sys_ok_evicts; [done|]. by destruct s. }
  split_and!; try congruence.
  - intros i e Hi Hpin. rewrite He, (evicts_lookup _ _ _ _ _ Hev).
    case_bool_decide as Hin; [|done].
    apply list_elem_of_fmap in Hin as (e' & -> & Hin).
    pose proof (evicts_in _ _ _ _ _ Hev Hin) as Hi'.
    pose proof (evicts_forall _ _ _ _ Hev) as Hall. rewrite Forall_forall in Hall.
    specialize (Hall _ Hin). unfold unpinned in Hall. congruence.
  - intros i e Hi. destruct (sys_available _ Hs' i e Hi) as [c Hc].
    pose proof (free_steps_files _ _ _ _ Hfree Hc) as Hc0. simpl in Hc0.
    split; [|by rewrite Hc, Hc0].
    rewrite He in Hi. eapply lookup_weaken; [done|]. by eapply evicts_subseteq.
Qed.

(** C20: a sweep that succeeds has removed every entry older than its TTL, brought
    every project under its quota or down to its pinned entries, left no
    unreferenced blob behind, and reports exactly the rows it removed. *)
Theorem gc_run_reaches_goals `{!Env, !FsEnv, !Sha256} cfg s n rep s' n' :
  sys_ok s → sizes_nonneg s.1 → (∀ p, in_i64 (project_usage s.1 p)) →
  GcSvc_run cfg false s n = (Ok rep, s', n') →
  ∃ now, clock_reading now ∧
    (∀ i e, entries s'.1 !! i = Some e → ttl_due cfg (projects s.1) now e = false) ∧
    (∀ i p, projects s.1 !! i = Some p → quota_met p s'.1) ∧
    (∀ h b, blobs s'.1 !! h = Some b → b_refcount b ≠ 0) ∧
    ∃ l k, (∀ i, entries s'.1 !! i = if bool_decide (i ∈ e_id <$> l) then None else entries s.1 !! i) ∧
      NoDup (e_id <$> l) ∧ (∀ e, e ∈ l → entries s.1 !! e_id e = Some e) ∧
      (size (blobs s'.1) + k = size (blobs s.1))%nat ∧
      rep = run_report l k (total_size s'.1).
Proof.
  intros Hs Hnn Hin Hrun.
  destruct (wp_run _ _ _ _ _ _ _ (GcSvc_run_spec cfg s (sys_refs _ Hs)) Hrun)
    as (l & t1 & Hev & Hfree & now & k & Hnow & -> & Hsz & Hdue & Hq & Hw).
  pose proof (free_steps_frame _ _ Hfree) as (He & _). simpl in *.
  exists now. split; [done|]. split_and!.
  - intros i e Hi. apply not_true_iff_false. by apply (Hdue i e).
  - intros i p Hp. by eapply Hq.
  - intros h b Hb Hz. apply (Hw h). by exists b.
  - exists l, k. split_and!.
    + intros i. rewrite He. by eapply evicts_lookup.
    + by eapply evicts_NoDup.
    + intros e. by eapply evicts_in.
    + rewrite Hsz. assert (dom (blobs t1) = dom (blobs s.1)) as Hd.
      { apply set_eq. intros h. rewrite !elem_of_dom.
        pose proof (evicts_blob _ _ _ _ h Hev) as Hb.
        destruct (blobs t1 !! h), (blobs s.1 !! h); simpl in Hb; try done; split; by eauto. }
      by rewrite <-!size_dom, Hd.
    + done.
Qed.

(** C21: with nothing failing around it, a sweep always ends, and with a report
    unless a sum of sizes leaves the 64-bit range. *)
Theorem gc_run_terminates `{!Env, !FsEnv, !Sha256} cfg s n :
  Quiet → sys_ok s →
  (∃ rep, (GcSvc_run cfg false s n).1.1 = Ok rep) ∨
  (GcSvc_run cfg false s n).1.1 = Err (Database err_overflow).
Proof.
  intros Hq Hs. pose proof (GcSvc_run_spec cfg s (sys_refs _ Hs) n) as (l & t1 & _ & _ & Hr).
  destruct (GcSvc_run cfg false s n) as [[[rep|e|w] s'] n']; simpl in *; [by eauto| |done].
  right. destruct Hr as [Hf| ->]; [by apply db_fault_quiet in Hf|done].
Qed.

(** A dry run changes nothing, whatever it reports. *)
Theorem gc_dry_run_is_read_only `{!Env, !FsEnv} cfg s n :
  schema_ok s.1 → (GcSvc_run cfg true s n).1.2 = s.
Proof. intros Hs. apply (GcSvc_run_dry_spec cfg s Hs n). Qed.
