(* ===== verification/Orphans.v ===== *)
(** * The orphan scan

    [GcSvc::orphan_scan] of [crates/marmotte-core/src/gc.rs]: which files and rows
    it removes, and that each removal keeps the invariant [sys_ok]. *)
From stdpp Require Import base numbers list strings gmap sorting pretty relations.
From Stdlib Require Import ZArith Lia.
From S2P Require Import Prelude Models Db Blobs Entries Projects Storage DiskWalk Config Gc GcRun.

Record OrphanReport := mkOrphanReport {
  disk_orphans_removed : Z;
  db_orphans_removed : Z
}.

Section orphan_ops.
Context {env : Env} {fsenv : FsEnv}.

(** ** Orphan scan *)

(** Iterating over a [HashSet]: some order. *)
Definition iter_set {E S} (x : gset string) : M E S (list string) :=
  λ s n, (Ok (env_scan n string (elements x)), s, Datatypes.S n).

Definition disk_orphan (dry_run : bool) (rep : OrphanReport) (h : string) : M CoreError Sys OrphanReport :=
  (if dry_run then ret tt
   else let* _ := attempt (F := CoreError) (on_fs (LocalFsStore_delete_blob h)) in ret tt) ;*
  ret (mkOrphanReport (wrap_u64 (disk_orphans_removed rep + 1)) (db_orphans_removed rep)).

(** [DELETE FROM entries WHERE blob_hash = ?] *)
Definition drop_references (h : string) (t : Tables) : Tables :=
  set_entries (filter (λ '(_, e), e_blob_hash e ≠ h) (entries t)) (seq_entries t) t.

Definition db_orphan (dry_run : bool) (rep : OrphanReport) (h : string) : M CoreError Sys OrphanReport :=
  (if dry_run then ret tt
   else on_db (transaction (
     sql (exec (λ _ t, inr (tt, drop_references h t))) ;*
     Blobs_delete h))) ;*
  ret (mkOrphanReport (disk_orphans_removed rep) (wrap_u64 (db_orphans_removed rep + 1))).

Definition GcSvc_orphan_scan (dry_run : bool) : M CoreError Sys OrphanReport :=
  let rep := mkOrphanReport 0 0 in
  let* present := on_fs (fs_exists ["blobs"%string]) in
  let* on_disk := (if present : bool then on_fs walk_blobs else ret ∅) in
  let* db_hashes := on_db (sql (query_scan (λ t, rows (blobs t)) (λ l, b_hash <$> l))) in
  let db_set : gset string := list_to_set db_hashes in
  let* l1 := iter_set (on_disk ∖ db_set) in
  let* rep := foldM (disk_orphan dry_run) rep l1 in
  let* l2 := iter_set (db_set ∖ on_disk) in
  foldM (db_orphan dry_run) rep l2.
End orphan_ops.

(** ** What a scan may do *)

(** Forgetting a blob together with the entries that name it. *)
Definition purge (h : string) (t : Tables) : Tables := drop_blob h (drop_references h t).

Inductive orphan_step : Sys → Sys → Prop :=
| orphan_file t fs h : blobs t !! h = None → orphan_step (t, fs) (t, drop_blob_file h fs)
| orphan_row t fs h : orphan_step (t, fs) (purge h t, fs).
#[export] Hint Constructors orphan_step : marmotte.

Lemma ref_entries_purge t h h' :
  ref_entries (drop_references h t) h' = if String.eqb h h' then 0 else ref_entries t h'.
Proof.
  unfold ref_entries, drop_references. cbn [set_entries entries].
  destruct (String.eqb_spec h h') as [<-|Hne].
  - apply sum_map_zero. intros i e [_ He]%map_lookup_filter_Some. unfold refers_to.
    by apply String.eqb_neq in He as ->.
  - unfold count_map. induction (entries t) as [|i e m Hi IH] using map_ind.
    + by rewrite map_filter_empty.
    + rewrite sum_map_insert by done. destruct (decide (e_blob_hash e ≠ h)) as [Hn|Heq].
      * rewrite map_filter_insert_True by done. rewrite sum_map_insert, IH; [done|].
        apply map_lookup_filter_None. by left.
      * rewrite map_filter_insert_False, delete_id by done. rewrite IH.
        assert (e_blob_hash e = h) as He by (by apply dec_stable).
        unfold refers_to. rewrite He. apply String.eqb_neq in Hne as ->. lia.
Qed.

Lemma schema_drop_references t h : schema_ok t → schema_ok (drop_references h t).
Proof.
  intros Hok. apply schema_set_entries; [done| | |].
  - eapply ids_ok_subseteq; [by apply so_entries|apply map_filter_subseteq].
  - eapply unique_on_subseteq; [by apply so_entry_key|apply map_filter_subseteq].
  - intros i e [Hi _]%map_lookup_filter_Some.
    split; [by eapply so_entry_project|by eapply so_entry_blob].
Qed.

Lemma slack_purge t h h' : slack (purge h t) h' = if String.eqb h h' then 0 else slack t h'.
Proof.
  unfold slack, purge, refcount_of.
  change (ref_entries (drop_blob h (drop_references h t)) h') with (ref_entries (drop_references h t) h').
  rewrite ref_entries_purge. unfold drop_blob, set_blobs. cbn [blobs drop_references set_entries].
  destruct (String.eqb_spec h h') as [<-|Hne].
  - by rewrite lookup_delete_eq.
  - by rewrite lookup_delete_ne.
Qed.

Lemma refs_ok_purge t h : refs_ok t → refs_ok (purge h t).
Proof.
  intros [Hok Hc Hh]. split.
  - apply schema_drop_blob; [by apply schema_drop_references|].
    by rewrite ref_entries_purge, String.eqb_refl.
  - intros h'. rewrite slack_purge. case_match; [done|apply Hc].
  - intros h' b. unfold purge, drop_blob, set_blobs. cbn [blobs].
    intros [_ Hb]%lookup_delete_Some. eauto.
Qed.

Section orphans.
Context {sha : Sha256}.

Lemma orphan_step_ok s s' : orphan_step s s' → sys_ok s → sys_ok s'.
Proof.
  intros Hst [Hr Hs Ha]. destruct Hst as [t fs h Hh|t fs h]; simpl in *.
  - split; simpl; [done|by apply store_ok_delete|]. apply available_drop_file; [|done].
    apply ref_entries_missing; [by apply ro_schema|done].
  - split; simpl; [by apply refs_ok_purge|done|].
    intros i e [Hi _]%map_lookup_filter_Some. by apply (Ha i e).
Qed.

Lemma orphan_steps_ok s s' : rtc orphan_step s s' → sys_ok s → sys_ok s'.
Proof. induction 1; eauto using orphan_step_ok. Qed.

End orphans.

Lemma orphan_steps_dirs s s' : rtc orphan_step s s' → fs_dirs s'.2 = fs_dirs s.2.
Proof. induction 1 as [|s1 s2 s3 Hst _ IH]; [done|]. rewrite IH. by destruct Hst. Qed.

Section orphan_scan.
Context {env : Env} {fsenv : FsEnv} {sha : Sha256}.

Lemma wp_iter_set {S} (x : gset string) (Q : res CoreError (list string) → S → Prop) s :
  (∀ l, NoDup l → (∀ h, h ∈ l ↔ h ∈ x) → Q (Ok l) s) → wp (iter_set x) Q s.
Proof.
  intros H n. apply H.
  - rewrite env_scan_perm. apply NoDup_elements.
  - intros h. rewrite (env_scan_perm n string (elements x)). apply elem_of_elements.
Qed.

(** The loop over the files without a row. *)
Definition disk_loop_post (l : list string) rep (s : Sys) (r : res CoreError OrphanReport) (s' : Sys) : Prop :=
  r = Ok (mkOrphanReport (wrap_u64 (disk_orphans_removed rep + Z.of_nat (length l)))
            (db_orphans_removed rep)) ∧
  s'.1 = s.1 ∧ rtc orphan_step s s' ∧
  (∀ h, h ∉ l → blob_at s'.2 h = blob_at s.2 h) ∧
  (fs_quiet → ∀ h, h ∈ l → blob_at s'.2 h = None).

Lemma disk_loop_spec l rep s :
  in_u64 (disk_orphans_removed rep) →
  (∀ h, h ∈ l → is_hash h = true ∧ blobs s.1 !! h = None) → NoDup l →
  wp (foldM (disk_orphan false) rep l) (disk_loop_post l rep s) s.
Proof.
  revert rep s. induction l as [|h l IH]; intros rep [t fs] Hu Hl Hnd; simpl.
  { apply wp_ret. split_and!; [|done|apply rtc_refl|done|set_solver].
    simpl. rewrite Z.add_0_r, wrap_u64_id by done. by destruct rep. }
  apply NoDup_cons in Hnd as [Hni Hnd].
  destruct (Hl h ltac:(by left)) as [Hh Hb]. simpl in Hb.
  unfold disk_orphan at 1. wp_go. unfold on_fs. wp_go. wp_use delete_blob_outcome; [done|].
  assert (∀ fs', (fs' = drop_blob_file h fs ∨ fs' = fs ∧ ∃ x, fs_faulty x) →
    wp (foldM (disk_orphan false)
          (mkOrphanReport (wrap_u64 (disk_orphans_removed rep + 1)) (db_orphans_removed rep)) l)
      (disk_loop_post (h :: l) rep (t, fs)) (t, fs')) as Hrest.
  { intros fs' Hfs. wp_use IH; [apply wrap_u64_in|intros h' Hh'; by apply Hl; right|done|].
    intros r [t' fs''] (-> & Ht & Hst & Hsame & Hgone). simpl in *. subst t'.
    split_and!; simpl; [| |..].
    - unfold wrap_u64. rewrite Zplus_mod_idemp_l. do 3 f_equal. lia.
    - done.
    - destruct Hfs as [->|[-> _]]; [|done]. eapply rtc_l; [|done]. eauto with marmotte.
    - intros h' [Hne Hn]%not_elem_of_cons. rewrite Hsame by done.
      destruct Hfs as [->|[-> _]]; [|done]. unfold blob_at, drop_blob_file. cbn [set_files fs_files].
      rewrite lookup_delete_ne; [done|]. by intros ?%blob_components_inj.
    - intros Hq h' [->|Hin]%elem_of_cons; [|by apply Hgone].
      rewrite Hsame by done. destruct Hfs as [->|[_ [x Hx]]]; [|by apply fs_quiet_faulty in Hx].
      unfold blob_at, drop_blob_file. cbn [set_files fs_files]. apply lookup_delete_eq. }
  intros [[]|x|w] fs' Hfs; simpl; [| |done].
  - wp_go. apply Hrest. destruct Hfs as [?|[-> (x & Hx & _)]]; eauto.
  - wp_go. apply Hrest. destruct Hfs as [-> (x' & Hx & _)]; eauto.
Qed.

(** The loop over the rows without a file. *)
Lemma db_loop_spec l rep s :
  in_u64 (db_orphans_removed rep) →
  wp (foldM (db_orphan false) rep l) (λ r s', rtc orphan_step s s' ∧ s'.2 = s.2 ∧
    match r with
    | Ok rep' => rep' = mkOrphanReport (disk_orphans_removed rep)
                          (wrap_u64 (db_orphans_removed rep + Z.of_nat (length l))) ∧
                 s'.1 = foldr purge s.1 (rev l)
    | Err e => db_fault e
    | Stop _ => False
    end) s.
Proof.
  revert rep s. induction l as [|h l IH]; intros rep [t fs] Hu; simpl.
  { apply wp_ret. split_and!; [apply rtc_refl|done| |done].
    simpl. rewrite Z.add_0_r, wrap_u64_id by done. by destruct rep. }
  unfold db_orphan at 1. wp_go. unfold on_db. wp_go.
  apply wp_transaction; simpl.
  { intros x Hx. split_and!; [apply rtc_refl|done|by apply db_fault_intro]. }
  wp_go. apply wp_sql, wp_exec; simpl.
  { intros x Hx. split_and!; [apply rtc_refl|done|by apply db_fault_intro]. }
  intros _. wp_go. wp_use Blobs_delete_spec. intros [[]|x|w] u Hdel; simpl; [| |done].
  - destruct Hdel as [-> _]. wp_go. wp_use IH; [apply wrap_u64_in|].
    intros r [t' fs'] (Hst & Hfs & Hr). simpl in *. split_and!.
    + eapply rtc_l; [|exact Hst]. apply orphan_row.
    + done.
    + destruct r as [rep'|x|w]; [|done..]. destruct Hr as [-> ->]. split.
      * unfold wrap_u64. rewrite Zplus_mod_idemp_l. do 2 f_equal. lia.
      * by rewrite foldr_app.
  - destruct Hdel as [[Hx|[_ Hx]] ->].
    + split_and!; [apply rtc_refl|done|done].
    + by rewrite ref_entries_purge, String.eqb_refl in Hx.
Qed.

Lemma purge_all_lookup l t :
  (∀ i e, entries (foldr purge t l) !! i = Some e ↔ entries t !! i = Some e ∧ e_blob_hash e ∉ l) ∧
  (∀ h b, blobs (foldr purge t l) !! h = Some b ↔ blobs t !! h = Some b ∧ h ∉ l).
Proof.
  induction l as [|h l [IHe IHb]]; simpl; [split; set_solver|].
  unfold purge, drop_blob, drop_references, set_blobs, set_entries. cbn [entries blobs].
  split.
  - intros i e. rewrite map_lookup_filter_Some, IHe, not_elem_of_cons. tauto.
  - intros h' b. rewrite lookup_delete_Some, IHb, not_elem_of_cons. split; intros; split_and!; naive_solver.
Qed.

(** The set of hashes that the scan believes to be on disk. *)
Definition seen (fs : Fs) (D : gset string) : Prop :=
  (∀ h, h ∈ D ↔ is_Some (blob_at fs h)) ∨ (D = ∅ ∧ ∃ x, fs_faulty x).

Definition kept (D : gset string) (s s' : Sys) : Prop :=
  (∀ i e, entries s'.1 !! i = Some e ↔ entries s.1 !! i = Some e ∧ e_blob_hash e ∈ D) ∧
  (∀ h b, blobs s'.1 !! h = Some b ↔ blobs s.1 !! h = Some b ∧ h ∈ D) ∧
  (fs_quiet → ∀ h, h ∈ D → is_Some (blob_at s'.2 h) ↔ is_Some (blobs s.1 !! h)).

Definition scan_post (s : Sys) (r : res CoreError OrphanReport) (s' : Sys) : Prop :=
  rtc orphan_step s s' ∧
  match r with
  | Ok _ => ∃ D, seen s.2 D ∧ kept D s s'
  | Err e => db_fault e ∨ io_fault e
  | Stop _ => False
  end.

(** From the moment the disk has been walked. *)
Definition rest_post (D : gset string) (s : Sys) (r : res CoreError OrphanReport) (s' : Sys) : Prop :=
  rtc orphan_step s s' ∧
  match r with
  | Ok _ => kept D s s'
  | Err e => db_fault e
  | Stop _ => False
  end.

Lemma rest_post_scan D s r s' : seen s.2 D → rest_post D s r s' → scan_post s r s'.
Proof. intros HD [Hst Hr]. split; [done|]. destruct r; [by exists D|by left|done]. Qed.

Lemma scan_rest_spec D s :
  schema_ok s.1 → store_ok s.2 → seen s.2 D →
  wp (let* db_hashes := on_db (sql (query_scan (λ t, rows (blobs t)) (λ l, b_hash <$> l))) in
      let db_set : gset string := list_to_set db_hashes in
      let* l1 := iter_set (D ∖ db_set) in
      let* rep := foldM (disk_orphan false) (mkOrphanReport 0 0) l1 in
      let* l2 := iter_set (db_set ∖ D) in
      foldM (db_orphan false) rep l2) (rest_post D s) s.
Proof.
  destruct s as [t fs]. intros Hok Hst Hseen. unfold on_db. simpl in *. wp_go.
  apply wp_sql, wp_query_scan; simpl.
  { intros x Hx. split; [apply rtc_refl|]. by apply db_fault_intro. }
  intros lb Hlb. wp_go.
  assert (∀ h, h ∈ (list_to_set (b_hash <$> lb) : gset string) ↔ is_Some (blobs t !! h)) as Hdb.
  { intros h. rewrite elem_of_list_to_set, list_elem_of_fmap. split.
    - intros (b & -> & Hb). rewrite Hlb, elem_of_rows in Hb. destruct Hb as [h Hb].
      exists b. by rewrite (so_blobs t Hok _ _ Hb).
    - intros [b Hb]. exists b. split; [by rewrite (so_blobs t Hok _ _ Hb)|].
      rewrite Hlb, elem_of_rows. eauto. }
  apply wp_iter_set. intros l1 Hnd1 Hl1. wp_go.
  wp_use disk_loop_spec; [done| |done|].
  { intros h Hh. apply Hl1, elem_of_difference in Hh as [HD Hn]. simpl. rewrite Hdb in Hn.
    split; [|by apply eq_None_not_Some]. destruct Hseen as [HD'|[-> _]]; [|set_solver].
    apply HD' in HD as [c Hc]. rewrite <-(store_ok_blob _ _ _ Hst Hc). apply sha256_hex_is_hash. }
  intros r [t1 fs1] (-> & Ht & Hsteps & Hsame & Hgone). simpl in *. subst t1. wp_go.
  apply wp_iter_set. intros l2 Hnd2 Hl2. wp_go.
  wp_use db_loop_spec; [done|].
  intros r [t2 fs2] (Hsteps2 & Hfs & Hr). simpl in *. subst fs2.
  split; [by etransitivity|]. destruct r as [rep|x|w]; [|done..].
  destruct Hr as [_ ->].
  destruct (purge_all_lookup (rev l2) t) as [He Hb].
  assert (∀ h, is_Some (blobs t !! h) → h ∉ rev l2 ↔ h ∈ D) as Hin.
  { intros h Hh. rewrite list_elem_of_In, <-in_rev, <-list_elem_of_In, Hl2, elem_of_difference, Hdb.
    destruct (decide (h ∈ D)); tauto. }
  split_and!; simpl.
  - intros i e. rewrite He. split; intros [Hi Hn]; (split; [done|]);
      eapply Hin; eauto using so_entry_blob.
  - intros h b. rewrite Hb. split; intros [Hi Hn]; (split; [done|]); eapply Hin; eauto.
  - intros Hq h HD. destruct (decide (h ∈ l1)) as [Hh|Hh].
    + rewrite (Hgone Hq h Hh). apply Hl1, elem_of_difference in Hh as [_ Hn]. rewrite Hdb in Hn.
      split; [by intros [? ?]|done].
    + rewrite (Hsame h Hh). rewrite Hl1, elem_of_difference, Hdb in Hh.
      destruct Hseen as [HD'|[-> _]]; [|set_solver]. rewrite <-HD'.
      split; [|done]. intros _. destruct (decide (is_Some (blobs t !! h))); tauto.
Qed.

Lemma orphan_scan_spec s :
  schema_ok s.1 → store_ok s.2 → ["blobs"%string] ∈ fs_dirs s.2 →
  wp (GcSvc_orphan_scan false) (scan_post s) s.
Proof.
  intros Hok Hst Hdir. destruct s as [t fs]. simpl in *.
  unfold GcSvc_orphan_scan, on_fs. wp_go. unfold fs_exists. wp_go. apply wp_fs_op; simpl.
  - intros x k Hx. assert (seen fs ∅) as Hseen by (right; eauto).
    repeat first [eapply wp_mono; [apply (scan_rest_spec ∅ (t, fs)); done|]|wp_step].
    intros r s'. by apply rest_post_scan.
  - rewrite (bool_decide_eq_true_2 (_ ∈ fs_dirs fs)), orb_true_r by done. wp_go.
    wp_use walk_blobs_spec; [done..|]. intros [D|e|w] fs' [-> HD]; simpl; [|by split; [apply rtc_refl|right]|done].
    assert (seen fs D) as Hseen by (by left).
    eapply wp_mono; [apply (scan_rest_spec _ (t, fs)); done|]. intros r s'. by apply rest_post_scan.
Qed.
(** A dry scan only looks. *)
Lemma orphan_scan_dry_spec s :
  store_ok s.2 → ["blobs"%string] ∈ fs_dirs s.2 → wp (GcSvc_orphan_scan true) (λ r s', s' = s ∧
  match r with Ok _ => True | Err e => db_fault e ∨ io_fault e | Stop _ => False end) s.
Proof.
  intros Hok Hdir.
  assert (∀ D, wp (let* db_hashes := on_db (sql (query_scan (λ t, rows (blobs t)) (λ l, b_hash <$> l))) in
      let db_set : gset string := list_to_set db_hashes in
      let* l1 := iter_set (D ∖ db_set) in
      let* rep := foldM (disk_orphan true) (mkOrphanReport 0 0) l1 in
      let* l2 := iter_set (db_set ∖ D) in
      foldM (db_orphan true) rep l2) (λ r s', s' = s ∧
        match r with Ok _ => True | Err e => db_fault e ∨ io_fault e | Stop _ => False end) s) as Hrest.
  { intros D. unfold on_db. destruct s as [t fs]. wp_go.
    apply wp_sql, wp_query_scan; simpl.
    { intros x Hx. split; [done|]. left. by apply db_fault_intro. }
    intros lb _. wp_go. apply wp_iter_set. intros l1 _ _. wp_go.
    eapply (wp_foldM _ (λ _ _ s', s' = (t, fs))); [|by intros; subst; unfold disk_orphan; wp_go|done].
    intros rep s' ->. wp_go. apply wp_iter_set. intros l2 _ _. wp_go.
    by eapply (wp_foldM _ (λ _ _ s', s' = (t, fs))); [intros; subst|intros; subst; unfold db_orphan; wp_go|]. }
  destruct s as [t fs].
  unfold GcSvc_orphan_scan, on_fs. wp_go. unfold fs_exists. wp_go. apply wp_fs_op; simpl.
  - intros x k Hx. repeat first [apply (Hrest ∅)|wp_step].
  - repeat wp_step.
    destruct (bool_decide _ || bool_decide _); [wp_go|repeat first [apply (Hrest ∅)|wp_step]].
    wp_use walk_blobs_spec; [done..|].
    intros [D|e|w] fs' [-> HD]; simpl; [apply Hrest|by split; [|right]|done].
Qed.
End orphan_scan.

(** Files are only ever unlinked. *)
Lemma orphan_steps_entries s s' : rtc orphan_step s s' → entries s'.1 ⊆ entries s.1.
Proof.
  induction 1 as [|s1 s2 s3 Hst _ IH]; [done|]. etransitivity; [exact IH|].
  destruct Hst; simpl; [done|]. apply map_filter_subseteq.
Qed.

Lemma orphan_steps_exact s s' h : rtc orphan_step s s' → slack s.1 h = 0 → slack s'.1 h = 0.
Proof.
  induction 1 as [|s1 s2 s3 Hst _ IH]; [done|]. intros Hh. apply IH. revert Hh.
  destruct Hst; simpl; [done|]. rewrite slack_purge. by destruct (String.eqb _ _).
Qed.

Lemma orphan_steps_files s s' h c :
  rtc orphan_step s s' → blob_at s'.2 h = Some c → blob_at s.2 h = Some c.
Proof.
  induction 1 as [|s1 s2 s3 Hst _ IH]; [done|]. intros Hc. apply IH in Hc. revert Hc.
  destruct Hst; simpl; [|done]. unfold blob_at, drop_blob_file. cbn [set_files fs_files].
  by intros [_ ?]%lookup_delete_Some.
Qed.

(** ** Theorems *)

(** A scan keeps the invariant of database and store on every path, adds
    nothing, never panics, and changes nothing at all in a dry run. *)
Theorem orphan_scan_keeps_invariant `{!Env, !FsEnv, !Sha256} dry_run s n r s' n' :
  sys_ok s → ["blobs"%string] ∈ fs_dirs s.2 →
  GcSvc_orphan_scan dry_run s n = (r, s', n') →
  sys_ok s' ∧ no_stop r ∧ (dry_run = true → s' = s) ∧
  (∀ h c, blob_at s'.2 h = Some c → blob_at s.2 h = Some c).
Proof.
  intros Hs Hdir Hrun. destruct dry_run.
  - destruct (wp_run _ _ _ _ _ _ _ (orphan_scan_dry_spec s (sys_store _ Hs) Hdir) Hrun) as [-> Hr].
    split_and!; [done|by destruct r|done..].
  - destruct (wp_run _ _ _ _ _ _ _ (orphan_scan_spec s (ro_schema _ (sys_refs _ Hs))
      (sys_store _ Hs) Hdir) Hrun) as [Hsteps Hr].
    split_and!; [by eapply orphan_steps_ok|by destruct r|done|].
    intros h c. by eapply orphan_steps_files.
Qed.

(** C23: with nothing failing around it, a scan ends with a report and leaves
    exactly the blobs that have both a row and a file; it takes no entry away. *)
Theorem orphan_scan_reconciles `{!Env, !FsEnv, !Sha256} s n :
  Quiet → fs_quiet → sys_ok s → ["blobs"%string] ∈ fs_dirs s.2 →
  ∃ rep s', (GcSvc_orphan_scan false s n).1 = (Ok rep, s') ∧
    (∀ h, is_Some (blobs s'.1 !! h) ↔ is_Some (blob_at s'.2 h)) ∧
    (∀ h, is_Some (blob_at s'.2 h) ↔ is_Some (blobs s.1 !! h) ∧ is_Some (blob_at s.2 h)) ∧
    entries s'.1 = entries s.1.
Proof.
  intros Hq Hfq Hs Hdir.
  pose proof (orphan_scan_spec s (ro_schema _ (sys_refs _ Hs)) (sys_store _ Hs) Hdir n) as Hscan.
  destruct (GcSvc_orphan_scan false s n) as [[r s'] n']. destruct Hscan as [Hsteps Hr].
  simpl in *. destruct r as [rep|e|w]; [| |done].
  2: { destruct Hr as [Hr%db_fault_quiet|(x & Hx%fs_quiet_faulty & _)]; done. }
  destruct Hr as (D & Hseen & He & Hb & Hf). specialize (Hf Hfq).
  destruct Hseen as [HD|[_ [x Hx]]]; [|by apply fs_quiet_faulty in Hx].
  assert (∀ h, is_Some (blob_at s'.2 h) ↔ is_Some (blobs s.1 !! h) ∧ is_Some (blob_at s.2 h)) as Hfiles.
  { intros h. split.
    - intros [c Hc]. pose proof (orphan_steps_files _ _ _ _ Hsteps Hc) as Hc0.
      assert (h ∈ D) as Hh by (apply HD; by eauto). split; [apply Hf; by eauto|by eauto].
    - intros [Hrow Hfile]. apply Hf; [by apply HD|done]. }
  exists rep, s'. split_and!; [done| |done|].
  - intros h. rewrite Hfiles. rewrite <-HD. split.
    + intros [b Hbh]. apply Hb in Hbh as [? ?]. by eauto.
    + intros [[b Hbh] Hh]. exists b. by apply Hb.
  - apply map_eq. intros i. apply option_eq. intros e. rewrite He. split; [tauto|].
    intros Hi. split; [done|]. apply HD, (sys_available _ Hs i e Hi).
Qed.

(** The scan trusts [exists], which answers false for every error: if looking
    for the directory fails while the database works, the scan succeeds and throws
    away every blob row and every entry, pinned ones included, although all the
    files are there. *)
Theorem orphan_scan_wipes_on_stat_error `{!Env, !FsEnv, !Sha256} s n x k :
  Quiet → schema_ok s.1 → store_ok s.2 → fs_fault n = Some (x, k) →
  ∃ rep s', (GcSvc_orphan_scan false s n).1 = (Ok rep, s') ∧
    entries s'.1 = ∅ ∧ blobs s'.1 = ∅.
Proof.
  intros Hq Hok Hst Hfault.
  assert (seen s.2 ∅) as Hseen by (right; split; [done|by exists x, n, k]).
  pose proof (scan_rest_spec ∅ s Hok Hst Hseen (S n)) as [_ Hr]. destruct s as [t fs].
  assert (∀ (m : bool → M CoreError Sys OrphanReport), bind (on_fs (fs_exists ["blobs"%string])) m
    (t, fs) n = m false (t, fs) (S n)) as Hexists.
  { intros m. unfold on_fs, zoom, fs_exists, attempt, fs_op, bind, ret. simpl. by rewrite Hfault. }
  unfold GcSvc_orphan_scan. rewrite Hexists, bind_ret.
  destruct (bind (on_db _) _ (t, fs) (S n)) as [[[rep|e|w] s'] n']; simpl in Hr;
    [|by apply db_fault_quiet in Hr|destruct Hr].
  destruct Hr as (He & Hb & _). exists rep, s'. split; [done|].
  split; apply map_eq; intros i; apply option_eq; intros y; rewrite lookup_empty, ?He, ?Hb; set_solver.
Qed.
