(* ===== verification/Auth.v ===== *)
(** * Authentication

    [crates/marmotte-core/src/auth.rs].  argon2, the random number generator,
    base64 and the moka cache are parameters.  A [VerifyCache] is modelled by the
    insertions made into it; what a lookup returns is moka's decision, and all
    that is assumed is its documentation: a value comes back only if it is the
    last one inserted under its key and younger than the time to live. *)
From stdpp Require Import base numbers list strings gmap.
From Stdlib Require Import ZArith Lia Init.Byte.
From S2P Require Import Prelude Models Db Blobs Entries Projects Credentials Storage Config.

(** ** Libraries *)

(** [password_hash] and [argon2]: hashing with a salt, parsing a PHC string
    (with the error that parsing gives) and checking a secret against it. *)
Class Argon2 := mkArgon2 {
  argon2_hash : string → bytes → string + string;
  phc_error : string → option string;
  argon2_matches : string → string → bool;
  argon2_round_trip : ∀ secret salt phc, argon2_hash secret salt = inr phc →
    phc_error phc = None ∧ argon2_matches secret phc = true
}.

(** What the outside decides: random bytes, the monotonic clock in seconds, and
    whether the blocking task of a verification is lost. *)
Class AuthEnv := mkAuthEnv {
  auth_rand : nat → nat → bytes;
  auth_mono : nat → Z;
  auth_mono_le : ∀ n m, (n ≤ m)%nat → auth_mono n <= auth_mono m;
  auth_join_error : nat → option string;
  b64_url_no_pad : bytes → string
}.

Abbreviation cache_key := (string * string)%type.
Abbreviation insertions V := (list (cache_key * V * nat)).

(** The last insertion under a key; the list is newest first. *)
Fixpoint last_inserted {V} (k : cache_key) (l : insertions V) : option (V * nat) :=
  match l with
  | [] => None
  | (k', v, m) :: l' => if decide (k = k') then Some (v, m) else last_inserted k l'
  end.

(** [moka::future::Cache::get] on a cache with a capacity and a time to live. *)
Class Moka `{!AuthEnv} := mkMoka {
  moka_get : ∀ V : Type, Z → Z → insertions V → nat → cache_key → option V;
  moka_get_live : ∀ V capacity ttl (l : insertions V) n k v,
    moka_get V capacity ttl l n k = Some v →
    ∃ m, last_inserted k l = Some (v, m) ∧ auth_mono n < auth_mono m + ttl
}.

(** ** The verification cache *)

Record VerifyCache (V : Type) := mkVerifyCache {
  vc_max_capacity : Z;
  vc_time_to_live : Z;
  vc_inserted : insertions V
}.
Arguments mkVerifyCache {V} _ _ _.
Arguments vc_max_capacity {V} _.
Arguments vc_time_to_live {V} _.
Arguments vc_inserted {V} _.

Definition empty_cache {V} (cfg : AuthConfig) : VerifyCache V :=
  mkVerifyCache (verify_cache_size cfg) (verify_cache_ttl_secs cfg) [].

(** [build()] of moka panics for a time to live of more than 1000 years (of 365 days). *)
Definition MAX_TIME_TO_LIVE : Z := 1000 * 365 * 24 * 3600.
Definition moka_builds (cfg : AuthConfig) : bool := verify_cache_ttl_secs cfg <=? MAX_TIME_TO_LIVE.

Definition VerifyCache_from_config {V E S} (cfg : AuthConfig) : M E S (VerifyCache V) :=
  if moka_builds cfg then ret (empty_cache cfg) else halt Panicked.

Record ProjectAuth := mkProjectAuth {
  pa_project_id : Z;
  pa_project_name : string;
  pa_api_key_id : Z;
  pa_role : Role
}.
Record AdminAuth := mkAdminAuth { aa_token_id : Z; aa_token_label : option string }.

Record AuthSvc := mkAuthSvc {
  project_cache : VerifyCache ProjectAuth;
  admin_cache : VerifyCache AdminAuth
}.
Definition AuthSvc_new {E S} (cfg : AuthConfig) : M E S AuthSvc :=
  let* project_cache := VerifyCache_from_config cfg in
  let* admin_cache := VerifyCache_from_config cfg in
  ret (mkAuthSvc project_cache admin_cache).

(** The service that nobody has logged in to yet. *)
Definition no_logins (cfg : AuthConfig) : AuthSvc := mkAuthSvc (empty_cache cfg) (empty_cache cfg).

Lemma AuthSvc_new_run {E S} cfg (s : S) n :
  AuthSvc_new (E := E) cfg s n = (if moka_builds cfg then Ok (no_logins cfg) else Stop Panicked, s, n).
Proof. unfold AuthSvc_new, VerifyCache_from_config. by destruct (moka_builds cfg). Qed.
Lemma wp_AuthSvc_new {E S} cfg (s : S) (Q : res E AuthSvc → S → Prop) :
  Q (if moka_builds cfg then Ok (no_logins cfg) else Stop Panicked) s → wp (AuthSvc_new cfg) Q s.
Proof. intros HQ n. by rewrite AuthSvc_new_run. Qed.

(** The service works on the database and on its caches. *)
Abbreviation AuthState := (Tables * AuthSvc)%type.

Definition lens_project_cache : Lens AuthState (VerifyCache ProjectAuth) :=
  mkLens (λ s, project_cache s.2) (λ c s, (s.1, mkAuthSvc c (admin_cache s.2))).
Definition lens_admin_cache : Lens AuthState (VerifyCache AdminAuth) :=
  mkLens (λ s, admin_cache s.2) (λ c s, (s.1, mkAuthSvc (project_cache s.2) c)).

(** SHA-256 of the bytes of a string, in hex. *)
Definition as_bytes (s : string) : bytes := String.list_byte_of_string s.

Section auth_ops.
Context {env : Env} {sha : Sha256} {ar : Argon2} {aenv : AuthEnv} {mk : Moka}.

Definition rand_fill {E S} (len : nat) : M E S bytes := λ s n, (Ok (auth_rand n len), s, Datatypes.S n).

Definition generate_secret {E S} : M E S string :=
  let* bytes := rand_fill 32 in
  ret (b64_url_no_pad bytes).

Definition lookup_hash (secret : string) : string := sha256_hex (as_bytes secret).

(** [Salt::RECOMMENDED_LENGTH] is 16. *)
Definition hash_argon2 {S} (secret : string) : M CoreError S string :=
  let* salt := rand_fill 16 in
  match argon2_hash secret salt with
  | inl e => throw (Crypto e)
  | inr phc => ret phc
  end.

Definition verify_argon2 {S} (secret phc : string) : M CoreError S bool :=
  match phc_error phc with
  | Some e => throw (Crypto e)
  | None => ret (argon2_matches secret phc)
  end.

(** [spawn_blocking(..).await.map_err(..)?] *)
Definition verify_argon2_async {S} (secret phc : string) : M CoreError S bool :=
  λ s n, match auth_join_error n with
         | Some e => (Err (Internal ("argon2 task panicked: " +:+ e)), s, Datatypes.S n)
         | None => verify_argon2 secret phc s (Datatypes.S n)
         end.

Definition cache_get {E V} (k : cache_key) : M E (VerifyCache V) (option V) :=
  λ c n, (Ok (moka_get V (vc_max_capacity c) (vc_time_to_live c) (vc_inserted c) n k), c, Datatypes.S n).
Definition cache_insert {E V} (k : cache_key) (v : V) : M E (VerifyCache V) unit :=
  λ c n, (Ok tt, mkVerifyCache (vc_max_capacity c) (vc_time_to_live c) ((k, v, n) :: vc_inserted c),
          Datatypes.S n).

Definition get_or_insert {S V} (L : Lens S (VerifyCache V)) (scope lookup : string)
    (f : M CoreError S V) : M CoreError S V :=
  let key := (scope, lookup) in
  let* hit := zoom L (cache_get key) in
  match hit with
  | Some v => ret v
  | None =>
      let* v := f in
      zoom L (cache_insert key v) ;*
      ret v
  end.

Definition project_scope (project_name : string) : string := "proj:" +:+ project_name.

(** The closure of [authenticate_project]: the check behind the cache. *)
Definition check_project (project_name api_key : string) : M CoreError Tables ProjectAuth :=
  let lookup := lookup_hash api_key in
  let* project := map_err (λ _, Unauthorized) (Projects_get_by_name project_name) in
  let* row := ApiKeys_find_active_by_lookup (p_id project) lookup in
  let* key := ok_or Unauthorized row in
  let* valid := verify_argon2_async api_key (k_key_hash key) in
  if negb valid then throw Unauthorized
  else ret (mkProjectAuth (p_id project) (p_name project) (k_id key) (k_role key)).

Definition authenticate_project (project_name api_key : string) : M CoreError AuthState ProjectAuth :=
  get_or_insert lens_project_cache (project_scope project_name) (lookup_hash api_key)
    (zoom lens_fst (check_project project_name api_key)).

Definition check_admin (token : string) : M CoreError Tables AdminAuth :=
  let lookup := lookup_hash token in
  let* row := AdminTokens_find_active_by_lookup lookup in
  let* t := ok_or Unauthorized row in
  let* valid := verify_argon2_async token (t_token_hash t) in
  if negb valid then throw Unauthorized
  else ret (mkAdminAuth (t_id t) (t_label t)).

Definition authenticate_admin (token : string) : M CoreError AuthState AdminAuth :=
  get_or_insert lens_admin_cache "admin" (lookup_hash token) (zoom lens_fst (check_admin token)).
End auth_ops.

(** ** Specifications *)

Lemma last_inserted_elem {V} k (l : insertions V) v m :
  last_inserted k l = Some (v, m) → (k, v, m) ∈ l.
Proof.
  induction l as [|[[k' v'] m'] l IH]; simpl; [done|].
  case_decide; [intros [= <- <-]; subst; left|intros; right; auto].
Qed.

Lemma project_scope_inj a b : project_scope a = project_scope b → a = b.
Proof. unfold project_scope. intros H. by simplify_eq/=. Qed.

Section auth_spec.
Context {env : Env} {sha : Sha256} {ar : Argon2} {aenv : AuthEnv} {mk : Moka}.

Lemma wp_verify_argon2_async {S} secret phc (Q : res CoreError bool → S → Prop) s :
  (∀ msg, Q (Err (Internal msg)) s) → (∀ msg, phc_error phc = Some msg → Q (Err (Crypto msg)) s) →
  (phc_error phc = None → Q (Ok (argon2_matches secret phc)) s) →
  wp (verify_argon2_async secret phc) Q s.
Proof.
  intros Hj Hc Ho n. unfold verify_argon2_async, verify_argon2.
  destruct (auth_join_error n); [apply Hj|].
  destruct (phc_error phc) eqn:Hp; [by apply Hc|by apply Ho].
Qed.

(** The database vouches for a credential: a project of that name has an active
    key with this lookup hash, whose verifier accepts the secret. *)
Definition vouched (t : Tables) (name api_key : string) (a : ProjectAuth) : Prop :=
  ∃ i p j k, projects t !! i = Some p ∧ p_name p = name ∧
    api_keys t !! j = Some k ∧ active_key (p_id p) (lookup_hash api_key) k = true ∧
    phc_error (k_key_hash k) = None ∧ argon2_matches api_key (k_key_hash k) = true ∧
    a = mkProjectAuth (p_id p) (p_name p) (k_id k) (k_role k).

Definition vouched_admin (t : Tables) (token : string) (a : AdminAuth) : Prop :=
  ∃ j k, admin_tokens t !! j = Some k ∧ active_token (lookup_hash token) k = true ∧
    phc_error (t_token_hash k) = None ∧ argon2_matches token (t_token_hash k) = true ∧
    a = mkAdminAuth (t_id k) (t_label k).

Definition auth_err (e : CoreError) : Prop :=
  e = Unauthorized ∨ db_fault e ∨ ∃ msg, e = Crypto msg ∨ e = Internal msg.

Lemma check_project_spec name api_key t :
  wp (check_project name api_key) (λ r t', t' = t ∧
    match r with
    | Ok a => vouched t name api_key a
    | Err e => auth_err e
    | Stop _ => False
    end) t.
Proof.
  unfold check_project, auth_err. wp_go. wp_use Projects_get_by_name_spec.
  intros [p|e|w] u Hu; simpl; [|by destruct Hu as [_ ->]; auto|done].
  destruct Hu as (-> & Hname & i & Hi). wp_go.
  wp_use ApiKeys_find_active_spec. intros [o|e|w] u Hu; simpl; [| |done].
  2: { destruct Hu as [[Hx|[]] ->]. auto. }
  destruct Hu as [-> ->].
  destruct (select_one _ _) as [k|] eqn:Hsel; wp_go; [|by auto].
  apply select_one_Some in Hsel as [Hk [j Hj]].
  apply wp_verify_argon2_async; simpl; [by eauto 6|by eauto 6|].
  intros Hphc. destruct (argon2_matches _ _) eqn:Hm; simpl; wp_go; [|by auto].
  split; [done|]. by exists i, p, j, k.
Qed.

Lemma check_admin_spec token t :
  wp (check_admin token) (λ r t', t' = t ∧
    match r with
    | Ok a => vouched_admin t token a
    | Err e => auth_err e
    | Stop _ => False
    end) t.
Proof.
  unfold check_admin, auth_err. wp_go.
  wp_use AdminTokens_find_active_spec. intros [o|e|w] u Hu; simpl; [| |done].
  2: { destruct Hu as [[Hx|[]] ->]. auto. }
  destruct Hu as [-> ->].
  destruct (select_one _ _) as [k|] eqn:Hsel; wp_go; [|by auto].
  apply select_one_Some in Hsel as [Hk [j Hj]].
  apply wp_verify_argon2_async; simpl; [by eauto 6|by eauto 6|].
  intros Hphc. destruct (argon2_matches _ _) eqn:Hm; simpl; wp_go; [|by auto].
  split; [done|]. by exists j, k.
Qed.

(** With unique names and lookup hashes the check is complete: what the database
    vouches for is accepted, unless something fails. *)
Lemma check_project_complete name api_key t a :
  schema_ok t → vouched t name api_key a →
  wp (check_project name api_key) (λ r t', match r with
    | Ok a' => a' = a
    | Err e => (∃ x, is_fault x) ∨ ∃ msg, e = Internal msg
    | Stop _ => False
    end) t.
Proof.
  intros Hok (i & p & j & k & Hi & Hname & Hj & Hk & Hphc & Hm & ->).
  unfold check_project. wp_go. wp_use Projects_get_by_name_spec.
  intros [p'|e|w] u Hu; simpl; [| |done].
  2: { destruct Hu as [[(x & Hx & _)|[_ Hn]] _]; [by eauto|]. destruct Hn. by exists i, p. }
  destruct Hu as (-> & Hname' & i' & Hi').
  assert (i' = i) as -> by (eapply (so_project_name t Hok); eauto; congruence).
  assert (p' = p) as -> by congruence. wp_go.
  wp_use ApiKeys_find_active_spec. intros [o|e|w] u Hu; simpl; [| |done].
  2: { destruct Hu as [[(x & Hx & _)|[]] ->]. eauto. }
  destruct Hu as [-> ->].
  assert (select_one (active_key (p_id p) (lookup_hash api_key)) (api_keys t) = Some k) as ->.
  { apply (select_one_unique _ _ j); [|done..]. intros j' k' Hj' Hk'.
    apply andb_prop in Hk as [[_ Hl]%andb_prop _], Hk' as [[_ Hl']%andb_prop _].
    apply String.eqb_eq in Hl, Hl'.
    assert (j' = j) as -> by (eapply (so_key_lookup t Hok); eauto; congruence). congruence. }
  wp_go. apply wp_verify_argon2_async; simpl; [by eauto|by congruence|]. intros _.
  rewrite Hm. simpl. by wp_go.
Qed.

(** The only internal error is a lost verification task. *)
Lemma check_project_no_join name api_key t n :
  (∀ m, auth_join_error m = None) → ∀ msg, (check_project name api_key t n).1.1 ≠ Err (Internal msg).
Proof.
  intros Hj. assert (wp (check_project name api_key)
    (λ r _, ∀ msg, r ≠ Err (Internal msg)) t) as Hwp; [|intros msg; apply Hwp].
  unfold check_project. wp_go. wp_use Projects_get_by_name_spec. intros [p|e|w] u _; simpl; [|done..].
  wp_go. wp_use ApiKeys_find_active_spec. intros [o|e|w] u2 Hu; simpl; [| |done].
  2: { destruct Hu as [[(x & _ & ->)|[]] _]. done. }
  wp_go. destruct o as [k|]; wp_go; [|done]. intros m. unfold verify_argon2_async. rewrite Hj.
  unfold verify_argon2. destruct (phc_error _); simpl; [done|].
  by destruct (negb _).
Qed.

(** *** The cache *)

(** A lookup is a hit on a live insertion, or runs the check and records its
    success; a failure leaves the cache alone. *)
Lemma get_or_insert_run {S V} (L : Lens S (VerifyCache V)) scope lookup (f : M CoreError S V) s n :
  lset L (lget L s) s = s →
  let '(r, s', n') := get_or_insert L scope lookup f s n in
  (∃ v m, r = Ok v ∧ s' = s ∧ last_inserted (scope, lookup) (vc_inserted (lget L s)) = Some (v, m) ∧
          auth_mono n < auth_mono m + vc_time_to_live (lget L s)) ∨
  (∃ s1 n1, f s (Datatypes.S n) = (r, s1, n1) ∧ s' = s1 ∧ is_ok r = false) ∨
  (∃ v s1 n1, f s (Datatypes.S n) = (Ok v, s1, n1) ∧ r = Ok v ∧
     s' = lset L (mkVerifyCache (vc_max_capacity (lget L s1)) (vc_time_to_live (lget L s1))
                    (((scope, lookup), v, n1) :: vc_inserted (lget L s1))) s1).
Proof.
  intros HL. unfold get_or_insert, bind, zoom, cache_get, ret. simpl.
  destruct (moka_get _ _ _ _ _ _) as [v|] eqn:Hget.
  - rewrite HL. apply moka_get_live in Hget as (m & Hm & Hlive). left. by exists v, m.
  - rewrite HL. destruct (f s (Datatypes.S n)) as [[[v|e|w] s1] n1] eqn:Hf; simpl; right.
    + right. by exists v, s1, n1.
    + left. by exists s1, n1.
    + left. by exists s1, n1.
Qed.

(** What the check accepts is accepted. *)
Lemma get_or_insert_accepts {S V} (L : Lens S (VerifyCache V)) scope lookup (f : M CoreError S V) s n v :
  lset L (lget L s) s = s → last_inserted (scope, lookup) (vc_inserted (lget L s)) = None →
  (f s (Datatypes.S n)).1.1 = Ok v → (get_or_insert L scope lookup f s n).1.1 = Ok v.
Proof.
  intros HL Hnone Hf. pose proof (get_or_insert_run L scope lookup f s n HL) as Hrun.
  destruct (get_or_insert L scope lookup f s n) as [[r s'] n'].
  destruct Hrun as [(v' & m & _ & _ & Hm & _)|[(s1 & n1 & Hr & _ & Hbad)|(v' & s1 & n1 & Hr & -> & _)]];
    [congruence|rewrite Hr in Hf; simpl in Hf; by subst r|rewrite Hr in Hf; simpl in *; congruence].
Qed.

(** [authenticate_project]: the answer comes from a live insertion or from the
    database, which is only read. *)
Lemma authenticate_project_run name api_key t svc n r s' n' :
  authenticate_project name api_key (t, svc) n = (r, s', n') →
  s'.1 = t ∧ admin_cache s'.2 = admin_cache svc ∧
  vc_time_to_live (project_cache s'.2) = vc_time_to_live (project_cache svc) ∧
  let key := (project_scope name, lookup_hash api_key) in
  match r with
  | Ok a =>
      (s'.2 = svc ∧ ∃ m, last_inserted key (vc_inserted (project_cache svc)) = Some (a, m) ∧
         auth_mono n < auth_mono m + vc_time_to_live (project_cache svc)) ∨
      (vouched t name api_key a ∧ ∃ m,
         vc_inserted (project_cache s'.2) = (key, a, m) :: vc_inserted (project_cache svc))
  | Err e => auth_err e ∧ s'.2 = svc
  | Stop _ => False
  end.
Proof.
  intros Hrun. unfold authenticate_project in Hrun.
  pose proof (get_or_insert_run lens_project_cache (project_scope name) (lookup_hash api_key)
    (zoom lens_fst (check_project name api_key)) (t, svc) n ltac:(by destruct svc)) as H.
  rewrite Hrun in H. unfold zoom in H. simpl in H.
  pose proof (check_project_spec name api_key t (Datatypes.S n)) as [Ht Hr].
  destruct (check_project name api_key t (Datatypes.S n)) as [[rc tc] nc]. simpl in *. subst tc.
  destruct H as [(v & m & -> & -> & Hm & Hlive)|[(s1 & n1 & Hf & -> & Hno)|(v & s1 & n1 & Hf & -> & ->)]];
    simplify_eq/=; split_and!; try done.
  - left. eauto.
  - by destruct r.
  - right. split; [done|]. by exists n1.
Qed.

Lemma authenticate_admin_run token t svc n r s' n' :
  authenticate_admin token (t, svc) n = (r, s', n') →
  s'.1 = t ∧ project_cache s'.2 = project_cache svc ∧
  vc_time_to_live (admin_cache s'.2) = vc_time_to_live (admin_cache svc) ∧
  let key := ("admin"%string, lookup_hash token) in
  match r with
  | Ok a =>
      (s'.2 = svc ∧ ∃ m, last_inserted key (vc_inserted (admin_cache svc)) = Some (a, m) ∧
         auth_mono n < auth_mono m + vc_time_to_live (admin_cache svc)) ∨
      (vouched_admin t token a ∧ ∃ m,
         vc_inserted (admin_cache s'.2) = (key, a, m) :: vc_inserted (admin_cache svc))
  | Err e => auth_err e ∧ s'.2 = svc
  | Stop _ => False
  end.
Proof.
  intros Hrun. unfold authenticate_admin in Hrun.
  pose proof (get_or_insert_run lens_admin_cache "admin" (lookup_hash token)
    (zoom lens_fst (check_admin token)) (t, svc) n ltac:(by destruct svc)) as H.
  rewrite Hrun in H. unfold zoom in H. simpl in H.
  pose proof (check_admin_spec token t (Datatypes.S n)) as [Ht Hr].
  destruct (check_admin token t (Datatypes.S n)) as [[rc tc] nc]. simpl in *. subst tc.
  destruct H as [(v & m & -> & -> & Hm & Hlive)|[(s1 & n1 & Hf & -> & Hno)|(v & s1 & n1 & Hf & -> & ->)]];
    simplify_eq/=; split_and!; try done.
  - left. eauto.
  - by destruct r.
  - right. split; [done|]. by exists n1.
Qed.

(** *** Invariants of the caches *)

(** A cached authentication is filed under the scope of its own project. *)
Definition scoped (svc : AuthSvc) : Prop :=
  ∀ k a m, (k, a, m) ∈ vc_inserted (project_cache svc) → k.1 = project_scope (pa_project_name a).

Lemma authenticate_project_scoped name api_key t svc n r s' n' :
  scoped svc → authenticate_project name api_key (t, svc) n = (r, s', n') →
  scoped s'.2 ∧ (∀ a, r = Ok a → pa_project_name a = name).
Proof.
  intros Hsc Hrun. apply authenticate_project_run in Hrun as (_ & _ & _ & Hr).
  destruct r as [a|e|w]; [|by destruct Hr as [_ ->]|done].
  destruct Hr as [[-> (m & Hm & _)]|[Hv (m & Hins)]].
  - split; [done|]. intros a' [= <-]. apply last_inserted_elem in Hm.
    specialize (Hsc _ _ _ Hm). simpl in Hsc. by apply project_scope_inj in Hsc.
  - destruct Hv as (i & p & j & k & _ & Hname & _ & _ & _ & _ & ->). split.
    + intros k' a' m'. rewrite Hins. intros [[= -> -> ->]|Hin]%elem_of_cons; [|by eapply Hsc].
      simpl. by rewrite Hname.
    + by intros a' [= <-].
Qed.

(** A key that is not active any more, and whose authentications were all cached
    before position [n0]. *)
Definition locked (kid : Z) (n0 : nat) (t : Tables) (svc : AuthSvc) : Prop :=
  (∀ j k, api_keys t !! j = Some k → k_id k = kid → is_Some (k_revoked_at k)) ∧
  (∀ k a m, (k, a, m) ∈ vc_inserted (project_cache svc) → pa_api_key_id a = kid → (m ≤ n0)%nat).

Lemma locked_not_vouched kid n0 t svc name api_key a :
  locked kid n0 t svc → vouched t name api_key a → pa_api_key_id a ≠ kid.
Proof.
  intros [Hrev _] (i & p & j & k & _ & _ & Hj & Hk & _ & _ & ->) Heq. simpl in Heq.
  destruct (Hrev _ _ Hj Heq) as [ts Hts].
  apply andb_prop in Hk as [_ Hn]. by rewrite Hts in Hn.
Qed.
End auth_spec.

(** The same for administrators. *)
Lemma check_admin_complete `{!Env, !Sha256, !Argon2, !AuthEnv} token t a n :
  Quiet → (∀ m, auth_join_error m = None) → schema_ok t → vouched_admin t token a →
  (check_admin token t n).1.1 = Ok a.
Proof.
  intros Hq Hj Hok (j & k & Hk & Hact & Hphc & Hm & ->). revert n.
  change (wp (check_admin token) (λ r _, r = Ok (mkAdminAuth (t_id k) (t_label k))) t).
  unfold check_admin. wp_go. wp_use AdminTokens_find_active_spec. intros [o|e|w] u Hu; simpl; [| |done].
  2: { by destruct Hu as [[?%db_fault_quiet|[]] _]. }
  destruct Hu as [-> ->].
  assert (select_one (active_token (lookup_hash token)) (admin_tokens t) = Some k) as ->.
  { apply (select_one_unique _ _ j); [|done..]. intros j' k' Hj' Hk'.
    apply andb_prop in Hact as [Hl _], Hk' as [Hl' _]. apply String.eqb_eq in Hl, Hl'.
    assert (j' = j) as -> by (eapply (so_token_lookup t Hok); eauto; congruence). congruence. }
  wp_go. intros n. unfold verify_argon2_async, verify_argon2, bind. rewrite Hj, Hphc. simpl. by rewrite Hm.
Qed.

Lemma authenticate_admin_accepts `{!Env, !Sha256, !Argon2, !AuthEnv, !Moka} token t svc n a :
  Quiet → (∀ m, auth_join_error m = None) → schema_ok t →
  last_inserted ("admin"%string, lookup_hash token) (vc_inserted (admin_cache svc)) = None →
  vouched_admin t token a → (authenticate_admin token (t, svc) n).1.1 = Ok a.
Proof.
  intros Hq Hj Hok Hnone Hv. unfold authenticate_admin. apply get_or_insert_accepts; [by destruct svc|done|].
  unfold zoom. simpl. pose proof (check_admin_complete token t a (S n) Hq Hj Hok Hv) as Hc.
  by destruct (check_admin token t (S n)) as [[r t1] n1].
Qed.

Lemma authenticate_project_iff `{!Env, !Sha256, !Argon2, !AuthEnv, !Moka}
    name api_key t svc n a :
  Quiet → (∀ m, auth_join_error m = None) → schema_ok t →
  last_inserted (project_scope name, lookup_hash api_key) (vc_inserted (project_cache svc)) = None →
  (authenticate_project name api_key (t, svc) n).1.1 = Ok a ↔ vouched t name api_key a.
Proof.
  intros Hq Hj Hok Hnone. split.
  - destruct (authenticate_project name api_key (t, svc) n) as [[r s'] n'] eqn:Hrun.
    apply authenticate_project_run in Hrun as (_ & _ & _ & Hr). simpl. intros ->.
    destruct Hr as [(_ & m & Hm & _)|[Hv _]]; [congruence|done].
  - intros Hv. unfold authenticate_project. apply get_or_insert_accepts; [by destruct svc|done|].
    unfold zoom. simpl. pose proof (check_project_complete name api_key t a Hok Hv (S n)) as Hok'.
    pose proof (check_project_no_join name api_key t (S n) Hj) as Hnj.
    destruct (check_project name api_key t (S n)) as [[[a'|e|w] t1] n1]; simpl in *; [|exfalso|done].
    + by subst a'.
    + destruct Hok' as [[x Hx%is_fault_quiet]|[msg ->]]; [done|done|by eapply Hnj].
Qed.

(** ** Theorems *)

(** C27: authentication is sound and isolated: whoever gets in under a project name
    holds an authentication for that very project, and either an active key of it
    accepts the secret right now, or the same secret was accepted under that name
    less than the cache's time to live ago.  The database is only read, a failure
    is never cached, and entries stay filed under their own project. *)
Theorem authenticate_project_sound `{!Env, !Sha256, !Argon2, !AuthEnv, !Moka}
    name api_key t svc n r s' n' :
  scoped svc → authenticate_project name api_key (t, svc) n = (r, s', n') →
  s'.1 = t ∧ scoped s'.2 ∧ admin_cache s'.2 = admin_cache svc ∧
  match r with
  | Ok a => pa_project_name a = name ∧
      (vouched t name api_key a ∨
       ∃ m, (project_scope name, lookup_hash api_key, a, m) ∈ vc_inserted (project_cache svc) ∧
            auth_mono n < auth_mono m + vc_time_to_live (project_cache svc))
  | Err e => auth_err e ∧ s'.2 = svc
  | Stop _ => False
  end.
Proof.
  intros Hsc Hrun. pose proof (authenticate_project_scoped _ _ _ _ _ _ _ _ Hsc Hrun) as [Hsc' Hname].
  apply authenticate_project_run in Hrun as (Ht & Hadm & _ & Hr). split_and!; [done..|].
  destruct r as [a|e|w]; [|done..]. split; [by apply Hname|].
  destruct Hr as [(_ & m & Hm & Hlive)|[Hv _]]; [right|by left].
  exists m. split; [by apply last_inserted_elem|done].
Qed.

(** C28: for a credential that is not cached, and with nothing failing, the answer
    is exactly the database's: the caller gets in if and only if the project has an
    active key whose verifier accepts the secret. *)
Theorem authenticate_project_decides `{!Env, !Sha256, !Argon2, !AuthEnv, !Moka}
    name api_key t svc n a :
  Quiet → (∀ m, auth_join_error m = None) → schema_ok t →
  last_inserted (project_scope name, lookup_hash api_key) (vc_inserted (project_cache svc)) = None →
  (authenticate_project name api_key (t, svc) n).1.1 = Ok a ↔ vouched t name api_key a.
Proof. apply authenticate_project_iff. Qed.

(** A revoked key is locked out: once the caches' time to live has passed
    since the revocation, no secret whatsoever authenticates as that key under any
    project name, and this stays so. *)
Theorem revoked_key_locked_out `{!Env, !Sha256, !Argon2, !AuthEnv, !Moka}
    project_id kid t n0 t' n1 svc :
  schema_ok t → ApiKeys_revoke project_id kid t n0 = (Ok tt, t', n1) →
  (∀ k a m, (k, a, m) ∈ vc_inserted (project_cache svc) → (m ≤ n1)%nat) →
  locked kid n1 t' svc ∧
  ∀ svc' name api_key n r s' n',
    locked kid n1 t' svc' →
    auth_mono n1 + vc_time_to_live (project_cache svc') <= auth_mono n →
    authenticate_project name api_key (t', svc') n = (r, s', n') →
    (∀ a, r = Ok a → pa_api_key_id a ≠ kid) ∧ locked kid n1 t' s'.2.
Proof.
  intros Hok Hrev Hpos. split.
  - destruct (wp_run _ _ _ _ _ _ _ (ApiKeys_revoke_spec t project_id kid) Hrev)
      as (k & now & (Hk & _ & _) & ->).
    split; [|by intros ? ? ? ? ?; eapply Hpos]. simpl.
    pose proof (schema_revoke_key t kid k now Hok Hk) as Hok'.
    intros j k' Hj Hid. destruct (so_api_keys _ Hok') as [_ Hids]. simpl in Hids.
    destruct (Hids _ _ Hj) as [Hj' _]. rewrite Hid in Hj'. subst j.
    rewrite lookup_insert_eq in Hj. injection Hj as <-. by eexists.
  - intros svc' name api_key n r s' n' Hlock Htime Hrun.
    apply authenticate_project_run in Hrun as (Ht & _ & _ & Hr). pose proof Hlock as [Hdb Hins].
    destruct r as [a|e|w]; [|by destruct Hr as [_ ->]|done].
    destruct Hr as [[-> (m & Hm & Hlive)]|[Hv (m & Hnew)]].
    + split; [|done]. intros a' [= <-] Heq. apply last_inserted_elem in Hm.
      pose proof (auth_mono_le _ _ (Hins _ _ _ Hm Heq)). lia.
    + pose proof (locked_not_vouched _ _ _ _ _ _ _ Hlock Hv) as Hne.
      split; [by intros a' [= <-]|]. split; [done|]. intros k' a' m'. rewrite Hnew.
      intros [[= -> -> ->]|Hin]%elem_of_cons; [done|by eapply Hins].
Qed.
