(* ===== verification/Logins.v ===== *)
(** * Logins in flight

    [AuthSvc::authenticate_project] of [crates/marmotte-core/src/auth.rs] is not one
    step: the cache lookup, the two queries, the verification on a blocking thread and
    the insertion into the cache are separate awaits, and [VerifyCache::get_or_insert]
    holds nothing between them.  [login_move] interleaves any number of logins with
    every write that reaches the table of API keys, in the order of the positions of
    the environment.  A login that found its key before the key was revoked is not
    stopped, and caches its success afterwards: what bounds the life of a revoked key
    is the time to live counted from the end of the last such login. *)
From stdpp Require Import base numbers list strings gmap relations.
From Stdlib Require Import ZArith Lia.
From S2P Require Import Prelude Models Db Blobs Entries Projects Credentials Storage Config Auth.

(** What a login has found so far. *)
Inductive Stage :=
| Arrived
| Missed
| FoundProject (project : Project)
| FoundKey (project : Project) (key : ApiKey)
| Accepted (a : ProjectAuth).

Record Login := mkLogin { lg_project_name : string; lg_api_key : string; lg_stage : Stage }.

Definition advance (lg : Login) (st : Stage) : Login :=
  mkLogin (lg_project_name lg) (lg_api_key lg) st.

(** The login has read the row of the key. *)
Definition holds (kid : Z) (lg : Login) : Prop :=
  match lg_stage lg with
  | FoundKey _ k => k_id k = kid
  | Accepted a => pa_api_key_id a = kid
  | _ => False
  end.

#[export] Instance holds_dec kid lg : Decision (holds kid lg).
Proof. unfold holds. destruct (lg_stage lg); apply _. Defined.

Section stages.
Context {env : Env} {sha : Sha256} {ar : Argon2} {aenv : AuthEnv} {mk : Moka}.

(** The key of the cache, and one await of [authenticate_project]: it leads to the next
    stage or to the answer. *)
Definition login_key (lg : Login) : cache_key :=
  (project_scope (lg_project_name lg), lookup_hash (lg_api_key lg)).

Definition login_step (lg : Login) : M CoreError AuthState (Stage + ProjectAuth) :=
  match lg_stage lg with
  | Arrived =>
      let* hit := zoom lens_project_cache (cache_get (login_key lg)) in
      match hit with
      | Some v => ret (inr v)
      | None => ret (inl Missed)
      end
  | Missed =>
      let* project := zoom lens_fst (map_err (λ _, Unauthorized)
                                       (Projects_get_by_name (lg_project_name lg))) in
      ret (inl (FoundProject project))
  | FoundProject project =>
      let* row := zoom lens_fst (ApiKeys_find_active_by_lookup (p_id project)
                                   (lookup_hash (lg_api_key lg))) in
      let* key := ok_or Unauthorized row in
      ret (inl (FoundKey project key))
  | FoundKey project key =>
      let* valid := verify_argon2_async (lg_api_key lg) (k_key_hash key) in
      if negb valid then throw Unauthorized
      else ret (inl (Accepted (mkProjectAuth (p_id project) (p_name project) (k_id key) (k_role key))))
  | Accepted a =>
      zoom lens_project_cache (cache_insert (login_key lg) a) ;*
      ret (inr a)
  end.

(** A login left alone. *)
Fixpoint login_run (fuel : nat) (lg : Login) : M CoreError AuthState ProjectAuth :=
  match fuel with
  | O => halt OutOfFuel
  | S fuel =>
      let* next := login_step lg in
      match next with
      | inl st => login_run fuel (advance lg st)
      | inr a => ret a
      end
  end.
End stages.

(** ** Interleaving *)

(** The writes that reach the rows of [api_keys]: creating a key, revoking one, deleting
    a project; every other statement leaves the table alone. *)
Inductive key_write `{!Env} : nat → Tables → Tables → nat → Prop :=
| write_create project_id lookup hash role label n t r t' n' :
    ApiKeys_create project_id lookup hash role label t n = (r, t', n') → key_write n t t' n'
| write_revoke project_id id n t r t' n' :
    ApiKeys_revoke project_id id t n = (r, t', n') → key_write n t t' n'
| write_delete project_id n t r t' n' :
    Projects_delete project_id t n = (r, t', n') → key_write n t t' n'
| write_other n t t' n' :
    schema_ok t' → api_keys t' = api_keys t → seq_api_keys t' = seq_api_keys t → key_write n t t' n'.

(** Where the environment stands, the service's state, and the logins pending. *)
Record Station := mkStation { st_now : nat; st_state : AuthState; st_logins : list Login }.

Inductive login_move `{!Env, !Sha256, !Argon2, !AuthEnv, !Moka} : Station → Station → Prop :=
| move_arrive now s lgs name api_key :
    login_move (mkStation now s lgs) (mkStation now s (lgs ++ [mkLogin name api_key Arrived]))
| move_on now s l1 lg l2 n st s' n' :
    (now ≤ n)%nat → login_step lg s n = (Ok (inl st), s', n') →
    login_move (mkStation now s (l1 ++ lg :: l2))
               (mkStation (Nat.max n n') s' (l1 ++ advance lg st :: l2))
| move_end now s l1 lg l2 n r s' n' :
    (now ≤ n)%nat → login_step lg s n = (r, s', n') → (∀ st, r ≠ Ok (inl st)) →
    login_move (mkStation now s (l1 ++ lg :: l2)) (mkStation (Nat.max n n') s' (l1 ++ l2))
| move_drop now s l1 lg l2 :
    login_move (mkStation now s (l1 ++ lg :: l2)) (mkStation now s (l1 ++ l2))
| move_write now t svc lgs n t' n' :
    (now ≤ n)%nat → key_write n t t' n' →
    login_move (mkStation now (t, svc) lgs) (mkStation (Nat.max n n') (t', svc) lgs)
| move_admin now t svc lgs n svc' :
    (now ≤ n)%nat → project_cache svc' = project_cache svc →
    login_move (mkStation now (t, svc) lgs) (mkStation n (t, svc') lgs).

(** ** Specifications *)

Section logins_spec.
Context {env : Env} {sha : Sha256} {ar : Argon2} {aenv : AuthEnv} {mk : Moka}.

Lemma zoom_fst_bind {E A B R T U} (m : M E A R) (k : R → M E A T) (l : T → M E (A * B) U) s n :
  bind (zoom lens_fst (bind m k)) l s n =
  bind (zoom lens_fst m) (λ x, bind (zoom lens_fst (k x)) l) s n.
Proof. unfold zoom, bind. simpl. by destruct (m s.1 n) as [[[x|e|w] t] n']. Qed.

(** [authenticate_project] is its stages in a row. *)
Lemma login_run_authenticate name api_key s n :
  login_run 5 (mkLogin name api_key Arrived) s n = authenticate_project name api_key s n.
Proof.
  destruct s as [t svc].
  unfold authenticate_project, get_or_insert, check_project. simpl. unfold login_step at 1. simpl.
  rewrite bind_assoc. apply bind_ext. clear t svc n. intros [v|] [t svc] n; [done|].
  rewrite bind_ret. unfold login_step at 1. simpl.
  rewrite bind_assoc, zoom_fst_bind. apply bind_ext. intros p [t1 svc1] n1.
  rewrite bind_ret. unfold login_step at 1. simpl.
  rewrite bind_assoc, zoom_fst_bind. apply bind_ext. intros [k|] [t2 svc2] n2; [|done].
  unfold login_step, bind, zoom, ok_or, verify_argon2_async, verify_argon2, ret, throw. simpl.
  destruct (auth_join_error n2); [done|].
  destruct (phc_error (k_key_hash k)); [done|].
  by destruct (argon2_matches api_key (k_key_hash k)).
Qed.

(** The names agree all along. *)
Definition login_ok (lg : Login) : Prop :=
  match lg_stage lg with
  | FoundProject p | FoundKey p _ => p_name p = lg_project_name lg
  | Accepted a => pa_project_name a = lg_project_name lg
  | _ => True
  end.

(** What one stage does: the tables are only read, and only the last stage writes to
    the cache. *)
Definition stage_post (lg : Login) (t : Tables) (svc : AuthSvc) (n : nat)
    (r : res CoreError (Stage + ProjectAuth)) (s' : AuthState) : Prop :=
  s'.1 = t ∧ vc_time_to_live (project_cache s'.2) = vc_time_to_live (project_cache svc) ∧
  (project_cache s'.2 = project_cache svc ∨
   ∃ a, lg_stage lg = Accepted a ∧
     vc_inserted (project_cache s'.2) = (login_key lg, a, n) :: vc_inserted (project_cache svc)) ∧
  match r with
  | Ok (inl st) =>
      match st with
      | Arrived => False
      | Missed => True
      | FoundProject p => p_name p = lg_project_name lg
      | FoundKey p k => lg_stage lg = FoundProject p ∧ ∃ j, api_keys t !! j = Some k ∧
          active_key (p_id p) (lookup_hash (lg_api_key lg)) k = true
      | Accepted a => ∃ p k, lg_stage lg = FoundKey p k ∧
          argon2_matches (lg_api_key lg) (k_key_hash k) = true ∧
          a = mkProjectAuth (p_id p) (p_name p) (k_id k) (k_role k)
      end
  | Ok (inr a) => lg_stage lg = Accepted a ∨
      ∃ m, last_inserted (login_key lg) (vc_inserted (project_cache svc)) = Some (a, m) ∧
           auth_mono n < auth_mono m + vc_time_to_live (project_cache svc)
  | Err e => auth_err e
  | Stop _ => False
  end.

Lemma login_step_run lg t svc n r s' n' :
  login_step lg (t, svc) n = (r, s', n') → stage_post lg t svc n r s'.
Proof.
  intros Hrun. unfold stage_post. unfold login_step in Hrun. destruct (lg_stage lg) as [| |p|p k|a].
  - unfold bind, zoom, cache_get, ret in Hrun. simpl in Hrun.
    destruct (moka_get _ _ _ _ _ _) as [v|] eqn:Hget; simplify_eq/=; split_and!; auto.
    apply moka_get_live in Hget. auto.
  - pose proof (Projects_get_by_name_spec t (lg_project_name lg) n) as Hspec.
    unfold bind, zoom, map_err, ret in Hrun. simpl in Hrun.
    destruct (Projects_get_by_name _ t n) as [[[p|e|w] t1] n1]; simplify_eq/=; [| |done].
    + destruct Hspec as (-> & Hname & _). by split_and!; auto.
    + destruct Hspec as [_ ->]. split_and!; auto. by left.
  - pose proof (ApiKeys_find_active_spec t (p_id p) (lookup_hash (lg_api_key lg)) n) as Hspec.
    unfold bind, zoom, ret in Hrun. simpl in Hrun.
    destruct (ApiKeys_find_active_by_lookup _ _ t n) as [[[o|e|w] t1] n1]; simplify_eq/=; [| |done].
    + destruct Hspec as [-> ->].
      destruct (select_one _ _) as [k|] eqn:Hsel; simplify_eq/=; split_and!; auto; [|by left].
      apply select_one_Some in Hsel as [Hk [j Hj]]. eauto.
    + destruct Hspec as [[Hx|[]] ->]. split_and!; auto. right. by left.
  - unfold bind, verify_argon2_async, verify_argon2, ret, throw in Hrun.
    unfold auth_err.
    destruct (auth_join_error n); [simplify_eq/=; by split_and!; eauto 6|].
    destruct (phc_error (k_key_hash k)); [simplify_eq/=; by split_and!; eauto 6|].
    destruct (argon2_matches _ _) eqn:Hm; simplify_eq/=; split_and!; eauto 6.
  - unfold bind, zoom, cache_insert, ret in Hrun. simplify_eq/=. split_and!; eauto.
Qed.

(** The rows of [api_keys] never come back to life, and identifiers are not reused. *)
Lemma key_write_ok n t t' n' :
  schema_ok t → key_write n t t' n' →
  schema_ok t' ∧ seq_api_keys t <= seq_api_keys t' ∧
  ∀ kid k', kid <= seq_api_keys t → api_keys t' !! kid = Some k' →
    ∃ k, api_keys t !! kid = Some k ∧ (is_Some (k_revoked_at k) → is_Some (k_revoked_at k')).
Proof.
  intros Hok Hw.
  assert (∀ t1, t1 = t → schema_ok t1 ∧ seq_api_keys t <= seq_api_keys t1 ∧
    ∀ kid k', kid <= seq_api_keys t → api_keys t1 !! kid = Some k' →
      ∃ k, api_keys t !! kid = Some k ∧ (is_Some (k_revoked_at k) → is_Some (k_revoked_at k'))) as Hsame.
  { intros t1 ->. split_and!; [done|lia|]. eauto. }
  destruct Hw as [p l h ro lb n t r t' n' Hr|p i n t r t' n' Hr|p n t r t' n' Hr|n t t' n' Hok' Hk Hsq].
  - pose proof (ApiKeys_create_spec t p l h ro lb n) as Hs. rewrite Hr in Hs. simpl in Hs.
    destruct r as [k|e|w]; [|by apply Hsame, Hs|done].
    destruct Hs as (id & now & _ & Hid & -> & Hfree & Hp & ->).
    split_and!; [by apply schema_create_key|simpl; lia|]. simpl.
    intros kid k' Hle [[<- _]|[_ Hk]]%lookup_insert_Some; [lia|eauto].
  - pose proof (ApiKeys_revoke_spec t p i n) as Hs. rewrite Hr in Hs. simpl in Hs.
    destruct r as [[]|e|w]; [|by apply Hsame, Hs|done]. destruct Hs as (k & now & (Hk & _ & _) & ->).
    split_and!; [by apply schema_revoke_key|simpl; lia|]. simpl.
    intros kid k' _ [[<- <-]|[_ Hk']]%lookup_insert_Some; [|eauto].
    exists k. split; [done|]. by eexists.
  - pose proof (Projects_delete_spec t p n) as Hs. rewrite Hr in Hs. simpl in Hs.
    destruct r as [[]|e|w]; [|by apply Hsame, Hs|done]. destruct Hs as [_ ->].
    split_and!; [by apply schema_drop_project|simpl; lia|]. simpl.
    intros kid k' _ [Hk _]%map_lookup_filter_Some. eauto.
  - rewrite Hk, Hsq. split_and!; [done|lia|eauto].
Qed.

Lemma Forall_replace {A} (P : A → Prop) (l1 l2 : list A) (x y : A) :
  Forall P (l1 ++ x :: l2) → (P x → P y) → Forall P (l1 ++ y :: l2).
Proof. rewrite !Forall_app, !Forall_cons. tauto. Qed.

Lemma Forall_remove {A} (P : A → Prop) (l1 l2 : list A) (x : A) :
  Forall P (l1 ++ x :: l2) → Forall P (l1 ++ l2).
Proof. rewrite !Forall_app, Forall_cons. tauto. Qed.

Lemma Forall_middle {A} (P : A → Prop) (l1 l2 : list A) (x : A) : Forall P (l1 ++ x :: l2) → P x.
Proof. rewrite Forall_app, Forall_cons. tauto. Qed.
End logins_spec.

(** ** Invariants *)

Section invariants.
Context {env : Env} {sha : Sha256} {ar : Argon2} {aenv : AuthEnv} {mk : Moka}.

(** The cache is filed under the projects' own names, with the time to live of the
    configuration, and nothing in it is from the future. *)
Record station_ok (ttl : Z) (w : Station) : Prop := mkStationOk {
  sto_schema : schema_ok (st_state w).1;
  sto_scoped : scoped (st_state w).2;
  sto_ttl : vc_time_to_live (project_cache (st_state w).2) = ttl;
  sto_past : ∀ k a m, (k, a, m) ∈ vc_inserted (project_cache (st_state w).2) → (m ≤ st_now w)%nat;
  sto_logins : Forall login_ok (st_logins w)
}.

(** The key is revoked or gone, no pending login has it, and nothing was cached for it
    after position [n0]. *)
Record barred (kid : Z) (n0 : nat) (w : Station) : Prop := mkBarred {
  ba_known : kid <= seq_api_keys (st_state w).1;
  ba_revoked : ∀ k, api_keys (st_state w).1 !! kid = Some k → is_Some (k_revoked_at k);
  ba_logins : Forall (λ lg, ¬ holds kid lg) (st_logins w);
  ba_cached : ∀ k a m, (k, a, m) ∈ vc_inserted (project_cache (st_state w).2) →
    pa_api_key_id a = kid → (m ≤ n0)%nat
}.

(** One stage of one login. *)
Lemma stage_ok ttl now s lg l1 l2 n r s' n' :
  station_ok ttl (mkStation now s (l1 ++ lg :: l2)) → (now ≤ n)%nat →
  login_step lg s n = (r, s', n') →
  station_ok ttl (mkStation (Nat.max n n') s' (l1 ++ l2)) ∧
  match r with
  | Ok (inl st) => login_ok (advance lg st)
  | Ok (inr a) => pa_project_name a = lg_project_name lg
  | _ => True
  end.
Proof.
  intros [Hok Hsc Httl Hpast Hlgs] Hn Hrun. destruct s as [t svc], s' as [t1 svc1]. simpl in *.
  apply login_step_run in Hrun as (Ht & Httl' & Hins & Hr). simpl in *. subst t1.
  pose proof (Forall_middle _ _ _ _ Hlgs) as Hlg. unfold login_ok in Hlg. split; [split; simpl|].
  - done.
  - intros k a m. destruct Hins as [->|(a0 & Hst & ->)]; [apply Hsc|].
    intros [[= -> -> ->]|Hin]%elem_of_cons; [|by eapply Hsc]. rewrite Hst in Hlg. simpl. by rewrite Hlg.
  - congruence.
  - intros k a m. destruct Hins as [->|(a0 & _ & ->)].
    + intros Hin. specialize (Hpast _ _ _ Hin). lia.
    + intros [[= -> -> ->]|Hin]%elem_of_cons; [lia|]. specialize (Hpast _ _ _ Hin). lia.
  - by eapply Forall_remove.
  - destruct r as [[[| |p|p k|a]|a]|e|w]; try done; unfold login_ok; simpl in *.
    + destruct Hr as [Hst _]. by rewrite Hst in Hlg.
    + destruct Hr as (p & k & Hst & _ & ->). by rewrite Hst in Hlg.
    + destruct Hr as [Hst|(m & Hm & _)]; [by rewrite Hst in Hlg|].
      apply last_inserted_elem in Hm. specialize (Hsc _ _ _ Hm). simpl in Hsc.
      by apply project_scope_inj in Hsc.
Qed.

Lemma stage_barred ttl kid n0 now s lg l1 l2 n r s' n' :
  station_ok ttl (mkStation now s (l1 ++ lg :: l2)) →
  barred kid n0 (mkStation now s (l1 ++ lg :: l2)) →
  login_step lg s n = (r, s', n') →
  barred kid n0 (mkStation (Nat.max n n') s' (l1 ++ l2)) ∧
  match r with
  | Ok (inl st) => ¬ holds kid (advance lg st)
  | Ok (inr a) => auth_mono n0 + ttl <= auth_mono n → pa_api_key_id a ≠ kid
  | _ => True
  end.
Proof.
  intros [Hok _ Httl _ _] [Hknown Hrev Hlgs Hcached] Hrun. destruct s as [t svc], s' as [t1 svc1]. simpl in *.
  apply login_step_run in Hrun as (Ht & _ & Hins & Hr). simpl in *. subst t1.
  pose proof (Forall_middle _ _ _ _ Hlgs) as Hlg. simpl in Hlg. unfold holds in Hlg. split; [split; simpl|].
  - done.
  - done.
  - by eapply Forall_remove.
  - intros k a m. destruct Hins as [->|(a0 & Hst & ->)]; [apply Hcached|].
    intros [[= -> -> ->]|Hin]%elem_of_cons Heq; [|by eapply Hcached]. by rewrite Hst in Hlg.
  - destruct r as [[[| |p|p k|a]|a]|e|w]; try done; unfold holds; simpl in *; try tauto.
    + destruct Hr as (_ & j & Hj & Hact). intros Heq.
      destruct (so_api_keys _ Hok) as [_ Hids]. destruct (Hids _ _ Hj) as [Hji _].
      rewrite Heq in Hji. subst j. destruct (Hrev _ Hj) as [ts Hts].
      apply andb_prop in Hact as [_ Hn]. by rewrite Hts in Hn.
    + destruct Hr as (p & k & Hst & _ & ->). by rewrite Hst in Hlg.
    + intros Htime Heq. destruct Hr as [Hst|(m & Hm & Hlive)]; [by rewrite Hst in Hlg|].
      apply last_inserted_elem in Hm. pose proof (auth_mono_le _ _ (Hcached _ _ _ Hm Heq)). lia.
Qed.

Lemma login_move_ok ttl w w' : login_move w w' → station_ok ttl w → station_ok ttl w'.
Proof.
  intros Hm Hw. destruct Hm as [now s lgs name key|now s l1 lg l2 n st s' n' Hn Hrun
    |now s l1 lg l2 n r s' n' Hn Hrun Hend|now s l1 lg l2|now t svc lgs n t' n' Hn Hwr|now t svc lgs n svc' Hn Hpc].
  - destruct Hw as [? ? ? ? Hl]. split; simpl; try done. apply Forall_app. split; [done|].
    by apply Forall_singleton.
  - destruct (stage_ok _ _ _ _ _ _ _ _ _ _ Hw Hn Hrun) as [[? ? ? ? _] Hst]. destruct Hw as [_ _ _ _ Hl].
    split; simpl in *; try done. by eapply Forall_replace.
  - by destruct (stage_ok _ _ _ _ _ _ _ _ _ _ Hw Hn Hrun).
  - destruct Hw as [? ? ? ? Hl]. split; simpl in *; try done. by eapply Forall_remove.
  - destruct Hw as [Hok Hsc Httl Hpast Hl]. simpl in *. apply key_write_ok in Hwr as (Hok' & _); [|done].
    split; simpl; try done. intros k a m Hin. specialize (Hpast _ _ _ Hin). lia.
  - destruct Hw as [Hok Hsc Httl Hpast Hl]. unfold scoped in *. simpl in *. rewrite <- Hpc in *.
    split; simpl; try done. intros k a m Hin. specialize (Hpast _ _ _ Hin). lia.
Qed.

Lemma login_move_barred ttl kid n0 w w' :
  login_move w w' → station_ok ttl w → barred kid n0 w → barred kid n0 w'.
Proof.
  intros Hm Hok Hb. destruct Hm as [now s lgs name key|now s l1 lg l2 n st s' n' Hn Hrun
    |now s l1 lg l2 n r s' n' Hn Hrun Hend|now s l1 lg l2|now t svc lgs n t' n' Hn Hwr|now t svc lgs n svc' Hn Hpc].
  - destruct Hb as [? ? Hl ?]. split; simpl; try done. apply Forall_app. split; [done|].
    apply Forall_singleton. by intros [].
  - destruct (stage_barred _ _ _ _ _ _ _ _ _ _ _ _ Hok Hb Hrun) as [[? ? _ ?] Hst].
    destruct Hb as [_ _ Hl _]. split; simpl in *; try done. by eapply Forall_replace.
  - by destruct (stage_barred _ _ _ _ _ _ _ _ _ _ _ _ Hok Hb Hrun).
  - destruct Hb as [? ? Hl ?]. split; simpl in *; try done. by eapply Forall_remove.
  - destruct Hb as [Hknown Hrev Hl Hcached]. simpl in *.
    apply key_write_ok in Hwr as (_ & Hsq & Hkeys); [|apply Hok]. split; simpl; [lia| |done|done].
    intros k' Hk'. destruct (Hkeys _ _ Hknown Hk') as (k & Hk & Himp). eauto.
  - destruct Hb as [? ? Hl Hcached]. simpl in *. rewrite <- Hpc in *. by split.
Qed.

Lemma login_moves_ok ttl w w' : rtc login_move w w' → station_ok ttl w → station_ok ttl w'.
Proof. induction 1; eauto using login_move_ok. Qed.

Lemma login_moves_barred ttl kid n0 w w' :
  rtc login_move w w' → station_ok ttl w → barred kid n0 w → barred kid n0 w'.
Proof. induction 1; eauto using login_move_ok, login_move_barred. Qed.

(** What a revocation leaves: the row is dead, whatever happens next. *)
Definition dead_key (kid : Z) (t : Tables) : Prop :=
  kid <= seq_api_keys t ∧ ∀ k, api_keys t !! kid = Some k → is_Some (k_revoked_at k).

Lemma revoke_dead project_id kid t n t' n' :
  schema_ok t → ApiKeys_revoke project_id kid t n = (Ok tt, t', n') → schema_ok t' ∧ dead_key kid t'.
Proof.
  intros Hok Hrun. pose proof (wp_run _ _ _ _ _ _ _ (ApiKeys_revoke_spec t project_id kid) Hrun)
    as (k & now & (Hk & _ & _) & ->).
  split; [by apply schema_revoke_key|]. split; simpl.
  - destruct (so_api_keys _ Hok) as [_ Hids]. destruct (Hids _ _ Hk). lia.
  - intros k'. rewrite lookup_insert_eq. intros [= <-]. by eexists.
Qed.

Lemma dead_key_move kid ttl w w' :
  login_move w w' → station_ok ttl w → dead_key kid (st_state w).1 → dead_key kid (st_state w').1.
Proof.
  intros Hm Hok [Hknown Hrev]. destruct Hm as [now s lgs name key|now s l1 lg l2 n st s' n' Hn Hrun
    |now s l1 lg l2 n r s' n' Hn Hrun Hend|now s l1 lg l2|now t svc lgs n t' n' Hn Hwr|now t svc lgs n svc' Hn Hpc];
    simpl in *; try done.
  1,2: destruct s as [t svc]; apply login_step_run in Hrun as (Ht & _); by rewrite Ht.
  apply key_write_ok in Hwr as (_ & Hsq & Hkeys); [|apply Hok]. split; [lia|].
  intros k' Hk'. destruct (Hkeys _ _ Hknown Hk') as (k & Hk & Himp). eauto.
Qed.

Lemma dead_key_moves kid ttl w w' :
  rtc login_move w w' → station_ok ttl w → dead_key kid (st_state w).1 → dead_key kid (st_state w').1.
Proof. induction 1; eauto using login_move_ok, dead_key_move. Qed.

(** A station before anybody logged in. *)
Definition opened_station (cfg : AuthConfig) (now : nat) (t : Tables) : Station :=
  mkStation now (t, no_logins cfg) [].

Lemma opened_station_ok cfg now t :
  schema_ok t → station_ok (verify_cache_ttl_secs cfg) (opened_station cfg now t).
Proof.
  intros Hok. split; simpl; [done| |done| |done].
  - intros k a m Hin. by apply elem_of_nil in Hin.
  - intros k a m Hin. by apply elem_of_nil in Hin.
Qed.
End invariants.

(** ** Theorems *)

(** A login that is left alone is [authenticate_project], and logins may be
    interleaved with each other and with every write to the keys: in every state reached,
    an answer is for the project that was asked for. *)
Theorem logins_in_flight `{!Env, !Sha256, !Argon2, !AuthEnv, !Moka} cfg now0 t0 w :
  schema_ok t0 → rtc login_move (opened_station cfg now0 t0) w →
  (∀ name api_key s n,
     login_run 5 (mkLogin name api_key Arrived) s n = authenticate_project name api_key s n) ∧
  ∀ lg n a s' n', lg ∈ st_logins w → (st_now w ≤ n)%nat →
    login_step lg (st_state w) n = (Ok (inr a), s', n') → pa_project_name a = lg_project_name lg.
Proof.
  intros Hok Hw. split; [intros; apply login_run_authenticate|].
  intros lg n a s' n' Hin Hn Hrun.
  pose proof (login_moves_ok _ _ _ Hw (opened_station_ok cfg now0 t0 Hok)) as Hst.
  apply list_elem_of_split in Hin as (l1 & l2 & Hlgs). destruct w as [now s lgs]. simpl in *. subst lgs.
  by destruct (stage_ok _ _ _ _ _ _ _ _ _ _ Hst Hn Hrun).
Qed.

(** C10: a revoked key is locked out even with logins in flight: once every login that
    had already read the key has ended, and the caches' time to live has passed since
    then, no login is ever answered as that key again, whatever keys are created, revoked
    or deleted meanwhile and however many logins are pending. *)
Theorem revoked_key_stays_out `{!Env, !Sha256, !Argon2, !AuthEnv, !Moka}
    cfg now0 t0 w project_id kid n t' n1 w1 w2 lg m a s' m' :
  schema_ok t0 → rtc login_move (opened_station cfg now0 t0) w →
  (st_now w ≤ n)%nat → ApiKeys_revoke project_id kid (st_state w).1 n = (Ok tt, t', n1) →
  rtc login_move (mkStation (Nat.max n n1) (t', (st_state w).2) (st_logins w)) w1 →
  Forall (λ lg, ¬ holds kid lg) (st_logins w1) →
  rtc login_move w1 w2 → lg ∈ st_logins w2 → (st_now w2 ≤ m)%nat →
  auth_mono (st_now w1) + verify_cache_ttl_secs cfg <= auth_mono m →
  login_step lg (st_state w2) m = (Ok (inr a), s', m') → pa_api_key_id a ≠ kid.
Proof.
  intros Hok Hw Hn Hrev Hw1 Hfree Hw2 Hin Hm Htime Hrun.
  pose proof (login_moves_ok _ _ _ Hw (opened_station_ok cfg now0 t0 Hok)) as Hst.
  destruct (revoke_dead _ _ _ _ _ _ (sto_schema _ _ Hst) Hrev) as [Hok' Hdead].
  assert (station_ok (verify_cache_ttl_secs cfg)
    (mkStation (Nat.max n n1) (t', (st_state w).2) (st_logins w))) as Hst'.
  { destruct Hst as [_ ? ? Hpast ?]. split; simpl; try done.
    intros k a' m0 Hin'. specialize (Hpast _ _ _ Hin'). lia. }
  pose proof (login_moves_ok _ _ _ Hw1 Hst') as Hst1.
  pose proof (dead_key_moves _ _ _ _ Hw1 Hst' Hdead) as [Hknown Hdead1].
  assert (barred kid (st_now w1) w1) as Hb1.
  { split; [done..|]. intros k a' m0 Hin' _. by eapply (sto_past _ _ Hst1). }
  pose proof (login_moves_ok _ _ _ Hw2 Hst1) as Hst2.
  pose proof (login_moves_barred _ _ _ _ _ Hw2 Hst1 Hb1) as Hb2.
  apply list_elem_of_split in Hin as (l1 & l2 & Hlgs). destruct w2 as [now2 s2 lgs2]. simpl in *. subst lgs2.
  destruct (stage_barred _ _ _ _ _ _ _ _ _ _ _ _ Hst2 Hb2 Hrun) as [_ Hne]. by apply Hne.
Qed.
