(* ===== verification/Http.v ===== *)
(** * HTTP surface

    [crates/marmotte-server/src/error.rs], the credential parsers of
    [middleware/auth_project.rs] and [middleware/auth_admin.rs], and the responses
    that handlers build.  Base64 decoding and JSON rendering are library code: the
    former is a parameter, a JSON body is kept as a value. *)
From stdpp Require Import base numbers list strings pretty.
From Stdlib Require Import ZArith Lia Init.Byte.
From S2P Require Import Prelude Models.

(** ** Responses *)

Inductive Json :=
| JNull
| JBool (b : bool)
| JInt (z : Z)
| JStr (s : string)
| JArr (l : list Json)
| JObj (l : list (string * Json)).

Definition json_opt {A} (f : A → Json) (o : option A) : Json :=
  match o with Some a => f a | None => JNull end.

Record Problem := mkProblem {
  pr_type : string;
  pr_title : string;
  pr_status : Z;
  pr_detail : string
}.

Inductive Body :=
| BodyEmpty
| BodyText (s : string)
| BodyStream (b : list byte)
| BodyJson (j : Json)
| BodyProblem (p : Problem).

Record Response := mkResponse {
  resp_status : Z;
  resp_headers : list (string * string);
  resp_body : Body
}.

Definition OK_200 : Z := 200.
Definition CREATED : Z := 201.
Definition NO_CONTENT : Z := 204.
Definition BAD_REQUEST : Z := 400.
Definition UNAUTHORIZED : Z := 401.
Definition FORBIDDEN : Z := 403.
Definition NOT_FOUND : Z := 404.
Definition CONFLICT : Z := 409.
Definition INTERNAL_SERVER_ERROR : Z := 500.
Definition SERVICE_UNAVAILABLE : Z := 503.
Definition INSUFFICIENT_STORAGE : Z := 507.

(** ** Errors as responses *)

(** The [Display] texts of [CoreError]. *)
Definition SqlxError_to_string (e : SqlxError) : string :=
  match e with
  | SqlxDatabase _ message => "error returned from database: " +:+ message
  | SqlxOther message => message
  end.
Definition CoreError_to_string (e : CoreError) : string :=
  match e with
  | NotFound what => "not found: " +:+ what
  | Forbidden reason => "forbidden: " +:+ reason
  | Unauthorized => "unauthorized"
  | Conflict what => "conflict: " +:+ what
  | InvalidInput msg => "invalid input: " +:+ msg
  | Quota msg => "quota: " +:+ msg
  | Database e => "database error: " +:+ SqlxError_to_string e
  | Migration msg => "migration error: " +:+ msg
  | Io e => "io error: " +:+ io_message e
  | Crypto msg => "crypto error: " +:+ msg
  | ConfigError msg => "config error: " +:+ msg
  | Internal msg => "internal error: " +:+ msg
  end.

Definition status_and_title (e : CoreError) : Z * string :=
  match e with
  | NotFound _ => (NOT_FOUND, "not_found")
  | Forbidden _ => (FORBIDDEN, "forbidden")
  | Unauthorized => (UNAUTHORIZED, "unauthorized")
  | Conflict _ => (CONFLICT, "conflict")
  | InvalidInput _ => (BAD_REQUEST, "invalid_input")
  | Quota _ => (INSUFFICIENT_STORAGE, "quota_exceeded")
  | Migration _ | Database _ | Io _ | Crypto _ | ConfigError _ | Internal _ =>
      (INTERNAL_SERVER_ERROR, "internal")
  end.

Definition ApiError_into_response (e : CoreError) : Response :=
  let '(status, title) := status_and_title e in
  mkResponse status [("content-type", "application/problem+json")]
    (BodyProblem (mkProblem "about:blank" title status (CoreError_to_string e))).

(** Errors are never mistaken for answers. *)
Lemma error_status e : 400 <= resp_status (ApiError_into_response e).
Proof. unfold ApiError_into_response. by destruct e. Qed.

(** ** Header values *)

(** The bytes a header value may be read as text from ([to_str]) or built from
    ([from_str]): visible ASCII and the tab. *)
Definition is_visible_ascii (a : Ascii.ascii) : bool :=
  let n := Ascii.nat_of_ascii a in ((32 <=? n) && (n <? 127))%nat || (n =? 9)%nat.

Definition header_to_str (raw : string) : option string :=
  if forall_chars is_visible_ascii raw then Some raw else None.

(** [HeaderValue::from_str(..).expect(..)] *)
Definition header_from_str {E S} (s : string) : M E S string :=
  if forall_chars is_visible_ascii s then ret s else halt Panicked.

(** ** UTF-8 *)

Definition is_cont (b : byte) : bool := let n := Byte.to_N b in ((128 <=? n) && (n <? 192))%N.
Definition in_range (lo hi : N) (b : byte) : bool :=
  let n := Byte.to_N b in ((lo <=? n) && (n <=? hi))%N.

(** [std::str::from_utf8]: the well-formed sequences of the Unicode standard. *)
Fixpoint utf8_valid (l : list byte) : bool :=
  match l with
  | [] => true
  | b :: l1 =>
      if in_range 0 127 b then utf8_valid l1
      else match l1 with
      | [] => false
      | c1 :: l2 =>
          if in_range 194 223 b then is_cont c1 && utf8_valid l2
          else match l2 with
          | [] => false
          | c2 :: l3 =>
              if in_range 224 239 b then
                (if in_range 224 224 b then in_range 160 191 c1
                 else if in_range 237 237 b then in_range 128 159 c1
                 else is_cont c1) && is_cont c2 && utf8_valid l3
              else match l3 with
              | [] => false
              | c3 :: l4 =>
                  in_range 240 244 b &&
                  (if in_range 240 240 b then in_range 144 191 c1
                   else if in_range 244 244 b then in_range 128 143 c1
                   else is_cont c1) && is_cont c2 && is_cont c3 && utf8_valid l4
              end
          end
      end
  end.

Definition from_utf8 (l : list byte) : option string :=
  if utf8_valid l then Some (String.string_of_list_byte l) else None.

(** ** Credentials *)

(** The Authorization header of a request, raw. *)
Abbreviation Headers := (option string).

(** [base64::STANDARD]: decoding what was encoded gives it back. *)
Class Base64 := mkBase64 {
  b64_decode : string → option (list byte);
  b64_encode : list byte → string;
  b64_round_trip : ∀ l, b64_decode (b64_encode l) = Some l;
  b64_visible : ∀ l, forall_chars is_visible_ascii (b64_encode l) = true
}.

Record Basic := mkBasic { user : string; pass : string }.

Definition colon : Ascii.ascii := Ascii.ascii_of_nat 58.

Definition parse_basic `{!Base64} (h : Headers) : option Basic :=
  raw ← h ≫= header_to_str;
  b64 ← strip_prefix "Basic " raw;
  decoded ← b64_decode b64;
  s ← from_utf8 decoded;
  '(u, p) ← split_once colon s;
  Some (mkBasic u p).

Definition parse_bearer (h : Headers) : option string :=
  raw ← h ≫= header_to_str;
  strip_prefix "Bearer " raw.

Definition dquote : Ascii.ascii := Ascii.ascii_of_nat 34.
Definition quoted (s : string) : string := String dquote (s +:+ String dquote EmptyString).
Definition line (s : string) : string := s +:+ String (Ascii.ascii_of_nat 10) EmptyString.

Definition unauthorized_basic : Response :=
  mkResponse UNAUTHORIZED [("www-authenticate", "Basic realm=" +:+ quoted "marmotte")]
    (BodyText (line "unauthorized")).
Definition unauthorized_bearer : Response := mkResponse UNAUTHORIZED [] (BodyText (line "unauthorized")).

(** What a client sends. *)
Definition basic_header `{!Base64} (u p : string) : string :=
  "Basic " +:+ b64_encode (String.list_byte_of_string (u +:+ String colon p)).

(** ** Lemmas *)

(** Text is well-formed; this is what Rust guarantees of every [String]. *)
Definition is_text (s : string) : Prop := utf8_valid (String.list_byte_of_string s) = true.

Lemma forall_chars_app p u v :
  forall_chars p (u +:+ v) = forall_chars p u && forall_chars p v.
Proof.
  induction u as [|a u IH]; [done|]. rewrite app_string_cons. simpl. by rewrite IH, andb_assoc.
Qed.

Lemma strip_prefix_app p s : strip_prefix p (p +:+ s) = Some s.
Proof. by apply strip_prefix_Some. Qed.

(** A credential pair survives the trip through the header, as long as the user
    name has no colon. *)
Lemma parse_basic_header `{!Base64} u p :
  is_text (u +:+ String colon p) →
  forall_chars (λ a, negb (Ascii.eqb a colon)) u = true →
  parse_basic (Some (basic_header u p)) = Some (mkBasic u p).
Proof.
  intros Htext Hu. unfold parse_basic, basic_header, header_to_str.
  cbn [mbind option_bind]. rewrite forall_chars_app, b64_visible.
  change (forall_chars is_visible_ascii "Basic ") with true. cbn [andb mbind option_bind].
  rewrite strip_prefix_app. cbn [mbind option_bind].
  rewrite b64_round_trip. cbn [mbind option_bind]. unfold from_utf8. rewrite Htext.
  cbn [mbind option_bind].
  rewrite String.string_of_list_byte_of_string, split_once_app by done. done.
Qed.

(** What is parsed was sent: the user name never holds a colon. *)
Lemma parse_basic_Some `{!Base64} h c :
  parse_basic h = Some c →
  forall_chars (λ a, negb (Ascii.eqb a colon)) (user c) = true ∧
  ∃ b64 l, h = Some ("Basic " +:+ b64) ∧ b64_decode b64 = Some l ∧
           String.string_of_list_byte l = user c +:+ String colon (pass c).
Proof.
  unfold parse_basic, header_to_str. intros Hp.
  apply bind_Some in Hp as (raw & Hraw & H1). apply bind_Some in Hraw as (h0 & Hh & Hvis); subst h.
  apply bind_Some in H1 as (b64 & Hb & H2). apply bind_Some in H2 as (l & Hl & H3).
  apply bind_Some in H3 as (s & Hs & H4). apply bind_Some in H4 as ([u p] & Hup & H5).
  simplify_eq/=. destruct (forall_chars _ h0) eqn:Hv; simplify_eq.
  apply strip_prefix_Some in Hb as ->.
  unfold from_utf8 in Hs. destruct (utf8_valid l) eqn:Hutf; simplify_eq.
  apply split_once_Some in Hup as [Heq Hu]. eauto 6.
Qed.

(** ** Theorems *)

(** HTTP Basic credentials survive the trip: what a client sends is what the
    server reads, whatever bytes the password holds, provided the user name has no
    colon; and the server never reads a user name with a colon out of any header. *)
Theorem basic_credentials_round_trip `{!Base64} u p :
  is_text (u +:+ String colon p) →
  forall_chars (λ a, negb (Ascii.eqb a colon)) u = true →
  parse_basic (Some (basic_header u p)) = Some (mkBasic u p) ∧
  ∀ h c, parse_basic h = Some c →
    forall_chars (λ a, negb (Ascii.eqb a colon)) (user c) = true.
Proof.
  intros Ht Hu. split; [by apply parse_basic_header|]. by intros h c [? _]%parse_basic_Some.
Qed.
