(* ===== verification/Decode.v ===== *)
(** * From database rows to typed values

    The [sqlx::FromRow] implementations of [crates/marmotte-core/src/db/*.rs]
    against the columns that [migrations/0001_init.sql] declares.  The other files
    keep tables of typed records; this one shows that nothing is lost by it: a row
    that the schema lets in decodes, and the CHECK constraints on the two enum
    columns admit exactly the texts that [Kind::from_str] and [Role::from_str]
    accept.  How sqlx reads one column is the parameter [TryGet]. *)
From stdpp Require Import base numbers list strings gmap.
From Stdlib Require Import ZArith Lia.
From S2P Require Import Prelude Models Http.

(** ** Rows *)

(** What the statements of the program bind to the columns of this schema: integers
    and texts, NULL for a missing option, never REAL or BLOB values. *)
Inductive SqlValue := SqlNull | SqlInteger (z : Z) | SqlText (s : string).
Abbreviation Row := (gmap string SqlValue).

Inductive ColType := INTEGER | TEXT.
Record Column := mkColumn { c_name : string; c_type : ColType; c_not_null : bool }.

Definition value_fits (c : Column) (v : SqlValue) : bool :=
  match v, c_type c with
  | SqlNull, _ => negb (c_not_null c)
  | SqlInteger _, INTEGER | SqlText _, TEXT => true
  | _, _ => false
  end.
(** The row has every column, with a value that its declaration allows. *)
Definition columns_fit (cs : list Column) (row : Row) : bool :=
  forallb (λ c, match row !! c_name c with Some v => value_fits c v | None => false end) cs.
(** [CHECK (col IN (..))] *)
Definition check_in (col : string) (texts : list string) (row : Row) : bool :=
  match row !! col with
  | Some (SqlText s) => existsb (String.eqb s) texts
  | _ => true
  end.

Definition projects_columns : list Column :=
  [mkColumn "id" INTEGER true; mkColumn "name" TEXT true; mkColumn "quota_bytes" INTEGER false;
   mkColumn "ttl_seconds" INTEGER false; mkColumn "created_at" INTEGER true].
Definition api_keys_columns : list Column :=
  [mkColumn "id" INTEGER true; mkColumn "project_id" INTEGER true; mkColumn "key_lookup" TEXT true;
   mkColumn "key_hash" TEXT true; mkColumn "role" TEXT true; mkColumn "label" TEXT false;
   mkColumn "created_at" INTEGER true; mkColumn "revoked_at" INTEGER false].
Definition admin_tokens_columns : list Column :=
  [mkColumn "id" INTEGER true; mkColumn "token_lookup" TEXT true; mkColumn "token_hash" TEXT true;
   mkColumn "label" TEXT false; mkColumn "created_at" INTEGER true;
   mkColumn "revoked_at" INTEGER false].
(** [TEXT PRIMARY KEY] does not imply NOT NULL in SQLite. *)
Definition blobs_columns : list Column :=
  [mkColumn "hash" TEXT false; mkColumn "size_bytes" INTEGER true;
   mkColumn "refcount" INTEGER true; mkColumn "created_at" INTEGER true].
Definition entries_columns : list Column :=
  [mkColumn "id" INTEGER true; mkColumn "project_id" INTEGER true; mkColumn "kind" TEXT true;
   mkColumn "path" TEXT true; mkColumn "blob_hash" TEXT true; mkColumn "size_bytes" INTEGER true;
   mkColumn "created_at" INTEGER true; mkColumn "last_accessed" INTEGER true;
   mkColumn "pinned" INTEGER true].

Definition kind_check : Row → bool := check_in "kind" ["sstate"; "downloads"].
Definition role_check : Row → bool := check_in "role" ["read"; "write"].

(** ** Reading columns *)

(** [sqlx::Error::ColumnDecode], as it is displayed. *)
Definition ColumnDecode (index source : string) : SqlxError :=
  SqlxOther ("error occurred while decoding column " +:+ index +:+ ": " +:+ source).

(** [row.try_get(col)] at the four types the program asks for, as sqlx documents it:
    the value when there is one of that type, [None] for NULL at an [Option], and an
    error for NULL at any other type. *)
Class TryGet := mkTryGet {
  try_get_i64 : Row → string → res SqlxError Z;
  try_get_string : Row → string → res SqlxError string;
  try_get_opt_i64 : Row → string → res SqlxError (option Z);
  try_get_opt_string : Row → string → res SqlxError (option string);
  try_get_i64_integer row c z : row !! c = Some (SqlInteger z) → try_get_i64 row c = Ok z;
  try_get_string_text row c s : row !! c = Some (SqlText s) → try_get_string row c = Ok s;
  try_get_string_null row c : row !! c = Some SqlNull → ∃ e, try_get_string row c = Err e;
  try_get_opt_i64_null row c : row !! c = Some SqlNull → try_get_opt_i64 row c = Ok None;
  try_get_opt_i64_integer row c z :
    row !! c = Some (SqlInteger z) → try_get_opt_i64 row c = Ok (Some z);
  try_get_opt_string_null row c : row !! c = Some SqlNull → try_get_opt_string row c = Ok None;
  try_get_opt_string_text row c s :
    row !! c = Some (SqlText s) → try_get_opt_string row c = Ok (Some s)
}.

(** [let x = r?; k] *)
Definition and_then {E A B} (r : res E A) (k : A → res E B) : res E B :=
  match r with Ok a => k a | Err e => Err e | Stop w => Stop w end.
#[local] Notation "'let?' x ':=' r 'in' k" := (and_then r (λ x, k))
  (at level 10, x binder, r at level 100, k at level 200,
   format "'[v' 'let?'  x  ':='  r  'in' '/' k ']'").

Section from_row.
Context `{!TryGet}.

(** [from_str(..).map_err(|e| ColumnDecode { index: col.into(), source: .. })] *)
Definition column_decode {A} (col : string) (r : res CoreError A) : res SqlxError A :=
  res_map_err (λ e, ColumnDecode col (CoreError_to_string e)) r.

Definition Project_from_row (row : Row) : res SqlxError Project :=
  let? id := try_get_i64 row "id" in
  let? name := try_get_string row "name" in
  let? quota_bytes := try_get_opt_i64 row "quota_bytes" in
  let? ttl_seconds := try_get_opt_i64 row "ttl_seconds" in
  let? created_at := try_get_i64 row "created_at" in
  Ok (mkProject id name quota_bytes ttl_seconds created_at).

Definition ApiKey_from_row (row : Row) : res SqlxError ApiKey :=
  let? role_str := try_get_string row "role" in
  let? role := column_decode "role" (Role_from_str role_str) in
  let? id := try_get_i64 row "id" in
  let? project_id := try_get_i64 row "project_id" in
  let? key_lookup := try_get_string row "key_lookup" in
  let? key_hash := try_get_string row "key_hash" in
  let? label := try_get_opt_string row "label" in
  let? created_at := try_get_i64 row "created_at" in
  let? revoked_at := try_get_opt_i64 row "revoked_at" in
  Ok (mkApiKey id project_id key_lookup key_hash role label created_at revoked_at).

Definition AdminToken_from_row (row : Row) : res SqlxError AdminToken :=
  let? id := try_get_i64 row "id" in
  let? token_lookup := try_get_string row "token_lookup" in
  let? token_hash := try_get_string row "token_hash" in
  let? label := try_get_opt_string row "label" in
  let? created_at := try_get_i64 row "created_at" in
  let? revoked_at := try_get_opt_i64 row "revoked_at" in
  Ok (mkAdminToken id token_lookup token_hash label created_at revoked_at).

Definition Blob_from_row (row : Row) : res SqlxError Blob :=
  let? hash := try_get_string row "hash" in
  let? size_bytes := try_get_i64 row "size_bytes" in
  let? refcount := try_get_i64 row "refcount" in
  let? created_at := try_get_i64 row "created_at" in
  Ok (mkBlob hash size_bytes refcount created_at).

Definition Entry_from_row (row : Row) : res SqlxError Entry :=
  let? kind_str := try_get_string row "kind" in
  let? kind := column_decode "kind" (Kind_from_str kind_str) in
  let? pinned_i := try_get_i64 row "pinned" in
  let? id := try_get_i64 row "id" in
  let? project_id := try_get_i64 row "project_id" in
  let? path := try_get_string row "path" in
  let? blob_hash := try_get_string row "blob_hash" in
  let? size_bytes := try_get_i64 row "size_bytes" in
  let? created_at := try_get_i64 row "created_at" in
  let? last_accessed := try_get_i64 row "last_accessed" in
  Ok (mkEntry id project_id kind path blob_hash size_bytes created_at last_accessed
        (negb (pinned_i =? 0))).

(** ** What the statements bind *)

Definition bind_opt {A} (f : A → SqlValue) (o : option A) : SqlValue :=
  match o with Some a => f a | None => SqlNull end.
Definition i64_from (b : bool) : Z := if b then 1 else 0.

Definition Project_row (p : Project) : Row :=
  list_to_map [("id", SqlInteger (p_id p)); ("name", SqlText (p_name p));
    ("quota_bytes", bind_opt SqlInteger (p_quota_bytes p));
    ("ttl_seconds", bind_opt SqlInteger (p_ttl_seconds p));
    ("created_at", SqlInteger (p_created_at p))].
Definition ApiKey_row (k : ApiKey) : Row :=
  list_to_map [("id", SqlInteger (k_id k)); ("project_id", SqlInteger (k_project_id k));
    ("key_lookup", SqlText (k_key_lookup k)); ("key_hash", SqlText (k_key_hash k));
    ("role", SqlText (Role_as_str (k_role k))); ("label", bind_opt SqlText (k_label k));
    ("created_at", SqlInteger (k_created_at k));
    ("revoked_at", bind_opt SqlInteger (k_revoked_at k))].
Definition AdminToken_row (a : AdminToken) : Row :=
  list_to_map [("id", SqlInteger (t_id a)); ("token_lookup", SqlText (t_token_lookup a));
    ("token_hash", SqlText (t_token_hash a)); ("label", bind_opt SqlText (t_label a));
    ("created_at", SqlInteger (t_created_at a));
    ("revoked_at", bind_opt SqlInteger (t_revoked_at a))].
Definition Blob_row (b : Blob) : Row :=
  list_to_map [("hash", SqlText (b_hash b)); ("size_bytes", SqlInteger (b_size_bytes b));
    ("refcount", SqlInteger (b_refcount b)); ("created_at", SqlInteger (b_created_at b))].
Definition Entry_row (e : Entry) : Row :=
  list_to_map [("id", SqlInteger (e_id e)); ("project_id", SqlInteger (e_project_id e));
    ("kind", SqlText (Kind_as_str (e_kind e))); ("path", SqlText (e_path e));
    ("blob_hash", SqlText (e_blob_hash e)); ("size_bytes", SqlInteger (e_size_bytes e));
    ("created_at", SqlInteger (e_created_at e));
    ("last_accessed", SqlInteger (e_last_accessed e));
    ("pinned", SqlInteger (i64_from (e_pinned e)))].
End from_row.

(** ** What decoding promises *)

(** Any nonzero number in [pinned] stands for [true]. *)
Definition canonical_pin (row : Row) : Row :=
  alter (λ v, match v with SqlInteger z => SqlInteger (i64_from (negb (z =? 0))) | _ => v end)
    "pinned" row.

Definition agree (cs : list Column) (row row' : Row) : Prop :=
  ∀ c, c ∈ cs → row !! c_name c = row' !! c_name c.

(** [from] reads the rows of a table with the columns [cs]: it succeeds on exactly
    those that pass [check], keeps every column (up to [canon]), and gives back
    every value that [to] spells out as a row, which the table admits. *)
Record decodes {A} (cs : list Column) (check : Row → bool) (canon : Row → Row)
    (from : Row → res SqlxError A) (to : A → Row) : Prop := mkDecodes {
  dec_check row : columns_fit cs row = true → (check row = true ↔ ∃ a, from row = Ok a);
  dec_keeps row a : columns_fit cs row = true → from row = Ok a → agree cs (to a) (canon row);
  dec_back a : columns_fit cs (to a) = true ∧ check (to a) = true ∧ from (to a) = Ok a
}.

(** A blob row without a hash is the one row that its table admits and the program
    cannot read. *)
Definition hash_not_null (row : Row) : bool :=
  match row !! "hash" with Some SqlNull => false | _ => true end.

(** ** Lemmas *)

Lemma columns_fit_lookup cs row c :
  columns_fit cs row = true → c ∈ cs → ∃ v, row !! c_name c = Some v ∧ value_fits c v = true.
Proof.
  unfold columns_fit. rewrite forallb_forall. intros Hf Hc.
  apply list_elem_of_In in Hc. specialize (Hf c Hc). destruct (row !! c_name c); naive_solver.
Qed.

Section columns.
Context (cs : list Column) (row : Row) (Hfit : columns_fit cs row = true).

Lemma integer_column c : mkColumn c INTEGER true ∈ cs → ∃ z, row !! c = Some (SqlInteger z).
Proof using Hfit.
  intros Hc. destruct (columns_fit_lookup _ _ _ Hfit Hc) as ([| |] & Hv & Hok); naive_solver.
Qed.
Lemma text_column c : mkColumn c TEXT true ∈ cs → ∃ s, row !! c = Some (SqlText s).
Proof using Hfit.
  intros Hc. destruct (columns_fit_lookup _ _ _ Hfit Hc) as ([| |] & Hv & Hok); naive_solver.
Qed.
Lemma opt_integer_column c :
  mkColumn c INTEGER false ∈ cs → ∃ o, row !! c = Some (bind_opt SqlInteger o).
Proof using Hfit.
  intros Hc. destruct (columns_fit_lookup _ _ _ Hfit Hc) as ([|z|] & Hv & Hok); [by exists None| |done].
  by exists (Some z).
Qed.
Lemma opt_text_column c :
  mkColumn c TEXT false ∈ cs → ∃ o, row !! c = Some (bind_opt SqlText o).
Proof using Hfit.
  intros Hc. destruct (columns_fit_lookup _ _ _ Hfit Hc) as ([| |s] & Hv & Hok); [by exists None|done|].
  by exists (Some s).
Qed.
End columns.

(** Name the value of every column of [H : columns_fit cs row = true]. *)
Ltac in_columns := repeat (apply list_elem_of_here || apply list_elem_of_further).
Ltac name_columns H cs :=
  lazymatch cs with
  | mkColumn ?c INTEGER true :: ?cs' =>
      destruct (integer_column _ _ H c) as [? ?]; [in_columns|]; name_columns H cs'
  | mkColumn ?c TEXT true :: ?cs' =>
      destruct (text_column _ _ H c) as [? ?]; [in_columns|]; name_columns H cs'
  | mkColumn ?c INTEGER false :: ?cs' =>
      destruct (opt_integer_column _ _ H c) as [? ?]; [in_columns|]; name_columns H cs'
  | mkColumn ?c TEXT false :: ?cs' =>
      destruct (opt_text_column _ _ H c) as [? ?]; [in_columns|]; name_columns H cs'
  | _ => idtac
  end.
Tactic Notation "name_columns" hyp(H) :=
  lazymatch type of H with
  | columns_fit ?cs _ = true => let l := eval unfold cs in cs in name_columns H l
  end.

Section reads.
Context `{!TryGet}.

Lemma try_get_opt_i64_bound row c o :
  row !! c = Some (bind_opt SqlInteger o) → try_get_opt_i64 row c = Ok o.
Proof. destruct o; [apply try_get_opt_i64_integer | apply try_get_opt_i64_null]. Qed.
Lemma try_get_opt_string_bound row c o :
  row !! c = Some (bind_opt SqlText o) → try_get_opt_string row c = Ok o.
Proof. destruct o; [apply try_get_opt_string_text | apply try_get_opt_string_null]. Qed.

(** Every read of a column whose value is known. *)
Ltac read :=
  repeat match goal with
  | H : ?row !! ?c = Some _ |- context [try_get_i64 ?row ?c] =>
      rewrite (try_get_i64_integer row c _ H); cbn [and_then]
  | H : ?row !! ?c = Some _ |- context [try_get_string ?row ?c] =>
      rewrite (try_get_string_text row c _ H); cbn [and_then]
  | H : ?row !! ?c = Some _ |- context [try_get_opt_i64 ?row ?c] =>
      rewrite (try_get_opt_i64_bound row c _ H); cbn [and_then]
  | H : ?row !! ?c = Some _ |- context [try_get_opt_string ?row ?c] =>
      rewrite (try_get_opt_string_bound row c _ H); cbn [and_then]
  end.

(** Every read of a row that a value spells out. *)
Ltac read_back :=
  repeat match goal with
  | |- context [try_get_i64 ?row ?c] =>
      erewrite (try_get_i64_integer row c) by reflexivity; cbn [and_then]
  | |- context [try_get_string ?row ?c] =>
      erewrite (try_get_string_text row c) by reflexivity; cbn [and_then]
  | |- context [try_get_opt_i64 ?row ?c] =>
      erewrite (try_get_opt_i64_bound row c) by reflexivity; cbn [and_then]
  | |- context [try_get_opt_string ?row ?c] =>
      erewrite (try_get_opt_string_bound row c) by reflexivity; cbn [and_then]
  end.

(** One column after the other of a row that a value spells out. *)
Ltac each_column Hc :=
  repeat (apply elem_of_cons in Hc as [->|Hc]; [cbn [c_name]|]);
    [..|by apply not_elem_of_nil in Hc].

Lemma projects_decode : decodes projects_columns (λ _, true) id Project_from_row Project_row.
Proof.
  split.
  - intros row Hfit. name_columns Hfit. unfold Project_from_row. read. naive_solver.
  - intros row a Hfit. name_columns Hfit. unfold Project_from_row. read. intros [= <-] c Hc.
    each_column Hc; (etrans; [reflexivity|by symmetry]).
  - intros [i n q t d]. split_and!; [by destruct q, t|done|].
    unfold Project_from_row. read_back. done.
Qed.

Lemma admin_tokens_decode :
  decodes admin_tokens_columns (λ _, true) id AdminToken_from_row AdminToken_row.
Proof.
  split.
  - intros row Hfit. name_columns Hfit. unfold AdminToken_from_row. read. naive_solver.
  - intros row a Hfit. name_columns Hfit. unfold AdminToken_from_row. read. intros [= <-] c Hc.
    each_column Hc; (etrans; [reflexivity|by symmetry]).
  - intros [i k h l d r]. split_and!; [by destruct l, r|done|].
    unfold AdminToken_from_row. read_back. done.
Qed.

(** [check_in] is membership, for a column that holds a text. *)
Lemma check_in_text col texts row s :
  row !! col = Some (SqlText s) → check_in col texts row = true ↔ s ∈ texts.
Proof.
  intros Hs. unfold check_in. rewrite Hs, existsb_exists, list_elem_of_In.
  split; [intros (x & Hx & ->%String.eqb_eq)|exists s; rewrite String.eqb_refl]; auto.
Qed.

Lemma kind_texts s : s ∈ ["sstate"; "downloads"]%string ↔ ∃ k, Kind_from_str s = Ok k.
Proof.
  rewrite !elem_of_cons, elem_of_nil. unfold Kind_from_str. split.
  - intros [->|[->|[]]]; eauto.
  - repeat case_match; intros [k [=]]; rewrite <-?String.eqb_eq; auto.
Qed.
Lemma role_texts s : s ∈ ["read"; "write"]%string ↔ ∃ r, Role_from_str s = Ok r.
Proof.
  rewrite !elem_of_cons, elem_of_nil. unfold Role_from_str. split.
  - intros [->|[->|[]]]; eauto.
  - repeat case_match; intros [k [=]]; rewrite <-?String.eqb_eq; auto.
Qed.

(** The one thing to know about the two enum columns: a text that the CHECK lets in
    is the text of a value, any other is an error that names column and text. *)
Lemma kind_column row s :
  row !! "kind" = Some (SqlText s) →
  (kind_check row = true ∧ ∃ k, s = Kind_as_str k ∧ Kind_from_str s = Ok k) ∨
  (kind_check row = false ∧ Kind_from_str s = Err (InvalidInput ("unknown kind: " +:+ s))).
Proof.
  intros Hs. destruct (role_and_kind_text s Read Sstate) as (_ & _ & _ & Herr).
  destruct (Kind_from_str s) as [k|e|w] eqn:Hk.
  - left. split; [apply (check_in_text _ _ _ _ Hs), kind_texts; eauto|].
    exists k. split; [|done]. by apply (role_and_kind_text s Read k).
  - right. rewrite (Herr e eq_refl). split; [|done]. apply not_true_iff_false.
    intros [k ?]%(check_in_text _ _ _ _ Hs)%kind_texts. congruence.
  - unfold Kind_from_str in Hk. by repeat case_match.
Qed.
Lemma role_column row s :
  row !! "role" = Some (SqlText s) →
  (role_check row = true ∧ ∃ r, s = Role_as_str r ∧ Role_from_str s = Ok r) ∨
  (role_check row = false ∧ Role_from_str s = Err (InvalidInput ("unknown role: " +:+ s))).
Proof.
  intros Hs. destruct (role_and_kind_text s Read Sstate) as (_ & _ & Herr & _).
  destruct (Role_from_str s) as [r|e|w] eqn:Hr.
  - left. split; [apply (check_in_text _ _ _ _ Hs), role_texts; eauto|].
    exists r. split; [|done]. by apply (role_and_kind_text s r Sstate).
  - right. rewrite (Herr e eq_refl). split; [|done]. apply not_true_iff_false.
    intros [r ?]%(check_in_text _ _ _ _ Hs)%role_texts. congruence.
  - unfold Role_from_str in Hr. by repeat case_match.
Qed.

Lemma api_keys_decode : decodes api_keys_columns role_check id ApiKey_from_row ApiKey_row.
Proof.
  split.
  - intros row Hfit. name_columns Hfit. unfold ApiKey_from_row.
    destruct (text_column _ _ Hfit "role") as [s Hs]; [in_columns|]. read.
    destruct (role_column _ _ Hs) as [(-> & r & -> & ->)|[-> ->]];
      unfold column_decode; cbn [res_map_err and_then]; read; naive_solver.
  - intros row a Hfit. name_columns Hfit. unfold ApiKey_from_row.
    destruct (text_column _ _ Hfit "role") as [s Hs]; [in_columns|]. read.
    destruct (role_column _ _ Hs) as [(_ & r & -> & ->)|[_ ->]];
      unfold column_decode; cbn [res_map_err and_then]; [read|done]. intros [= <-] c Hc.
    each_column Hc; (etrans; [reflexivity|by symmetry]).
  - intros [i p k h r l d v]. split_and!; [by destruct l, v|by destruct r|].
    unfold ApiKey_from_row, column_decode.
    destruct r; read_back; cbn [Role_from_str String.eqb res_map_err and_then]; by read_back.
Qed.

Lemma entries_decode :
  decodes entries_columns kind_check canonical_pin Entry_from_row Entry_row.
Proof.
  split.
  - intros row Hfit. name_columns Hfit. unfold Entry_from_row.
    destruct (text_column _ _ Hfit "kind") as [s Hs]; [in_columns|]. read.
    destruct (kind_column _ _ Hs) as [(-> & k & -> & ->)|[-> ->]];
      unfold column_decode; cbn [res_map_err and_then]; read; naive_solver.
  - intros row a Hfit. name_columns Hfit. unfold Entry_from_row.
    destruct (text_column _ _ Hfit "kind") as [s Hs]; [in_columns|]. read.
    destruct (kind_column _ _ Hs) as [(_ & k & -> & ->)|[_ ->]];
      unfold column_decode; cbn [res_map_err and_then]; [read|done]. intros [= <-] c Hc.
    unfold canonical_pin. each_column Hc;
      [rewrite lookup_alter_ne by done; (etrans; [reflexivity|by symmetry])..|].
    rewrite lookup_alter_eq. by simplify_map_eq.
  - intros [i p k pa h z d a b]. split_and!; [done|by destruct k|].
    unfold Entry_from_row, column_decode.
    destruct k, b; read_back; cbn [Kind_from_str String.eqb res_map_err and_then]; by read_back.
Qed.

Lemma blobs_decode : decodes blobs_columns hash_not_null id Blob_from_row Blob_row.
Proof.
  unfold hash_not_null. split.
  - intros row Hfit. name_columns Hfit. unfold Blob_from_row.
    destruct (opt_text_column _ _ Hfit "hash") as [[h|] Hh]; [in_columns| |].
    + cbn [bind_opt] in Hh. read. rewrite Hh. naive_solver.
    + destruct (try_get_string_null row "hash" Hh) as [e ->]. rewrite Hh. naive_solver.
  - intros row a Hfit. name_columns Hfit. unfold Blob_from_row.
    destruct (opt_text_column _ _ Hfit "hash") as [[h|] Hh]; [in_columns| |].
    + cbn [bind_opt] in Hh. read. intros [= <-] c Hc.
      each_column Hc; (etrans; [reflexivity|by symmetry]).
    + by destruct (try_get_string_null row "hash" Hh) as [e ->].
  - intros [h z r d]. split_and!; [done|done|]. unfold Blob_from_row. read_back. done.
Qed.

(** ** Theorems *)

(** C40: Reading the database back loses nothing: for each of the five tables, a row
    with values as its columns declare them decodes if and only if it passes the
    table's CHECK (for blobs, if its hash is not NULL, which the schema allows),
    every column comes out as it is stored (any nonzero pin as a pin), and what the
    statements write for a value is admitted and decodes to that value.  A role or a
    kind outside its CHECK is an error that names the column and the text. *)
Theorem stored_rows_decode :
  decodes projects_columns (λ _, true) id Project_from_row Project_row ∧
  decodes api_keys_columns role_check id ApiKey_from_row ApiKey_row ∧
  decodes admin_tokens_columns (λ _, true) id AdminToken_from_row AdminToken_row ∧
  decodes blobs_columns hash_not_null id Blob_from_row Blob_row ∧
  decodes entries_columns kind_check canonical_pin Entry_from_row Entry_row ∧
  (∀ row s, row !! "role" = Some (SqlText s) → role_check row = false →
     ApiKey_from_row row = Err (ColumnDecode "role" ("invalid input: unknown role: " +:+ s))) ∧
  (∀ row s, row !! "kind" = Some (SqlText s) → kind_check row = false →
     Entry_from_row row = Err (ColumnDecode "kind" ("invalid input: unknown kind: " +:+ s))).
Proof.
  split_and!; auto using projects_decode, api_keys_decode, admin_tokens_decode,
    blobs_decode, entries_decode.
  - intros row s Hs Hc. unfold ApiKey_from_row, column_decode. read.
    destruct (role_column _ _ Hs) as [[Hc' _]|[_ ->]]; [congruence|done].
  - intros row s Hs Hc. unfold Entry_from_row, column_decode. read.
    destruct (kind_column _ _ Hs) as [[Hc' _]|[_ ->]]; [congruence|done].
Qed.
End reads.
