(* ===== verification/Metrics.v ===== *)
(** * Prometheus collectors

    [crates/marmotte-server/src/metrics.rs]: the families of the default registry.  A
    family maps label values to a number (of observations, for the histogram); the
    text exposition is the prometheus crate's. *)
From stdpp Require Import base numbers list strings gmap.
From Stdlib Require Import ZArith Lia.
From S2P Require Import Prelude.

Definition Family : Type := gmap (list string) Z.

Record Metrics := mkMetrics {
  http_requests : Family;
  http_duration : Family;
  storage_bytes_by_project : Family;
  storage_bytes_global : Z;
  storage_blobs : Z;
  cache_hits : Family;
  cache_misses : Family;
  gc_runs : Family;
  gc_evicted_bytes : Family;
  gc_evicted_entries : Family
}.

(** [with_label_values(..).inc()] *)
Definition incr (k : list string) (m : Family) : Family := <[k := default 0 (m !! k) + 1]> m.

(** A family that only has its placeholder labels. *)
Definition warm (labels : nat) : Family := {[ replicate labels EmptyString := 0 ]}.

(** [init], on a registry that nothing has touched yet. *)
Definition metrics_init : Metrics :=
  mkMetrics (warm 3) (warm 1) (warm 1) 0 0 (warm 2) (warm 2) (warm 1) (warm 1) (warm 1).

Definition count_hit (kind project : string) (m : Metrics) : Metrics :=
  mkMetrics (http_requests m) (http_duration m) (storage_bytes_by_project m) (storage_bytes_global m)
    (storage_blobs m) (incr [kind; project] (cache_hits m)) (cache_misses m) (gc_runs m)
    (gc_evicted_bytes m) (gc_evicted_entries m).
Definition count_miss (kind project : string) (m : Metrics) : Metrics :=
  mkMetrics (http_requests m) (http_duration m) (storage_bytes_by_project m) (storage_bytes_global m)
    (storage_blobs m) (cache_hits m) (incr [kind; project] (cache_misses m)) (gc_runs m)
    (gc_evicted_bytes m) (gc_evicted_entries m).
Definition count_gc_run (dry_run : string) (m : Metrics) : Metrics :=
  mkMetrics (http_requests m) (http_duration m) (storage_bytes_by_project m) (storage_bytes_global m)
    (storage_blobs m) (cache_hits m) (cache_misses m) (incr [dry_run] (gc_runs m))
    (gc_evicted_bytes m) (gc_evicted_entries m).
