(* ===== verification/App.v ===== *)
(** * Application state and what every handler keeps

    [crates/marmotte-server/src/state.rs]: the state the handlers share, and how a
    handler calls the components.  [DbKeeps] and [Keeps] are the interface between
    the components and the handlers: a computation that keeps the invariant of
    the database, respectively of database and store.  Components provide
    instances for their operations, instances for the combinators lift them to
    whole handlers. *)
From stdpp Require Import base numbers list strings gmap relations pretty.
From Stdlib Require Import ZArith Lia.
From S2P Require Import Prelude Models Db Blobs Entries Projects Credentials Stats Storage Config Gc GcRun Orphans Auth Http Metrics.

(** Work handed to [tokio::spawn]: it runs some time after the handler. *)
Inductive Task :=
| TouchEntry (id : Z)
| SweepAfterPut.

Record App := mkApp {
  app_db : Tables;
  app_store : Fs;
  app_auth : AuthSvc;
  app_metrics : Metrics;
  app_tasks : list Task
}.

Definition app_sys (s : App) : Sys := (app_db s, app_store s).

Definition lens_db : Lens App Tables :=
  mkLens app_db (λ t s, mkApp t (app_store s) (app_auth s) (app_metrics s) (app_tasks s)).
Definition lens_store : Lens App Fs :=
  mkLens app_store (λ fs s, mkApp (app_db s) fs (app_auth s) (app_metrics s) (app_tasks s)).
Definition lens_sys : Lens App Sys :=
  mkLens app_sys (λ x s, mkApp x.1 x.2 (app_auth s) (app_metrics s) (app_tasks s)).
Definition lens_auth : Lens App AuthState :=
  mkLens (λ s, (app_db s, app_auth s))
    (λ x s, mkApp x.1 (app_store s) x.2 (app_metrics s) (app_tasks s)).

Definition spawn {E} (x : Task) : M E App unit :=
  modify (λ s, mkApp (app_db s) (app_store s) (app_auth s) (app_metrics s) (app_tasks s ++ [x])).
Definition with_metrics {E} (f : Metrics → Metrics) : M E App unit :=
  modify (λ s, mkApp (app_db s) (app_store s) (app_auth s) (f (app_metrics s)) (app_tasks s)).
Definition inc_hits {E} (kind project : string) : M E App unit := with_metrics (count_hit kind project).
Definition inc_misses {E} (kind project : string) : M E App unit := with_metrics (count_miss kind project).
Definition inc_gc_runs {E} (dry_run : string) : M E App unit := with_metrics (count_gc_run dry_run).

(** ** Keeping the database invariant *)

(** Every entry of [t'] was already there in [t], under its key and with its blob. *)
Definition needs_le (t' t : Tables) : Prop :=
  ∀ i e, entries t' !! i = Some e →
    ∃ e', entries t !! i = Some e' ∧ entry_key e' = entry_key e ∧ e_blob_hash e' = e_blob_hash e.

#[export] Instance needs_le_preorder : PreOrder needs_le.
Proof.
  split.
  - intros t i e Hi. eauto.
  - intros t1 t2 t3 H12 H23 i e Hi. destruct (H12 i e Hi) as (e' & Hi' & <- & <-). eauto.
Qed.

Lemma needs_le_subseteq t' t : entries t' ⊆ entries t → needs_le t' t.
Proof. intros Hsub i e Hi. exists e. split; [|done]. by eapply lookup_weaken. Qed.

(** A blob whose refcount is exact keeps an exact refcount. *)
Definition tight (t t' : Tables) : Prop := ∀ h, slack t h = 0 → slack t' h = 0.
#[export] Instance tight_preorder : PreOrder tight.
Proof. split; [by intros t h|]. intros t1 t2 t3 H12 H23 h Hh. by apply H23, H12. Qed.
Lemma tight_slack t t' : (∀ h, slack t' h = slack t h) → tight t t'.
Proof. intros Hs h. by rewrite Hs. Qed.

(** What an operation that only forgets does to the database. *)
Record gentle (t t' : Tables) : Prop := mkGentle {
  gentle_refs : refs_ok t';
  gentle_needs : needs_le t' t;
  gentle_tight : tight t t'
}.
Lemma gentle_refl t : refs_ok t → gentle t t.
Proof. by split. Qed.
#[export] Hint Resolve gentle_refl : marmotte.

Definition db_good (t : Tables) {A} (r : res CoreError A) (t' : Tables) : Prop :=
  gentle t t' ∧ no_stop r.

Class DbKeeps {A} (m : M CoreError Tables A) : Prop :=
  db_keeps : ∀ t, refs_ok t → wp m (db_good t) t.

(** The common case: the outcome of a repository call. *)
Lemma db_keeps_outcome {env : Env} {A} (m : M CoreError Tables A) (ok : Tables → A → Tables → Prop)
    (err : Tables → CoreError → Prop) :
  (∀ t, refs_ok t → wp m (outcome t (ok t) (err t)) t) →
  (∀ t a t', refs_ok t → ok t a t' → gentle t t') →
  DbKeeps m.
Proof.
  intros Hm Hok t Ht. eapply wp_mono; [by apply Hm|].
  intros [a|e|w] t' Ho; simpl in *; [|by destruct Ho as [_ ->]; split; [by apply gentle_refl|]|done].
  by split; [apply (Hok t a t' Ht Ho)|].
Qed.

(** Operations that leave entries and blobs alone. *)
Lemma gentle_same t t' :
  refs_ok t → schema_ok t' → entries t' = entries t → blobs t' = blobs t → gentle t t'.
Proof.
  intros [_ Hc Hh] Hok He Hb.
  assert (∀ h, slack t' h = slack t h) as Hs.
  { intros h. unfold slack. by rewrite (ref_entries_entries t), (refcount_of_blobs t). }
  split; [split; [done| |]| |by apply tight_slack].
  - intros h. rewrite Hs. apply Hc.
  - intros h b. rewrite Hb. apply Hh.
  - apply needs_le_subseteq. by rewrite He.
Qed.

Lemma hashes_ok_drop_entry t e : hashes_ok t → hashes_ok (drop_entry e t).
Proof.
  intros Hh h b. simpl. rewrite lookup_alter. case_decide; [subst|by apply Hh].
  destruct (blobs t !! _) as [b'|] eqn:Hb; [|done]. intros _. by eapply Hh.
Qed.

Lemma gentle_drop_entry t e : refs_ok t → entries t !! e_id e = Some e → gentle t (drop_entry e t).
Proof.
  intros [Hok Hc Hh] He. split; [split| |].
  - by apply schema_drop_entry.
  - intros h. rewrite slack_drop_entry by done. apply Hc.
  - by apply hashes_ok_drop_entry.
  - apply needs_le_subseteq. simpl. apply delete_subseteq.
  - apply tight_slack. intros h. by apply slack_drop_entry.
Qed.

Lemma gentle_update_entry t e e' :
  refs_ok t → entries t !! e_id e = Some e → e_id e' = e_id e →
  entry_key e' = entry_key e → e_blob_hash e' = e_blob_hash e →
  gentle t (update_entry (e_id e) e' t).
Proof.
  intros [Hok Hc Hh] He Hid Hkey Hhash. split; [split| |].
  - by apply schema_update_entry.
  - intros h. rewrite slack_update_entry by done. apply Hc.
  - exact Hh.
  - intros i x. unfold update_entry, set_entries. cbn [entries].
    intros [[<- <-]|[_ Hi]]%lookup_insert_Some; [by exists e|by exists x].
  - apply tight_slack. intros h. by apply slack_update_entry.
Qed.

(** Deleting a project forgets, but leaves references counted. *)
Lemma refs_ok_drop_project t id :
  refs_ok t → refs_ok (drop_project id t) ∧ needs_le (drop_project id t) t.
Proof.
  intros [Hok Hc Hh]. split; [split|].
  - by apply schema_drop_project.
  - intros h. rewrite slack_drop_project. specialize (Hc h).
    pose proof (count_map_nonneg (λ e, (e_project_id e =? id) && refers_to h e) (entries t)).
    unfold project_refs. lia.
  - exact Hh.
  - apply needs_le_subseteq. simpl. apply map_filter_subseteq.
Qed.

Lemma schema_entry_of t project_id id e :
  schema_ok t → entry_of t project_id id = Some e → entries t !! e_id e = Some e ∧ e_id e = id.
Proof.
  intros Hok [Hi _]%entry_of_Some. destruct (so_entries t Hok) as [_ Hid].
  by destruct (Hid _ _ Hi) as [-> _].
Qed.

Section db_instances.
Context {env : Env}.

Ltac by_spec spec := eapply db_keeps_outcome; [intros; by apply spec|]; simpl.
(** A query: nothing changes. *)
Ltac unchanged := intros; destruct_and?; simplify_eq; by apply gentle_refl.

#[export] Instance Projects_create_keeps name q l : DbKeeps (Projects_create name q l).
Proof.
  by_spec Projects_create_spec. intros t p t' Ht (id & now & _ & Hid & -> & Hn & ->).
  apply gentle_same; [done| |done..]. apply schema_create_project; [apply Ht|done..].
Qed.
#[export] Instance Projects_get_keeps id : DbKeeps (Projects_get id).
Proof. by_spec Projects_get_spec. unchanged. Qed.
#[export] Instance Projects_get_by_name_keeps name : DbKeeps (Projects_get_by_name name).
Proof. by_spec Projects_get_by_name_spec. unchanged. Qed.
#[export] Instance Projects_list_keeps : DbKeeps Projects_list.
Proof. by_spec Projects_list_spec. unchanged. Qed.
#[export] Instance Projects_update_keeps id n q l : DbKeeps (Projects_update id n q l).
Proof.
  intros t Ht. pose proof (ro_schema _ Ht) as Hok.
  assert (name_free t id n → gentle t (updated_tables t id n q l)) as Hup.
  { intros Hn. apply gentle_same; [done|by apply schema_updated_tables|done..]. }
  wp_use Projects_update_spec; [done|]. intros [p|e|w] t'; simpl; [| |done].
  - intros (-> & Hn & _). by split; [apply Hup|].
  - intros [[-> _]|(-> & Hn & _)]; (split; [|done]); [by apply gentle_refl|by apply Hup].
Qed.

#[export] Instance ApiKeys_create_keeps p a b r l : DbKeeps (ApiKeys_create p a b r l).
Proof.
  by_spec ApiKeys_create_spec. intros t k t' Ht (id & now & _ & Hid & -> & Hn & Hp & ->).
  apply gentle_same; [done| |done..]. apply schema_create_key; [apply Ht|done..].
Qed.
#[export] Instance ApiKeys_find_keeps p a : DbKeeps (ApiKeys_find_active_by_lookup p a).
Proof. by_spec ApiKeys_find_active_spec. unchanged. Qed.
#[export] Instance ApiKeys_list_keeps p : DbKeeps (ApiKeys_list p).
Proof.
  apply (db_keeps_outcome _ (λ t _ t', t' = t) (λ _ _, False)); [|unchanged].
  intros t _. unfold ApiKeys_list. by db_go.
Qed.
#[export] Instance ApiKeys_revoke_keeps p id : DbKeeps (ApiKeys_revoke p id).
Proof.
  by_spec ApiKeys_revoke_spec. intros t [] t' Ht (k & now & (Hk & _) & ->).
  apply gentle_same; [done| |done..]. apply schema_revoke_key; [apply Ht|done].
Qed.
#[export] Instance AdminTokens_create_keeps a b l : DbKeeps (AdminTokens_create a b l).
Proof.
  by_spec AdminTokens_create_spec. intros t k t' Ht (id & now & _ & Hid & -> & Hn & ->).
  apply gentle_same; [done| |done..]. apply schema_create_token; [apply Ht|done..].
Qed.
#[export] Instance AdminTokens_find_keeps a : DbKeeps (AdminTokens_find_active_by_lookup a).
Proof. by_spec AdminTokens_find_active_spec. unchanged. Qed.
#[export] Instance AdminTokens_list_keeps : DbKeeps AdminTokens_list.
Proof.
  apply (db_keeps_outcome _ (λ t _ t', t' = t) (λ _ _, False)); [|unchanged].
  intros t _. unfold AdminTokens_list. by db_go.
Qed.
#[export] Instance AdminTokens_revoke_keeps id : DbKeeps (AdminTokens_revoke id).
Proof.
  by_spec AdminTokens_revoke_spec. intros t [] t' Ht (k & now & Hk & _ & ->).
  apply gentle_same; [done| |done..]. apply schema_revoke_token; [apply Ht|done].
Qed.

#[export] Instance Stats_bump_keeps p k c b : DbKeeps (Stats_bump p k c b).
Proof.
  by_spec Stats_bump_spec. intros t [] t' Ht (now & _ & Hp & ->).
  apply gentle_same; [done| |done..]. apply schema_bumped; [apply Ht|done].
Qed.
#[export] Instance Stats_sum_keeps p k d : DbKeeps (Stats_sum p k d).
Proof. by_spec Stats_sum_spec. unchanged. Qed.
#[export] Instance Stats_audit_keeps a b c d : DbKeeps (Stats_audit a b c d).
Proof.
  by_spec Stats_audit_spec. intros t [] t' Ht (id & now & _ & _ & ->).
  apply gentle_same; [done| |done..]. apply schema_set_audit_log, Ht.
Qed.
#[export] Instance Stats_audit_since_keeps a b : DbKeeps (Stats_audit_since a b).
Proof.
  apply (db_keeps_outcome _ (λ t _ t', t' = t) (λ _ _, False)); [|unchanged].
  intros t _. unfold Stats_audit_since. by db_go.
Qed.

#[export] Instance Entries_find_keeps p k s : DbKeeps (Entries_find p k s).
Proof. by_spec Entries_find_spec. unchanged. Qed.
#[export] Instance Entries_project_usage_keeps p : DbKeeps (Entries_project_usage p).
Proof. by_spec Entries_project_usage_spec. unchanged. Qed.
#[export] Instance Entries_delete_keeps p id : DbKeeps (Entries_delete p id).
Proof.
  eapply db_keeps_outcome; [intros; apply Entries_delete_spec, ro_schema; done|].
  intros t [] t' Ht (e & He & ->). apply gentle_drop_entry; [done|].
  eapply schema_entry_of; [apply Ht|done].
Qed.
#[export] Instance Entries_set_pinned_keeps p id b : DbKeeps (Entries_set_pinned p id b).
Proof.
  by_spec Entries_set_pinned_spec. intros t [] t' Ht (e & He & ->).
  destruct (schema_entry_of t p id e (ro_schema _ Ht) He) as [Hi <-].
  by apply gentle_update_entry.
Qed.
#[export] Instance Entries_touch_keeps id : DbKeeps (Entries_touch id).
Proof.
  intros t Ht. wp_use Entries_touch_spec. intros r t' (-> & [->|(now & _ & ->)]); (split; [|done]);
    [by apply gentle_refl|].
  destruct (entries t !! id) as [e|] eqn:He.
  - rewrite (alter_as_insert _ _ _ e) by done.
    destruct (so_entries t (ro_schema _ Ht)) as [_ Hid]. destruct (Hid _ _ He) as [<- _].
    exact (gentle_update_entry t e (set_last_accessed now e) Ht He eq_refl eq_refl eq_refl).
  - rewrite alter_id by (intros ? Hx; congruence). destruct t. by apply gentle_refl.
Qed.
#[export] Instance Blobs_total_size_keeps : DbKeeps Blobs_total_size.
Proof. by_spec Blobs_total_size_spec. unchanged. Qed.
End db_instances.

(** ** Keeping the whole invariant *)

Record app_ok `{!Sha256} (s : App) : Prop := mkAppOk {
  ao_sys : sys_ok (app_sys s);
  ao_opened : opened (app_store s)
}.

Lemma app_ok_entry `{!Sha256} s i e :
  app_ok s → entries (app_db s) !! i = Some e →
  is_hash (e_blob_hash e) = true ∧
  ∃ c, blob_at (app_store s) (e_blob_hash e) = Some c ∧ sha256_hex c = e_blob_hash e.
Proof.
  intros [[[Hok Hc Hh] Hst Ha] _] Hi. simpl in *.
  destruct (so_entry_blob _ Hok _ _ Hi) as [b Hb]. split; [by eapply Hh|].
  destruct (Ha i e Hi) as [c Hcont]. exists c. split; [done|by eapply store_ok_blob].
Qed.

(** What a client can see of the state: the content under every key. *)
Abbreviation Key := (Z * Kind * string)%type.
Definition contents (s : App) (k : Key) : option bytes :=
  entry_at (app_db s) k.1.1 k.1.2 k.2 ≫= λ e, blob_at (app_store s) (e_blob_hash e).

(** Contents may go, but none appears and none changes (its digest, that is: what
    identifies content for this program). *)
Definition forgets `{!Sha256} (s s' : App) : Prop :=
  ∀ k v', contents s' k = Some v' → ∃ v, contents s k = Some v ∧ sha256_hex v = sha256_hex v'.
Definition anyhow (s s' : App) : Prop := True.

#[export] Instance forgets_preorder `{!Sha256} : PreOrder forgets.
Proof.
  split; [by intros s k v; eauto|]. intros s1 s2 s3 H12 H23 k v3 Hv3.
  destruct (H23 k v3 Hv3) as (v2 & Hv2 & <-). by apply H12.
Qed.

(** References are counted exactly, blob by blob, and stay so. *)
Definition keeps_exact (s s' : App) : Prop := tight (app_db s) (app_db s').
#[export] Instance keeps_exact_preorder : PreOrder keeps_exact.
Proof.
  split; [intros s; by unfold keeps_exact|]. intros s1 s2 s3 H12 H23. unfold keeps_exact in *.
  by etransitivity.
Qed.

(** No stored file goes. *)
Definition keeps_files (s s' : App) : Prop :=
  ∀ h, is_Some (blob_at (app_store s) h) → is_Some (blob_at (app_store s') h).
#[export] Instance keeps_files_preorder : PreOrder keeps_files.
Proof. split; [by intros s h|]. intros s1 s2 s3 H12 H23 h Hh. by apply H23, H12. Qed.
Lemma keeps_files_store s s' : app_store s' = app_store s → keeps_files s s'.
Proof. intros Hst h. by rewrite Hst. Qed.

(** A relation that allows for what most operations do: forget entries, and nothing
    worse ... *)
Class Steady `{!Sha256} (R : App → App → Prop) : Prop := {
  steady_preorder :: PreOrder R;
  steady s s' :
    app_ok s → app_ok s' → forgets s s' → keeps_exact s s' → keeps_files s s' → R s s'
}.
(** ... one that also allows for deleting files, as sweeps do ... *)
Class Sweeps `{!Sha256} (R : App → App → Prop) : Prop :=
  sweeps s s' : app_ok s → app_ok s' → forgets s s' → keeps_exact s s' → R s s'.
(** ... and one that puts up with references that stay counted. *)
Class Lossy `{!Sha256} (R : App → App → Prop) : Prop :=
  lossy s s' : app_ok s → app_ok s' → forgets s s' → keeps_files s s' → R s s'.

#[export] Instance forgets_steady `{!Sha256} : Steady forgets.
Proof. split; [apply _|done]. Qed.
#[export] Instance forgets_sweeps `{!Sha256} : Sweeps forgets.
Proof. by intros s s'. Qed.
#[export] Instance forgets_lossy `{!Sha256} : Lossy forgets.
Proof. by intros s s'. Qed.
#[export] Instance anyhow_steady `{!Sha256} : Steady anyhow.
Proof. split; [|done]. by split. Qed.
#[export] Instance anyhow_sweeps `{!Sha256} : Sweeps anyhow.
Proof. by intros s s'. Qed.
#[export] Instance anyhow_lossy `{!Sha256} : Lossy anyhow.
Proof. by intros s s'. Qed.
#[export] Instance keeps_exact_steady `{!Sha256} : Steady keeps_exact.
Proof. split; [apply _|done]. Qed.
#[export] Instance keeps_exact_sweeps `{!Sha256} : Sweeps keeps_exact.
Proof. by intros s s'. Qed.
#[export] Instance keeps_files_steady `{!Sha256} : Steady keeps_files.
Proof. split; [apply _|done]. Qed.
#[export] Instance keeps_files_lossy `{!Sha256} : Lossy keeps_files.
Proof. by intros s s'. Qed.

(** From a state in order, [m] ends in a state in order that [R] relates to it. *)
Class Does `{!Sha256} (R : App → App → Prop) {A} (m : M CoreError App A) : Prop :=
  does : ∀ s, app_ok s → wp m (λ r s', app_ok s' ∧ R s s' ∧ no_stop r) s.
Abbreviation Keeps := (Does anyhow).
Abbreviation Forgets := (Does forgets).

Lemma contents_Some `{!Sha256} s k v :
  app_ok s → contents s k = Some v ↔
  ∃ e, entries (app_db s) !! e_id e = Some e ∧ entry_key e = k ∧
       blob_at (app_store s) (e_blob_hash e) = Some v ∧ sha256_hex v = e_blob_hash e.
Proof.
  intros Hs. destruct k as [[p kind] path]. unfold contents. rewrite bind_Some. simpl.
  split; intros (e & He); exists e.
  - destruct He as [[Hi Hk]%entry_at_Some Hv]; [|apply Hs].
    split_and!; try done. eapply store_ok_blob; [apply Hs|done].
  - destruct He as (Hi & Hk & Hv & _). split; [|done]. by apply entry_at_Some; [apply Hs|].
Qed.

(** Between states in order, it is enough to look at the entries. *)
Lemma contents_le `{!Sha256} s s' :
  app_ok s → app_ok s' → needs_le (app_db s') (app_db s) → forgets s s'.
Proof.
  intros Hs Hs' Hn k v' (e' & Hi' & Hk & _ & Hsha')%contents_Some; [|done].
  destruct (Hn _ _ Hi') as (e & Hi & Hk' & Hh).
  destruct (app_ok_entry s _ e Hs Hi) as (_ & v & Hv & Hsha).
  exists v. split; [|congruence]. apply contents_Some; [done|]. exists e.
  destruct (so_entries _ (ro_schema _ (sys_refs _ (ao_sys _ Hs)))) as [_ Hid].
  destruct (Hid _ _ Hi) as [-> _]. split_and!; congruence.
Qed.

Lemma forgets_sys `{!Sha256} R `{!Steady R} s s' :
  app_ok s → app_sys s' = app_sys s → opened (app_store s') → app_ok s' ∧ R s s'.
Proof.
  intros Hs Hsys Ho. assert (app_ok s') as Hs' by (split; [by rewrite Hsys; apply Hs|done]).
  injection Hsys as Hd Hst. split; [done|].
  apply steady; [done..|by apply contents_le; [..|rewrite Hd]| |by apply keeps_files_store].
  unfold keeps_exact. by rewrite Hd.
Qed.

Section keeps.
Context {sha : Sha256} {R : App → App → Prop} {ev : Steady R}.

#[export] Instance ret_does {A} (a : A) : Does R (ret a).
Proof. intros s Hs. by apply wp_ret. Qed.
#[export] Instance throw_does {A} e : Does R (throw (A := A) e).
Proof. intros s Hs. by apply wp_throw. Qed.
#[export] Instance ok_or_does {A} e (o : option A) : Does R (ok_or e o).
Proof. intros s Hs. apply wp_ok_or. by destruct o. Qed.
#[export] Instance bind_does {A B} (m : M CoreError App A) (k : A → M CoreError App B) :
  Does R m → (∀ a, Does R (k a)) → Does R (bind m k).
Proof.
  intros Hm Hk s Hs. apply wp_bind. eapply wp_mono; [by apply Hm|].
  intros [a|e|w] s1 (Hs1 & HR & Hr); simpl; [|done|done].
  eapply wp_mono; [by apply Hk|]. intros r s2 (Hs2 & HR2 & Hr2). split_and!; [done| |done].
  by etransitivity.
Qed.
#[export] Instance attempt_does {A} (m : M CoreError App A) : Does R m → Does R (attempt m).
Proof.
  intros Hm s Hs. apply wp_attempt. eapply wp_mono; [by apply Hm|].
  by intros [a|e|w] s' (Hs' & HR & Hr).
Qed.
#[export] Instance map_err_does {A} f (m : M CoreError App A) : Does R m → Does R (map_err f m).
Proof.
  intros Hm s Hs. apply wp_map_err. eapply wp_mono; [by apply Hm|].
  by intros [a|e|w] s' (Hs' & HR & Hr).
Qed.

Lemma and_group (P Q T : Prop) : P ∧ Q → T → P ∧ Q ∧ T.
Proof. by intros [? ?] ?. Qed.

#[export] Instance gets_does {A} (f : App → A) : Does R (gets f).
Proof. intros s Hs. by apply wp_gets. Qed.

(** Counters, caches and the task queue are outside the invariant. *)
Lemma modify_does (f : App → App) : (∀ s, app_sys (f s) = app_sys s) → Does R (modify f).
Proof.
  intros Hf s Hs. apply wp_modify. cbv beta. apply and_group; [|done].
  apply (forgets_sys R); [done|done|]. injection (Hf s) as _ ->. apply Hs.
Qed.
#[export] Instance spawn_does x : Does R (spawn x).
Proof. by apply modify_does. Qed.
#[export] Instance inc_hits_does a b : Does R (inc_hits a b).
Proof. by apply modify_does. Qed.
#[export] Instance inc_misses_does a b : Does R (inc_misses a b).
Proof. by apply modify_does. Qed.
#[export] Instance inc_gc_runs_does a : Does R (inc_gc_runs a).
Proof. by apply modify_does. Qed.

Lemma app_ok_db s t' :
  app_ok s → refs_ok t' → needs_le t' (app_db s) →
  app_ok (mkApp t' (app_store s) (app_auth s) (app_metrics s) (app_tasks s)).
Proof.
  intros [[Hr Hst Ha] Ho] Ht Hn. split; [|done]. split; [done|done|].
  intros i e Hi. destruct (Hn i e Hi) as (e' & Hi' & _ & <-). by apply (Ha i e').
Qed.

(** Whatever keeps the database invariant keeps the whole one. *)
#[export] Instance db_call_does {A} (m : M CoreError Tables A) : DbKeeps m → Does R (zoom lens_db m).
Proof.
  intros Hm s Hs. apply wp_zoom. eapply wp_mono; [apply Hm; simpl; apply Hs|].
  intros r t' ([Ht Hn Hx] & Hr). pose proof (app_ok_db s t' Hs Ht Hn).
  split_and!; [done| |done].
  by apply steady; [..|apply contents_le| |apply keeps_files_store].
Qed.

#[export] Instance Projects_delete_does {env : Env} {lo : Lossy R} id :
  Does R (zoom lens_db (Projects_delete id)).
Proof.
  intros s Hs. apply wp_zoom. wp_use Projects_delete_spec.
  intros r t' Hr. apply and_group; [|by destruct r].
  assert (refs_ok t' ∧ needs_le t' (app_db s)) as [Ht Hn].
  { destruct r as [[]|e|w]; simpl in Hr; [|by destruct Hr as [_ ->]; split; [apply Hs|]|done].
    destruct Hr as [_ ->]. apply refs_ok_drop_project, Hs. }
  pose proof (app_ok_db s t' Hs Ht Hn). split; [done|].
  by apply lossy; [..|apply contents_le|apply keeps_files_store].
Qed.

Lemma app_ok_store s fs' :
  app_ok s → store_ok fs' → opened fs' →
  (∀ h, is_Some (blob_at (app_store s) h) → is_Some (blob_at fs' h)) →
  app_ok (mkApp (app_db s) fs' (app_auth s) (app_metrics s) (app_tasks s)).
Proof.
  intros [[Hr Hst Ha] Ho] Hst' Ho' Hsub. split; [|done]. split; [done|done|].
  intros i e Hi. by apply Hsub, (Ha i e).
Qed.

Lemma same_blobs_ok s fs' :
  app_ok s → store_ok fs' → same_blobs (app_store s) fs' →
  app_ok (mkApp (app_db s) fs' (app_auth s) (app_metrics s) (app_tasks s)).
Proof.
  intros Hs Hst Hsame. apply app_ok_store; [done|done| |].
  - destruct Hs as [_ [? ?]], Hsame as [_ Hd]. split; set_solver.
  - intros h Hh. by rewrite (same_blobs_at _ _ _ Hsame).
Qed.

Context {env : Env} {fsenv : FsEnv} {ar : Argon2} {aenv : AuthEnv} {mk : Moka}.

#[export] Instance read_blob_does h : is_hash h = true → Does R (zoom lens_store (LocalFsStore_read_blob h)).
Proof.
  intros Hh s Hs. apply wp_zoom. wp_use read_blob_outcome; [done|].
  intros r fs' [-> Hr]. apply and_group; [|by destruct r].
  apply (forgets_sys R); [done|done|apply Hs].
Qed.

Lemma auth_call_does {A} (m : M CoreError AuthState A) :
  (∀ t svc n r s' n', m (t, svc) n = (r, s', n') → s'.1 = t ∧ no_stop r) →
  Does R (zoom lens_auth m).
Proof.
  intros Hm s Hs. apply wp_zoom. intros n. simpl.
  destruct (m (app_db s, app_auth s) n) as [[r [t' svc']] n'] eqn:Hrun.
  apply Hm in Hrun as [Ht Hr]. simpl in *. subst t'. apply and_group; [|done].
  apply (forgets_sys R); [done|done|apply Hs].
Qed.
#[export] Instance auth_project_does a b : Does R (zoom lens_auth (authenticate_project a b)).
Proof.
  apply auth_call_does. intros t svc n r s' n' (Ht & _ & _ & Hr)%authenticate_project_run.
  split; [done|by destruct r].
Qed.
#[export] Instance auth_admin_does a : Does R (zoom lens_auth (authenticate_admin a)).
Proof.
  apply auth_call_does. intros t svc n r s' n' (Ht & _ & _ & Hr)%authenticate_admin_run.
  split; [done|by destruct r].
Qed.
#[export] Instance generate_secret_does : Does R generate_secret.
Proof. intros s Hs n. done. Qed.
#[export] Instance hash_argon2_does x : Does R (hash_argon2 x).
Proof.
  intros s Hs n. unfold hash_argon2, bind, rand_fill. simpl.
  by destruct (argon2_hash x _).
Qed.

Lemma app_ok_sys {sw : Sweeps R} s s' :
  app_ok s → sys_ok s' → fs_dirs s'.2 = fs_dirs (app_store s) → needs_le s'.1 (app_db s) →
  tight (app_db s) s'.1 →
  app_ok (mkApp s'.1 s'.2 (app_auth s) (app_metrics s) (app_tasks s)) ∧
  R s (mkApp s'.1 s'.2 (app_auth s) (app_metrics s) (app_tasks s)).
Proof.
  intros Hs Hs' Hd Hn Hx.
  assert (app_ok (mkApp s'.1 s'.2 (app_auth s) (app_metrics s) (app_tasks s))) as Hs1.
  { split; [by destruct s'|]. destruct Hs as [_ Ho]. unfold opened in *. simpl. by rewrite Hd. }
  split; [done|]. by apply sweeps; [..|apply contents_le|].
Qed.

#[export] Instance gc_dry_does cfg : Does R (zoom lens_sys (GcSvc_run cfg true)).
Proof.
  intros s Hs. apply wp_zoom. simpl. intros n.
  pose proof (GcSvc_run_dry_spec cfg (app_sys s) (ro_schema _ (sys_refs _ (ao_sys _ Hs))) n) as H.
  destruct (GcSvc_run cfg true (app_sys s) n) as [[r s'] n'] eqn:Hrun. simpl in *.
  destruct H as [-> Hr]. apply and_group; [|done]. apply (forgets_sys R); [done|done|apply Hs].
Qed.
#[export] Instance gc_run_does {sw : Sweeps R} cfg dry_run : Does R (zoom lens_sys (GcSvc_run cfg dry_run)).
Proof.
  destruct dry_run; [apply _|]. intros s Hs. apply wp_zoom. simpl.
  wp_use GcSvc_run_spec; [apply Hs|]. intros r s' (l & t1 & Hev & Hfree & Hr).
  apply and_group; [|by destruct r]. apply app_ok_sys; [done| | | |].
  - eapply free_steps_ok; [done|]. eapply sys_ok_evicts; [done|]. apply Hs.
  - by rewrite (free_steps_dirs _ _ Hfree).
  - apply needs_le_subseteq. destruct (free_steps_frame _ _ Hfree) as [-> _].
    by eapply evicts_subseteq.
  - apply tight_slack. intros h. rewrite (free_steps_slack _ _ h Hfree). simpl.
    eapply evicts_slack; [done|]. apply Hs.
Qed.

#[export] Instance orphan_dry_does : Does R (zoom lens_sys (GcSvc_orphan_scan true)).
Proof.
  intros s Hs. apply wp_zoom. simpl. wp_use orphan_scan_dry_spec; [apply Hs|apply Hs|]. intros r s' [-> Hr].
  apply and_group; [|by destruct r]. apply (forgets_sys R); [done|done|apply Hs].
Qed.
#[export] Instance orphan_scan_does {sw : Sweeps R} dry_run :
  Does R (zoom lens_sys (GcSvc_orphan_scan dry_run)).
Proof.
  destruct dry_run; [apply _|]. intros s Hs. apply wp_zoom. simpl.
  wp_use orphan_scan_spec; [apply Hs|apply Hs|apply Hs|]. intros r s' [Hst Hr].
  apply and_group; [|by destruct r]. apply app_ok_sys; [done| | | |].
  - eapply orphan_steps_ok; [done|]. apply Hs.
  - by rewrite (orphan_steps_dirs _ _ Hst).
  - apply needs_le_subseteq. exact (orphan_steps_entries _ _ Hst).
  - intros h. exact (orphan_steps_exact _ _ h Hst).
Qed.
End keeps.

(** [does_go] proves that a handler does no more than [R] from the instances of
    the calls it makes. *)
Ltac does_go :=
  repeat first
    [ apply _
    | apply bind_does; [|intros ?]
    | apply attempt_does
    | case_match ].
