(* ===== verification/Yocto.v ===== *)
(** * Cache routes

    [crates/marmotte-server/src/routes/yocto.rs] and the project middleware in
    front of it: reading and writing cache entries over HTTP.  Path segments and
    bodies arrive decoded from the router; a body is the sequence of its chunks,
    any of which may be an error (client gone, or over the upload limit). *)
From stdpp Require Import base numbers list strings gmap relations pretty.
From Stdlib Require Import ZArith Lia.
From S2P Require Import Prelude Models Db Blobs Entries Projects Credentials Stats Storage Config Gc GcRun Orphans Auth Http Metrics App.

Section yocto.
Context {env : Env} {fsenv : FsEnv} {sha : Sha256} {ar : Argon2} {aenv : AuthEnv} {mk : Moka}
  {b64 : Base64}.
Variable config : Config.

Definition root : string := storage_root (server config).

Definition ensure_project (auth : ProjectAuth) (url_project : string) : M CoreError App unit :=
  if String.eqb (pa_project_name auth) url_project then ret tt
  else throw (Forbidden "url project does not match credential").

Definition cache_control : string := "public, immutable, max-age=31536000".

Definition get_one (auth : ProjectAuth) (kind : Kind) (project_in_url path : string) (head_only : bool)
    : M CoreError App Response :=
  ensure_project auth project_in_url ;*
  (if negb (Role_allows_read (pa_role auth)) then throw (Forbidden "read") else ret tt) ;*
  let* found := zoom lens_db (Entries_find (pa_project_id auth) kind path) in
  let* entry := ok_or (NotFound (Kind_as_str kind +:+ " " +:+ path)) found in
  let* length := header_from_str (pretty (e_size_bytes entry)) in
  let* etag := header_from_str (quoted (e_blob_hash entry)) in
  let headers := [("content-length", length); ("etag", etag); ("cache-control", cache_control)]%string in
  if head_only then ret (mkResponse OK_200 headers BodyEmpty)
  else
    let* file := zoom lens_store (LocalFsStore_read_blob (e_blob_hash entry)) in
    spawn (TouchEntry (e_id entry)) ;*
    inc_hits (Kind_as_str kind) (pa_project_name auth) ;*
    ret (mkResponse OK_200 headers (BodyStream file)).

Definition miss_response (auth : ProjectAuth) (kind : Kind) : M CoreError App Response :=
  inc_misses (Kind_as_str kind) (pa_project_name auth) ;*
  ret (mkResponse NOT_FOUND [] (BodyText (line "not_found"))).

(** [match get_one(..).await { .. }], the body of the four GET and HEAD handlers. *)
Definition get_handler (auth : ProjectAuth) (kind : Kind) (project path : string) (head_only : bool)
    : M CoreError App Response :=
  let* r := attempt (get_one auth kind project path head_only) in
  match r with
  | inr resp => ret resp
  | inl (NotFound _) => miss_response auth kind
  | inl e => ret (ApiError_into_response e)
  end.

Definition get_sstate (auth : ProjectAuth) (project path : string) := get_handler auth Sstate project path false.
Definition head_sstate (auth : ProjectAuth) (project path : string) := get_handler auth Sstate project path true.
Definition get_downloads (auth : ProjectAuth) (project filename : string) :=
  get_handler auth Downloads project filename false.
Definition head_downloads (auth : ProjectAuth) (project filename : string) :=
  get_handler auth Downloads project filename true.

(** [global_quota_bytes * u64::from(trigger_threshold_pct) / 100] *)
Definition gc_threshold (c : GcConfig) : Z :=
  wrap_u64 (global_quota_bytes c * trigger_threshold_pct c) / 100.

(** [u64::try_from(total).unwrap_or(0)] *)
Definition u64_or_zero (total : Z) : Z := if 0 <=? total then total else 0.

Definition do_put (auth : ProjectAuth) (kind : Kind) (project_in_url path : string)
    (body : list (IoError + bytes)) : M CoreError App Response :=
  ensure_project auth project_in_url ;*
  (if negb (Role_allows_write (pa_role auth)) then throw (Forbidden "write") else ret tt) ;*
  let* written := zoom lens_store (LocalFsStore_write_streamed root body) in
  let* _ := zoom lens_db
    (Entries_upsert (pa_project_id auth) kind path (w_hash written) (w_size_bytes written)) in
  zoom lens_db (Stats_bump (Some (pa_project_id auth)) "put" 1 (w_size_bytes written)) ;*
  let threshold := gc_threshold (gc config) in
  let* total := zoom lens_db Blobs_total_size in
  let usage := u64_or_zero total in
  (if threshold <? usage then spawn SweepAfterPut else ret tt) ;*
  let* etag := header_from_str (quoted (w_hash written)) in
  ret (mkResponse CREATED [("etag"%string, etag)] BodyEmpty).

Definition put_handler (auth : ProjectAuth) (kind : Kind) (project path : string)
    (body : list (IoError + bytes)) : M CoreError App Response :=
  let* r := attempt (do_put auth kind project path body) in
  match r with
  | inr resp => ret resp
  | inl e => ret (ApiError_into_response e)
  end.
Definition put_sstate (auth : ProjectAuth) (project path : string) (body : list (IoError + bytes)) :=
  put_handler auth Sstate project path body.
Definition put_downloads (auth : ProjectAuth) (project filename : string) (body : list (IoError + bytes)) :=
  put_handler auth Downloads project filename body.

(** The routes behind the project middleware. *)
Inductive YoctoRequest :=
| GetEntry (kind : Kind) (project path : string)
| HeadEntry (kind : Kind) (project path : string)
| PutEntry (kind : Kind) (project path : string) (body : list (IoError + bytes)).

Definition yocto_handler (auth : ProjectAuth) (req : YoctoRequest) : M CoreError App Response :=
  match req with
  | GetEntry Sstate project path => get_sstate auth project path
  | GetEntry Downloads project filename => get_downloads auth project filename
  | HeadEntry Sstate project path => head_sstate auth project path
  | HeadEntry Downloads project filename => head_downloads auth project filename
  | PutEntry Sstate project path body => put_sstate auth project path body
  | PutEntry Downloads project filename body => put_downloads auth project filename body
  end.

(** [auth_project::middleware] *)
Definition auth_project_middleware (headers : Headers) (next : ProjectAuth → M CoreError App Response)
    : M CoreError App Response :=
  match parse_basic headers with
  | None => ret unauthorized_basic
  | Some creds =>
      let* r := attempt (zoom lens_auth (authenticate_project (user creds) (pass creds))) in
      match r with
      | inr auth => next auth
      | inl Unauthorized => ret unauthorized_basic
      | inl e => ret (ApiError_into_response e)
      end
  end.

Definition yocto_route (headers : Headers) (req : YoctoRequest) : M CoreError App Response :=
  auth_project_middleware headers (λ auth, yocto_handler auth req).
End yocto.

(** ** Header values are always printable *)

Lemma forall_chars_impl (p q : Ascii.ascii → bool) s :
  (∀ a, p a = true → q a = true) → forall_chars p s = true → forall_chars q s = true.
Proof.
  intros Hpq. induction s as [|a s IH]; simpl; [done|].
  intros [Ha Hs]%andb_prop. by rewrite Hpq, IH.
Qed.

Lemma hex_visible a : is_hex_lower a = true → is_visible_ascii a = true.
Proof.
  unfold is_hex_lower, is_visible_ascii. intros [H|H]%orb_prop;
    apply andb_prop in H as [H1%Nat.leb_le H2%Nat.leb_le]; apply orb_true_iff; left;
    apply andb_true_iff; split; [apply Nat.leb_le|apply Nat.ltb_lt|apply Nat.leb_le|apply Nat.ltb_lt]; lia.
Qed.

Lemma etag_visible h : is_hash h = true → forall_chars is_visible_ascii (quoted h) = true.
Proof.
  intros [_ Hh]%andb_prop. unfold quoted. simpl. rewrite forall_chars_app. simpl.
  rewrite andb_true_r. eapply forall_chars_impl; [apply hex_visible|done].
Qed.

Lemma pretty_N_char_visible x : is_visible_ascii (pretty_N_char x) = true.
Proof. unfold pretty_N_char. by repeat case_match. Qed.

Lemma pretty_N_go_visible x s :
  forall_chars is_visible_ascii s = true → forall_chars is_visible_ascii (pretty_N_go x s) = true.
Proof.
  revert s. induction (N.lt_wf_0 x) as [x _ IH]. intros s Hs.
  destruct (decide (x = 0%N)) as [->|Hx]; [by rewrite pretty_N_go_0|].
  rewrite pretty_N_go_step by lia. apply IH; [apply N.div_lt; lia|].
  simpl. by rewrite pretty_N_char_visible.
Qed.

Lemma pretty_Z_visible (z : Z) : forall_chars is_visible_ascii (pretty z) = true.
Proof.
  assert (∀ x : N, forall_chars is_visible_ascii (pretty x) = true) as HN.
  { intros x. unfold pretty, pretty_N. case_decide; [done|]. by apply pretty_N_go_visible. }
  destruct z as [|p|p]; [done|apply (HN (N.pos p))|].
  change (pretty (Z.neg p)) with ("-" +:+ pretty (N.pos p)).
  rewrite forall_chars_app. simpl. apply HN.
Qed.

Lemma wp_header_from_str {E S} s (Q : res E string → S → Prop) (x : S) :
  forall_chars is_visible_ascii s = true → Q (Ok s) x → wp (header_from_str s) Q x.
Proof. intros Hs HQ. unfold header_from_str. rewrite Hs. by apply wp_ret. Qed.

(** ** Reading *)

Section reading.
Context {env : Env} {fsenv : FsEnv} {sha : Sha256} {ar : Argon2} {aenv : AuthEnv} {mk : Moka}
  {b64 : Base64}.

(** A served entry: its headers, and its content unless only those were asked for. *)
Definition entry_response (s : App) (e : Entry) (head_only : bool) (resp : Response) : Prop :=
  resp_status resp = OK_200 ∧
  resp_headers resp = [("content-length", pretty (e_size_bytes e));
    ("etag", quoted (e_blob_hash e)); ("cache-control", cache_control)]%string ∧
  if head_only then resp_body resp = BodyEmpty
  else ∃ c, resp_body resp = BodyStream c ∧ blob_at (app_store s) (e_blob_hash e) = Some c ∧
            sha256_hex c = e_blob_hash e.

Definition get_one_err (s : App) (auth : ProjectAuth) (kind : Kind) (url path : string) (e : CoreError) : Prop :=
  (e = Forbidden "url project does not match credential" ∧ pa_project_name auth ≠ url) ∨
  db_fault e ∨ (∃ x, fs_faulty x) ∨
  (e = NotFound (Kind_as_str kind +:+ " " +:+ path) ∧ pa_project_name auth = url ∧
   entry_at (app_db s) (pa_project_id auth) kind path = None).

Lemma get_one_spec auth kind url path head_only s :
  app_ok s →
  wp (get_one auth kind url path head_only) (λ r s', app_sys s' = app_sys s ∧ app_auth s' = app_auth s ∧
    match r with
    | Ok resp => ∃ e, entry_at (app_db s) (pa_project_id auth) kind path = Some e ∧
        pa_project_name auth = url ∧ entry_response s e head_only resp ∧
        app_tasks s' = app_tasks s ++ (if head_only then [] else [TouchEntry (e_id e)])
    | Err e => get_one_err s auth kind url path e ∧ app_tasks s' = app_tasks s
    | Stop _ => False
    end) s.
Proof.
  intros Hs. unfold get_one, ensure_project, get_one_err. wp_go.
  destruct (String.eqb_spec (pa_project_name auth) url) as [Hurl|Hurl]; wp_go; [|by split_and!; auto].
  assert (Role_allows_read (pa_role auth) = true) as -> by (by destruct (pa_role auth)).
  simpl. wp_go. wp_use Entries_find_spec. intros [found|x|w] u Hu; simpl; [| |done].
  2: { destruct Hu as [[Hx|[]] ->]. destruct s; simpl; split_and!; auto. }
  destruct Hu as [-> ->]. wp_go.
  destruct (entry_at _ _ _ _) as [e|] eqn:He; [|destruct s; simpl; split_and!; auto 8].
  pose proof He as [Hi _]%entry_at_Some; [|apply (ro_schema _ (sys_refs _ (ao_sys _ Hs)))].
  destruct (app_ok_entry s _ e Hs Hi) as (Hh & c & Hc & Hsha).
  wp_go. apply wp_header_from_str; [apply pretty_Z_visible|]. wp_go.
  apply wp_header_from_str; [by apply etag_visible|]. wp_go.
  destruct head_only; wp_go.
  { destruct s; simpl in *. split_and!; try done. exists e.
    split_and!; try done. by rewrite app_nil_r. }
  wp_use read_blob_outcome; [done|]. intros [c'|x|w] fs' [-> Hr]; simpl in *; [| |done].
  - unfold spawn, inc_hits, with_metrics. wp_go. split_and!; try done.
    exists e. split_and!; try done. split_and!; try done. exists c'.
    split_and!; try done. congruence.
  - destruct s; simpl in *. split_and!; try done.
    destruct Hr as [Hx|[_ Hn]]; [by auto 6|congruence].
Qed.

#[export] Instance get_one_does R `{!Steady R} auth kind url path head_only :
  Does R (get_one auth kind url path head_only).
Proof.
  intros s Hs. wp_use get_one_spec; [done|]. intros r s' (Hsys & Hauth & Hr).
  apply and_group; [|by destruct r]. apply (forgets_sys R); [done|done|].
  injection Hsys as _ ->. apply Hs.
Qed.

#[export] Instance get_handler_does R `{!Steady R} auth kind url path head_only :
  Does R (get_handler auth kind url path head_only).
Proof. unfold get_handler, miss_response. does_go. Qed.
End reading.

(** ** Writing *)

Section writing.
Context {env : Env} {fsenv : FsEnv} {sha : Sha256} {ar : Argon2} {aenv : AuthEnv} {mk : Moka}
  {b64 : Base64}.
Variable config : Config.

(** Registering a blob that is on disk. *)
Lemma refs_ok_upserted t id project_id kind path hash size now_blob now :
  refs_ok t → is_hash hash = true →
  (entry_at t project_id kind path = None →
     seq_entries t < id <= i64_max ∧ is_Some (projects t !! project_id)) →
  refs_ok (upserted t id project_id kind path hash size now_blob now).
Proof.
  intros [Hok Hc Hh] Hhash Hnew. split.
  - by apply schema_upserted.
  - intros h. rewrite slack_upserted; [apply Hc|done|]. intros Hn. by apply Hnew.
  - intros h b Hb. destruct (decide (h = hash)) as [->|Hne]; [done|].
    assert (is_Some (blobs t !! h)) as [b' Hb']; [|by eapply Hh].
    revert Hb. unfold upserted, set_entries. cbn [blobs]. unfold upserted_blobs, incr_blob, decr_blob, set_blobs.
    repeat case_match; cbn [blobs]; rewrite ?lookup_insert_ne by done; rewrite ?lookup_alter;
      repeat case_decide; intros Hb; eauto; subst; by destruct (blobs t !! _).
Qed.

Lemma upserted_entries t id project_id kind path hash size now_blob now i e :
  entries (upserted t id project_id kind path hash size now_blob now) !! i = Some e →
  e_blob_hash e = hash ∨ entries t !! i = Some e.
Proof.
  unfold upserted. cbn [entries set_entries].
  pose proof (upserted_blobs_rest t project_id kind path hash size now_blob) as (He & _).
  pose proof (upserted_row_key t id project_id kind path hash size now) as [_ Hh].
  intros [[_ <-]|[_ Hi]]%lookup_insert_Some; [by left|by right].
Qed.

(** What a PUT leaves behind when it got as far as registering the blob. *)
Definition stored (s : App) (auth : ProjectAuth) (kind : Kind) (path : string)
    (content : bytes) (w : Written) (s' : App) : Prop :=
  write_done content (app_store s) w (app_store s') ∧
  ∃ e t1, upsert_ok (app_db s) (pa_project_id auth) kind path (w_hash w) (w_size_bytes w) e t1 ∧
    entries (app_db s') = entries t1 ∧ blobs (app_db s') = blobs t1.

Definition put_done (s : App) (auth : ProjectAuth) (kind : Kind) (url path : string)
    (body : list (IoError + bytes)) (w : Written) (s' : App) : Prop :=
  app_ok s' ∧ pa_project_name auth = url ∧ pa_role auth = Write ∧
  ∃ chunks, body = body_of chunks ∧ stored s auth kind path (concat chunks) w s'.

Lemma write_done_files content s w s' :
  write_done content (app_store s) w (app_store s') → keeps_files s s'.
Proof.
  intros (_ & _ & _ & (c & Hc & _) & Hoth & _) h Hh.
  destruct (decide (h = w_hash w)) as [->|Hne]; [by exists c|by rewrite Hoth].
Qed.

Lemma write_done_keeps content s w fs' :
  app_ok s → write_done content (app_store s) w fs' →
  app_ok (mkApp (app_db s) fs' (app_auth s) (app_metrics s) (app_tasks s)) ∧
  is_hash (w_hash w) = true ∧ is_Some (blob_at fs' (w_hash w)).
Proof.
  intros Hs Hd. pose proof Hd as (Hw & _ & Hst & (c & Hc & _) & _ & Hdirs).
  split_and!; [|rewrite Hw; apply sha256_hex_is_hash|by exists c].
  apply app_ok_store; [done|done|destruct Hs as [_ [? ?]]; split; set_solver|].
  by apply (write_done_files _ s w (mkApp (app_db s) fs' (app_auth s) (app_metrics s) (app_tasks s))) in Hd.
Qed.

Lemma upsert_keeps s project_id kind path hash size e t' :
  app_ok s → is_hash hash = true → is_Some (blob_at (app_store s) hash) →
  upsert_ok (app_db s) project_id kind path hash size e t' →
  app_ok (mkApp t' (app_store s) (app_auth s) (app_metrics s) (app_tasks s)).
Proof.
  intros [[Hr Hst Ha] Ho] Hh Hb (id & now_blob & now & -> & _ & _ & Hnew).
  split; [|done]. split; [by apply refs_ok_upserted|done|].
  intros i x [->|Hi]%upserted_entries; [done|by apply (Ha i x)].
Qed.

Definition put_denied (auth : ProjectAuth) (url : string) (e : CoreError) : Prop :=
  (e = Forbidden "url project does not match credential" ∧ pa_project_name auth ≠ url) ∨
  (e = Forbidden "write" ∧ pa_role auth = Read).

(** The statements behind the upsert leave entries and blobs alone. *)
Lemma put_done_db {A} (m : M CoreError Tables A) s auth kind url path body w s1 :
  (∀ t, refs_ok t → wp m (λ r t', refs_ok t' ∧ entries t' = entries t ∧ blobs t' = blobs t ∧ no_stop r) t) →
  put_done s auth kind url path body w s1 →
  wp (zoom lens_db m) (λ r s', put_done s auth kind url path body w s' ∧ no_stop r) s1.
Proof.
  intros Hm (Hs1 & Hurl & Hrole & chunks & Hbody & Hw & e & t1 & Hup & He & Hb).
  apply wp_zoom. eapply wp_mono; [apply Hm; apply Hs1|]. simpl. intros r t' (Ht & He' & Hb' & Hr).
  split; [|done]. split_and!; try done.
  - apply app_ok_db; [done..|]. apply needs_le_subseteq. by rewrite He'.
  - exists chunks. split; [done|]. split; [done|]. exists e, t1. simpl. split_and!; congruence.
Qed.

Lemma put_bump s auth kind url path body w s1 bytes :
  put_done s auth kind url path body w s1 →
  wp (zoom lens_db (Stats_bump (Some (pa_project_id auth)) "put" 1 bytes))
    (λ r s', put_done s auth kind url path body w s' ∧ no_stop r) s1.
Proof.
  apply put_done_db. intros t Ht. wp_use Stats_bump_spec. intros [[]|x|st] t'; simpl; [| |done].
  - intros (now & _ & Hp & ->). split_and!; try done.
    eapply gentle_refs, gentle_same; [done| |done..]. apply schema_bumped; [apply Ht|done].
  - by intros [_ ->].
Qed.

Lemma put_total s auth kind url path body w s1 :
  put_done s auth kind url path body w s1 →
  wp (zoom lens_db Blobs_total_size) (λ r s', put_done s auth kind url path body w s' ∧ no_stop r) s1.
Proof.
  apply put_done_db. intros t Ht. wp_use Blobs_total_size_spec. intros [v|x|st] t'; simpl; [| |done].
  - by intros [-> ->].
  - by intros [_ ->].
Qed.

Definition put_post (s : App) (auth : ProjectAuth) (kind : Kind) (url path : string)
    (body : list (IoError + bytes)) (r : res CoreError Response) (s' : App) : Prop :=
  match r with
  | Ok resp => ∃ w, put_done s auth kind url path body w s' ∧
      resp = mkResponse CREATED [("etag"%string, quoted (w_hash w))] BodyEmpty
  | Err e => (put_denied auth url e ∧ s' = s) ∨
      (app_ok s' ∧ keeps_files s s' ∧
       entries (app_db s') = entries (app_db s) ∧ blobs (app_db s') = blobs (app_db s)) ∨
      ∃ w, put_done s auth kind url path body w s'
  | Stop _ => False
  end.

(** The answer, once the sweep is triggered or not. *)
Lemma put_answer s auth kind url path body w s1 (sweep : bool) :
  put_done s auth kind url path body w s1 →
  wp ((if sweep then spawn SweepAfterPut else ret tt) ;*
      let* etag := header_from_str (quoted (w_hash w)) in
      ret (mkResponse CREATED [("etag"%string, etag)] BodyEmpty))
    (put_post s auth kind url path body) s1.
Proof.
  intros Hd. assert (is_hash (w_hash w) = true) as Hh.
  { destruct Hd as (_ & _ & _ & chunks & _ & (-> & _) & _). apply sha256_hex_is_hash. }
  assert (∃ s2, put_done s auth kind url path body w s2 ∧
    wp (E := CoreError) (if sweep then spawn SweepAfterPut else ret tt) (λ r s', r = Ok tt ∧ s' = s2) s1)
    as (s2 & Hd2 & Hsweep).
  { destruct sweep; eexists; (split; [|first [apply wp_modify|apply wp_ret]; by split]); [|exact Hd].
    destruct Hd as ([Hok Ho] & Hrest). split; [by split|exact Hrest]. }
  apply wp_bind. eapply wp_mono; [exact Hsweep|]. intros r s' [-> ->]. simpl. wp_go.
  apply wp_header_from_str; [by apply etag_visible|]. wp_go. by exists w.
Qed.

(** A PUT either is refused and changes nothing, or fails before the entry is
    touched, or has stored the content. *)
Lemma do_put_spec auth kind url path body s :
  app_ok s → wp (do_put config auth kind url path body) (put_post s auth kind url path body) s.
Proof.
  intros Hs. unfold do_put, ensure_project. wp_go.
  destruct (String.eqb_spec (pa_project_name auth) url) as [Hurl|Hurl]; wp_go;
    [|left; split; [by left|done]].
  destruct (pa_role auth) eqn:Hrole; simpl; wp_go; [left; split; [by right|done]|].
  wp_use write_streamed_outcome; [apply Hs|]. intros [w|x|st] fs' Hw; simpl; [| |done].
  2: { destruct Hw as (_ & Hst & Hsame). right; left. split; [by apply same_blobs_ok|].
       split; [|done]. intros h. simpl. by rewrite (same_blobs_at _ _ h Hsame). }
  destruct Hw as (chunks & -> & Hw).
  destruct (write_done_keeps _ _ _ _ Hs Hw) as (Hs1 & Hh & Hb). wp_go.
  wp_use Entries_upsert_spec; [simpl; apply Hs|]. intros [e|x|st] t1 Hup; simpl; [| |done].
  2: { destruct Hup as [_ ->]. right; left. split_and!; try done. by eapply write_done_files. }
  simpl in Hup. assert (put_done s auth kind url path (body_of chunks) w
    (mkApp t1 fs' (app_auth s) (app_metrics s) (app_tasks s))) as Hd.
  { split_and!; [|done..|exists chunks; split; [done|split; [done|by exists e, t1]]].
    exact (upsert_keeps _ _ _ _ _ _ _ _ Hs1 Hh Hb Hup). }
  apply wp_bind. eapply wp_mono; [by apply put_bump|]. intros [[]|x|st] s2 [Hd2 Hr]; simpl; [|by eauto|done].
  apply wp_bind. eapply wp_mono; [by apply put_total|]. intros [total|x|st] s3 [Hd3 Hr']; simpl; [|by eauto|done].
  by apply put_answer.
Qed.

Lemma put_post_ok s auth kind url path body r s' :
  app_ok s → put_post s auth kind url path body r s' → app_ok s' ∧ no_stop r.
Proof.
  intros Hs. destruct r as [resp|e|w]; simpl; [| |done].
  - by intros (w & [? _] & _).
  - by intros [[_ ->]|[[? _]|(w & ? & _)]].
Qed.

#[export] Instance do_put_keeps auth kind url path body : Keeps (do_put config auth kind url path body).
Proof.
  intros s Hs. wp_use do_put_spec; [done|]. intros r s' Hpost.
  by destruct (put_post_ok _ _ _ _ _ _ _ _ Hs Hpost).
Qed.

#[export] Instance put_handler_keeps auth kind url path body :
  Keeps (put_handler config auth kind url path body).
Proof. unfold put_handler. does_go. Qed.

#[export] Instance yocto_handler_keeps auth req : Keeps (yocto_handler config auth req).
Proof. destruct req as [[]|[]|[]]; simpl; apply _. Qed.

#[export] Instance yocto_route_keeps headers req : Keeps (yocto_route config headers req).
Proof. unfold yocto_route, auth_project_middleware. does_go. Qed.
End writing.

(** ** What the handlers answer *)

Section theorems.
Context {env : Env} {fsenv : FsEnv} {sha : Sha256} {ar : Argon2} {aenv : AuthEnv} {mk : Moka}
  {b64 : Base64}.

Lemma get_handler_spec auth kind url path head_only s :
  app_ok s →
  wp (get_handler auth kind url path head_only) (λ r s', ∃ resp, r = Ok resp ∧
    app_sys s' = app_sys s ∧ app_auth s' = app_auth s ∧
    (resp_status resp = OK_200 → pa_project_name auth = url ∧
       ∃ e, entry_at (app_db s) (pa_project_id auth) kind path = Some e ∧
            entry_response s e head_only resp)) s.
Proof.
  intros Hs. unfold get_handler. wp_go. wp_use get_one_spec; [done|].
  intros [resp|x|w] s1 (Hsys & Hauth & Hr); simpl; [| |done].
  - destruct Hr as (e & He & Hurl & Hresp & _). wp_go. exists resp. by eauto 8.
  - unfold miss_response, inc_misses, with_metrics.
    destruct x; wp_go; eexists; (split; [done|]); split_and!; try done;
      intros Hst; exfalso; revert Hst; simpl; unfold OK_200; by intros ?.
Qed.

Lemma get_handler_status auth kind url path head_only s :
  app_ok s →
  wp (get_handler auth kind url path head_only) (λ r s', ∃ resp, r = Ok resp ∧
    (resp_status resp = OK_200 ∨ 400 <= resp_status resp)) s.
Proof.
  intros Hs. unfold get_handler. wp_go. wp_use get_one_spec; [done|].
  intros [resp|x|w] s1 (_ & _ & Hr); simpl; [| |done].
  - destruct Hr as (e & _ & _ & (Hst & _) & _). wp_go. exists resp. by auto.
  - pose proof (error_status x). unfold miss_response, inc_misses, with_metrics.
    destruct x; wp_go; eexists; (split; [done|]); by right.
Qed.

Definition get_status (auth : ProjectAuth) (kind : Kind) (url path : string) (s : App) : Z :=
  if bool_decide (pa_project_name auth ≠ url) then FORBIDDEN
  else match entry_at (app_db s) (pa_project_id auth) kind path with
       | None => NOT_FOUND
       | Some _ => OK_200
       end.

Lemma get_handler_quiet auth kind url path head_only s :
  Quiet → fs_quiet → app_ok s →
  wp (get_handler auth kind url path head_only)
    (λ r _, ∃ resp, r = Ok resp ∧ resp_status resp = get_status auth kind url path s) s.
Proof.
  intros Hq Hfq Hs. unfold get_handler, get_status. wp_go. wp_use get_one_spec; [done|].
  intros [resp|x|w] s1 (_ & _ & Hr); simpl; [| |done].
  - destruct Hr as (e & He & Hurl & (Hst & _) & _). wp_go. exists resp. split; [done|].
    rewrite bool_decide_eq_false_2 by (intros Hne; done). by rewrite He.
  - destruct Hr as [[[-> Hne]|[Hx|[[y Hy]|(-> & Hurl & Hn)]]] _].
    + wp_go. eexists. split; [done|]. by rewrite bool_decide_eq_true_2.
    + by apply db_fault_quiet in Hx.
    + by apply fs_quiet_faulty in Hy.
    + unfold miss_response, inc_misses, with_metrics. wp_go. eexists. split; [done|]. rewrite Hn.
      by rewrite bool_decide_eq_false_2 by (intros Hne; done).
Qed.

(** A read never serves anything but the entry asked for: whatever happens, the
    handler answers, database and store are as before, and a 200 carries the size
    and hash of the entry that the caller's own project has under that kind and
    path, with content of exactly that hash. *)
Theorem get_serves_the_entry auth kind url path head_only s n r s' n' :
  app_ok s → get_handler auth kind url path head_only s n = (r, s', n') →
  ∃ resp, r = Ok resp ∧ app_sys s' = app_sys s ∧ app_auth s' = app_auth s ∧
    (resp_status resp = OK_200 →
       pa_project_name auth = url ∧
       ∃ e, entry_at (app_db s) (pa_project_id auth) kind path = Some e ∧
            entry_response s e head_only resp).
Proof. intros Hs Hrun. exact (wp_run _ _ _ _ _ _ _ (get_handler_spec _ _ _ _ _ _ Hs) Hrun). Qed.

(** With nothing failing, reads are complete: the answer is 403 for a URL of
    another project, 404 if the project has no such entry, and 200 otherwise. *)
Theorem get_answers auth kind url path head_only s n :
  Quiet → fs_quiet → app_ok s →
  ∃ resp, (get_handler auth kind url path head_only s n).1.1 = Ok resp ∧
    resp_status resp = get_status auth kind url path s.
Proof. intros Hq Hfq Hs. exact (get_handler_quiet _ _ _ _ _ _ Hq Hfq Hs n). Qed.

Variable config : Config.

(** A PUT needs a write key of the project in the URL: otherwise the answer is
    403 and nothing at all has changed, not even in the store. *)
Theorem put_needs_write_on_own_project auth kind url path body s n :
  pa_project_name auth ≠ url ∨ pa_role auth = Read →
  ∃ resp, (put_handler config auth kind url path body s n).1 = (Ok resp, s) ∧
          resp_status resp = FORBIDDEN.
Proof.
  intros Hno.
  assert (wp (put_handler config auth kind url path body)
    (λ r s', ∃ resp, (r, s') = (Ok resp, s) ∧ resp_status resp = FORBIDDEN) s) as Hwp.
  { unfold put_handler, do_put, ensure_project. wp_go.
    destruct (String.eqb_spec (pa_project_name auth) url) as [Heq|Hne]; wp_go; [|by eexists].
    destruct Hno as [Hne|Hrole]; [done|]. rewrite Hrole. simpl. wp_go. by eexists. }
  destruct (Hwp n) as (resp & Heq & Hst). exists resp. split; [|done]. rewrite <-Heq.
  by destruct (put_handler _ _ _ _ _ _ s n) as [[r s'] n'].
Qed.

(** Where a stored entry is found, and what is left alone. *)
Lemma stored_entry_at s auth kind path content w s' :
  app_ok s → app_ok s' → stored s auth kind path content w s' →
  (∃ row, entry_at (app_db s') (pa_project_id auth) kind path = Some row ∧
          e_blob_hash row = sha256_hex content) ∧
  ∀ p k x, (p, k, x) ≠ (pa_project_id auth, kind, path) →
    entry_at (app_db s') p k x = entry_at (app_db s) p k x.
Proof.
  intros Hs Hs' (Hw & e & t1 & Hup & He & _).
  pose proof (ro_schema _ (sys_refs _ (ao_sys _ Hs))) as Hok. simpl in Hok.
  destruct Hup as (id & nb & now & -> & _ & _ & Hnew).
  pose proof (schema_upserted _ _ _ _ _ (w_hash w) (w_size_bytes w) nb now Hok Hnew) as Hok1.
  assert (∀ p k x, entry_at (app_db s') p k x = entry_at (upserted (app_db s) id (pa_project_id auth)
    kind path (w_hash w) (w_size_bytes w) nb now) p k x) as Hat by (intros; unfold entry_at; by rewrite He).
  split.
  - eexists. rewrite Hat. split.
    + apply entry_at_Some; [done|]. split; [apply lookup_insert_eq|]. by apply upserted_row_key.
    + destruct (upserted_row_key (app_db s) id (pa_project_id auth) kind path (w_hash w)
        (w_size_bytes w) now) as [_ ->]. apply Hw.
  - intros p k x Hne. rewrite Hat. by apply entry_at_upserted_other.
Qed.

(** A PUT answered with 201 has stored the body. *)
Lemma put_stored auth kind url path body s n resp s' n' :
  app_ok s → put_handler config auth kind url path body s n = (Ok resp, s', n') →
  resp_status resp = CREATED →
  app_ok s' ∧ ∃ chunks w, body = inr <$> chunks ∧ stored s auth kind path (concat chunks) w s' ∧
    resp = mkResponse CREATED [("etag"%string, quoted (w_hash w))] BodyEmpty.
Proof.
  intros Hs Hrun. revert resp s' n' Hrun.
  assert (wp (put_handler config auth kind url path body) (λ r s', ∀ resp, r = Ok resp →
    resp_status resp = CREATED →
    app_ok s' ∧ ∃ chunks w, body = inr <$> chunks ∧ stored s auth kind path (concat chunks) w s' ∧
      resp = mkResponse CREATED [("etag"%string, quoted (w_hash w))] BodyEmpty) s) as Hwp.
  { unfold put_handler. wp_go. wp_use do_put_spec; [done|].
    intros [resp|x|w] s1 Hr; simpl in *; [| |done].
    - destruct Hr as (w & (Hs1 & _ & _ & chunks & -> & Hst) & ->). wp_go. intros resp [= <-] _. eauto 8.
    - wp_go. intros resp [= <-] Hst. by destruct x. }
  intros resp s' n' Hrun. exact (wp_run _ _ _ _ _ _ _ Hwp Hrun resp eq_refl).
Qed.

(** With nothing failing, a row is served. *)
Lemma get_serves_row auth kind url path s n row :
  Quiet → fs_quiet → app_ok s → pa_project_name auth = url →
  entry_at (app_db s) (pa_project_id auth) kind path = Some row →
  ∃ resp c, (get_handler auth kind url path false s n).1.1 = Ok resp ∧ resp_status resp = OK_200 ∧
    ("etag"%string, quoted (e_blob_hash row)) ∈ resp_headers resp ∧ resp_body resp = BodyStream c ∧
    blob_at (app_store s) (e_blob_hash row) = Some c ∧ sha256_hex c = e_blob_hash row.
Proof.
  intros Hq Hfq Hs Hurl Hrow.
  destruct (get_handler_quiet auth kind url path false s Hq Hfq Hs n) as (resp & Hresp & Hstatus).
  unfold get_status in Hstatus. rewrite bool_decide_eq_false_2, Hrow in Hstatus by (intros Hne; done).
  destruct (get_handler auth kind url path false s n) as [[r s2] m] eqn:Hget. simpl in Hresp. subst r.
  destruct (wp_run _ _ _ _ _ _ _ (get_handler_spec auth kind url path false s Hs) Hget) as (resp2 & [= <-] & _ & _ & Hok).
  destruct (Hok Hstatus) as (_ & e & He & _ & Hhd & c & Hbody & Hc & Hsha).
  rewrite Hrow in He. injection He as <-. exists resp, c. split_and!; try done. rewrite Hhd. set_solver.
Qed.
End theorems.

(** C5: what was stored is what is served.  When a PUT has been answered with 201, whatever
    failed around it, the entry names the digest of the uploaded bytes, which the answer
    announced; and in every state in order in which it still names that digest, so in the
    one that the PUT leaves and in later ones until the entry is evicted, deleted or
    replaced, a GET by any key of the project, with nothing failing around it, is answered
    with 200, that ETag and content of that digest.  As long as the file under the digest
    is the one that the PUT left, this is the uploaded content itself, unless the store
    already held another file with that hash. *)
Theorem put_then_get `{!Env, !FsEnv, !Sha256} config auth kind url path body s n resp s' n' :
  app_ok s → put_handler config auth kind url path body s n = (Ok resp, s', n') →
  resp_status resp = CREATED →
  ∃ chunks, body = inr <$> chunks ∧
    let digest := sha256_hex (concat chunks) in
    let names t := e_blob_hash <$> entry_at (app_db t) (pa_project_id auth) kind path in
    resp_headers resp = [("etag"%string, quoted digest)] ∧ app_ok s' ∧ names s' = Some digest ∧
    ∀ (env' : Env) (fsenv' : FsEnv) s'' auth' m,
      @Quiet env' → fs_quiet (fsenv := fsenv') → app_ok s'' → names s'' = Some digest →
      pa_project_id auth' = pa_project_id auth → pa_project_name auth' = url →
      ∃ resp' c, (get_handler (env := env') (fsenv := fsenv') auth' kind url path false s'' m).1.1 = Ok resp' ∧
        resp_status resp' = OK_200 ∧ ("etag"%string, quoted digest) ∈ resp_headers resp' ∧
        resp_body resp' = BodyStream c ∧ sha256_hex c = digest ∧
        (blob_at (app_store s'') digest = blob_at (app_store s') digest →
         c = concat chunks ∨ blob_at (app_store s) digest = Some c).
Proof.
  intros Hs Hrun Hcreated.
  destruct (put_stored _ _ _ _ _ _ _ _ _ _ _ Hs Hrun Hcreated) as (Hs' & chunks & w & -> & Hst & ->).
  pose proof (stored_entry_at _ _ _ _ _ _ _ Hs Hs' Hst) as [(row & Hrow & Hh) _].
  destruct Hst as ((Hw & _ & _ & (c & Hc & Hcase) & _) & _). rewrite Hw in *.
  exists chunks. split; [done|]. split; [done|]. split; [done|]. split; [by rewrite Hrow; simpl; rewrite Hh|].
  intros env' fsenv' s'' auth' m Hq Hfq Hs'' (row' & Hrow' & Hh')%fmap_Some Hid Hurl.
  destruct (get_serves_row (env := env') (fsenv := fsenv') auth' kind url path s'' m row' Hq Hfq Hs'' Hurl)
    as (resp' & c' & Hget & H200 & Het & Hb & Hc' & Hsha); [by rewrite Hid|]. rewrite <-Hh' in *.
  exists resp', c'. split_and!; try done. intros Hsame. rewrite Hsame in Hc'. congruence.
Qed.

(** For a configuration that was read from a file, every number fits its type,
    and the watermark that makes a PUT trigger a sweep is the configured percentage
    of the quota, rounded down, without wrapping around as long as 255 times the
    quota fits 64 bits; up to 100 percent it never exceeds the quota. *)
Theorem gc_threshold_bounds r c :
  GcConfig_deserialize r = Some c → global_quota_bytes c * 255 < 2 ^ 64 →
  gc_config_ok c ∧
  gc_threshold c = global_quota_bytes c * trigger_threshold_pct c / 100 ∧
  0 <= gc_threshold c ∧
  (trigger_threshold_pct c <= 100 → gc_threshold c <= global_quota_bytes c).
Proof.
  intros Hc Hq. apply GcConfig_deserialize_ok in Hc as Hok.
  destruct Hok as [_ _ _ [Hq0 _] Hp]. split; [by eapply GcConfig_deserialize_ok|].
  unfold gc_threshold, wrap_u64. rewrite Z.mod_small by nia.
  split; [done|]. split; [apply Z.div_pos; nia|].
  intros Hle. apply Z.div_le_upper_bound; nia.
Qed.
