(* ===== verification/Listing.v ===== *)
(** * Paginated listing

    [Entries::list] of [crates/marmotte-core/src/db/entries.rs] with its cursor.
    serde_json, base64 and SQLite's LIKE are parameters, and so is SQLite's
    comparison between values of different types, which only a forged cursor
    reaches. *)
From stdpp Require Import base numbers list strings gmap sorting pretty.
From Stdlib Require Import ZArith Lia Init.Byte.
From S2P Require Import Prelude Models Db Blobs Entries.

(** ** Three-way comparisons that are strict total orders *)

Class CmpOrder {A} (cmp : A → A → comparison) : Prop := {
  cmp_refl a : cmp a a = Eq;
  cmp_eq a b : cmp a b = Eq → a = b;
  cmp_antisym a b : cmp a b = CompOpp (cmp b a);
  cmp_trans a b c : cmp a b = Lt → cmp b c = Lt → cmp a c = Lt
}.

#[export] Instance Z_cmp_order : CmpOrder Z.compare.
Proof.
  split.
  - apply Z.compare_refl.
  - intros a b. apply Z.compare_eq.
  - intros a b. apply Z.compare_antisym.
  - intros a b c. rewrite !Z.compare_lt_iff. lia.
Qed.

Lemma ascii_compare_lt a b : Ascii.compare a b = Lt ↔ (Ascii.N_of_ascii a < Ascii.N_of_ascii b)%N.
Proof. unfold Ascii.compare. apply N.compare_lt_iff. Qed.
Lemma ascii_compare_refl a : Ascii.compare a a = Eq.
Proof. unfold Ascii.compare. apply N.compare_refl. Qed.

#[export] Instance string_cmp_order : CmpOrder String.compare.
Proof.
  split.
  - induction a as [|c a IH]; simpl; [done|]. by rewrite ascii_compare_refl.
  - apply String.compare_eq_iff.
  - apply String.compare_antisym.
  - induction a as [|x a IH]; intros [|y b] [|z c]; simpl; try done.
    destruct (Ascii.compare x y) eqn:Hxy, (Ascii.compare y z) eqn:Hyz; try done.
    + apply Ascii.compare_eq_iff in Hxy as ->. apply Ascii.compare_eq_iff in Hyz as ->.
      rewrite ascii_compare_refl. apply IH.
    + apply Ascii.compare_eq_iff in Hxy as ->. by rewrite Hyz.
    + apply Ascii.compare_eq_iff in Hyz as ->. by rewrite Hxy.
    + apply ascii_compare_lt in Hxy, Hyz.
      assert (Ascii.compare x z = Lt) as -> by (apply ascii_compare_lt; by etransitivity). done.
Qed.

(** Lexicographic, and reversed. *)
Definition cmp_lex {A B} (c1 : A → A → comparison) (c2 : B → B → comparison) (x y : A * B) : comparison :=
  match c1 x.1 y.1 with Eq => c2 x.2 y.2 | c => c end.
Definition cmp_rev {A} (c : A → A → comparison) (x y : A) : comparison := CompOpp (c x y).

#[export] Instance cmp_lex_order {A B} c1 c2 : CmpOrder c1 → CmpOrder c2 → CmpOrder (@cmp_lex A B c1 c2).
Proof.
  intros H1 H2. unfold cmp_lex. split.
  - intros [a b]. simpl. by rewrite !cmp_refl.
  - intros [a b] [a' b']. simpl. destruct (c1 a a') eqn:Ha; try done.
    intros Hb. apply cmp_eq in Ha, Hb. congruence.
  - intros [a b] [a' b']. simpl. rewrite (cmp_antisym a a'). destruct (c1 a' a); simpl; [|done..].
    apply cmp_antisym.
  - intros [a b] [a' b'] [a2 b2]. simpl.
    destruct (c1 a a') eqn:Ha, (c1 a' a2) eqn:Ha'; try done.
    + apply cmp_eq in Ha as ->. rewrite Ha'. apply cmp_trans.
    + apply cmp_eq in Ha as ->. by rewrite Ha'.
    + apply cmp_eq in Ha' as <-. by rewrite Ha.
    + by rewrite (cmp_trans _ _ _ Ha Ha').
Qed.

#[export] Instance cmp_rev_order {A} c : CmpOrder c → CmpOrder (@cmp_rev A c).
Proof.
  intros H. unfold cmp_rev. split.
  - intros a. by rewrite cmp_refl.
  - intros a b Hab. apply cmp_eq. by destruct (c a b).
  - intros a b. by rewrite (cmp_antisym a b).
  - intros a b d Hab Hbd. rewrite cmp_antisym, (cmp_trans (cmp := c) d b a); [done|..];
      rewrite cmp_antisym; by (destruct (c b d) || destruct (c a b)).
Qed.

(** ** Parameters of a listing *)

Inductive SortField := Path | LastAccessed | Size | CreatedAt.
Inductive SortOrder := Asc | Desc.

Record ListFilter := mkListFilter {
  f_kind : option Kind;
  f_pinned : option bool;
  f_path_prefix : option string;
  f_sort : option SortField;
  f_order : option SortOrder;
  f_limit : option Z;
  f_cursor : option string
}.

Record Page := mkPage {
  page_entries : list Entry;
  page_next_cursor : option string;
  page_has_more : bool
}.

(** The JSON values a cursor may carry; other values are kept as their text. *)
Inductive JsonSv :=
| SvInt (z : Z)
| SvFloat (text : string)
| SvString (s : string)
| SvOther (text : string).

Record Cursor := mkCursor { sv : JsonSv; cur_id : Z }.

(** What is bound to a statement, and what columns hold. *)
Inductive SqlVal :=
| VInt (z : Z)
| VReal (text : string)
| VText (s : string).

Definition bind_json (v : JsonSv) : SqlVal :=
  match v with
  | SvInt z => VInt z
  | SvFloat text => VReal text
  | SvString s => VText s
  | SvOther text => VText text
  end.

Definition sort_value_of (e : Entry) (s : SortField) : JsonSv :=
  match s with
  | Path => SvString (e_path e)
  | LastAccessed => SvInt (e_last_accessed e)
  | Size => SvInt (e_size_bytes e)
  | CreatedAt => SvInt (e_id e)
  end.

(** [SortField::column], as the value of that column. *)
Definition column (s : SortField) (e : Entry) : SqlVal :=
  match s with
  | Path => VText (e_path e)
  | LastAccessed => VInt (e_last_accessed e)
  | Size => VInt (e_size_bytes e)
  | CreatedAt => VInt (e_id e)
  end.

(** The values that serde_json writes and reads back unchanged. *)
Definition sv_wire (c : Cursor) : Prop :=
  in_i64 (cur_id c) ∧ match sv c with SvInt z => in_i64 z | SvString _ => True | _ => False end.

Class ListLibs := mkListLibs {
  sql_like : string → string → bool;
  sql_mixed : SqlVal → SqlVal → comparison;
  json_to_vec : Cursor → list byte;
  json_from_slice : list byte → string + Cursor;
  b64u_encode : list byte → string;
  b64u_decode : string → string + list byte;
  json_round_trip : ∀ c, sv_wire c → json_from_slice (json_to_vec c) = inr c;
  b64u_round_trip : ∀ l, b64u_decode (b64u_encode l) = inr l
}.

(** [ORDER BY column, id] in the direction asked for. *)
Definition key_compare (s : SortField) (a b : Entry) : comparison :=
  match s with
  | Path => String.compare (e_path a) (e_path b)
  | LastAccessed => Z.compare (e_last_accessed a) (e_last_accessed b)
  | Size => Z.compare (e_size_bytes a) (e_size_bytes b)
  | CreatedAt => Z.compare (e_id a) (e_id b)
  end.
Definition row_compare (s : SortField) (o : SortOrder) (a b : Entry) : comparison :=
  let c := match key_compare s a b with Eq => Z.compare (e_id a) (e_id b) | c => c end in
  match o with Asc => c | Desc => CompOpp c end.
Definition row_le (s : SortField) (o : SortOrder) (a b : Entry) : Prop := row_compare s o a b ≠ Gt.
#[export] Instance row_le_dec s o : RelDecision (row_le s o).
Proof. intros a b. unfold row_le. apply _. Defined.

Section listing.
Context {env : Env} {libs : ListLibs}.

Definition Cursor_encode (c : Cursor) : string := b64u_encode (json_to_vec c).
Definition Cursor_decode (s : string) : string + Cursor :=
  match b64u_decode s with
  | inl e => inl e
  | inr bytes => json_from_slice bytes
  end.

Definition sql_compare (a b : SqlVal) : comparison :=
  match a, b with
  | VInt x, VInt y => Z.compare x y
  | VText x, VText y => String.compare x y
  | _, _ => sql_mixed a b
  end.

(** [column cmp ? OR (column = ? AND id cmp ?)] *)
Definition after_cursor (s : SortField) (o : SortOrder) (cur : Cursor) (e : Entry) : bool :=
  let past c := match o, c with Asc, Gt | Desc, Lt => true | _, _ => false end in
  let c := sql_compare (column s e) (bind_json (sv cur)) in
  past c || match c with Eq => past (Z.compare (e_id e) (cur_id cur)) | _ => false end.

Definition opt_test {A} (f : A → bool) (o : option A) : bool :=
  match o with Some a => f a | None => true end.

(** The conditions that do not depend on the cursor. *)
Definition matches (project_id : Z) (f : ListFilter) (e : Entry) : bool :=
  (e_project_id e =? project_id) &&
  opt_test (λ k, Kind_eqb (e_kind e) k) (f_kind f) &&
  opt_test (λ p, Bool.eqb (e_pinned e) p) (f_pinned f) &&
  opt_test (λ prefix, sql_like (prefix +:+ "%") (e_path e)) (f_path_prefix f).

Definition clamp (lo hi z : Z) : Z := Z.max lo (Z.min hi z).

Definition list_sort (f : ListFilter) : SortField := default LastAccessed (f_sort f).
Definition list_order (f : ListFilter) : SortOrder := default Desc (f_order f).
Definition list_limit (f : ListFilter) : Z := clamp 1 1000 (default 100 (f_limit f)).

Definition Entries_list (project_id : Z) (f : ListFilter) : M CoreError Tables Page :=
  let sort := list_sort f in
  let order := list_order f in
  let limit := list_limit f in
  let* cur := match f_cursor f with
              | None => ret None
              | Some c => match Cursor_decode c with
                          | inl e => throw (InvalidInput ("bad cursor: " +:+ e))
                          | inr cur => ret (Some cur)
                          end
              end in
  let* rows := sql (query (λ t, sql_limit (limit + 1)
    (merge_sort (row_le sort order)
      (select (λ e, matches project_id f e && opt_test (λ c, after_cursor sort order c e) cur)
         (entries t))))) in
  let has_more := limit <? Z.of_nat (length rows) in
  let rows := if has_more then take (Z.to_nat limit) rows else rows in
  let next_cursor :=
    if has_more then
      match last rows with
      | Some e => Some (Cursor_encode (mkCursor (sort_value_of e sort) (e_id e)))
      | None => None
      end
    else None in
  ret (mkPage rows next_cursor has_more).

(** A client that follows the cursors to the end: what it got, in how many pages. *)
Definition with_cursor (c : string) (f : ListFilter) : ListFilter :=
  mkListFilter (f_kind f) (f_pinned f) (f_path_prefix f) (f_sort f) (f_order f) (f_limit f) (Some c).
Fixpoint traverse (fuel : nat) (project_id : Z) (f : ListFilter) : M CoreError Tables (list Entry * nat) :=
  match fuel with
  | O => halt OutOfFuel
  | S fuel =>
      let* page := Entries_list project_id f in
      match page_next_cursor page with
      | None => ret (page_entries page, 1%nat)
      | Some c =>
          let* rest := traverse fuel project_id (with_cursor c f) in
          ret (page_entries page ++ rest.1, S rest.2)
      end
  end.
End listing.

(** ** The order of a listing *)

(** The rows are compared by a key that determines the id. *)
Lemma row_compare_key s o :
  ∃ (K : Type) (c : K → K → comparison) (key : Entry → K),
    CmpOrder c ∧ (∀ a b, row_compare s o a b = c (key a) (key b)) ∧
    (∀ a b, key a = key b → e_id a = e_id b).
Proof.
  assert (∀ (K : Type) (c : K → K → comparison) (f : Entry → K), CmpOrder c →
    (∀ a b, key_compare s a b = c (f a) (f b)) →
    ∃ (K : Type) (c : K → K → comparison) (key : Entry → K),
      CmpOrder c ∧ (∀ a b, row_compare s o a b = c (key a) (key b)) ∧
      (∀ a b, key a = key b → e_id a = e_id b)) as Hkey.
  { intros K c f Hc Hf.
    set (lex := cmp_lex c Z.compare).
    exists (K * Z)%type, (match o with Asc => lex | Desc => cmp_rev lex end), (λ e, (f e, e_id e)).
    split; [destruct o; apply _|]. split; [|by intros a b [= _ ->]].
    intros a b. unfold row_compare. rewrite Hf. by destruct o. }
  destruct s;
    [apply (Hkey _ _ e_path string_cmp_order)|apply (Hkey _ _ e_last_accessed Z_cmp_order)
    |apply (Hkey _ _ e_size_bytes Z_cmp_order)|apply (Hkey _ _ e_id Z_cmp_order)]; done.
Qed.

Section order.
Context (s : SortField) (o : SortOrder).

Lemma row_compare_antisym a b : row_compare s o a b = CompOpp (row_compare s o b a).
Proof.
  destruct (row_compare_key s o) as (K & c & key & Hc & Heq & _). rewrite !Heq. apply cmp_antisym.
Qed.
Lemma row_compare_refl a : row_compare s o a a = Eq.
Proof.
  destruct (row_compare_key s o) as (K & c & key & Hc & Heq & _). rewrite !Heq. apply cmp_refl.
Qed.
Lemma row_compare_eq a b : row_compare s o a b = Eq → e_id a = e_id b.
Proof.
  destruct (row_compare_key s o) as (K & c & key & Hc & Heq & Hid). rewrite !Heq.
  intros H%cmp_eq. auto.
Qed.

#[export] Instance row_le_total : Total (row_le s o).
Proof.
  intros a b. unfold row_le. rewrite (row_compare_antisym b a).
  destruct (row_compare s o a b); simpl; auto.
Qed.
#[export] Instance row_le_trans : Transitive (row_le s o).
Proof.
  intros a b d. unfold row_le.
  destruct (row_compare_key s o) as (K & c & key & Hc & Heq & _). rewrite !Heq.
  destruct (c (key a) (key b)) eqn:Hab; intros H1 H2; [| |done].
  - by apply cmp_eq in Hab as ->.
  - destruct (c (key b) (key d)) eqn:Hbd; [| |done].
    + apply cmp_eq in Hbd as <-. congruence.
    + by rewrite (cmp_trans _ _ _ Hab Hbd).
Qed.

Lemma row_le_antisym a b : row_le s o a b → row_le s o b a → e_id a = e_id b.
Proof.
  unfold row_le. intros H1 H2. apply row_compare_eq.
  rewrite (row_compare_antisym b a) in H2. by destruct (row_compare s o a b).
Qed.

(** Two sorted lists of the same rows are the same list. *)
Lemma sorted_rows_unique l1 l2 :
  (∀ a b, a ∈ l1 → b ∈ l1 → e_id a = e_id b → a = b) →
  StronglySorted (row_le s o) l1 → StronglySorted (row_le s o) l2 → l1 ≡ₚ l2 → l1 = l2.
Proof.
  intros Hid H1 H2 Hp. apply (StronglySorted_unique_strong (row_le s o)); [|done..].
  intros a b Ha Hb Hab Hba. apply Hid; [done|by rewrite Hp|by apply row_le_antisym].
Qed.

(** Behind an element of a sorted list come exactly the greater ones. *)
Lemma sorted_after l1 x l2 :
  StronglySorted (row_le s o) (l1 ++ x :: l2) → NoDup (e_id <$> (l1 ++ x :: l2)) →
  List.filter (λ e, match row_compare s o x e with Lt => true | _ => false end) (l1 ++ x :: l2) = l2.
Proof.
  intros Hs Hnd. rewrite List.filter_app. simpl. rewrite row_compare_refl.
  apply StronglySorted_app in Hs as (Hle & _ & [Hs2 Hx]%StronglySorted_inv).
  rewrite fmap_app, fmap_cons in Hnd. apply NoDup_app in Hnd as (_ & Hdis & [Hni _]%NoDup_cons).
  assert (∀ l, (∀ e, e ∈ l → row_le s o e x) →
    List.filter (λ e, match row_compare s o x e with Lt => true | _ => false end) l = []) as Hnone.
  { induction l as [|e l IH]; intros Hl; simpl; [done|].
    assert (row_le s o e x) as He by (apply Hl; left). unfold row_le in He.
    rewrite row_compare_antisym.
    destruct (row_compare s o e x); simpl; try done; apply IH; intros; apply Hl; by right. }
  rewrite Hnone by (intros e He; apply Hle; [done|left]). simpl.
  rewrite Forall_forall in Hx.
  assert (∀ l, (∀ e, e ∈ l → row_le s o x e ∧ e_id x ≠ e_id e) →
    List.filter (λ e, match row_compare s o x e with Lt => true | _ => false end) l = l) as Hall.
  { induction l as [|e l IH]; intros Hl; simpl; [done|].
    destruct (Hl e ltac:(left)) as [Hxe Hne]. unfold row_le in Hxe.
    destruct (row_compare s o x e) eqn:Hc; [by apply row_compare_eq in Hc| |done].
    f_equal. apply IH. intros. apply Hl. by right. }
  apply Hall. intros e He. split; [by apply Hx|].
  intros Heq. apply Hni. rewrite Heq. apply list_elem_of_fmap. eauto.
Qed.
End order.

Lemma sorted_filter {A} (R : A → A → Prop) (p : A → bool) l :
  StronglySorted R l → StronglySorted R (List.filter p l).
Proof.
  induction 1 as [|x l Hs IH Hx]; simpl; [constructor|].
  destruct (p x); [|done]. constructor; [done|].
  apply Forall_forall. intros y Hy. rewrite Forall_forall in Hx. apply Hx.
  rewrite list_elem_of_In, List.filter_In, <-list_elem_of_In in Hy. tauto.
Qed.

Lemma filter_perm {A} (p : A → bool) (l1 l2 : list A) :
  l1 ≡ₚ l2 → List.filter p l1 ≡ₚ List.filter p l2.
Proof.
  induction 1 as [|x l1 l2 _ IH|x y l|l1 l2 l3 _ IH1 _ IH2]; simpl.
  - done.
  - destruct (p x); [by constructor|done].
  - destruct (p x), (p y); try done. by constructor.
  - by etransitivity.
Qed.

Lemma filter_filter {A} (p q : A → bool) (l : list A) :
  List.filter q (List.filter p l) = List.filter (λ x, p x && q x) l.
Proof.
  induction l as [|x l IH]; simpl; [done|].
  destruct (p x); simpl; [destruct (q x)|]; by rewrite IH.
Qed.

(** ** Pages *)

Section pages.
Context {env : Env} {libs : ListLibs}.

(** Everything that matches, in the order of the listing. *)
Definition listing (project_id : Z) (f : ListFilter) (t : Tables) : list Entry :=
  merge_sort (row_le (list_sort f) (list_order f)) (select (matches project_id f) (entries t)).

Definition cursor_of (f : ListFilter) (x : Entry) : string :=
  Cursor_encode (mkCursor (sort_value_of x (list_sort f)) (e_id x)).

(** The numbers of the table are 64-bit, as SQLite stores them. *)
Definition rows_in_i64 (t : Tables) : Prop :=
  ∀ i e, entries t !! i = Some e → in_i64 (e_id e) ∧ in_i64 (e_last_accessed e) ∧ in_i64 (e_size_bytes e).

(** Where the cursor of [f] points: [rest] is what comes behind it. *)
Definition at_cursor (project_id : Z) (f : ListFilter) (t : Tables) (rest : list Entry) : Prop :=
  match f_cursor f with
  | None => rest = listing project_id f t
  | Some c => ∃ l x, listing project_id f t = l ++ x :: rest ∧ c = cursor_of f x
  end.

Lemma elem_of_listing project_id f t e :
  schema_ok t →
  e ∈ listing project_id f t ↔ matches project_id f e = true ∧ entries t !! e_id e = Some e.
Proof.
  intros Hok. unfold listing. rewrite merge_sort_Permutation, elem_of_select.
  destruct (so_entries t Hok) as [_ Hid]. split; [|naive_solver].
  intros (Hm & i & Hi). by destruct (Hid _ _ Hi) as [-> _].
Qed.

Lemma listing_sorted project_id f t :
  StronglySorted (row_le (list_sort f) (list_order f)) (listing project_id f t).
Proof. apply StronglySorted_merge_sort; apply _. Qed.

Lemma entries_same_id t a b :
  entries t !! e_id a = Some a → entries t !! e_id b = Some b → e_id a = e_id b → a = b.
Proof. congruence. Qed.

Lemma NoDup_listing_ids project_id f t : schema_ok t → NoDup (e_id <$> listing project_id f t).
Proof.
  intros Hok. unfold listing. rewrite merge_sort_Permutation.
  assert (NoDup (e_id <$> rows (entries t))) as Hnd.
  { unfold rows. rewrite <-list_fmap_compose.
    assert (e_id ∘ snd <$> map_to_list (entries t) = (map_to_list (entries t)).*1) as ->;
      [|apply NoDup_fst_map_to_list].
    apply list_fmap_ext. intros j [i e] Hj%list_elem_of_lookup_2%elem_of_map_to_list.
    by apply (so_entries t Hok). }
  unfold select. revert Hnd. induction (rows (entries t)) as [|e l IH]; [done|]. simpl.
  intros [Hni Hnd]%NoDup_cons. destruct (matches project_id f e); simpl; [|by apply IH].
  apply NoDup_cons. split; [|by apply IH].
  intros (e' & Heq & Hin)%list_elem_of_fmap. apply Hni, list_elem_of_fmap. exists e'.
  split; [done|]. rewrite list_elem_of_In, List.filter_In, <-list_elem_of_In in Hin. tauto.
Qed.

Lemma sql_compare_column s e x :
  sql_compare (column s e) (bind_json (sort_value_of x s)) = key_compare s e x.
Proof. by destruct s. Qed.

Lemma key_compare_antisym s a b : key_compare s a b = CompOpp (key_compare s b a).
Proof. destruct s; (apply Z.compare_antisym || apply String.compare_antisym). Qed.

(** The SQL condition is "greater in the order of the listing". *)
Lemma after_cursor_compare s o x e :
  after_cursor s o (mkCursor (sort_value_of x s) (e_id x)) e =
  match row_compare s o x e with Lt => true | _ => false end.
Proof.
  unfold after_cursor, row_compare. cbn [sv cur_id]. rewrite sql_compare_column.
  rewrite (key_compare_antisym s x e), (Z.compare_antisym (e_id e) (e_id x)).
  destruct o, (key_compare s e x), (Z.compare (e_id e) (e_id x)); done.
Qed.

Lemma sv_wire_of t x s : rows_in_i64 t → entries t !! e_id x = Some x →
  sv_wire (mkCursor (sort_value_of x s) (e_id x)).
Proof. intros Hi Hx. destruct (Hi _ _ Hx) as (H1 & H2 & H3). by destruct s. Qed.

Lemma Cursor_round_trip c : sv_wire c → Cursor_decode (Cursor_encode c) = inr c.
Proof. intros Hc. unfold Cursor_decode, Cursor_encode. by rewrite b64u_round_trip, json_round_trip. Qed.

(** The query of one page selects exactly the rest. *)
Lemma page_query project_id f t rest :
  schema_ok t → rows_in_i64 t → at_cursor project_id f t rest →
  ∃ cur, match f_cursor f with
         | None => cur = None
         | Some c => ∃ k, Cursor_decode c = inr k ∧ cur = Some k
         end ∧
    merge_sort (row_le (list_sort f) (list_order f))
      (select (λ e, matches project_id f e &&
                    opt_test (λ c, after_cursor (list_sort f) (list_order f) c e) cur) (entries t)) = rest.
Proof.
  intros Hok Hi Hat. unfold at_cursor in Hat. destruct (f_cursor f) as [c|].
  - destruct Hat as (l & x & HL & ->).
    assert (entries t !! e_id x = Some x) as Hx.
    { apply (elem_of_listing project_id f); [done|]. rewrite HL. set_solver. }
    eexists. split; [eexists; split; [apply Cursor_round_trip, (sv_wire_of t); done|done]|].
    rewrite <-(sorted_after (list_sort f) (list_order f) l x rest); rewrite <-HL;
      [|apply listing_sorted|by apply NoDup_listing_ids].
    apply (sorted_rows_unique (list_sort f) (list_order f)).
    + intros a b. rewrite !merge_sort_Permutation, !elem_of_select.
      destruct (so_entries t Hok) as [_ Hid].
      intros (_ & i & Ha) (_ & j & Hb) Heq.
      destruct (Hid _ _ Ha) as [<- _], (Hid _ _ Hb) as [<- _]. congruence.
    + apply StronglySorted_merge_sort; apply _.
    + apply sorted_filter, listing_sorted.
    + rewrite merge_sort_Permutation. unfold listing.
      rewrite (filter_perm _ _ _ (merge_sort_Permutation _ _)). unfold select. rewrite filter_filter.
      erewrite List.filter_ext; [reflexivity|]. intros e. simpl. by rewrite after_cursor_compare.
  - subst rest. exists None. split; [done|]. unfold listing. f_equal. unfold select.
    apply List.filter_ext. intros e. simpl. by rewrite andb_true_r.
Qed.

Definition page_of (f : ListFilter) (rest : list Entry) : Page :=
  let rows := take (Z.to_nat (list_limit f)) rest in
  let more := list_limit f <? Z.of_nat (length rest) in
  mkPage rows (if more then match last rows with Some e => Some (cursor_of f e) | None => None end else None)
    more.

Lemma list_limit_range f : 1 <= list_limit f <= 1000.
Proof. unfold list_limit, clamp. lia. Qed.

Lemma Entries_list_spec project_id f t rest :
  schema_ok t → rows_in_i64 t → at_cursor project_id f t rest →
  wp (Entries_list project_id f) (outcome t (λ p t', t' = t ∧ p = page_of f rest) (λ _, False)) t.
Proof.
  intros Hok Hi Hat. destruct (page_query _ _ _ _ Hok Hi Hat) as (cur & Hcur & Hq).
  pose proof (list_limit_range f) as Hlim.
  unfold Entries_list. wp_go.
  eapply (wp_mono _ (λ r t', r = Ok cur ∧ t' = t)).
  { destruct (f_cursor f); [destruct Hcur as (k & -> & ->)|subst cur]; by apply wp_ret. }
  intros r t' [-> ->]. db_go. rewrite Hq. split; [done|].
  unfold page_of, sql_limit. set (limit := list_limit f) in *.
  assert (limit + 1 <? 0 = false) as -> by (apply Z.ltb_ge; lia).
  rewrite length_take.
  destruct (Z.ltb_spec limit (Z.of_nat (Nat.min (Z.to_nat (limit + 1)) (length rest)))) as [H|H];
    destruct (Z.ltb_spec limit (Z.of_nat (length rest))) as [H'|H']; try lia.
  - by rewrite take_take, Nat.min_l by lia.
  - by rewrite !take_ge by lia.
Qed.

Lemma at_cursor_next project_id f t rest x rows :
  at_cursor project_id f t rest → take (Z.to_nat (list_limit f)) rest = rows ++ [x] →
  at_cursor project_id (with_cursor (cursor_of f x) f) t (drop (Z.to_nat (list_limit f)) rest).
Proof.
  intros Hat Hrows. unfold at_cursor, with_cursor, cursor_of. simpl.
  change (listing project_id (mkListFilter _ _ _ _ _ _ _) t) with (listing project_id f t).
  pose proof (take_drop (Z.to_nat (list_limit f)) rest) as Hsplit. rewrite Hrows in Hsplit.
  unfold at_cursor in Hat. destruct (f_cursor f) as [c|].
  - destruct Hat as (l & y & HL & _). exists (l ++ y :: rows), x. split; [|done].
    rewrite HL. rewrite <-Hsplit at 1. by rewrite <-!app_assoc.
  - exists rows, x. split; [|done]. rewrite <-Hat. rewrite <-Hsplit at 1. by rewrite <-app_assoc.
Qed.

(** The pages that [len] entries take: full ones, but for the last. *)
Definition page_count (f : ListFilter) (len : nat) : Z :=
  Z.max 1 ((Z.of_nat len + list_limit f - 1) / list_limit f).

Lemma page_count_last f len : Z.of_nat len <= list_limit f → page_count f len = 1.
Proof.
  intros Hle. pose proof (list_limit_range f) as Hlim. unfold page_count.
  enough ((Z.of_nat len + list_limit f - 1) / list_limit f < 2) by lia. apply Z.div_lt_upper_bound; lia.
Qed.
Lemma page_count_more f len :
  list_limit f < Z.of_nat len →
  page_count f len = Z.succ (page_count f (len - Z.to_nat (list_limit f))).
Proof.
  intros Hlt. pose proof (list_limit_range f) as Hlim. unfold page_count.
  rewrite Nat2Z.inj_sub, Z2Nat.id by lia.
  assert (Z.of_nat len + list_limit f - 1 =
    (Z.of_nat len - list_limit f + list_limit f - 1) + 1 * list_limit f) as Heq by lia.
  rewrite Heq at 1. rewrite Z.div_add by lia.
  enough (1 <= (Z.of_nat len - list_limit f + list_limit f - 1) / list_limit f) by lia.
  apply Z.div_le_lower_bound; lia.
Qed.

(** Following the cursors yields the rest, whatever the page size. *)
Lemma traverse_spec fuel project_id f t rest :
  schema_ok t → rows_in_i64 t → at_cursor project_id f t rest → page_count f (length rest) <= Z.of_nat fuel →
  wp (traverse fuel project_id f)
    (outcome t (λ l t', t' = t ∧ l.1 = rest ∧ Z.of_nat l.2 = page_count f (length rest)) (λ _, False)) t.
Proof.
  intros Hok Hi. revert f rest. induction fuel as [|fuel IH]; intros f rest Hat Hfuel.
  { unfold page_count in Hfuel. lia. }
  pose proof (list_limit_range f) as Hlim. simpl. wp_go.
  wp_use Entries_list_spec; [done..|]. intros [p|e|w] t' Hp; simpl; [|exact Hp|done].
  destruct Hp as [-> ->]. unfold page_of.
  destruct (Z.ltb_spec (list_limit f) (Z.of_nat (length rest))) as [Hlt|Hge]; simpl.
  - rewrite page_count_more in * by done.
    destruct (take (Z.to_nat (list_limit f)) rest) as [|x0 l0] eqn:Htake using rev_ind.
    { apply (f_equal length) in Htake. rewrite length_take in Htake. simpl in Htake. lia. }
    rewrite last_snoc. wp_go.
    wp_use (IH _ (drop (Z.to_nat (list_limit f)) rest));
      [by eapply at_cursor_next|rewrite length_drop; change (page_count (with_cursor _ f)) with (page_count f); lia|].
    intros [l|e|w] t'' Hl; simpl; [|exact Hl|done]. destruct Hl as (-> & Hl & Hn). apply wp_ret.
    rewrite length_drop in Hn. change (page_count (with_cursor _ f)) with (page_count f) in Hn. simpl.
    split_and!; [done| |lia]. rewrite Hl, <-Htake. apply take_drop.
  - rewrite page_count_last by done. apply wp_ret. split_and!; [done| |done]. simpl. apply take_ge. lia.
Qed.
End pages.

(** ** Theorems *)

(** C31: paging is complete: a client that starts without a cursor and follows
    [next_cursor], on a table that nobody changes meanwhile, sees every matching entry
    exactly once, in the order asked for, whatever the page size, and never asks for a
    page more than it takes: one if everything fits, else the number of matching entries
    divided by the page size, rounded up. *)
Theorem pages_cover_the_listing `{!Env, !ListLibs} project_id f t n fuel r t' n' :
  schema_ok t → rows_in_i64 t → f_cursor f = None →
  page_count f (length (listing project_id f t)) <= Z.of_nat fuel →
  traverse fuel project_id f t n = (r, t', n') →
  t' = t ∧
  match r with
  | Ok (l, pages) => l = listing project_id f t ∧
      StronglySorted (row_le (list_sort f) (list_order f)) l ∧ NoDup (e_id <$> l) ∧
      (∀ e, e ∈ l ↔ matches project_id f e = true ∧ entries t !! e_id e = Some e) ∧
      Z.of_nat pages = Z.max 1 ((Z.of_nat (length l) + list_limit f - 1) / list_limit f)
  | Err x => db_fault x
  | Stop _ => False
  end.
Proof.
  intros Hok Hi Hc Hfuel Hrun.
  assert (at_cursor project_id f t (listing project_id f t)) as Hat by (unfold at_cursor; by rewrite Hc).
  pose proof (wp_run _ _ _ _ _ _ _ (traverse_spec fuel project_id f t _ Hok Hi Hat Hfuel) Hrun) as Hout.
  destruct r as [[l pages]|x|w]; simpl in *; [| |done].
  - destruct Hout as (-> & -> & Hn). split_and!; [done|done|apply listing_sorted|by apply NoDup_listing_ids| |done].
    intros e. by apply elem_of_listing.
  - destruct Hout as [[Hx|[]] ->]. done.
Qed.

(** C32: one page holds the next entries behind the cursor, as many as asked for, clamped to
    1..1000 (or all that are left); [has_more] tells whether this leaves any, and there is
    a cursor for the next page if and only if it does; the table is as before. *)
Theorem page_shape `{!Env, !ListLibs} project_id f t rest n p t' n' :
  schema_ok t → rows_in_i64 t → at_cursor project_id f t rest →
  Entries_list project_id f t n = (Ok p, t', n') →
  t' = t ∧
  page_entries p = take (Z.to_nat (list_limit f)) rest ∧
  1 <= list_limit f <= 1000 ∧ (∀ l, f_limit f = Some l → 1 <= l <= 1000 → list_limit f = l) ∧
  (page_has_more p = true ↔ page_entries p ≠ rest) ∧
  (is_Some (page_next_cursor p) ↔ page_has_more p = true).
Proof.
  intros Hok Hi Hat Hrun.
  destruct (wp_run _ _ _ _ _ _ _ (Entries_list_spec project_id f t rest Hok Hi Hat) Hrun) as [-> ->].
  pose proof (list_limit_range f) as Hlim. unfold page_of. cbn [page_entries page_has_more page_next_cursor].
  split_and!; try done; try lia.
  - intros l Hl Hr. unfold list_limit, clamp. rewrite Hl. simpl. lia.
  - rewrite Z.ltb_lt. split.
    + intros Hlt Heq. apply (f_equal length) in Heq. rewrite length_take in Heq. lia.
    + intros Hne. destruct (Z.le_gt_cases (Z.of_nat (length rest)) (list_limit f)); [|lia].
      destruct Hne. apply take_ge. lia.
  - destruct (Z.ltb_spec (list_limit f) (Z.of_nat (length rest))) as [Hlt|Hge].
    + split; [done|]. intros _. destruct (last _) eqn:Hlast; [by eexists|].
      apply last_None, (f_equal length) in Hlast. rewrite length_take in Hlast. simpl in Hlast. lia.
    + split; [by intros [? ?]|done].
Qed.
