(* ===== verification/Admin.v ===== *)
(** * Admin API

    [crates/marmotte-server/src/routes/admin/*] and the Bearer middleware in front
    of it.  Requests arrive with their path, query and JSON parts deserialized;
    JSON text in the audit log is rendered and parsed by serde_json, a parameter. *)
From stdpp Require Import base numbers list strings gmap sorting pretty.
From Stdlib Require Import ZArith Lia.
From S2P Require Import Prelude Models Db Blobs Entries Projects Credentials Stats Storage Config Gc GcRun Orphans Auth Http Metrics App Listing.

(** Texts that libraries write and read: JSON (serde_json) and the exposition format of
    the prometheus crate. *)
Class JsonText := mkJsonText {
  json_to_string : Json → string;
  json_parse : string → option Json;
  metrics_text : Metrics → option string
}.

(** ** Views ([dto.rs]) *)

Definition ProjectView (p : Project) : Json :=
  JObj [("id", JInt (p_id p)); ("name", JStr (p_name p));
        ("quota_bytes", json_opt JInt (p_quota_bytes p));
        ("ttl_seconds", json_opt JInt (p_ttl_seconds p));
        ("created_at", JInt (p_created_at p))]%string.

Definition ApiKeyCreated (k : ApiKey) (secret : string) : Json :=
  JObj [("id", JInt (k_id k)); ("project_id", JInt (k_project_id k));
        ("role", JStr (Role_as_str (k_role k))); ("label", json_opt JStr (k_label k));
        ("created_at", JInt (k_created_at k)); ("secret", JStr secret)]%string.
Definition ApiKeyView (k : ApiKey) : Json :=
  JObj [("id", JInt (k_id k)); ("project_id", JInt (k_project_id k));
        ("role", JStr (Role_as_str (k_role k))); ("label", json_opt JStr (k_label k));
        ("created_at", JInt (k_created_at k)); ("revoked_at", json_opt JInt (k_revoked_at k))]%string.

Definition AdminTokenCreated (k : AdminToken) (secret : string) : Json :=
  JObj [("id", JInt (t_id k)); ("label", json_opt JStr (t_label k));
        ("created_at", JInt (t_created_at k)); ("secret", JStr secret)]%string.
Definition AdminTokenView (k : AdminToken) : Json :=
  JObj [("id", JInt (t_id k)); ("label", json_opt JStr (t_label k));
        ("created_at", JInt (t_created_at k)); ("revoked_at", json_opt JInt (t_revoked_at k))]%string.

Definition entry_to_json (e : Entry) : Json :=
  JObj [("id", JInt (e_id e)); ("kind", JStr (Kind_as_str (e_kind e))); ("path", JStr (e_path e));
        ("blob_hash", JStr (e_blob_hash e)); ("size_bytes", JInt (e_size_bytes e));
        ("pinned", JBool (e_pinned e)); ("created_at", JInt (e_created_at e));
        ("last_accessed", JInt (e_last_accessed e))]%string.

Definition audit_row_to_json `{!JsonText} (r : AuditRow) : Json :=
  JObj [("id", JInt (ar_id r)); ("timestamp", JInt (ar_timestamp r));
        ("actor_token", json_opt JStr (ar_actor_token r)); ("action", JStr (ar_action r));
        ("target", json_opt JStr (ar_target r));
        ("detail", json_opt id (ar_detail_json r ≫= json_parse))]%string.

(** The triple-state fields of a PATCH: absent, null, or a value. *)
Inductive JsonField A := Absent | Null | Value (a : A).
Arguments Absent {A}.
Arguments Null {A}.
Arguments Value {A} a.

(** [deserialize_double_option] under [#[serde(default)]] *)
Definition double_option {A} (f : JsonField A) : option (option A) :=
  match f with
  | Absent => None
  | Null => Some None
  | Value a => Some (Some a)
  end.

Record ListQuery := mkListQuery {
  q_kind : option string;
  q_pinned : option bool;
  q_path_prefix : option string;
  q_sort : option string;
  q_order : option string;
  q_limit : option Z;
  q_cursor : option string;
  q_count : option bool
}.

Definition parse_sort (s : string) : res CoreError SortField :=
  if String.eqb s "path" then Ok Path
  else if String.eqb s "last_accessed" then Ok LastAccessed
  else if String.eqb s "size" then Ok Size
  else if String.eqb s "created_at" then Ok CreatedAt
  else Err (InvalidInput ("sort: " +:+ s)).
Definition parse_order (s : string) : res CoreError SortOrder :=
  if String.eqb s "asc" then Ok Asc
  else if String.eqb s "desc" then Ok Desc
  else Err (InvalidInput ("order: " +:+ s)).

(** [.map(f).transpose()?] *)
Definition transpose {S A} (f : string → res CoreError A) (o : option string)
    : M CoreError S (option A) :=
  match o with
  | None => ret None
  | Some s => match f s with
              | Ok a => ret (Some a)
              | Err e => throw e
              | Stop w => halt w
              end
  end.

Section admin.
Context {env : Env} {fsenv : FsEnv} {sha : Sha256} {ar : Argon2} {aenv : AuthEnv} {mk : Moka}
  {libs : ListLibs} {jt : JsonText}.
Variable config : Config.

Definition audit (auth : AdminAuth) (action : string) (target : option string) (detail : option Json)
    : M CoreError App unit :=
  zoom lens_db (Stats_audit (aa_token_label auth) action target (json_to_string <$> detail)).

Definition json_response (status : Z) (j : Json) : Response :=
  mkResponse status [("content-type", "application/json")]%string (BodyJson j).
Definition no_content : Response := mkResponse NO_CONTENT [] BodyEmpty.

(** ** Projects ([projects.rs]) *)

Definition create_project (auth : AdminAuth) (name : string) (quota_bytes ttl_seconds : option Z)
    : M CoreError App Response :=
  let* p := zoom lens_db (Projects_create name quota_bytes ttl_seconds) in
  audit auth "project.create" (Some (pretty (p_id p))) (Some (JObj [("name"%string, JStr (p_name p))])) ;*
  ret (json_response CREATED (ProjectView p)).

Definition list_projects : M CoreError App Response :=
  let* v := zoom lens_db Projects_list in
  ret (json_response OK_200 (JArr (ProjectView <$> v))).

Definition get_project (id : Z) : M CoreError App Response :=
  let* p := zoom lens_db (Projects_get id) in
  ret (json_response OK_200 (ProjectView p)).

Definition update_project (auth : AdminAuth) (id : Z) (name : option string)
    (quota_bytes ttl_seconds : JsonField Z) : M CoreError App Response :=
  let* p := zoom lens_db (Projects_update id name (double_option quota_bytes) (double_option ttl_seconds)) in
  audit auth "project.update" (Some (pretty id)) None ;*
  ret (json_response OK_200 (ProjectView p)).

Definition delete_project (auth : AdminAuth) (id : Z) : M CoreError App Response :=
  zoom lens_db (Projects_delete id) ;*
  audit auth "project.delete" (Some (pretty id)) None ;*
  ret no_content.

(** ** API keys ([keys.rs]) *)

Definition create_key (auth : AdminAuth) (id : Z) (role : Role) (label : option string)
    : M CoreError App Response :=
  let* _ := zoom lens_db (Projects_get id) in
  let* secret := generate_secret in
  let lookup := lookup_hash secret in
  let* phc := hash_argon2 secret in
  let* key := zoom lens_db (ApiKeys_create id lookup phc role label) in
  audit auth "key.create" (Some (pretty (k_id key)))
    (Some (JObj [("role"%string, JStr (Role_as_str role))])) ;*
  ret (json_response CREATED (ApiKeyCreated key secret)).

Definition list_keys (id : Z) : M CoreError App Response :=
  let* v := zoom lens_db (ApiKeys_list id) in
  ret (json_response OK_200 (JArr (ApiKeyView <$> v))).

Definition revoke_key_handler (auth : AdminAuth) (id kid : Z) : M CoreError App Response :=
  zoom lens_db (ApiKeys_revoke id kid) ;*
  audit auth "key.revoke" (Some (pretty kid)) None ;*
  ret no_content.

(** ** Admin tokens ([tokens.rs]) *)

Definition create_token (auth : AdminAuth) (label : option string) : M CoreError App Response :=
  let* secret := generate_secret in
  let lookup := lookup_hash secret in
  let* phc := hash_argon2 secret in
  let* t := zoom lens_db (AdminTokens_create lookup phc label) in
  audit auth "token.create" (Some (pretty (t_id t)))
    (Some (JObj [("label"%string, json_opt JStr (t_label t))])) ;*
  ret (json_response CREATED (AdminTokenCreated t secret)).

Definition list_tokens : M CoreError App Response :=
  let* v := zoom lens_db AdminTokens_list in
  ret (json_response OK_200 (JArr (AdminTokenView <$> v))).

Definition revoke_token_handler (auth : AdminAuth) (id : Z) : M CoreError App Response :=
  zoom lens_db (AdminTokens_revoke id) ;*
  audit auth "token.revoke" (Some (pretty id)) None ;*
  ret no_content.

(** ** Entries ([entries.rs]) *)

(** [SELECT count( * ) FROM entries WHERE project_id = ?] *)
Definition count_entries (id : Z) : M CoreError Tables Z :=
  sql (query (λ t, Z.of_nat (length (select (λ e, e_project_id e =? id) (entries t))))).

Definition list_entries (id : Z) (q : ListQuery) : M CoreError App Response :=
  let* _ := zoom lens_db (Projects_get id) in
  let* kind := transpose Kind_from_str (q_kind q) in
  let* sort := transpose parse_sort (q_sort q) in
  let* order := transpose parse_order (q_order q) in
  let filter := mkListFilter kind (q_pinned q) (q_path_prefix q) sort order (q_limit q) (q_cursor q) in
  let* page := zoom lens_db (Entries_list id filter) in
  let body := [("entries", JArr (entry_to_json <$> page_entries page));
               ("has_more", JBool (page_has_more page));
               ("next_cursor", json_opt JStr (page_next_cursor page))]%string in
  if default false (q_count q) then
    let* total := zoom lens_db (count_entries id) in
    ret (json_response OK_200 (JObj (body ++ [("total"%string, JInt total)])))
  else ret (json_response OK_200 (JObj body)).

Definition get_entry (id eid : Z) : M CoreError App Response :=
  let* row := zoom lens_db (sql (query (λ t, entry_of t id eid))) in
  let* e := ok_or (NotFound ("entry " +:+ pretty eid)) row in
  ret (json_response OK_200 (entry_to_json e)).

Definition delete_entry (auth : AdminAuth) (id eid : Z) : M CoreError App Response :=
  zoom lens_db (Entries_delete id eid) ;*
  audit auth "entry.delete" (Some (pretty eid)) None ;*
  ret no_content.

Definition pin (auth : AdminAuth) (id eid : Z) : M CoreError App Response :=
  zoom lens_db (Entries_set_pinned id eid true) ;*
  audit auth "entry.pin" (Some (pretty eid)) None ;*
  ret no_content.

Definition unpin (auth : AdminAuth) (id eid : Z) : M CoreError App Response :=
  zoom lens_db (Entries_set_pinned id eid false) ;*
  audit auth "entry.unpin" (Some (pretty eid)) None ;*
  ret no_content.

(** ** Garbage collection ([gc.rs]) *)

Definition dry_run_detail (dry_run : bool) : Json := JObj [("dry_run"%string, JBool dry_run)].

Definition gc_run (auth : AdminAuth) (dry_run : bool) : M CoreError App Response :=
  let* r := zoom lens_sys (GcSvc_run (gc config) dry_run) in
  audit auth "gc.run" None (Some (dry_run_detail dry_run)) ;*
  inc_gc_runs (if dry_run then "true" else "false") ;*
  ret (json_response OK_200 (JObj
    [("dry_run", JBool dry_run); ("evicted_entries", JInt (evicted_entries r));
     ("evicted_bytes", JInt (evicted_bytes r)); ("freed_blobs", JInt (freed_blobs r));
     ("usage_global_bytes", JInt (usage_global_bytes r))]%string)).

Definition gc_orphan_scan (auth : AdminAuth) (dry_run : bool) : M CoreError App Response :=
  let* r := zoom lens_sys (GcSvc_orphan_scan dry_run) in
  audit auth "gc.orphan_scan" None (Some (dry_run_detail dry_run)) ;*
  ret (json_response OK_200 (JObj
    [("dry_run", JBool dry_run); ("disk_orphans_removed", JInt (disk_orphans_removed r));
     ("db_orphans_removed", JInt (db_orphans_removed r))]%string)).

(** ** Statistics ([stats.rs]) *)

Definition global_stats : M CoreError App Response :=
  let* total := zoom lens_db Blobs_total_size in
  let* ps := zoom lens_db Projects_list in
  ret (json_response OK_200 (JObj
    [("global_bytes", JInt total); ("projects", JInt (Z.of_nat (length ps)))]%string)).

Definition project_stats (id : Z) : M CoreError App Response :=
  let* p := zoom lens_db (Projects_get id) in
  let* usage := zoom lens_db (Entries_project_usage id) in
  let* hits := zoom lens_db (Stats_sum (Some id) "hit" 0) in
  let* puts := zoom lens_db (Stats_sum (Some id) "put" 0) in
  ret (json_response OK_200 (JObj
    [("project", JObj [("id", JInt (p_id p)); ("name", JStr (p_name p));
                       ("quota_bytes", json_opt JInt (p_quota_bytes p))]);
     ("usage_bytes", JInt usage);
     ("hits", JInt hits.1); ("hits_bytes", JInt hits.2);
     ("puts", JInt puts.1); ("puts_bytes", JInt puts.2)]%string)).

Definition audit_query (since limit : option Z) : M CoreError App Response :=
  let* rows := zoom lens_db
    (Stats_audit_since (default 0 since) (clamp 1 1000 (default 100 limit))) in
  ret (json_response OK_200 (JObj [("entries"%string, JArr (audit_row_to_json <$> rows))])).

(** ** Routing *)

Inductive AdminRequest :=
| CreateProject (name : string) (quota_bytes ttl_seconds : option Z)
| ListProjects
| GetProject (id : Z)
| UpdateProject (id : Z) (name : option string) (quota_bytes ttl_seconds : JsonField Z)
| DeleteProject (id : Z)
| CreateKey (id : Z) (role : Role) (label : option string)
| ListKeys (id : Z)
| RevokeKey (id kid : Z)
| CreateToken (label : option string)
| ListTokens
| RevokeToken (id : Z)
| ListEntries (id : Z) (q : ListQuery)
| GetEntryById (id eid : Z)
| DeleteEntry (id eid : Z)
| PinEntry (id eid : Z)
| UnpinEntry (id eid : Z)
| RunGc (dry_run : bool)
| RunOrphanScan (dry_run : bool)
| GlobalStats
| ProjectStats (id : Z)
| AuditLog (since limit : option Z).

Definition admin_handler (auth : AdminAuth) (req : AdminRequest) : M CoreError App Response :=
  match req with
  | CreateProject name q l => create_project auth name q l
  | ListProjects => list_projects
  | GetProject id => get_project id
  | UpdateProject id name q l => update_project auth id name q l
  | DeleteProject id => delete_project auth id
  | CreateKey id role label => create_key auth id role label
  | ListKeys id => list_keys id
  | RevokeKey id kid => revoke_key_handler auth id kid
  | CreateToken label => create_token auth label
  | ListTokens => list_tokens
  | RevokeToken id => revoke_token_handler auth id
  | ListEntries id q => list_entries id q
  | GetEntryById id eid => get_entry id eid
  | DeleteEntry id eid => delete_entry auth id eid
  | PinEntry id eid => pin auth id eid
  | UnpinEntry id eid => unpin auth id eid
  | RunGc dry_run => gc_run auth dry_run
  | RunOrphanScan dry_run => gc_orphan_scan auth dry_run
  | GlobalStats => global_stats
  | ProjectStats id => project_stats id
  | AuditLog since limit => audit_query since limit
  end.

(** [Result<.., ApiError>] as a response. *)
Definition respond (m : M CoreError App Response) : M CoreError App Response :=
  let* r := attempt (F := CoreError) m in
  match r with
  | inr resp => ret resp
  | inl e => ret (ApiError_into_response e)
  end.

(** [auth_admin::middleware] *)
Definition auth_admin_middleware (headers : Headers) (next : AdminAuth → M CoreError App Response)
    : M CoreError App Response :=
  match parse_bearer headers with
  | None => ret unauthorized_bearer
  | Some token =>
      let* r := attempt (zoom lens_auth (authenticate_admin token)) in
      match r with
      | inr a => next a
      | inl Unauthorized => ret unauthorized_bearer
      | inl e => ret (ApiError_into_response e)
      end
  end.

Definition admin_route (headers : Headers) (req : AdminRequest) : M CoreError App Response :=
  auth_admin_middleware headers (λ auth, respond (admin_handler auth req)).

(** ** Every admin request keeps the invariant *)

#[export] Instance Entries_list_keeps id f : DbKeeps (Entries_list id f).
Proof.
  apply (db_keeps_outcome _ (λ t _ t', t' = t) (λ _ e, ∃ msg, e = InvalidInput msg)).
  - intros t _. unfold Entries_list. db_go.
    destruct (f_cursor f) as [c|]; [destruct (Cursor_decode c)|]; db_go; simpl; eauto 6.
  - intros t a t' Ht ->. by apply gentle_refl.
Qed.

Instance count_entries_keeps id : DbKeeps (count_entries id).
Proof.
  apply (db_keeps_outcome _ (λ t _ t', t' = t) (λ _ _, False)); [|intros; subst; by apply gentle_refl].
  intros t _. unfold count_entries. by db_go.
Qed.
Instance get_entry_query_keeps id eid : DbKeeps (sql (query (λ t, entry_of t id eid))).
Proof.
  apply (db_keeps_outcome _ (λ t _ t', t' = t) (λ _ _, False)); [|intros; subst; by apply gentle_refl].
  intros t _. by db_go.
Qed.
Context {R : App → App → Prop} {ev : Steady R}.
Instance transpose_does {A} (f : string → res CoreError A) o :
  (∀ s, no_stop (f s)) → Does R (transpose f o).
Proof. intros Hf. destruct o as [s|]; simpl; [specialize (Hf s); destruct (f s); [apply _..|done]|apply _]. Qed.
Lemma Kind_from_str_no_stop s : no_stop (Kind_from_str s).
Proof. unfold Kind_from_str. by repeat case_match. Qed.
Lemma parse_sort_no_stop s : no_stop (parse_sort s).
Proof. unfold parse_sort. by repeat case_match. Qed.
Lemma parse_order_no_stop s : no_stop (parse_order s).
Proof. unfold parse_order. by repeat case_match. Qed.

(** The only request that leaves references counted for entries that are gone, and
    the ones that delete files. *)
Definition deletes_project (req : AdminRequest) : bool :=
  match req with DeleteProject _ => true | _ => false end.
Definition sweeps_files (req : AdminRequest) : bool :=
  match req with RunGc dry_run | RunOrphanScan dry_run => negb dry_run | _ => false end.

Lemma admin_handler_does auth req :
  (deletes_project req = true → Lossy R) → (sweeps_files req = true → Sweeps R) →
  Does R (admin_handler auth req).
Proof.
  intros Hlo Hsw.
  destruct req as [| | | |id| | | | | | | | | | | |dry_run|dry_run| | |]; simpl in *;
    try (pose proof (Hlo eq_refl)); try (destruct dry_run; [|pose proof (Hsw eq_refl)]);
    unfold create_project, list_projects, get_project, update_project, delete_project, create_key,
      list_keys, revoke_key_handler, create_token, list_tokens, revoke_token_handler, list_entries,
      get_entry, delete_entry, pin, unpin, gc_run, gc_orphan_scan, global_stats, project_stats,
      audit_query, audit;
    does_go; apply transpose_does;
    auto using Kind_from_str_no_stop, parse_sort_no_stop, parse_order_no_stop.
Qed.
Lemma admin_route_does headers req :
  (deletes_project req = true → Lossy R) → (sweeps_files req = true → Sweeps R) →
  Does R (admin_route headers req).
Proof.
  intros Hlo Hsw. unfold admin_route, auth_admin_middleware, respond.
  pose proof (λ auth, admin_handler_does auth req Hlo Hsw). does_go.
Qed.
#[export] Instance admin_route_any {lo : Lossy R} {sw : Sweeps R} headers req :
  Does R (admin_route headers req).
Proof. by apply admin_route_does. Qed.
End admin.

(** ** Created credentials *)

Section created.
Context {env : Env} {fsenv : FsEnv} {sha : Sha256} {ar : Argon2} {aenv : AuthEnv} {mk : Moka}
  {libs : ListLibs} {jt : JsonText}.

Lemma wp_generate_secret {E S} (Q : res E string → S → Prop) s :
  (∀ secret, Q (Ok secret) s) → wp generate_secret Q s.
Proof. intros H n. apply H. Qed.

Lemma wp_hash_argon2 {S} secret (Q : res CoreError string → S → Prop) s :
  (∀ e, Q (Err (Crypto e)) s) →
  (∀ phc, phc_error phc = None → argon2_matches secret phc = true → Q (Ok phc) s) →
  wp (hash_argon2 secret) Q s.
Proof.
  intros He Ho n. unfold hash_argon2, bind, rand_fill. simpl.
  destruct (argon2_hash secret _) as [e|phc] eqn:Hh; simpl; [apply He|].
  apply argon2_round_trip in Hh as [H1 H2]. by apply Ho.
Qed.

(** Auditing writes the log only. *)
Lemma audit_spec auth action target detail s :
  wp (audit auth action target detail) (λ r s', projects (app_db s') = projects (app_db s) ∧
    api_keys (app_db s') = api_keys (app_db s) ∧ no_stop r) s.
Proof.
  unfold audit. wp_go. wp_use Stats_audit_spec. intros [[]|e|w] t' Hr; simpl; [| |done].
  - by destruct Hr as (id & now & _ & _ & ->).
  - by destruct Hr as [_ ->].
Qed.

Lemma create_key_keeps auth id role label : Keeps (create_key auth id role label).
Proof. unfold create_key, audit. does_go. Qed.

Definition key_accepted (id : Z) (role : Role) (s' : App) (resp : Response) : Prop :=
  ∃ p key secret, projects (app_db s') !! id = Some p ∧ k_role key = role ∧
    k_project_id key = id ∧ resp = json_response CREATED (ApiKeyCreated key secret) ∧
    vouched (app_db s') (p_name p) secret (mkProjectAuth (p_id p) (p_name p) (k_id key) role).

Lemma create_key_spec auth id role label s :
  schema_ok (app_db s) →
  wp (create_key auth id role label)
    (λ r s', match r with Ok resp => key_accepted id role s' resp | Err _ => True | Stop _ => False end) s.
Proof.
  intros Hok. unfold create_key. wp_go. wp_use Projects_get_spec.
  intros [p|e|w] t1 Hp; simpl; [|done..]. destruct Hp as [-> Hp]. simpl in Hp.
  wp_go. apply wp_generate_secret. intros secret. wp_go. apply wp_hash_argon2; [done|].
  intros phc Hphc Hmatch. wp_go. wp_use ApiKeys_create_spec. simpl.
  intros [key|e|w] t2 Hk; simpl; [|done..].
  destruct Hk as (kid & now & _ & _ & -> & _ & _ & ->). wp_go.
  wp_use audit_spec. simpl. intros [[]|e|w] s' (Hps & Hks & Hn); simpl; [|done..]. wp_go.
  destruct (so_projects _ Hok) as [_ Hids]. destruct (Hids _ _ Hp) as [Hid _].
  exists p, (mkApiKey kid id (lookup_hash secret) phc role label now None), secret.
  simpl. rewrite Hps. split_and!; try done.
  exists id, p, kid, (mkApiKey kid id (lookup_hash secret) phc role label now None).
  rewrite Hps, Hks, lookup_insert_eq. split_and!; try done.
  unfold active_key. simpl. by rewrite Hid, Z.eqb_refl, String.eqb_refl.
Qed.
End created.

(** ** Theorems *)

(** C29: the secret that the API hands out when it creates a key works: the database
    vouches for it under the project's name with the role asked for, and, as long as
    nothing fails and no other authentication is cached under the same lookup hash,
    authenticating with it succeeds and gives exactly that role in that project. *)
Theorem created_key_is_accepted `{!Env, !FsEnv, !Sha256, !Argon2, !AuthEnv, !Moka, !ListLibs, !JsonText}
    auth id role label s n resp s' n' m :
  Quiet → (∀ k, auth_join_error k = None) → app_ok s →
  create_key auth id role label s n = (Ok resp, s', n') →
  ∃ p key secret, projects (app_db s') !! id = Some p ∧
    resp = json_response CREATED (ApiKeyCreated key secret) ∧ k_role key = role ∧
    (last_inserted (project_scope (p_name p), lookup_hash secret)
       (vc_inserted (project_cache (app_auth s'))) = None →
     (authenticate_project (p_name p) secret (app_db s', app_auth s') m).1.1
       = Ok (mkProjectAuth (p_id p) (p_name p) (k_id key) role)).
Proof.
  intros Hq Hj Hs Hrun.
  assert (app_ok s') as Hs'
    by (by destruct (wp_run _ _ _ _ _ _ _ (create_key_keeps auth id role label s Hs) Hrun)).
  destruct (wp_run _ _ _ _ _ _ _ (create_key_spec auth id role label s
    (ro_schema _ (sys_refs _ (ao_sys _ Hs)))) Hrun) as (p & key & secret & Hp & Hrole & _ & -> & Hv).
  exists p, key, secret. split_and!; try done. intros Hnone.
  apply authenticate_project_iff; [done|done|apply (ro_schema _ (sys_refs _ (ao_sys _ Hs')))|done|done].
Qed.
