(* ===== verification/Server.v ===== *)
(** * The running server

    Start-up ([crates/marmotte-cli/src/commands/serve.rs], [init.rs]), the router
    and its background work ([crates/marmotte-server/src/lib.rs]) as a step
    relation: requests on any route, spawned tasks and ticks of the collector in
    any order, under any behaviour of clock, database and file system, and
    restarts.  Every reachable state can serve every entry it lists. *)
From stdpp Require Import base numbers list strings gmap relations pretty.
From Stdlib Require Import ZArith Lia.
From S2P Require Import Prelude Models Db Blobs Entries Projects Credentials Stats Storage Config Gc GcRun Orphans Auth Http Metrics App Yocto Listing Admin.

(** [AppState::new] around the parts that [serve] has wired up. *)
Definition AppState_new (t : Tables) (fs : Fs) (svc : AuthSvc) : App := mkApp t fs svc metrics_init [].

Section server.
Context {env : Env} {fsenv : FsEnv} {sha : Sha256} {ar : Argon2} {aenv : AuthEnv} {mk : Moka}
  {b64 : Base64} {libs : ListLibs} {jt : JsonText}.
Variable config : Config.

(** [Db::connect]: the directory of the database file is made, the pool is opened and
    pending migrations are applied.  The tables of a state are those after the
    migrations, so what is left of them is that each step may fail. *)
Definition migration_error (e : CoreError) : CoreError :=
  match e with Database x => Migration (SqlxError_to_string x) | e => e end.
Definition Db_connect : M CoreError App unit :=
  zoom lens_store (io (fs_op no_part (λ fs, inr (tt, fs)))) ;*
  zoom lens_db (sql (query (λ _, tt))) ;*
  zoom lens_db (map_err migration_error (sql (query (λ _, tt)))).

(** [serve::run] up to the moment it listens; what was in memory before is gone. *)
Definition serve_boot : M CoreError App unit :=
  Db_connect ;*
  zoom lens_store LocalFsStore_open ;*
  let* svc := AuthSvc_new (auth config) in
  modify (λ s, AppState_new (app_db s) (app_store s) svc).

(** The part of [init::run] that works on store and database: the token it makes, and
    its secret. *)
Definition init_run : M CoreError App (AdminToken * string) :=
  zoom lens_store LocalFsStore_open ;*
  Db_connect ;*
  let* secret := generate_secret in
  let lookup := lookup_hash secret in
  let* phc := hash_argon2 secret in
  let* token := zoom lens_db (AdminTokens_create lookup phc (Some "init"%string)) in
  ret (token, secret).

(** Errors of background work are only logged. *)
Definition logged (m : M CoreError App unit) : M CoreError App unit :=
  let* _ := attempt (F := CoreError) m in ret tt.

Definition gc_tick : M CoreError App unit :=
  logged (let* _ := zoom lens_sys (GcSvc_run (gc config) false) in ret tt).

Definition run_task (x : Task) : M CoreError App unit :=
  match x with
  | TouchEntry id => zoom lens_db (Entries_touch id)
  | SweepAfterPut => logged (let* _ := zoom lens_sys (GcSvc_run (gc config) false) in ret tt)
  end.

(** ** Public routes ([routes/public.rs]) *)

Definition healthz : M CoreError App Response := ret (mkResponse OK_200 [] (BodyText (line "ok"))).

Definition probe : path := ["tmp"; ".readyz"]%string.

Definition readyz : M CoreError App Response :=
  let* ping := attempt (F := CoreError) (zoom lens_db (sql (query (λ _, tt)))) in
  match ping with
  | inl _ => ret (mkResponse SERVICE_UNAVAILABLE [] (BodyText (line "db_unavailable")))
  | inr _ =>
      let* w := attempt (F := CoreError) (zoom lens_store (io (fs_create probe ;* fs_write_all probe [Byte.x72]))) in
      match w with
      | inl _ => ret (mkResponse SERVICE_UNAVAILABLE [] (BodyText (line "storage_unwritable")))
      | inr _ =>
          let* _ := attempt (F := CoreError) (zoom lens_store (io (fs_remove_file probe))) in
          ret (mkResponse OK_200 [] (BodyText (line "ready")))
      end
  end.

Definition metrics_page : M CoreError App Response :=
  let* families := gets app_metrics in
  match metrics_text families with
  | Some buf => ret (mkResponse OK_200 [] (BodyText buf))
  | None => ret (mkResponse INTERNAL_SERVER_ERROR [] BodyEmpty)
  end.

(** ** Requests and steps *)

Inductive Request :=
| Healthz
| Readyz
| MetricsPage
| Yocto (headers : Headers) (req : YoctoRequest)
| AdminApi (headers : Headers) (req : AdminRequest).

Definition handle (req : Request) : M CoreError App Response :=
  match req with
  | Healthz => healthz
  | Readyz => readyz
  | MetricsPage => metrics_page
  | Yocto headers req => yocto_route config headers req
  | AdminApi headers req => admin_route config headers req
  end.

Definition set_tasks (l : list Task) (s : App) : App :=
  mkApp (app_db s) (app_store s) (app_auth s) (app_metrics s) l.

(** The state in which a computation started at position [n] ends. *)
Definition ends {A} (m : M CoreError App A) (n : nat) (s s' : App) : Prop := (m s n).1.2 = s'.
End server.

(** What may happen next. *)
Inductive Event :=
| EvRequest (req : Request)
| EvTask (x : Task)
| EvTick
| EvRestart
| EvInit.

Inductive server_does `{!Sha256, !Argon2, !Base64, !ListLibs, !JsonText} (config : Config)
    : Event → App → App → Prop :=
| does_request `{!Env, !FsEnv, !AuthEnv, !Moka} req n s s' :
    ends (handle config req) n s s' → server_does config (EvRequest req) s s'
| does_task `{!Env, !FsEnv} x l1 l2 n s s' :
    app_tasks s = l1 ++ x :: l2 →
    ends (run_task config x) n (set_tasks (l1 ++ l2) s) s' → server_does config (EvTask x) s s'
| does_tick `{!Env, !FsEnv} n s s' :
    ends (gc_tick config) n s s' → server_does config EvTick s s'
| does_restart `{!Env, !FsEnv} n s s' :
    ends (serve_boot config) n s s' → server_does config EvRestart s s'
| does_init `{!Env, !FsEnv, !AuthEnv} n s s' :
    ends init_run n s s' → server_does config EvInit s s'.

Definition server_step `{!Sha256, !Argon2, !Base64, !ListLibs, !JsonText} (config : Config)
    (s s' : App) : Prop := ∃ ev, server_does config ev s s'.

(** ** The invariant is kept *)

Section server_keeps.
Context {sha : Sha256} {ar : Argon2} {b64 : Base64} {libs : ListLibs} {jt : JsonText}.
Variable config : Config.

Context {env : Env} {fsenv : FsEnv} {R : App → App → Prop} {ev : Steady R}.

#[export] Instance logged_does m : Does R m → Does R (logged m).
Proof. intros Hm. unfold logged. does_go. Qed.
#[export] Instance gc_tick_does {sw : Sweeps R} : Does R (gc_tick config).
Proof. unfold gc_tick. does_go. Qed.
Lemma run_task_does x : (x = SweepAfterPut → Sweeps R) → Does R (run_task config x).
Proof. intros Hsw. destruct x; simpl; [does_go|pose proof (Hsw eq_refl); does_go]. Qed.

(** Work on the store that leaves every blob alone. *)
Lemma store_call_does {A} (m : M CoreError Fs A) :
  (∀ fs, store_ok fs → opened fs →
     wp m (λ r fs', store_ok fs' ∧ same_blobs fs fs' ∧ no_stop r) fs) →
  Does R (zoom lens_store m).
Proof.
  intros Hm s Hs. apply wp_zoom. eapply wp_mono; [apply Hm; apply Hs|].
  intros r fs' (Hst & Hsame & Hr). pose proof (same_blobs_ok _ _ Hs Hst Hsame).
  split_and!; [done| |done]. apply steady; [done|done|by apply contents_le|by intros h|].
  intros h Hh. simpl. by rewrite (same_blobs_at _ _ h Hsame).
Qed.

(** The probe file lives under [tmp/]. *)
Lemma probe_change fs fs' :
  store_ok fs → opened fs →
  (∀ p, p ≠ probe → fs_files fs' !! p = fs_files fs !! p) → fs_dirs fs' = fs_dirs fs →
  store_ok fs' ∧ same_blobs fs fs'.
Proof.
  intros Hst [_ Hop] Hp Hd. assert (same_blobs fs fs') as Hsame.
  { split; [|by rewrite Hd]. intros p Hn. apply Hp. intros ->. apply Hn. by eexists. }
  split; [|done]. eapply store_ok_tmp; [done..|]. by right.
Qed.

#[export] Instance probe_write_does :
  Does R (zoom lens_store (io (fs_create probe ;* fs_write_all probe [Byte.x72]))).
Proof.
  apply store_call_does. intros fs Hst Hop. pose proof (same_blobs_refl fs).
  apply wp_io. wp_go. apply wp_fs_op; simpl; [done|].
  destruct (bool_decide _ && _); simpl; [|done].
  apply wp_fs_op; simpl; [intros x k _|]; apply and_group; try done;
    (apply probe_change; [done..| |done]); intros p Hp; unfold append_to; cbn [set_files fs_files];
    by rewrite lookup_alter_ne, lookup_insert_ne.
Qed.
#[export] Instance probe_remove_does : Does R (zoom lens_store (io (fs_remove_file probe))).
Proof.
  apply store_call_does. intros fs Hst Hop. pose proof (same_blobs_refl fs).
  apply wp_io, wp_fs_op; simpl; [done|].
  destruct (fs_files fs !! probe); simpl; [|done]. apply and_group; [|done].
  apply probe_change; [done..| |done]. intros p Hp. cbn [set_files fs_files]. by rewrite lookup_delete_ne.
Qed.
#[export] Instance ping_keeps : DbKeeps (sql (query (λ _, tt))).
Proof.
  apply (db_keeps_outcome _ (λ t _ t', t' = t) (λ _ _, False)); [|intros; subst; by apply gentle_refl].
  intros t _. by db_go.
Qed.
#[export] Instance readyz_does : Does R readyz.
Proof. unfold readyz. does_go. Qed.

Instance migrate_keeps : DbKeeps (map_err migration_error (sql (query (λ _, tt)))).
Proof.
  intros t Ht. apply wp_map_err. eapply wp_mono; [by apply ping_keeps|]. by intros [] t'.
Qed.
#[export] Instance connect_dir_does : Does R (zoom lens_store (io (fs_op no_part (λ fs, inr (tt, fs))))).
Proof.
  apply store_call_does. intros fs Hst _. pose proof (same_blobs_refl fs).
  by apply wp_io, wp_fs_op.
Qed.
#[export] Instance Db_connect_does : Does R Db_connect.
Proof. unfold Db_connect. does_go. Qed.

#[export] Instance open_does : Does R (zoom lens_store LocalFsStore_open).
Proof.
  apply store_call_does. intros fs Hst _. wp_use open_outcome; [done|].
  intros r fs' (Hst' & Hsame & Hr). split_and!; [done..|by destruct r].
Qed.
(** A start does no harm either; it panics only where moka does. *)
Lemma serve_boot_wp s :
  app_ok s → wp (serve_boot config) (λ r s', app_ok s' ∧ R s s' ∧ (moka_builds (auth config) = true → no_stop r)) s.
Proof.
  intros Hs. unfold serve_boot.
  assert (∀ A (m : M CoreError App A) (k : A → M CoreError App unit) s1, Does R m → app_ok s1 → R s s1 →
    (∀ a s2, app_ok s2 → R s s2 →
       wp (k a) (λ r s', app_ok s' ∧ R s s' ∧ (moka_builds (auth config) = true → no_stop r)) s2) →
    wp (bind m k) (λ r s', app_ok s' ∧ R s s' ∧ (moka_builds (auth config) = true → no_stop r)) s1) as Hbind.
  { intros A m k s1 Hm Hs1 HR Hk. apply wp_bind. eapply wp_mono; [by apply Hm|].
    intros r s2 (Hs2 & HR2 & Hr). assert (R s s2) by by etransitivity. destruct r; [by apply Hk|done..]. }
  apply Hbind; [apply _|done|done|]. intros _ s1 Hs1 HR1. apply Hbind; [apply _|done..|]. intros _ s2 Hs2 HR2.
  apply wp_bind, wp_AuthSvc_new. destruct (moka_builds (auth config)) eqn:Hb; simpl; [|done].
  apply wp_modify. assert (app_ok (AppState_new (app_db s2) (app_store s2) (no_logins (auth config)))) as Hs3
    by by destruct Hs2.
  split; [done|]. split; [|done]. etransitivity; [exact HR2|].
  apply steady; [done|done|intros k v; by eauto|by intros h|by intros h].
Qed.

Context {aenv : AuthEnv} {mk : Moka}.
#[export] Instance init_run_does : Does R init_run.
Proof. unfold init_run. does_go. Qed.
End server_keeps.

#[export] Instance handle_keeps `{!Env, !FsEnv, !Sha256, !Argon2, !AuthEnv, !Moka, !Base64, !ListLibs, !JsonText}
    config req : Keeps (handle config req).
Proof. destruct req; simpl; unfold healthz, metrics_page; (apply _ || does_go). Qed.

Lemma does_ends `{!Sha256} R {A} (m : M CoreError App A) n s s' :
  Does R m → app_ok s → ends m n s s' → app_ok s' ∧ R s s'.
Proof. intros Hm Hs <-. by destruct (Hm s Hs n) as (? & ? & _). Qed.

(** Requests under which a project stays. *)
Definition keeps_projects (req : Request) : bool :=
  match req with AdminApi _ areq => negb (deletes_project areq) | _ => true end.
Definition request_sweeps (req : Request) : bool :=
  match req with AdminApi _ areq => sweeps_files areq | _ => false end.

(** What every route does, given what a PUT does. *)
Lemma handle_does `{!Env, !FsEnv, !Sha256, !Argon2, !AuthEnv, !Moka, !Base64, !ListLibs, !JsonText}
    R `{!Steady R} config req :
  (keeps_projects req = false → Lossy R) → (request_sweeps req = true → Sweeps R) →
  (∀ auth kind url path body, Does R (do_put config auth kind url path body)) →
  Does R (handle config req).
Proof.
  intros Hlo Hsw Hput. destruct req as [| | |headers req|headers req]; simpl in *;
    unfold healthz, metrics_page, yocto_route, auth_project_middleware; [apply _..|does_go| |].
  - destruct req as [[]|[]|[]]; simpl; unfold put_sstate, put_downloads, put_handler; does_go.
  - refine (admin_route_does config headers req _ Hsw). intros Hdel. apply Hlo. by rewrite Hdel.
Qed.

(** Taking a task off the queue. *)
Lemma set_tasks_ok `{!Sha256} l s : app_ok s → app_ok (set_tasks l s).
Proof. by intros [Hs Ho]. Qed.

(** The events that delete files. *)
Definition event_sweeps (ev : Event) : bool :=
  match ev with
  | EvRequest req => request_sweeps req
  | EvTask SweepAfterPut | EvTick => true
  | _ => false
  end.

(** Every step but a request is steady, or a sweep. *)
Lemma server_does_cases `{!Sha256, !Argon2, !Base64, !ListLibs, !JsonText} R `{!Steady R} config ev s s' :
  (event_sweeps ev = true → Sweeps R) → server_does config ev s s' → app_ok s →
  (∃ (env : Env) (fsenv : FsEnv) (aenv : AuthEnv) (mk : Moka) req n,
     ev = EvRequest req ∧ ends (handle config req) n s s') ∨
  (app_ok s' ∧ R s s').
Proof.
  intros Hsw Hst Hs.
  destruct Hst as [? ? ? ? req n s s' He|? ? x l1 l2 n s s' _ He|? ? n s s' He|? ? n s s' He|? ? ? n s s' He].
  - left. by eexists _, _, _, _, req, n.
  - right. assert (Does R (run_task config x)) as Hx.
    { refine (run_task_does config x _). intros ->. exact (Hsw eq_refl). }
    destruct (does_ends R _ n _ _ Hx (set_tasks_ok (l1 ++ l2) s Hs) He) as [Hs' HR].
    split; [done|]. etransitivity; [|exact HR].
    apply steady; [done|by apply set_tasks_ok|intros k v; by eauto|by intros h|by intros h].
  - right. pose proof (Hsw eq_refl). refine (does_ends R _ _ _ _ _ Hs He).
  - right. destruct (serve_boot_wp (R := R) config s Hs n) as (? & ? & _). unfold ends in He. by rewrite He in *.
  - right. refine (does_ends R _ _ _ _ _ Hs He).
Qed.

Lemma server_step_ok `{!Sha256, !Argon2, !Base64, !ListLibs, !JsonText} config s s' :
  server_step config s s' → app_ok s → app_ok s'.
Proof.
  intros [ev Hst] Hs.
  destruct (server_does_cases anyhow _ _ _ _ (λ _, anyhow_sweeps) Hst Hs) as [(? & ? & ? & ? & req & n & _ & He)|[? _]]; [|done].
  by destruct (does_ends anyhow _ _ _ _ (handle_keeps config req) Hs He).
Qed.

(** The state before the first start: a migrated database and an empty directory. *)
Definition blank (config : Config) : App := AppState_new empty_tables (mkFs ∅ ∅) (no_logins (auth config)).

(** ... and after opening the store. *)
Definition opened_dirs : gset path := {[ []; ["blobs"%string]; ["tmp"%string] ]}.
Definition fresh (config : Config) : App := AppState_new empty_tables (mkFs ∅ opened_dirs) (no_logins (auth config)).

Lemma ids_ok_empty {A} (f : A → Z) : ids_ok f ∅ 0.
Proof. split; [by unfold i64_max|]. by intros i x Hi. Qed.
Lemma unique_on_empty {A B} (f : A → B) : unique_on f ∅.
Proof. by intros i j x y Hi. Qed.

Lemma schema_empty : schema_ok empty_tables.
Proof.
  split; simpl; auto using ids_ok_empty, unique_on_empty; try by intros i x Hi.
  intros r p Hr. by apply not_elem_of_nil in Hr.
Qed.

Lemma refs_empty : refs_ok empty_tables.
Proof. split; [apply schema_empty| |by intros h b Hb]. intros h. done. Qed.

Lemma fresh_ok `{!Sha256} config : app_ok (fresh config).
Proof.
  split.
  - split; simpl; [apply refs_empty| |by intros i e Hi].
    split; [by intros p c Hp| |]; simpl; unfold opened_dirs; intros p.
    + rewrite !elem_of_union, !elem_of_singleton. intros [[->| ->]| ->]; simpl; auto with lia.
    + rewrite !elem_of_union, !elem_of_singleton. intros [[? Hp]|[[->| ->]| ->]]; [done|by auto..].
  - unfold opened. simpl. unfold opened_dirs. set_solver.
Qed.

Lemma steps_ok `{!Sha256, !Argon2, !Base64, !ListLibs, !JsonText} config s s' :
  rtc (server_step config) s s' → app_ok s → app_ok s'.
Proof. induction 1; eauto using server_step_ok. Qed.

Lemma reachable_ok `{!Sha256, !Argon2, !Base64, !ListLibs, !JsonText} config s :
  rtc (server_step config) (fresh config) s → app_ok s.
Proof. intros Hr. exact (steps_ok config _ _ Hr (fresh_ok config)). Qed.

(** ** Strangers *)

Section strangers.
Context {env : Env} {fsenv : FsEnv} {sha : Sha256} {ar : Argon2} {aenv : AuthEnv} {mk : Moka}
  {b64 : Base64} {libs : ListLibs} {jt : JsonText}.
Variable config : Config.

(** Neither the database nor the cache knows the credentials of a request. *)
Definition stranger (s : App) (req : Request) : Prop :=
  match req with
  | Healthz | Readyz | MetricsPage => False
  | Yocto headers _ => ∀ c, parse_basic headers = Some c →
      (∀ a, ¬ vouched (app_db s) (user c) (pass c) a) ∧
      last_inserted (project_scope (user c), lookup_hash (pass c))
        (vc_inserted (project_cache (app_auth s))) = None
  | AdminApi headers _ => ∀ token, parse_bearer headers = Some token →
      (∀ a, ¬ vouched_admin (app_db s) token a) ∧
      last_inserted ("admin"%string, lookup_hash token)
        (vc_inserted (admin_cache (app_auth s))) = None
  end.

Definition refused (s : App) (r : res CoreError Response) (s' : App) : Prop :=
  s' = s ∧ ∃ resp, r = Ok resp ∧
    (resp_status resp = UNAUTHORIZED ∨ resp_status resp = INTERNAL_SERVER_ERROR).

(** The two middlewares treat a failed authentication alike. *)
Lemma auth_error_refused s e (unauthorized : Response) :
  resp_status unauthorized = UNAUTHORIZED → auth_err e →
  wp (match e with
      | Unauthorized => ret unauthorized
      | _ => ret (ApiError_into_response e)
      end) (refused s) s.
Proof.
  intros Hu [->|[(x & _ & ->)|(msg & [->| ->])]]; apply wp_ret; (split; [done|]); eexists; eauto.
Qed.

Lemma handle_stranger req s : stranger s req → wp (handle config req) (refused s) s.
Proof.
  intros Hstr. destruct req as [| | |headers req|headers req]; [done|done|done|..]; simpl in *.
  - unfold yocto_route, auth_project_middleware.
    destruct (parse_basic headers) as [c|]; [|by apply wp_ret; split; [|eexists; eauto]].
    destruct (Hstr c eq_refl) as [Hv Hn]. wp_go. intros n. simpl.
    destruct (authenticate_project (user c) (pass c) _ n) as [[r [t' svc']] n'] eqn:Hrun.
    apply authenticate_project_run in Hrun as (Ht & _ & _ & Hr). simpl in *. subst t'.
    destruct r as [a|e|w]; simpl; [exfalso| |done].
    + destruct Hr as [(_ & m & Hm & _)|[Ha _]]; [congruence|by eapply Hv].
    + destruct Hr as [He ->]. wp_go.
      replace (mkApp _ _ _ _ _) with s by (by destruct s).
      by apply (auth_error_refused s e unauthorized_basic).
  - unfold admin_route, auth_admin_middleware.
    destruct (parse_bearer headers) as [token|]; [|by apply wp_ret; split; [|eexists; eauto]].
    destruct (Hstr token eq_refl) as [Hv Hn]. wp_go. intros n. simpl.
    destruct (authenticate_admin token _ n) as [[r [t' svc']] n'] eqn:Hrun.
    apply authenticate_admin_run in Hrun as (Ht & _ & _ & Hr). simpl in *. subst t'.
    destruct r as [a|e|w]; simpl; [exfalso| |done].
    + destruct Hr as [(_ & m & Hm & _)|[Ha _]]; [congruence|by eapply Hv].
    + destruct Hr as [He ->]. wp_go.
      replace (mkApp _ _ _ _ _) with s by (by destruct s).
      by apply (auth_error_refused s e unauthorized_bearer).
Qed.
End strangers.

(** ** Coming back *)

Section recovery.
Context {env : Env} {fsenv : FsEnv} {sha : Sha256}.
Variable config : Config.

(** The probe of [/readyz] answers "ready" when nothing fails. *)
Lemma readyz_ready s :
  Quiet → fs_quiet → app_ok s →
  wp readyz (λ r _, r = Ok (mkResponse OK_200 [] (BodyText (line "ready")))) s.
Proof.
  intros Hq Hfq [[_ Hst _] [_ Htmp]].
  assert (∀ A (part : nat → Fs → Fs) op (Q : res IoError A → Fs → Prop) fs,
    match op fs with inl x => Q (Err x) fs | inr (a, fs') => Q (Ok a) fs' end →
    wp (fs_op part op) Q fs) as Hop.
  { intros A part op Q fs HQ. apply wp_fs_op; [|done]. by intros x k ?%fs_quiet_faulty. }
  unfold readyz. wp_go.
  eapply (wp_mono _ (outcome (app_db s) (λ _ t', t' = app_db s) (λ _, False))); [by db_go|].
  intros [[]|e|w] t' Ht; simpl in *; [|by destruct Ht as [[?%db_fault_quiet|[]] _]|done].
  subst t'. wp_go. apply wp_io. wp_go. apply Hop. simpl.
  rewrite bool_decide_eq_true_2 by done.
  rewrite bool_decide_eq_false_2 by (by apply tmp_not_dir). simpl. apply Hop. simpl. wp_go.
  apply wp_io, Hop. simpl. destruct (_ !! _); simpl; by wp_go.
Qed.

Lemma Db_connect_quiet s : Quiet → fs_quiet → wp Db_connect (λ r s', r = Ok tt ∧ s' = s) s.
Proof.
  intros Hq Hfq. unfold Db_connect. wp_go. apply wp_io, wp_fs_op; [by intros x k ?%fs_quiet_faulty|].
  simpl. wp_go. eapply (wp_mono _ (outcome (app_db s) (λ _ t', t' = app_db s) (λ _, False))); [by db_go|].
  intros [[]|e|w] t' Ht; simpl in *; [|by destruct Ht as [[?%db_fault_quiet|[]] _]|done]. subst t'. wp_go.
  eapply (wp_mono _ (outcome (app_db s) (λ _ t', t' = app_db s) (λ _, False))); [by db_go|].
  intros [[]|e|w] t' Ht; simpl in *; [|by destruct Ht as [[?%db_fault_quiet|[]] _]|done]. subst t'.
  by destruct s.
Qed.

(** Opening an intact store succeeds when nothing fails; what is left is up to moka. *)
Lemma serve_boot_recovers s :
  Quiet → fs_quiet → app_ok s →
  wp (serve_boot config) (λ r s', app_ok s' ∧ app_db s' = app_db s ∧
    same_blobs (app_store s) (app_store s') ∧ (∀ p, is_tmp p → fs_files (app_store s') !! p = None) ∧
    if moka_builds (auth config)
    then r = Ok tt ∧ s' = AppState_new (app_db s) (app_store s') (no_logins (auth config))
    else r = Stop Panicked) s.
Proof.
  intros Hq Hfq Hs. unfold serve_boot. apply wp_bind. eapply wp_mono; [by apply Db_connect_quiet|].
  intros r s1 [-> ->]. simpl. wp_go. wp_use open_outcome; [apply Hs|].
  intros [[]|e|w] fs' (Hst & Hsame & Hr); simpl; [| |done].
  2: { by destruct Hr as (x & Hx%fs_quiet_faulty & _). }
  destruct Hr as [_ Hp]. destruct (same_blobs_ok s fs' Hs Hst Hsame) as [Hsys Ho].
  apply wp_bind, wp_AuthSvc_new. destruct (moka_builds (auth config)); simpl; [apply wp_modify|];
    (split_and!; [done|done|done|by apply Hp|done..]).
Qed.
End recovery.

(** ** Theorems *)

(** C2: in every state the server can reach, by requests on any route, spawned tasks,
    ticks of the collector, restarts and runs of [init], in any order and under any behaviour of the
    clock, the database and the file system around it, every entry can be served: its
    project exists, its blob row counts at least its reference, and the file under its
    hash is there with content of exactly that hash.  No request panics. *)
Theorem reachable_serves_every_entry `{!Sha256, !Argon2, !Base64, !ListLibs, !JsonText} config s :
  rtc (server_step config) (fresh config) s →
  (∀ i e, entries (app_db s) !! i = Some e →
     is_Some (projects (app_db s) !! e_project_id e) ∧
     (∃ b, blobs (app_db s) !! e_blob_hash e = Some b ∧
           1 <= ref_entries (app_db s) (e_blob_hash e) <= b_refcount b) ∧
     ∃ c, blob_at (app_store s) (e_blob_hash e) = Some c ∧ sha256_hex c = e_blob_hash e) ∧
  ∀ (env : Env) (fsenv : FsEnv) (aenv : AuthEnv) (mk : Moka) req n,
    no_stop (handle config req s n).1.1.
Proof.
  intros Hr. pose proof (reachable_ok config s Hr) as Hs. split.
  - intros i e Hi. destruct (app_ok_entry s i e Hs Hi) as (_ & c & Hc & Hsha).
    destruct Hs as [[[Hok Hcov _] _ _] _]. simpl in *.
    destruct (so_entry_blob _ Hok _ _ Hi) as [b Hb].
    split; [by eapply so_entry_project|]. split; [|by eauto].
    exists b. split; [done|]. specialize (Hcov (e_blob_hash e)). unfold slack, refcount_of in Hcov.
    rewrite Hb in Hcov. pose proof (ref_entries_pos _ _ _ Hi). lia.
  - intros env fsenv aenv mk req n. by apply (handle_keeps config req s Hs n).
Qed.

(** C30: a request without valid credentials has no effect: if neither the database
    nor the cache vouches for what the Authorization header holds, if anything, the
    answer of a project or admin route is 401, or 500 when the check itself failed,
    and the whole state is exactly as before. *)
Theorem strangers_change_nothing `{!Env, !FsEnv, !Sha256, !Argon2, !AuthEnv, !Moka, !Base64, !ListLibs, !JsonText}
    config req s n :
  stranger s req →
  ∃ resp, (handle config req s n).1 = (Ok resp, s) ∧
    (resp_status resp = UNAUTHORIZED ∨ resp_status resp = INTERNAL_SERVER_ERROR).
Proof.
  intros Hstr. destruct (handle_stranger config req s Hstr n) as (Hs & resp & Hr & Hst).
  exists resp. split; [|done]. destruct (handle config req s n) as [[r s'] n']. simpl in *. congruence.
Qed.

(** C17: the server comes back: started again on an intact state, when nothing fails
    around the start, it boots, with the same database and the same blobs, without the
    leftovers of uploads that were under way, with empty caches and no tasks; and in every
    state that it reaches from there, whatever fails on the way, it reports ready as soon as
    nothing fails around the probe.  The one configuration that does not start, one that
    keeps verifications for more than 1000 years, panics and leaves rows and blobs alone. *)
Theorem restart_recovers `{!Env, !FsEnv, !Sha256, !Argon2, !Base64, !ListLibs, !JsonText} config s n :
  Quiet → fs_quiet → app_ok s →
  ∃ r s' n', serve_boot config s n = (r, s', n') ∧ app_ok s' ∧
    app_db s' = app_db s ∧ (∀ h, blob_at (app_store s') h = blob_at (app_store s) h) ∧
    (∀ u, fs_files (app_store s') !! ["tmp"%string; u] = None) ∧
    if moka_builds (auth config) then
      r = Ok tt ∧ app_tasks s' = [] ∧ app_auth s' = no_logins (auth config) ∧
      ∀ s'' m, rtc (server_step config) s' s'' →
        (readyz s'' m).1.1 = Ok (mkResponse OK_200 [] (BodyText (line "ready")))
    else r = Stop Panicked.
Proof.
  intros Hq Hfq Hs. destruct (serve_boot config s n) as [[r s'] n'] eqn:Hrun.
  destruct (wp_run _ _ _ _ _ _ _ (serve_boot_recovers config s Hq Hfq Hs) Hrun)
    as (Hs' & Hdb & Hsame & Htmp & Heq).
  exists r, s', n'. split_and!; try done.
  - intros h. by apply same_blobs_at.
  - intros u. apply Htmp. by exists u.
  - destruct (moka_builds (auth config)); [|done]. destruct Heq as [-> Heq].
    split_and!; [done|by rewrite Heq|by rewrite Heq|]. intros s'' m Hr.
    exact (readyz_ready s'' Hq Hfq (steps_ok config s' s'' Hr Hs') m).
Qed.
