(* ===== verification/Connect.v ===== *)
(** * Opening the database

    [Db::connect], [connect_memory], [from_options] and [migrate_at] of
    [crates/marmotte-core/src/db/mod.rs]: the options, the size of the pool, the
    migrations.  sqlx is a parameter: what opening a connection and running a migrator
    may do to a database is what its documentation says.  The theorems say what a
    program finds in the database that it gets, and that start-up may be modelled as
    three steps that fail or do nothing ([Server.Db_connect]). *)
From stdpp Require Import base numbers list strings gmap.
From Stdlib Require Import ZArith Lia.
From S2P Require Import Prelude Models Db Storage Config App Server.

(** ** What sqlx takes and keeps *)

Inductive SqliteJournalMode := JournalDelete | JournalMemory | JournalWal.
Inductive SqliteSynchronous := SynchronousNormal | SynchronousFull.

Record SqliteConnectOptions := mkConnectOptions {
  co_filename : string;
  co_in_memory : bool;
  co_create_if_missing : bool;
  co_journal_mode : option SqliteJournalMode;
  co_synchronous : SqliteSynchronous;
  co_busy_timeout_ms : Z;
  co_foreign_keys : bool
}.
Record SqlitePoolOptions := mkPoolOptions { po_max_connections : Z; po_acquire_timeout_secs : Z }.

(** The schema is there, with its rows, or is not. *)
Abbreviation Schema := (option Tables).
(** One migration: its version, and its statements. *)
Record MigrationFile := mkMigrationFile {
  mg_version : Z;
  mg_up : Schema → string + Schema
}.
(** A database: the versions in [_sqlx_migrations], and what the migrations made. *)
Record DbFile := mkDbFile { db_applied : list Z; db_schema : Schema }.
Definition empty_database : DbFile := mkDbFile [] None.

(** The migrations that are not applied yet, in order. *)
Fixpoint apply_pending (l : list MigrationFile) (d : DbFile) : string + DbFile :=
  match l with
  | [] => inr d
  | m :: l =>
      if decide (mg_version m ∈ db_applied d) then apply_pending l d
      else match mg_up m (db_schema d) with
           | inl e => inl e
           | inr t => apply_pending l (mkDbFile (db_applied d ++ [mg_version m]) t)
           end
  end.

(** Opening a first connection: to a database that is there (and is left as it is), or to
    a new one, where the options allow that.  Running a migrator: on success all of its
    migrations are applied; each is a transaction, so a failure leaves some first ones. *)
Class Sqlx := mkSqlx {
  options_new : SqliteConnectOptions;
  options_new_file : co_in_memory options_new = false;
  open_first : SqliteConnectOptions → option DbFile → nat → (SqlxError + unit) * option DbFile;
  open_there o d n : (open_first o (Some d) n).2 = Some d;
  open_missing o n r d : open_first o None n = (r, d) →
    (d = None ∧ r ≠ inr tt) ∨ (d = Some empty_database ∧ (co_create_if_missing o || co_in_memory o) = true);
  migrate : list MigrationFile → DbFile → nat → (string + unit) * DbFile;
  migrate_done l d n d' : migrate l d n = (inr tt, d') → apply_pending l d = inr d';
  migrate_failed l d n e d' : migrate l d n = (inl e, d') →
    ∃ l1 l2, l = l1 ++ l2 ∧ apply_pending l1 d = inr d'
}.

(** [0001_init.sql]: every table is created, so none may be there. *)
Definition init_sql (t : Schema) : string + Schema :=
  match t with
  | None => inr (Some empty_tables)
  | Some _ => inl "table projects already exists"%string
  end.
(** [sqlx::migrate!("./migrations")] *)
Definition MIGRATOR : list MigrationFile := [mkMigrationFile 1 init_sql].

(** ** The machine *)

(** Directories, database files, and the databases that live in a connection. *)
Record Disk := mkDisk {
  dk_dirs : gset path;
  dk_files : gmap string DbFile;
  dk_memory : list DbFile
}.
Definition set_file (p : string) (o : option DbFile) (d : Disk) : Disk :=
  mkDisk (dk_dirs d) (partial_alter (λ _, o) p (dk_files d)) (dk_memory d).
Definition set_memory (l : list DbFile) (d : Disk) : Disk := mkDisk (dk_dirs d) (dk_files d) l.

(** A pool: its first connection is open; if it has its own database, that is number
    [pool_own]. *)
Record SqlitePool := mkPool {
  pool_options : SqlitePoolOptions;
  pool_connect : SqliteConnectOptions;
  pool_own : nat
}.

(** The database that the [j]-th connection of a pool works on: in memory, each connection
    has its own, and that of a later one is none that was there before. *)
Definition seen (d : Disk) (p : SqlitePool) (j : nat) : option DbFile :=
  if co_in_memory (pool_connect p) then (if (j =? 0)%nat then dk_memory d !! pool_own p else None)
  else dk_files d !! co_filename (pool_connect p).

(** The components of a path, and the directory it is in. *)
Fixpoint split_path (cur : string) (s : string) : list string :=
  match s with
  | EmptyString => [cur]
  | String a s => if Ascii.eqb a (Ascii.ascii_of_nat 47) then cur :: split_path EmptyString s
                  else split_path (cur +:+ String a EmptyString) s
  end.
Definition components (s : string) : path :=
  List.filter (λ c, negb (String.eqb c EmptyString || String.eqb c ".")) (split_path EmptyString s).
Definition path_parent (s : string) : option path :=
  match reverse (components s) with [] => None | _ :: l => Some (reverse l) end.

Section connect.
Context {sq : Sqlx} {fsenv : FsEnv}.

(** [std::fs::create_dir_all]: when it fails, some of the directories may be there. *)
Definition std_create_dir_all (p : path) : M CoreError Disk unit :=
  λ d n, let with_dirs l := mkDisk (list_to_set l ∪ dk_dirs d) (dk_files d) (dk_memory d) in
         match fs_fault n with
         | Some (e, k) => (Err (Io e), with_dirs (take k (ancestors p)), S n)
         | None => (Ok tt, with_dirs (ancestors p), S n)
         end.

(** [SqlitePoolOptions::connect_with] *)
Definition connect_with (po : SqlitePoolOptions) (co : SqliteConnectOptions) : M SqlxError Disk SqlitePool :=
  λ d n,
    let pool := mkPool po co (length (dk_memory d)) in
    let '(r, o) := open_first co (if co_in_memory co then None else dk_files d !! co_filename co) n in
    let d' := if co_in_memory co then set_memory (dk_memory d ++ option_list o) d
              else set_file (co_filename co) o d in
    (match r with inl e => Err e | inr _ => Ok pool end, d', S n).

(** [Migrator::run] on a pool: on the database of one of its connections. *)
Definition migrator_run (l : list MigrationFile) (pool : SqlitePool) : M string Disk unit :=
  λ d n,
    match seen d pool 0 with
    | None => (Err "unable to open database file"%string, d, S n)
    | Some db =>
        let '(r, db') := migrate l db n in
        let d' := if co_in_memory (pool_connect pool)
                  then set_memory (<[pool_own pool := db']> (dk_memory d)) d
                  else set_file (co_filename (pool_connect pool)) (Some db') d in
        (match r with inl e => Err e | inr _ => Ok tt end, d', S n)
    end.

(** ** The code *)

Definition from_options (opts : SqliteConnectOptions) (max_connections : Z) : M CoreError Disk SqlitePool :=
  let* pool := map_err Database (connect_with (mkPoolOptions max_connections 60) opts) in
  map_err Migration (migrator_run MIGRATOR pool) ;*
  ret pool.

Definition connect (cfg : DatabaseConfig) : M CoreError Disk SqlitePool :=
  (match path_parent (db_path cfg) with
   | Some parent => std_create_dir_all parent
   | None => ret tt
   end) ;*
  let opts := mkConnectOptions (db_path cfg) (co_in_memory options_new) true (Some JournalWal) SynchronousNormal
    (busy_timeout_ms cfg) true in
  from_options opts 8.

Definition connect_memory : M CoreError Disk SqlitePool :=
  let opts := mkConnectOptions (co_filename options_new) true (co_create_if_missing options_new)
    (co_journal_mode options_new) (co_synchronous options_new) (co_busy_timeout_ms options_new) true in
  from_options opts 1.

(** Closing a pool leaves the files. *)
Definition close (pool : SqlitePool) : M CoreError Disk unit := ret tt.

Definition migrate_at (p : string) : M CoreError Disk unit :=
  let cfg := mkDatabaseConfig p 5000 in
  let* db := connect cfg in
  close db ;*
  ret tt.
End connect.

(** ** What is found in the database *)

(** A database that the program has made: all of it, or nothing yet. *)
Definition migrated (t : Tables) (f : DbFile) : Prop := f = mkDbFile [1] (Some t).
Definition usable (o : option DbFile) : Prop :=
  match o with
  | None => True
  | Some f => f = empty_database ∨ ∃ t, migrated t f
  end.
Definition tables_of (o : option DbFile) : Tables := default empty_tables (o ≫= db_schema).

Section connect_spec.
Context {sq : Sqlx} {fsenv : FsEnv}.

Lemma pending_migrated t f : migrated t f → apply_pending MIGRATOR f = inr f.
Proof. by intros ->. Qed.
Lemma pending_empty : apply_pending MIGRATOR empty_database = inr (mkDbFile [1] (Some empty_tables)).
Proof. reflexivity. Qed.

(** Running the migrator completes a database or leaves it, and never changes its rows. *)
Lemma migrate_usable f n r f' :
  usable (Some f) → migrate MIGRATOR f n = (r, f') →
  usable (Some f') ∧ tables_of (Some f') = tables_of (Some f) ∧
  (r = inr tt → migrated (tables_of (Some f)) f') ∧ (∀ t, migrated t f → f' = f).
Proof.
  intros Hf Hrun.
  assert (∀ t, migrated t f → f' = f) as Hstay.
  { intros t Ht. pose proof (pending_migrated t f Ht) as Hp. destruct r as [e|[]].
    - destruct (migrate_failed _ _ _ _ _ Hrun) as (l1 & l2 & Hl & Hp1).
      destruct l1 as [|m [|? ?]]; [by injection Hp1| |discriminate Hl].
      injection Hl as <- _. change (apply_pending MIGRATOR f = inr f') in Hp1. congruence.
    - apply migrate_done in Hrun. congruence. }
  destruct r as [e|[]].
  - destruct Hf as [->|[t Ht]]; [|rewrite (Hstay t Ht); split_and!; [by right; exists t|done..]].
    destruct (migrate_failed _ _ _ _ _ Hrun) as (l1 & l2 & Hl & Hp).
    destruct l1 as [|m [|? ?]]; [injection Hp as <-; split_and!; [by left|done..]| |discriminate Hl].
    injection Hl as <- _. change (apply_pending MIGRATOR empty_database = inr f') in Hp.
    rewrite pending_empty in Hp. injection Hp as <-. split_and!; [by right; eexists|done..].
  - destruct Hf as [->|[t Ht]]; [|rewrite (Hstay t Ht); split_and!; [by right; exists t|done|by rewrite Ht|done]].
    apply migrate_done in Hrun. rewrite pending_empty in Hrun. injection Hrun as <-.
    split_and!; [by right; eexists|done..].
Qed.

Lemma open_usable o od n r od' :
  usable od → open_first o od n = (r, od') →
  usable od' ∧ tables_of od' = tables_of od ∧ (r = inr tt → is_Some od') ∧ (is_Some od → od' = od).
Proof.
  intros Hu Hrun. destruct od as [f|].
  - pose proof (open_there o f n) as Hf. rewrite Hrun in Hf. simpl in Hf. subst od'. by split_and!.
  - apply open_missing in Hrun as [[-> Hr]|[-> _]]; split_and!; try done; try (by left); by intros [? ?].
Qed.

(** A pool for a file. *)
Definition file_options (o : SqliteConnectOptions) : Prop := co_in_memory o = false.
Definition others_kept (p : string) (d d' : Disk) : Prop :=
  (∀ q, q ≠ p → dk_files d' !! q = dk_files d !! q) ∧ dk_memory d' = dk_memory d.
Definition rows_kept (p : string) (d d' : Disk) : Prop :=
  others_kept p d d' ∧ usable (dk_files d' !! p) ∧ tables_of (dk_files d' !! p) = tables_of (dk_files d !! p) ∧
  ∀ t f, dk_files d !! p = Some f → migrated t f → dk_files d' !! p = Some f.

Lemma set_file_others p o d : others_kept p d (set_file p o d).
Proof. split; [|done]. intros q Hq. simpl. by rewrite lookup_partial_alter_ne. Qed.
Lemma set_file_at p o d : dk_files (set_file p o d) !! p = o.
Proof. simpl. apply lookup_partial_alter_eq. Qed.

#[local] Instance rows_kept_trans p : Transitive (rows_kept p).
Proof.
  intros d1 d2 d3 ((Ho1 & Hm1) & Hu1 & Ht1 & Hs1) ((Ho2 & Hm2) & Hu2 & Ht2 & Hs2).
  split_and!; [split; [intros q Hq; by rewrite Ho2, Ho1|congruence]|done|congruence|by eauto].
Qed.

(** Opening the pool of a file. *)
Lemma connect_with_file po co d :
  file_options co → usable (dk_files d !! co_filename co) →
  wp (connect_with po co) (λ r d', rows_kept (co_filename co) d d' ∧ match r with
    | Ok pool => pool_options pool = po ∧ pool_connect pool = co ∧ is_Some (dk_files d' !! co_filename co)
    | Err _ => True
    | Stop _ => False
    end) d.
Proof.
  intros Hfile Hu n. unfold connect_with. rewrite Hfile.
  destruct (open_first co _ n) as [r o] eqn:Hopen.
  destruct (open_usable _ _ _ _ _ Hu Hopen) as (Hu1 & Ht1 & Hs1 & Hstay). cbn [fst snd].
  split; [split_and!; [apply set_file_others|by rewrite set_file_at..|]|].
  { intros t f Hf _. rewrite set_file_at, <-Hf. apply Hstay. by rewrite Hf. }
  destruct r as [x|[]]; [done|]. split_and!; [done..|]. rewrite set_file_at. by apply Hs1.
Qed.

(** Running the migrations on it. *)
Lemma migrator_run_file pool d :
  file_options (pool_connect pool) → usable (dk_files d !! co_filename (pool_connect pool)) →
  is_Some (dk_files d !! co_filename (pool_connect pool)) →
  wp (migrator_run MIGRATOR pool) (λ r d', rows_kept (co_filename (pool_connect pool)) d d' ∧ match r with
    | Ok _ => ∃ f, dk_files d' !! co_filename (pool_connect pool) = Some f ∧
        migrated (tables_of (dk_files d !! co_filename (pool_connect pool))) f
    | Err _ => True
    | Stop _ => False
    end) d.
Proof.
  intros Hfile Hu [f Hf] n. unfold migrator_run, seen. rewrite Hfile, Hf in *.
  destruct (migrate MIGRATOR f n) as [r f'] eqn:Hrun.
  destruct (migrate_usable _ _ _ _ Hu Hrun) as (Hu' & Ht & Hm & Hstay). cbn [fst snd].
  split; [split_and!; [apply set_file_others|by rewrite set_file_at, ?Hf..|]|].
  { intros t f1 Hf1 Hm1. assert (f1 = f) as -> by congruence. rewrite set_file_at. by rewrite (Hstay t Hm1). }
  destruct r as [e|[]]; [done|]. exists f'. rewrite set_file_at. split; [done|by apply Hm].
Qed.

Definition connected (cfg : DatabaseConfig) (d : Disk) (pool : SqlitePool) (d' : Disk) : Prop :=
  pool_options pool = mkPoolOptions 8 60 ∧
  pool_connect pool = mkConnectOptions (db_path cfg) false true (Some JournalWal) SynchronousNormal
    (busy_timeout_ms cfg) true ∧
  ∀ j, ∃ f, seen d' pool j = Some f ∧ migrated (tables_of (dk_files d !! db_path cfg)) f.

Definition connect_post (cfg : DatabaseConfig) (d : Disk) (r : res CoreError SqlitePool) (d' : Disk) : Prop :=
  rows_kept (db_path cfg) d d' ∧ match r with
  | Ok pool => connected cfg d pool d'
  | Err e => (∃ x, e = Io x) ∨ (∃ x, e = Database x) ∨ ∃ m, e = Migration m
  | Stop _ => False
  end.

Lemma rows_kept_dirs p d dirs : usable (dk_files d !! p) → rows_kept p d (mkDisk dirs (dk_files d) (dk_memory d)).
Proof. done. Qed.

Lemma connect_spec cfg d :
  usable (dk_files d !! db_path cfg) → wp (connect cfg) (connect_post cfg d) d.
Proof.
  intros Hu. unfold connect.
  assert (∀ m : M CoreError Disk unit, wp m (λ r d', rows_kept (db_path cfg) d d' ∧ match r with
    | Ok _ => dk_files d' = dk_files d | Err e => ∃ x, e = Io x | Stop _ => False end) d →
    ∀ k, (∀ d1, dk_files d1 = dk_files d → rows_kept (db_path cfg) d d1 → wp (k tt) (connect_post cfg d) d1) →
    wp (bind m k) (connect_post cfg d) d) as Hfirst.
  { intros m Hm k Hk. apply wp_bind. eapply wp_mono; [exact Hm|].
    intros [[]|e|w] d1 [Hkeep Hr]; simpl; [by apply Hk|split; [done|by left]|done]. }
  apply Hfirst.
  { destruct (path_parent (db_path cfg)) as [parent|]; [|by apply wp_ret]. intros n. unfold std_create_dir_all.
    destruct (fs_fault n) as [[x k]|]; simpl; (split; [by apply rows_kept_dirs|eauto]). }
  intros d1 Hd1 Hk1. unfold from_options. rewrite options_new_file. set (co := mkConnectOptions _ _ _ _ _ _ _).
  apply wp_bind, wp_map_err. wp_use (connect_with_file _ co); [done|by rewrite Hd1|].
  intros [pool|x|w] d2 [Hk2 Hr]; simpl in *; [|split; [by etransitivity|by eauto]|done].
  destruct Hr as (Hpo & Hco & Hs2). wp_go.
  assert (rows_kept (db_path cfg) d d2) as Hk by by etransitivity.
  wp_use migrator_run_file; rewrite ?Hco; [done|apply Hk|done|].
  intros [[]|x|w] d3 [Hk3 Hr]; simpl in *; [|split; [by etransitivity|by eauto]|done].
  wp_go. split; [by etransitivity|]. split_and!; [done|done|]. intros j. unfold seen. rewrite Hco.
  destruct Hr as (f & Hf & Hm). exists f. split; [done|]. by destruct Hk as (_ & _ & <- & _).
Qed.

(** A database in memory: new, migrated, and the only one of its pool. *)
Definition memory_post (d : Disk) (r : res CoreError SqlitePool) (d' : Disk) : Prop :=
  dk_files d' = dk_files d ∧ (∃ l, dk_memory d' = dk_memory d ++ l) ∧ match r with
  | Ok pool => ∀ j, (j < Z.to_nat (po_max_connections (pool_options pool)))%nat →
      ∃ f, seen d' pool j = Some f ∧ migrated empty_tables f
  | Err e => (∃ x, e = Database x) ∨ ∃ m, e = Migration m
  | Stop _ => False
  end.

Lemma connect_memory_spec d : wp connect_memory (memory_post d) d.
Proof.
  unfold connect_memory, from_options. set (co := mkConnectOptions _ _ _ _ _ _ _).
  wp_go. intros n. unfold connect_with. cbn [co_in_memory co].
  destruct (open_first co None n) as [r o] eqn:Hopen.
  destruct r as [x|[]]; simpl; [by split_and!; eauto|].
  apply open_missing in Hopen as [[_ []]|[-> _]]; [done|].
  change (Z.to_nat 1) with 1%nat. wp_go. clear n. intros n. unfold migrator_run, seen. simpl.
  assert (∀ x, (dk_memory d ++ [x]) !! length (dk_memory d) = Some x) as Hlast by (intros x; by apply list_lookup_middle).
  rewrite Hlast.
  destruct (migrate MIGRATOR empty_database n) as [r f'] eqn:Hrun.
  destruct (migrate_usable _ _ _ _ (or_introl eq_refl) Hrun) as (_ & _ & Hm & _).
  rewrite insert_app_r_alt, Nat.sub_diag by done. simpl.
  destruct r as [e|[]]; simpl; [by split_and!; eauto|]. wp_go. split_and!; [done|by eauto|]. intros j Hj.
  change (j < 1)%nat in Hj. assert (j = 0)%nat as -> by lia. exists f'. unfold seen. simpl.
  split; [apply Hlast|by apply Hm].
Qed.

(** Whatever comes of it, a migrated file is left as it is. *)
Lemma migrate_again p t f d n r d' n' :
  dk_files d !! p = Some f → migrated t f → migrate_at p d n = (r, d', n') → dk_files d' = dk_files d.
Proof.
  intros Hf Hm Hrun. unfold migrate_at, close, bind, ret in Hrun.
  assert (usable (dk_files d !! p)) as Hu by (rewrite Hf; right; by exists t).
  pose proof (connect_spec (mkDatabaseConfig p 5000) d Hu n) as [((Ho & _) & _ & _ & Hstay) _].
  destruct (connect _ d n) as [[r1 d1] n1]. simpl in *.
  assert (d' = d1) as -> by (destruct r1; congruence). apply map_eq. intros q.
  destruct (decide (q = p)) as [->|Hq]; [|by apply Ho]. rewrite Hf. by eapply Hstay.
Qed.
End connect_spec.

(** ** Start-up in three steps *)

(** The same failure, met by [Db_connect] where its steps meet the environment. *)
Definition boot_env (fault : nat → option SqlxError) : Env :=
  mkEnv (λ _, 0) fault (λ _ _ l, l) (λ _ _ _, reflexivity _) (λ _, 0%N).
Definition same_result {A} (r : res CoreError A) : res CoreError unit :=
  match r with Ok _ => Ok tt | Err e => Err e | Stop w => Stop w end.

Lemma Db_connect_meets {A} (r : res CoreError A) (s : App) :
  match r with Ok _ => True | Err e => (∃ x, e = Io x) ∨ (∃ x, e = Database x) ∨ ∃ m, e = Migration m
  | Stop _ => False end →
  ∃ (env : Env) (fsenv : FsEnv) n', Db_connect s 0%nat = (same_result r, s, n').
Proof.
  intros Hr. destruct s as [t fs au me ta]. destruct r as [a|e|w]; [| |done].
  - by exists (boot_env (λ _, None)), (mkFsEnv (λ _, None) (λ _, EmptyString)), 3%nat.
  - destruct Hr as [[x ->]|[[x ->]|[m ->]]].
    + by exists (boot_env (λ _, None)), (mkFsEnv (λ _, Some (x, 0%nat)) (λ _, EmptyString)), 1%nat.
    + by exists (boot_env (λ _, Some x)), (mkFsEnv (λ _, None) (λ _, EmptyString)), 2%nat.
    + by exists (boot_env (λ n, if (n =? 2)%nat then Some (SqlxOther m) else None)),
        (mkFsEnv (λ _, None) (λ _, EmptyString)), 3%nat.
Qed.

(** ** Theorems *)

(** C18: connecting to a database file that is absent, empty or migrated before: whatever
    fails, its rows stay (a new one has the empty tables of the schema), no other file is
    touched, and the error says which step failed; on success every connection of the
    pool works on that file, with all migrations applied and foreign keys on.  For the
    server this is one of the outcomes of [Server.Db_connect], which only fails or does
    nothing; and connecting again changes the file no more. *)
Theorem connect_keeps_rows `{!Sqlx, !FsEnv} cfg d n r d' n' :
  connect cfg d n = (r, d', n') → usable (dk_files d !! db_path cfg) →
  connect_post cfg d r d' ∧
  (∀ s, app_db s = tables_of (dk_files d !! db_path cfg) →
     app_db s = tables_of (dk_files d' !! db_path cfg) ∧
     ∃ (env : Env) (fsenv : FsEnv) m, Db_connect s 0%nat = (same_result r, s, m)) ∧
  (is_ok r = true → ∀ m r2 d2 m',
     migrate_at (db_path cfg) d' m = (r2, d2, m') → dk_files d2 = dk_files d').
Proof.
  intros Hrun Hu. pose proof (wp_run _ _ _ _ _ _ _ (connect_spec cfg d Hu) Hrun) as Hpost.
  split; [done|]. destruct Hpost as [(_ & Hu' & Ht & _) Hr]. split.
  - intros s Hs. split; [by rewrite Ht|]. apply Db_connect_meets. by destruct r.
  - intros Hok m r2 d2 m' Hagain. destruct r as [pool|e|w]; [|done..].
    destruct Hr as (_ & Hco & Hseen). destruct (Hseen 0%nat) as (f & Hf & Hm).
    unfold seen in Hf. rewrite Hco in Hf. simpl in Hf. by eapply migrate_again.
Qed.

(** A pool of the tests' database has one connection, and it is migrated. *)
Theorem memory_pool_is_one_database `{!Sqlx} d n r d' n' :
  connect_memory d n = (r, d', n') → memory_post d r d'.
Proof. intros Hrun. exact (wp_run _ _ _ _ _ _ _ (connect_memory_spec d) Hrun). Qed.
