(* ===== verification/Spec.v ===== *)
(** * What the cache promises

    The server seen from outside is a map from keys (project, kind, path) to the
    digest of what is served under them ([Cache]).  Such a map may lose entries at
    any time, and it may gain or change the one key that a PUT names.  The theorems
    show that the server implements this: every step is a step of the map, a key
    changes only through a PUT that a writer of that very project authenticated,
    and a read answers from the map.  The second part shows when refcounts are
    exact. *)
From stdpp Require Import base numbers list strings gmap relations pretty.
From Stdlib Require Import ZArith Lia.
From S2P Require Import Prelude Models Db Blobs Entries Projects Storage Config Gc GcRun Auth Http Metrics App Yocto Listing Admin Server.

(** ** The abstract cache *)

Definition Cache : Type := Key → option string.

(** One step of a cache; [None] is a step that stores nothing. *)
Inductive cache_step : option (Key * string) → Cache → Cache → Prop :=
| cache_forget c c' :
    (∀ k d, c' k = Some d → c k = Some d) → cache_step None c c'
| cache_store k d c c' :
    c' k = Some d → (∀ k' d', k' ≠ k → c' k' = Some d' → c k' = Some d') →
    cache_step (Some (k, d)) c c'.

(** A key that appears is the one that was stored. *)
Lemma cache_step_new l c c' k d :
  cache_step l c c' → c k = None → c' k = Some d → l = Some (k, d).
Proof.
  intros [c0 c0' Hf|k0 d0 c0 c0' Hk Hoth] Hn Hd.
  - apply Hf in Hd. congruence.
  - destruct (decide (k = k0)) as [->|Hne]; [congruence|].
    apply Hoth in Hd; [congruence|done].
Qed.

Section abstraction.
Context {sha : Sha256}.

(** The abstraction of a server state. *)
Definition cached (s : App) : Cache := λ k, sha256_hex <$> contents s k.

Lemma cached_Some s k d : cached s k = Some d ↔ ∃ v, contents s k = Some v ∧ d = sha256_hex v.
Proof. apply fmap_Some. Qed.

Lemma forgets_cached s s' : forgets s s' → cache_step None (cached s) (cached s').
Proof.
  intros Hf. constructor. intros k d (v' & Hv' & ->)%cached_Some.
  destruct (Hf k v' Hv') as (v & Hv & <-). apply cached_Some. by exists v.
Qed.

Lemma cached_entry s k d :
  app_ok s → cached s k = Some d ↔
  ∃ e, entry_at (app_db s) k.1.1 k.1.2 k.2 = Some e ∧ d = e_blob_hash e.
Proof.
  intros Hs. destruct k as [[p kind] path]. rewrite cached_Some. simpl. split.
  - intros (v & Hv & ->). apply contents_Some in Hv as (e & Hi & Hk & _ & Hsha); [|done].
    exists e. split; [|done]. by apply entry_at_Some; [apply Hs|].
  - intros (e & He & ->). apply entry_at_Some in He as [Hi Hk]; [|apply Hs].
    destruct (app_ok_entry s _ e Hs Hi) as (_ & v & Hv & Hsha). exists v. split; [|done].
    apply contents_Some; [done|]. by exists e.
Qed.

Lemma stored_cached {env : Env} s auth kind path content w s' :
  app_ok s → app_ok s' → stored s auth kind path content w s' →
  cache_step (Some ((pa_project_id auth, kind, path), sha256_hex content)) (cached s) (cached s').
Proof.
  intros Hs Hs' Hst. destruct (stored_entry_at _ _ _ _ _ _ _ Hs Hs' Hst) as [(row & Hrow & Hh) Hoth].
  constructor.
  - apply cached_entry; [done|]. exists row. by split.
  - intros [[p k] x] d Hne. rewrite !cached_entry by done. simpl. by rewrite Hoth.
Qed.
End abstraction.

(** ** Who may store what *)

Section handlers.
Context {env : Env} {fsenv : FsEnv} {sha : Sha256} {ar : Argon2} {aenv : AuthEnv} {mk : Moka}
  {b64 : Base64} {libs : ListLibs} {jt : JsonText}.
Variable config : Config.

(** The state vouches for credentials: the database does, or the cache. *)
Definition admitted (s : App) (c : Basic) (auth : ProjectAuth) : Prop :=
  vouched (app_db s) (user c) (pass c) auth ∨
  ∃ m, last_inserted (project_scope (user c), lookup_hash (pass c))
         (vc_inserted (project_cache (app_auth s))) = Some (auth, m).

(** The digest [d] may be put under [k] by [req]: a PUT of a body with this digest,
    with the credentials of a writer, to that kind and path of the writer's project. *)
Definition may_store (s : App) (req : Request) (k : Key) (d : string) : Prop :=
  ∃ headers kind url path body c auth chunks,
    req = Yocto headers (PutEntry kind url path body) ∧
    parse_basic headers = Some c ∧ admitted s c auth ∧
    pa_role auth = Write ∧ pa_project_name auth = url ∧
    k = (pa_project_id auth, kind, path) ∧
    body = inr <$> chunks ∧ d = sha256_hex (concat chunks).

Definition store_allowed (s : App) (req : Request) (l : option (Key * string)) : Prop :=
  match l with Some (k, d) => may_store s req k d | None => True end.

Lemma wp_authenticate_project c s (Q : res CoreError ProjectAuth → App → Prop) :
  (∀ e, auth_err e → Q (Err e) s) →
  (∀ auth svc, admitted s c auth →
     Q (Ok auth) (mkApp (app_db s) (app_store s) svc (app_metrics s) (app_tasks s))) →
  wp (zoom lens_auth (authenticate_project (user c) (pass c))) Q s.
Proof.
  intros Herr Hok. apply wp_zoom. intros n. simpl.
  destruct (authenticate_project (user c) (pass c) _ n) as [[r [t' svc']] n'] eqn:Hrun.
  apply authenticate_project_run in Hrun as (Ht & _ & _ & Hr). simpl in *. subst t'.
  destruct r as [auth|e|w]; [|destruct Hr as [He ->]; destruct s; by apply Herr|done].
  apply Hok. destruct Hr as [(_ & m & Hm & _)|[Hv _]]; [by right; exists m|by left].
Qed.

(** The middleware hands on admitted requests only. *)
Lemma auth_project_wp headers next s (Q : res CoreError Response → App → Prop) :
  (∀ resp, 400 <= resp_status resp → Q (Ok resp) s) →
  (∀ c auth svc, parse_basic headers = Some c → admitted s c auth →
     wp (next auth) Q (mkApp (app_db s) (app_store s) svc (app_metrics s) (app_tasks s))) →
  wp (auth_project_middleware headers next) Q s.
Proof.
  intros Hrefuse Hnext. unfold auth_project_middleware.
  destruct (parse_basic headers) as [c|]; [|by apply wp_ret, Hrefuse].
  apply wp_bind, wp_attempt, wp_authenticate_project; simpl.
  - intros e _. pose proof (error_status e). destruct e; apply wp_ret; by apply Hrefuse.
  - intros auth svc Ha. by apply (Hnext c).
Qed.

(** What a request leaves behind, seen on the abstract cache. *)
Definition effect (s : App) (req : Request) (s' : App) : Prop :=
  ∃ l, store_allowed s req l ∧ cache_step l (cached s) (cached s').

Lemma forgets_effect s req s' : forgets s s' → effect s req s'.
Proof. intros Hf. exists None. split; [done|by apply forgets_cached]. Qed.

Lemma put_effect headers kind url path body c auth svc s :
  app_ok s → parse_basic headers = Some c → admitted s c auth →
  wp (put_handler config auth kind url path body)
    (λ _ s', effect s (Yocto headers (PutEntry kind url path body)) s')
    (mkApp (app_db s) (app_store s) svc (app_metrics s) (app_tasks s)).
Proof.
  intros Hs Hc Ha. set (s0 := mkApp _ _ _ _ _).
  assert (app_ok s0) as Hs0 by (by destruct Hs).
  assert (∀ w s', put_done s0 auth kind url path body w s' →
    effect s (Yocto headers (PutEntry kind url path body)) s') as Hdone.
  { intros w s' (Hs' & Hurl & Hrole & chunks & -> & Hst). eexists (Some _). split; [|by eapply (stored_cached s0)].
    simpl. by eexists headers, kind, url, path, _, c, auth, chunks. }
  unfold put_handler. wp_go. wp_use do_put_spec; [done|].
  intros [resp|e|w] s' Hpost; simpl in *; [| |done].
  - destruct Hpost as (w & Hd & ->). wp_go. by eapply Hdone.
  - wp_go. destruct Hpost as [[_ ->]|[(Hs' & _ & He & _)|(w & Hd)]]; [| |by eapply Hdone].
    + apply forgets_effect. intros k v Hv. by exists v.
    + apply forgets_effect, (contents_le s0); [done..|]. apply needs_le_subseteq. by rewrite He.
Qed.

Lemma handle_effect req s : app_ok s → wp (handle config req) (λ _ s', effect s req s') s.
Proof.
  intros Hs.
  assert (∀ m : M CoreError App Response, Forgets m → wp m (λ _ s', effect s req s') s) as Hforgets.
  { intros m Hm. eapply wp_mono; [by apply Hm|]. intros r s' (_ & Hf & _). by apply forgets_effect. }
  destruct req as [| | |headers req|headers req]; simpl; unfold healthz, metrics_page; try (apply Hforgets; by does_go).
  destruct req as [kind project path|kind project path|kind url path body].
  1, 2: unfold yocto_route; apply Hforgets; unfold auth_project_middleware; simpl; does_go.
  unfold yocto_route. apply auth_project_wp.
  - intros resp _. apply forgets_effect. intros k v Hv. by exists v.
  - intros c auth svc Hc Ha. destruct kind; simpl; by apply (put_effect _ _ _ _ _ c).
Qed.
End handlers.

(** ** Reading *)

Definition answers_from_cache {sha : Sha256} {ar : Argon2} {b64 : Base64} (s : App) (headers : Headers)
    (kind : Kind) (url path : string) (resp : Response) : Prop :=
  ∃ c auth v d, parse_basic headers = Some c ∧ admitted s c auth ∧ pa_project_name auth = url ∧
    cached s (pa_project_id auth, kind, path) = Some d ∧
    resp_body resp = BodyStream v ∧ sha256_hex v = d ∧
    ("etag"%string, quoted d) ∈ resp_headers resp.

Lemma handle_get `{!Env, !FsEnv, !Sha256, !Argon2, !AuthEnv, !Moka, !Base64, !ListLibs, !JsonText}
    config headers kind url path s :
  app_ok s →
  wp (handle config (Yocto headers (GetEntry kind url path))) (λ r _, ∀ resp, r = Ok resp →
    resp_status resp = OK_200 → answers_from_cache s headers kind url path resp) s.
Proof.
  intros Hs. simpl. unfold yocto_route. apply auth_project_wp; [by intros resp Hge r [= <-] H200; rewrite H200 in Hge|].
  intros c auth svc Hc Ha. set (s0 := mkApp _ _ _ _ _). assert (app_ok s0) as Hs0 by (by destruct Hs).
  assert (wp (get_handler auth kind url path false) (λ r _, ∀ resp, r = Ok resp →
    resp_status resp = OK_200 → answers_from_cache s headers kind url path resp) s0) as Hget;
    [|by destruct kind].
  wp_use get_handler_spec; [done|]. intros r s1 (resp0 & -> & _ & _ & Hok) resp1 [= <-] H200.
  destruct (Hok H200) as (Hurl & e & He & _ & Hhd & v & Hb & Hv & Hsha).
  exists c, auth, v, (e_blob_hash e). split_and!; try done.
  - apply cached_entry; [done|]. by exists e.
  - rewrite Hhd. set_solver.
Qed.

(** ** Exact refcounts *)

Lemma stored_exact {env : Env} {sha : Sha256} s auth kind path content w s' :
  app_ok s → stored s auth kind path content w s' → keeps_exact s s'.
Proof.
  intros Hs (_ & e & t1 & (id & nb & now & -> & _ & _ & Hnew) & He & Hb).
  apply tight_slack. intros h. unfold slack.
  rewrite (ref_entries_entries _ _ h He), (refcount_of_blobs _ _ h Hb).
  apply slack_upserted; [apply Hs|]. intros Hn. by apply Hnew.
Qed.

(** A PUT does [R] if storing does and if leaving database and files in place does. *)
Lemma do_put_does `{!Env, !FsEnv, !Sha256} R `{!Steady R} config auth kind url path body :
  (∀ s w content s', app_ok s → stored s auth kind path content w s' → R s s') →
  Does R (do_put config auth kind url path body).
Proof.
  intros Hst s Hs. wp_use do_put_spec; [done|]. intros r s' Hpost.
  destruct (put_post_ok _ _ _ _ _ _ _ _ Hs Hpost) as [Hs' Hr]. split_and!; [done| |done].
  destruct r as [resp|e|w]; simpl in Hpost; [| |done].
  - destruct Hpost as (w & (_ & _ & _ & chunks & _ & Hd) & _). by eapply Hst.
  - destruct Hpost as [[_ ->]|[(_ & Hf & He & Hb)|(w & _ & _ & _ & chunks & _ & Hd)]];
      [done| |by eapply Hst].
    apply steady; [done|done| | |done].
    + apply contents_le; [done..|]. apply needs_le_subseteq. by rewrite He.
    + apply tight_slack. intros h. unfold slack.
      by rewrite (ref_entries_entries _ _ h He), (refcount_of_blobs _ _ h Hb).
Qed.

(** ** Theorems *)

(** C1: the server refines the cache specification: from every reachable state, every
    step (a request on any route, a spawned task, a tick of the collector, a restart,
    a run of [init]) is a step of the abstract map from keys to digests.  It only
    forgets, or it sets one key, and then it was a PUT of a body with exactly this
    digest, with credentials that database or cache vouch for as those of a writer of
    the project that owns the key. *)
Theorem server_refines_cache `{!Sha256, !Argon2, !Base64, !ListLibs, !JsonText} config ev s s' :
  rtc (server_step config) (fresh config) s → server_does config ev s s' →
  ∃ l, cache_step l (cached s) (cached s') ∧
    match l with
    | Some (k, d) => ∃ req, ev = EvRequest req ∧ may_store s req k d
    | None => True
    end.
Proof.
  intros Hr Hst. pose proof (reachable_ok config s Hr) as Hs.
  destruct (server_does_cases forgets config ev s s' (λ _, forgets_sweeps) Hst Hs) as [(e1 & e2 & e3 & e4 & req & n & -> & Hends)|[_ Hf]].
  - destruct (handle_effect config req s Hs n) as (l & Hl & Hc). rewrite Hends in Hc.
    exists l. split; [done|]. destruct l as [[k d]|]; [by exists req|done].
  - exists None. split; [by apply forgets_cached|done].
Qed.

(** C3: reads answer from the abstract cache: a GET through the router that is answered
    with 200 came with valid credentials for the project in its URL, and streams
    content with the digest that the abstract cache has under that project's key,
    announced in the ETag. *)
Theorem reads_answer_from_the_cache `{!Env, !FsEnv, !Sha256, !Argon2, !AuthEnv, !Moka, !Base64, !ListLibs, !JsonText}
    config headers kind url path s n resp s' n' :
  app_ok s → handle config (Yocto headers (GetEntry kind url path)) s n = (Ok resp, s', n') →
  resp_status resp = OK_200 → answers_from_cache s headers kind url path resp.
Proof.
  intros Hs Hrun H200.
  exact (wp_run _ _ _ _ _ _ _ (handle_get config headers kind url path s Hs) Hrun resp eq_refl H200).
Qed.

(** C6: refcounts are exact: in every state that the server reaches without a project
    being deleted, the refcount of every blob (0 for one without a row) is the number
    of entries that name it, whatever failed on the way. *)
Theorem reachable_refcounts_exact `{!Sha256, !Argon2, !Base64, !ListLibs, !JsonText} config s :
  rtc (λ s s', ∃ ev, server_does config ev s s' ∧
         ∀ req, ev = EvRequest req → keeps_projects req = true) (fresh config) s →
  ∀ h, refcount_of (app_db s) h = ref_entries (app_db s) h.
Proof.
  intros Hr h. assert (app_ok s ∧ keeps_exact (fresh config) s) as [_ Hx].
  { pose proof (fresh_ok config) as Hf. revert Hf.
    induction Hr as [s|s1 s2 s3 (ev & Hst & Hreq) _ IH]; intros Hf; [by split; [|intros x]|].
    assert (app_ok s2 ∧ keeps_exact s1 s2) as [Hs2 Hx].
    { split; [by eapply server_step_ok; [exists ev|]|].
      destruct (server_does_cases keeps_exact _ _ _ _ (λ _, keeps_exact_sweeps) Hst Hf)
        as [(e1 & e2 & e3 & e4 & req & n & -> & Hends)|[_ Hx]]; [|done].
      assert (Does keeps_exact (handle config req)) as Hreqx; [|by destruct (does_ends _ _ _ _ _ Hreqx Hf Hends)].
      apply (handle_does keeps_exact); [by rewrite (Hreq _ eq_refl)|intros _; apply _|].
      intros auth kind url path body. apply (do_put_does keeps_exact). by intros; eapply stored_exact. }
    destruct (IH Hs2) as [Hs3 Hx3]. split; [done|]. by etransitivity. }
  specialize (Hx h). assert (slack (app_db (fresh config)) h = 0) as Hz by done.
  specialize (Hx Hz). unfold slack in Hx. lia.
Qed.
