(* ===== verification/Sweeps.v ===== *)
(** * Sweeps in flight

    [GcSvc::run] of [crates/marmotte-core/src/gc.rs] awaits the database at every
    statement, and its mutex only keeps out other sweeps: requests go on meanwhile.
    [sweep_step] is one statement (or one unlinked file) of a sweep, with what it has
    listed but not dealt with yet in its [SweepAt]; [GcSvc_run_steps] shows that the
    steps in a row are [GcSvc_run].  [sweep_move] interleaves a sweep with everything
    else the server does. *)
From stdpp Require Import base numbers list strings gmap sorting pretty relations.
From Stdlib Require Import ZArith Lia.
From S2P Require Import Prelude Models Db Blobs Entries Projects Storage Config Gc GcRun Auth Http Metrics App Yocto Listing Admin Server.

(** Where a sweep is, and what it has listed. *)
Inductive SweepAt :=
| TtlStart
| TtlList (now : Z) (kinds : list Kind)
| TtlEvict (now : Z) (kinds : list Kind) (cands : list (Z * Z * string * Z))
| QuotaList
| QuotaUsage (ps : list Project)
| QuotaCands (ps : list Project) (p : Project) (quota usage : Z)
| QuotaEvict (ps : list Project) (quota : Z) (cands : list (Z * Z * Z)) (usage : Z)
| GlobalUsage
| GlobalCands (quota usage : Z)
| GlobalEvict (quota : Z) (cands : list (Z * Z * Z)) (usage : Z)
| CleanupList
| CleanupUnlink (hash : string) (batch : list string)
| CleanupDrop (hash : string) (batch : list string)
| FinalUsage.

(** With the report so far. *)
Abbreviation Sweep := (SweepAt * GcReport)%type.

Section sweep.
Context {env : Env} {fsenv : FsEnv}.
Variable cfg : GcConfig.
Variable dry_run : bool.

(** One step of an eviction loop ([None] when the usage fits). *)
Definition lru_step (quota : Z) (cand : Z * Z * Z) (usage : Z) : M CoreError Tables (option Z) :=
  let '(id, project_id, size) := cand in
  if usage <=? quota then ret None
  else
    (if dry_run then ret tt else Entries_delete project_id id) ;*
    ret (Some (wrap_i64 (usage - size))).

(** After a blob of a batch: the next one, or the next batch. *)
Definition next_blob (batch : list string) : SweepAt :=
  match batch with
  | h :: batch => CleanupUnlink h batch
  | [] => if dry_run then FinalUsage else CleanupList
  end.

Definition sweep_step (sw : Sweep) : M CoreError Sys (Sweep + GcReport) :=
  let '(at_, rep) := sw in
  match at_ with
  | TtlStart => let* now := now_unix in ret (inl (TtlList now [Sstate; Downloads], rep))
  | TtlList now [] => ret (inl (QuotaList, rep))
  | TtlList now (kind :: kinds) =>
      let* cands := on_db (sql (query_scan
        (λ t, select (ttl_where (projects t) kind now (wrap_i64 (now - default_secs cfg kind))) (entries t))
        (λ l, ttl_row <$> l))) in
      ret (inl (TtlEvict now kinds cands, rep))
  | TtlEvict now kinds [] => ret (inl (TtlList now kinds, rep))
  | TtlEvict now kinds (row :: cands) =>
      let* rep := on_db (ttl_evict dry_run rep row) in
      ret (inl (TtlEvict now kinds cands, rep))
  | QuotaList => let* ps := on_db Projects_list in ret (inl (QuotaUsage ps, rep))
  | QuotaUsage [] => ret (inl (GlobalUsage, rep))
  | QuotaUsage (p :: ps) =>
      match p_quota_bytes p with
      | None => ret (inl (QuotaUsage ps, rep))
      | Some quota =>
          let* usage := on_db (Entries_project_usage (p_id p)) in
          ret (inl (if usage <=? quota then QuotaUsage ps else QuotaCands ps p quota usage, rep))
      end
  | QuotaCands ps p quota usage =>
      let* cands := on_db (sql (query (λ t, lru_row <$> lru_of (λ e, e_project_id e =? p_id p) t))) in
      ret (inl (QuotaEvict ps quota cands usage, rep))
  | QuotaEvict ps quota [] usage => ret (inl (QuotaUsage ps, rep))
  | QuotaEvict ps quota (cand :: cands) usage =>
      let* rest := on_db (lru_step quota cand usage) in
      ret (inl match rest with
               | None => (QuotaUsage ps, rep)
               | Some usage => (QuotaEvict ps quota cands usage, count_eviction cand.2 rep)
               end)
  | GlobalUsage =>
      let* usage := on_db Blobs_total_size in
      let quota := wrap_i64 (global_quota_bytes cfg) in
      ret (inl (if usage <=? quota then CleanupList else GlobalCands quota usage, rep))
  | GlobalCands quota usage =>
      let* cands := on_db (sql (query (λ t, lru_row <$> lru_of (λ _, true) t))) in
      ret (inl (GlobalEvict quota cands usage, rep))
  | GlobalEvict quota [] usage => ret (inl (CleanupList, rep))
  | GlobalEvict quota (cand :: cands) usage =>
      let* rest := on_db (lru_step quota cand usage) in
      ret (inl match rest with
               | None => (CleanupList, rep)
               | Some usage => (GlobalEvict quota cands usage, count_eviction cand.2 rep)
               end)
  | CleanupList =>
      let* batch := on_db (Blobs_zero_refcount BATCH) in
      ret (inl (match batch with [] => FinalUsage | h :: batch => CleanupUnlink h batch end, rep))
  | CleanupUnlink h batch =>
      if dry_run then ret (inl (next_blob batch, count_freed rep))
      else
        let* _ := attempt (F := CoreError) (on_fs (LocalFsStore_delete_blob h)) in
        ret (inl (CleanupDrop h batch, rep))
  | CleanupDrop h batch =>
      on_db (Blobs_delete h) ;*
      ret (inl (next_blob batch, count_freed rep))
  | FinalUsage =>
      let* usage := on_db Blobs_total_size in
      ret (inr (set_usage usage rep))
  end.

(** A sweep left alone, step by step. *)
Inductive sweep_runs : Sweep → Sys → nat → res CoreError GcReport → Sys → nat → Prop :=
| runs_done sw s n rep s' n' :
    sweep_step sw s n = (Ok (inr rep), s', n') → sweep_runs sw s n (Ok rep) s' n'
| runs_failed sw s n e s' n' :
    sweep_step sw s n = (Err e, s', n') → sweep_runs sw s n (Err e) s' n'
| runs_on sw s n sw1 s1 n1 r s' n' :
    sweep_step sw s n = (Ok (inl sw1), s1, n1) → sweep_runs sw1 s1 n1 r s' n' →
    sweep_runs sw s n r s' n'.

(** ** The steps in a row are the sweep *)

(** From [sw] the sweep does what [m] does, and goes on from [next]. *)
Definition leads (sw : Sweep) (m : M CoreError Sys GcReport) (next : SweepAt) : Prop :=
  ∀ s n, match m s n with
         | (Ok rep, s', n') => ∀ r s2 n2, sweep_runs (next, rep) s' n' r s2 n2 → sweep_runs sw s n r s2 n2
         | (Err e, s', n') => sweep_runs sw s n (Err e) s' n'
         | (Stop _, _, _) => True
         end.

Lemma leads_refl at_ rep : leads (at_, rep) (ret rep) at_.
Proof. intros s n r s2 n2 Hr. exact Hr. Qed.

Lemma leads_ext sw m m' next : (∀ s n, m s n = m' s n) → leads sw m' next → leads sw m next.
Proof. intros Heq Hl s n. rewrite Heq. apply Hl. Qed.

(** A first step, then the rest. *)
Lemma leads_step {A} sw (m : M CoreError Sys A) (f : A → Sweep) k next :
  (∀ s n, sweep_step sw s n = bind m (λ a, ret (inl (f a))) s n) →
  (∀ a, leads (f a) (k a) next) → leads sw (bind m k) next.
Proof.
  intros Hst Hk s n. specialize (Hst s n). unfold bind, ret in *.
  destruct (m s n) as [[[a|e|w] s1] n1]; [|by apply runs_failed|done].
  specialize (Hk a s1 n1). destruct (k a s1 n1) as [[[rep|e|w] s2] n2]; [| |done].
  - intros r s3 n3 Hr. eapply runs_on; eauto.
  - eapply runs_on; eauto.
Qed.

Lemma leads_skip sw sw' m next :
  (∀ s n, sweep_step sw s n = (Ok (inl sw'), s, n)) → leads sw' m next → leads sw m next.
Proof. intros Hst Hl. exact (leads_step sw (ret tt) (λ _, sw') (λ _, m) next Hst (λ _, Hl)). Qed.

(** Two parts of a sweep. *)
Lemma leads_trans sw m mid k next :
  leads sw m mid → (∀ rep, leads (mid, rep) (k rep) next) → leads sw (bind m k) next.
Proof.
  intros Hm Hk s n. specialize (Hm s n). unfold bind.
  destruct (m s n) as [[[rep|e|w] s1] n1]; [|done|done].
  specialize (Hk rep s1 n1). destruct (k rep s1 n1) as [[[rep'|e|w] s2] n2]; eauto.
Qed.

Lemma on_db_bind {A B} (m : M CoreError Tables A) (k : A → M CoreError Tables B) s n :
  on_db (bind m k) s n = bind (on_db m) (λ a, on_db (k a)) s n.
Proof. unfold on_db, zoom, bind. simpl. by destruct (m s.1 n) as [[[x|e|w] t] n']. Qed.
Lemma on_db_ret {A} (a : A) s n : on_db (ret a) s n = ret a s n.
Proof. by destruct s. Qed.

(** Discharges the premise of [leads_step]: the step is the statement. *)
Ltac is_step := let t := fresh in let fs := fresh in let n := fresh in intros [t fs] n; reflexivity.

Lemma ttl_evict_leads now kinds cands rep :
  leads (TtlEvict now kinds cands, rep) (on_db (foldM (ttl_evict dry_run) rep cands)) (TtlList now kinds).
Proof.
  revert rep. induction cands as [|row cands IH]; intros rep; simpl.
  - eapply leads_ext; [apply on_db_ret|]. eapply leads_skip; [is_step|]. apply leads_refl.
  - eapply leads_ext; [apply on_db_bind|].
    eapply (leads_step _ _ (λ rep, (TtlEvict now kinds cands, rep))); [is_step|exact IH].
Qed.

Lemma ttl_kinds_leads now kinds rep :
  leads (TtlList now kinds, rep) (on_db (foldM (ttl_kind cfg dry_run now) rep kinds)) QuotaList.
Proof.
  revert rep. induction kinds as [|kind kinds IH]; intros rep; simpl.
  - eapply leads_ext; [apply on_db_ret|]. eapply leads_skip; [is_step|]. apply leads_refl.
  - eapply leads_ext; [apply on_db_bind|]. eapply (leads_trans _ _ (TtlList now kinds)); [|exact IH].
    unfold ttl_kind. eapply leads_ext; [apply on_db_bind|].
    eapply (leads_step _ _ (λ cands, (TtlEvict now kinds cands, rep))); [is_step|].
    intros cands. apply ttl_evict_leads.
Qed.

Lemma ttl_phase_leads rep : leads (TtlStart, rep) (on_db (ttl_phase cfg rep dry_run)) QuotaList.
Proof.
  unfold ttl_phase. eapply leads_ext; [apply on_db_bind|].
  eapply (leads_step _ _ (λ now, (TtlList now [Sstate; Downloads], rep))); [is_step|].
  intros now. apply ttl_kinds_leads.
Qed.

Lemma evict_lru_unfold quota id project_id size cands usage rep s n :
  evict_lru dry_run quota ((id, project_id, size) :: cands) usage rep s n =
  bind (lru_step quota (id, project_id, size) usage) (λ rest, match rest with
    | None => ret rep
    | Some usage => evict_lru dry_run quota cands usage (count_eviction size rep)
    end) s n.
Proof. simpl. destruct (usage <=? quota); [done|]. by rewrite bind_assoc. Qed.

(** Both loops over candidates in least-recently-used order. *)
Lemma lru_leads (here : list (Z * Z * Z) → Z → SweepAt) (after : SweepAt) quota cands usage rep :
  (∀ usage rep s n, sweep_step (here [] usage, rep) s n = (Ok (inl (after, rep)), s, n)) →
  (∀ cand cands usage rep s n, sweep_step (here (cand :: cands) usage, rep) s n =
     bind (on_db (lru_step quota cand usage)) (λ rest, ret (inl match rest with
       | None => (after, rep)
       | Some usage => (here cands usage, count_eviction cand.2 rep)
       end)) s n) →
  leads (here cands usage, rep) (on_db (evict_lru dry_run quota cands usage rep)) after.
Proof.
  intros Hnil Hcons. revert usage rep. induction cands as [|[[id pid] size] cands IH]; intros usage rep.
  - eapply leads_ext; [apply on_db_ret|]. eapply leads_skip; [apply Hnil|]. apply leads_refl.
  - eapply leads_ext; [intros s n; unfold on_db at 1, zoom; rewrite evict_lru_unfold; apply (on_db_bind _ _ s n)|].
    eapply (leads_step _ _ _ _ _ (Hcons _ _ _ _)). intros [usage'|]; [apply IH|].
    eapply leads_ext; [apply on_db_ret|]. apply leads_refl.
Qed.

Lemma quota_project_leads ps p rep :
  leads (QuotaUsage (p :: ps), rep) (on_db (quota_project dry_run rep p)) (QuotaUsage ps).
Proof.
  unfold quota_project. destruct (p_quota_bytes p) as [quota|] eqn:Hq.
  - eapply leads_ext; [apply on_db_bind|].
    eapply (leads_step _ _ (λ usage, (if usage <=? quota then QuotaUsage ps else QuotaCands ps p quota usage, rep))).
    { intros [t fs] n. simpl. by rewrite Hq. }
    intros usage. destruct (usage <=? quota).
    + eapply leads_ext; [apply on_db_ret|]. apply leads_refl.
    + eapply leads_ext; [apply on_db_bind|].
      eapply (leads_step _ _ (λ cands, (QuotaEvict ps quota cands usage, rep))); [is_step|].
      intros cands. by apply (lru_leads (QuotaEvict ps quota)).
  - eapply leads_ext; [apply on_db_ret|]. eapply leads_skip; [|apply leads_refl].
    intros [t fs] n. simpl. by rewrite Hq.
Qed.

Lemma quota_phase_leads rep : leads (QuotaList, rep) (on_db (quota_phase rep dry_run)) GlobalUsage.
Proof.
  unfold quota_phase. eapply leads_ext; [apply on_db_bind|].
  eapply (leads_step _ _ (λ ps, (QuotaUsage ps, rep))); [is_step|].
  intros ps. revert rep. induction ps as [|p ps IH]; intros rep; simpl.
  - eapply leads_ext; [apply on_db_ret|]. eapply leads_skip; [is_step|]. apply leads_refl.
  - eapply leads_ext; [apply on_db_bind|]. eapply leads_trans; [apply quota_project_leads|exact IH].
Qed.

Lemma global_phase_leads rep : leads (GlobalUsage, rep) (on_db (global_phase cfg rep dry_run)) CleanupList.
Proof.
  unfold global_phase. eapply leads_ext; [apply on_db_bind|].
  eapply (leads_step _ _ (λ usage, (if usage <=? wrap_i64 (global_quota_bytes cfg) then CleanupList
                                    else GlobalCands (wrap_i64 (global_quota_bytes cfg)) usage, rep))); [is_step|].
  intros usage. cbv zeta. destruct (usage <=? wrap_i64 (global_quota_bytes cfg)).
  - eapply leads_ext; [apply on_db_ret|]. apply leads_refl.
  - eapply leads_ext; [apply on_db_bind|].
    eapply (leads_step _ _ (λ cands, (GlobalEvict (wrap_i64 (global_quota_bytes cfg)) cands usage, rep))); [is_step|].
    intros cands. by apply (lru_leads (GlobalEvict _)).
Qed.

(** What follows a blob of a batch. *)
Lemma blob_leads h batch rep (k : GcReport → M CoreError Sys GcReport) next :
  (∀ rep, leads (next_blob batch, rep) (k rep) next) →
  leads (CleanupUnlink h batch, rep) (bind (free_blob dry_run rep h) k) next.
Proof.
  intros Hk. eapply leads_ext; [intros s n; apply bind_assoc|]. destruct dry_run eqn:Hdry.
  - eapply leads_skip; [intros s n; simpl; by rewrite Hdry|]. apply Hk.
  - eapply leads_ext; [intros s n; apply bind_assoc|].
    eapply (leads_step _ _ (λ _, (CleanupDrop h batch, rep))).
    { intros s n. simpl. by rewrite Hdry. }
    intros _. eapply (leads_step _ _ (λ _, (next_blob batch, count_freed rep))); [is_step|].
    intros _. apply Hk.
Qed.

Lemma batch_leads h batch rep :
  leads (CleanupUnlink h batch, rep) (foldM (free_blob dry_run) rep (h :: batch)) (next_blob []).
Proof.
  revert h rep. induction batch as [|h' batch IH]; intros h rep; apply blob_leads; intros rep'.
  - apply leads_refl.
  - apply IH.
Qed.

Lemma cleanup_leads fuel rep : leads (CleanupList, rep) (cleanup_loop fuel rep dry_run) FinalUsage.
Proof.
  revert rep. induction fuel as [|fuel IH]; intros rep; [by intros s n|].
  eapply (leads_step _ _ (λ batch, (match batch with [] => FinalUsage | h :: batch => CleanupUnlink h batch end, rep)));
    [is_step|].
  intros [|h batch]; [apply leads_refl|]. eapply leads_trans; [apply batch_leads|].
  intros rep'. simpl. destruct dry_run; [apply leads_refl|apply IH].
Qed.

(** A part of a sweep up to its report. *)
Definition ends_as (sw : Sweep) (m : M CoreError Sys GcReport) : Prop :=
  ∀ s n, match m s n with
         | (Ok rep, s', n') => sweep_runs sw s n (Ok rep) s' n'
         | (Err e, s', n') => sweep_runs sw s n (Err e) s' n'
         | (Stop _, _, _) => True
         end.

Lemma ends_trans sw m mid k :
  leads sw m mid → (∀ rep, ends_as (mid, rep) (k rep)) → ends_as sw (bind m k).
Proof.
  intros Hm Hk s n. specialize (Hm s n). unfold bind.
  destruct (m s n) as [[[rep|e|w] s1] n1]; [|done|done].
  specialize (Hk rep s1 n1). destruct (k rep s1 n1) as [[[rep'|e|w] s2] n2]; eauto.
Qed.

Lemma GcSvc_run_ends : ends_as (TtlStart, GcReport_default) (GcSvc_run cfg dry_run).
Proof.
  unfold GcSvc_run. cbv zeta.
  eapply ends_trans; [apply ttl_phase_leads|]. intros rep1.
  eapply ends_trans; [apply quota_phase_leads|]. intros rep2.
  eapply ends_trans; [apply global_phase_leads|]. intros rep3.
  eapply ends_trans; [|].
  - intros s n. apply (cleanup_leads (S (size (blobs s.1))) rep3 s n).
  - intros rep4 s n. pose proof (@eq_refl _ (sweep_step (FinalUsage, rep4) s n)) as Hst.
    unfold sweep_step at 2 in Hst. unfold bind, ret in *.
    destruct (on_db Blobs_total_size s n) as [[[usage|e|w] s1] n1];
      [by apply runs_done|by apply runs_failed|done].
Qed.
End sweep.

(** ** What a step does *)

(** The entries a sweep has picked for eviction, the blobs it has picked for removal. *)
Definition cand_ids (at_ : SweepAt) : list Z :=
  match at_ with
  | TtlEvict _ _ cands => (λ c : Z * Z * string * Z, c.1.1.1) <$> cands
  | QuotaEvict _ _ cands _ | GlobalEvict _ cands _ => (λ c : Z * Z * Z, c.1.1) <$> cands
  | _ => []
  end.
Definition batch_of (at_ : SweepAt) : list string :=
  match at_ with CleanupUnlink h batch | CleanupDrop h batch => h :: batch | _ => [] end.

(** About to unlink a file whose content has been registered again since it was listed. *)
Definition tears (dry_run : bool) (at_ : SweepAt) (t : Tables) : Prop :=
  match at_ with CleanupUnlink h _ => dry_run = false ∧ ref_entries t h ≠ 0 | _ => False end.
#[export] Instance tears_dec dry_run at_ t : Decision (tears dry_run at_ t).
Proof. destruct at_; apply _. Defined.

Section sweep_spec.
Context {env : Env} {fsenv : FsEnv} {sha : Sha256}.
Variable cfg : GcConfig.
Variable dry_run : bool.

(** What a sweep picks is unpinned, and named by a digest. *)
Definition picks (here next : SweepAt) (t : Tables) : Prop :=
  Forall (λ h, is_hash h = true) (batch_of next) ∧
  ∀ i, i ∈ cand_ids next → i ∈ cand_ids here ∨ ∃ e, entries t !! i = Some e ∧ e_pinned e = false.

Definition sweep_post (here : SweepAt) (s : Sys) (r : res CoreError (Sweep + GcReport)) (s' : Sys) : Prop :=
  sys_ok s' ∧ fs_dirs s'.2 = fs_dirs s.2 ∧ no_stop r ∧
  (∀ i, entries s'.1 !! i = entries s.1 !! i ∨ (i ∈ cand_ids here ∧ entries s'.1 !! i = None)) ∧
  (∀ next, r = Ok (inl next) → picks here next.1 s.1).

Lemma picks_none here next t : cand_ids next = [] → batch_of next = [] → picks here next t.
Proof. intros Hc Hb. unfold picks. rewrite Hc, Hb. split; [done|]. intros i Hi. by apply elem_of_nil in Hi. Qed.

Lemma post_same here s r :
  sys_ok s → no_stop r → (∀ next, r = Ok (inl next) → picks here next.1 s.1) → sweep_post here s r s.
Proof. intros Hs Hr Hp. split_and!; try done. by left. Qed.

(** A statement that only reads. *)
Lemma read_post {A} (m : M CoreError Tables A) (f : A → Sweep + GcReport) (Q : A → Prop) err here s :
  wp m (outcome s.1 (λ a t', t' = s.1 ∧ Q a) err) s.1 →
  (∀ a next, Q a → f a = inl next → picks here next.1 s.1) → sys_ok s →
  wp (let* a := on_db m in ret (f a)) (sweep_post here s) s.
Proof.
  intros Hm Hf Hs. unfold on_db. wp_go. eapply wp_mono; [exact Hm|]. intros [a|e|w] t' Ht; simpl in Ht; [| |done].
  - destruct Ht as [-> HQ]. destruct s as [t fs]. wp_go. apply post_same; [done..|].
    intros next [= Heq]. by eapply Hf.
  - destruct Ht as [_ ->]. destruct s. by apply post_same.
Qed.

(** A statement that evicts the first candidate, or fails. *)
Definition evicts_one (id : Z) (t t' : Tables) : Prop :=
  t' = t ∨ ∃ e, entries t !! id = Some e ∧ e_id e = id ∧ t' = drop_entry e t.

Lemma delete_one project_id id t :
  schema_ok t →
  wp (if dry_run then ret tt else Entries_delete project_id id)
    (λ r t', evicts_one id t t' ∧ no_stop r) t.
Proof.
  intros Hok. destruct dry_run; [apply wp_ret; split; [by left|done]|].
  wp_use Entries_delete_spec; [done|]. intros [[]|e|w] t' Ht; simpl in *; [| |done].
  - destruct Ht as (e & [He _]%entry_of_Some & ->). split; [right|done]. exists e. split_and!; try done.
    destruct (so_entries t Hok) as [_ Hids]. by destruct (Hids _ _ He) as [-> _].
  - destruct Ht as [_ ->]. split; [by left|done].
Qed.

Lemma evict_post {A} (m : M CoreError Tables A) (f : A → Sweep + GcReport) id here s :
  wp m (λ r t', evicts_one id s.1 t' ∧ no_stop r) s.1 → id ∈ cand_ids here →
  (∀ a next, f a = inl next → picks here next.1 s.1) → sys_ok s →
  wp (let* a := on_db m in ret (f a)) (sweep_post here s) s.
Proof.
  intros Hm Hid Hf Hs. unfold on_db. wp_go. eapply wp_mono; [exact Hm|].
  assert (∀ r t', evicts_one id s.1 t' → no_stop r → (∀ next, r = Ok (inl next) → picks here next.1 s.1) →
    sweep_post here s r (t', s.2)) as Hpost.
  { intros r t' [->|(e & He & Heq & ->)] Hr Hp; [destruct s; by apply post_same|].
    split_and!; try done.
    - apply (sys_ok_evicts (λ _, True) [e] s.1); [|by destruct s]. rewrite <-Heq in He. eauto with marmotte.
    - intros i. simpl. rewrite Heq. destruct (decide (id = i)) as [<-|Hne].
      + right. split; [done|]. apply lookup_delete_eq.
      + left. by apply lookup_delete_ne. }
  intros [a|e|w] t' [Ht Hr]; simpl in *; [|by apply Hpost|done].
  wp_go. apply Hpost; [done..|]. intros next [= Heq]. by eapply Hf.
Qed.

Lemma lru_step_one quota id project_id size usage t :
  schema_ok t → wp (lru_step dry_run quota (id, project_id, size) usage) (λ r t', evicts_one id t t' ∧ no_stop r) t.
Proof.
  intros Hok. unfold lru_step. destruct (usage <=? quota); [apply wp_ret; split; [by left|done]|].
  wp_go. eapply wp_mono; [by apply delete_one|]. intros [[]|e|w] t' H; simpl; [by wp_go|done|by destruct H].
Qed.

Lemma picks_select here next t (l : list Entry) :
  schema_ok t → batch_of next = [] → cand_ids next = e_id <$> l →
  (∀ e, e ∈ l → e_pinned e = false ∧ entries t !! e_id e = Some e) → picks here next t.
Proof.
  intros Hok Hb Hc Hl. unfold picks. rewrite Hb, Hc. split; [done|].
  intros i (e & -> & He)%list_elem_of_fmap. right. exists e. destruct (Hl e He). done.
Qed.

Lemma ttl_evict_one id project_id hash size rep t :
  schema_ok t →
  wp (ttl_evict dry_run rep (id, project_id, hash, size)) (λ r t', evicts_one id t t' ∧ no_stop r) t.
Proof.
  intros Hok. unfold ttl_evict. wp_go. eapply wp_mono; [by apply delete_one|].
  intros [[]|e|w] t' H; simpl; [by wp_go|done|by destruct H].
Qed.

Lemma picks_next here next t : cand_ids next ⊆ cand_ids here → batch_of next = [] → picks here next t.
Proof. intros Hc Hb. unfold picks. rewrite Hb. split; [done|]. intros i Hi. left. by apply Hc. Qed.

Lemma unlink_post h batch rep s :
  sys_ok s → is_hash h = true → ref_entries s.1 h = 0 → Forall (λ h, is_hash h = true) batch →
  wp (let* _ := attempt (F := CoreError) (on_fs (LocalFsStore_delete_blob h)) in
      ret (inl (CleanupDrop h batch, rep))) (sweep_post (CleanupUnlink h batch) s) s.
Proof.
  intros Hs Hh Href Hb. destruct s as [t fs]. unfold on_fs. wp_go. simpl in *.
  assert (∀ fs', fs' = fs ∨ fs' = drop_blob_file h fs →
    sweep_post (CleanupUnlink h batch) (t, fs) (Ok (inl (CleanupDrop h batch, rep))) (t, fs')) as Hpost.
  { intros fs' Hfs. split_and!; try done.
    - destruct Hs as [Hr Hst Ha]. destruct Hfs as [->| ->]; [by split|].
      split; [done|by apply store_ok_delete|by apply available_drop_file].
    - by destruct Hfs as [->| ->].
    - by left.
    - intros next [= <-]. split; [by constructor|]. intros i Hi. by apply elem_of_nil in Hi. }
  wp_use delete_blob_outcome; [done|]. intros [[]|e|w] fs' Hfs; [| |done]; simpl; wp_go; apply Hpost.
  - destruct Hfs as [->|[-> _]]; auto.
  - destruct Hfs as [-> _]; auto.
Qed.

Lemma drop_post h batch rep s :
  sys_ok s → Forall (λ h, is_hash h = true) (h :: batch) →
  wp (on_db (Blobs_delete h) ;* ret (inl (next_blob dry_run batch, count_freed rep)))
    (sweep_post (CleanupDrop h batch) s) s.
Proof.
  intros Hs Hb. destruct s as [t fs]. unfold on_db. wp_go.
  wp_use Blobs_delete_spec. simpl. intros [[]|e|w] t' Ht; simpl in *; [| |done].
  - destruct Ht as [-> Href]. wp_go.
    assert (ref_entries t h = 0) as H0.
    { destruct Href as [Hn|H0]; [|done]. apply ref_entries_missing; [apply Hs|done]. }
    split_and!; try done; [|by left|].
    + destruct Hs as [[Hok Hc Hh] Hst Ha]. split; [split|done|exact Ha].
      * by apply schema_drop_blob.
      * intros h'. specialize (Hc h'). unfold slack, refcount_of in *. simpl in *.
        change (ref_entries (drop_blob h t) h') with (ref_entries t h').
        destruct (decide (h = h')) as [<-|Hne]; [rewrite lookup_delete_eq; lia|by rewrite lookup_delete_ne].
      * intros h' b Hb'. simpl in Hb'. apply lookup_delete_Some in Hb' as [_ Hb']. by eapply Hh.
    + intros next [= <-]. apply Forall_cons in Hb as [_ Hb]. split.
      * destruct batch; [by destruct dry_run|done].
      * intros i Hi. destruct batch; [destruct dry_run|]; by apply elem_of_nil in Hi.
  - destruct Ht as [_ ->]. by apply post_same.
Qed.

Lemma picks_lru here next t (q : Entry → bool) :
  schema_ok t → batch_of next = [] → cand_ids next = e_id <$> lru_of q t → picks here next t.
Proof.
  intros Hok Hb Hc. apply (picks_select _ _ _ (lru_of q t)); [done..|].
  intros e (_ & Hp & He)%elem_of_lru; done.
Qed.

Lemma lru_ids (l : list Entry) : (λ c : Z * Z * Z, c.1.1) <$> (lru_row <$> l) = e_id <$> l.
Proof. by rewrite <- list_fmap_compose. Qed.

(** The candidates of a TTL phase. *)
Lemma ttl_list_post now kind kinds rep s :
  sys_ok s →
  wp (sweep_step cfg dry_run (TtlList now (kind :: kinds), rep)) (sweep_post (TtlList now (kind :: kinds)) s) s.
Proof.
  intros Hs. pose proof (ro_schema _ (sys_refs _ Hs)) as Hok. unfold sweep_step.
  apply (read_post _ _ (λ cands, ∃ l, l ≡ₚ select (ttl_where (projects s.1) kind now
    (wrap_i64 (now - default_secs cfg kind))) (entries s.1) ∧ cands = ttl_row <$> l) (λ _, False)); [| |done].
  + apply wp_sql, wp_query_scan; [intros x Hx; split; [by left; apply db_fault_intro|done]|].
    intros l Hl. split; [done|]. by exists l.
  + intros ? next (l & Hl & ->) [= <-]. eapply (picks_select _ _ _ l); try done.
    { simpl. by rewrite <-list_fmap_compose. }
    intros e. rewrite Hl, elem_of_candidates by done. intros [Hw He]. split; [|done].
    pose proof (ttl_where_kind _ _ _ _ _ Hw) as <-. unfold ttl_where in Hw.
    destruct (projects s.1 !! e_project_id e); [|done].
    apply andb_prop in Hw as [[[_ Hp]%andb_prop _]%andb_prop _]. by apply negb_true_iff in Hp.
Qed.

(** A batch of blobs that nothing refers to. *)
Lemma cleanup_list_post rep s :
  sys_ok s → wp (sweep_step cfg dry_run (CleanupList, rep)) (sweep_post CleanupList s) s.
Proof.
  intros Hs. pose proof (ro_schema _ (sys_refs _ Hs)) as Hok. unfold sweep_step.
  eapply (read_post _ _ (λ batch, Forall (λ h, is_hash h = true) batch)); [| |done].
  + wp_use Blobs_zero_refcount_spec. intros [l|e|w] t' Ht; simpl in *; [|exact Ht|done].
    destruct Ht as (-> & l' & Hl & ->). split; [done|]. apply Forall_forall. intros h Hh.
    assert (h ∈ b_hash <$> l') as (b & -> & Hin)%list_elem_of_fmap.
    { unfold sql_limit in Hh. case_match; [done|]. by eapply subseteq_take. }
    rewrite Hl in Hin. apply elem_of_select in Hin as (_ & i & Hi).
    rewrite (so_blobs _ Hok _ _ Hi). by eapply (ro_hashes _ (sys_refs _ Hs)).
  + intros [|h l] next Hl [= <-]; [by apply picks_none|]. split; [done|]. intros i Hi. by apply elem_of_nil in Hi.
Qed.

(** A step that does not tear keeps the system in order, whatever happened before it. *)
Lemma sweep_step_post at_ rep s :
  sys_ok s → Forall (λ h, is_hash h = true) (batch_of at_) → ¬ tears dry_run at_ s.1 →
  wp (sweep_step cfg dry_run (at_, rep)) (sweep_post at_ s) s.
Proof.
  intros Hs Hb Hn. pose proof (ro_schema _ (sys_refs _ Hs)) as Hok.
  assert (∀ next rep', cand_ids next ⊆ cand_ids at_ → batch_of next = [] →
    sweep_post at_ s (Ok (inl (next, rep'))) s) as Hskip.
  { intros next rep' Hc Hb'. apply post_same; [done..|]. intros ? [= <-]. by apply picks_next. }
  destruct at_ as [|now [|kind kinds]|now kinds [|[[[id pid] hash] size] cands]| |[|p ps]|ps p quota usage
    |ps quota [|[[id pid] size] cands] usage| |quota usage|quota [|[[id pid] size] cands] usage| |h batch|h batch|];
    unfold sweep_step; try (by db_go; apply Hskip).
  - by apply ttl_list_post.
  - apply (evict_post _ _ id); [by apply ttl_evict_one|left| |done].
    intros ? next [= <-]. apply picks_next; [|done]. intros i Hi. by right.
  - apply (read_post _ _ (λ _, True) (λ _, False)); [| |done].
    + wp_use Projects_list_spec. intros [l|e|w] t' Ht; simpl in *; tauto.
    + intros ? next _ [= <-]. by apply picks_none.
  - destruct (p_quota_bytes p) as [quota|]; [|wp_go; by apply Hskip].
    eapply (read_post _ _ (λ u, u = project_usage s.1 (p_id p))); [apply Entries_project_usage_spec| |done].
    intros u next _ [= <-]. simpl. by destruct (u <=? quota); apply picks_none.
  - apply (read_post _ _ (λ cands, cands = lru_row <$> lru_of (λ e, e_project_id e =? p_id p) s.1) (λ _, False));
      [db_go; done| |done].
    intros ? next -> [= <-]. eapply picks_lru; [done|done|by apply lru_ids].
  - apply (evict_post _ _ id); [by apply lru_step_one|left| |done].
    intros [u|] next [= <-]; [|by apply picks_none]. apply picks_next; [|done]. intros i Hi. by right.
  - eapply (read_post _ _ (λ u, u = total_size s.1)); [apply Blobs_total_size_spec| |done].
    intros u next _ [= <-]. simpl. by destruct (u <=? _); apply picks_none.
  - apply (read_post _ _ (λ cands, cands = lru_row <$> lru_of (λ _, true) s.1) (λ _, False)); [db_go; done| |done].
    intros ? next -> [= <-]. eapply picks_lru; [done|done|by apply lru_ids].
  - apply (evict_post _ _ id); [by apply lru_step_one|left| |done].
    intros [u|] next [= <-]; [|by apply picks_none]. apply picks_next; [|done]. intros i Hi. by right.
  - by apply cleanup_list_post.
  - simpl in Hb, Hn. apply Forall_cons in Hb as [Hh Hb]. destruct dry_run eqn:Hdry.
    + wp_go. apply post_same; [done..|]. intros next [= <-]. destruct batch; [by apply picks_none|].
      split; [done|]. intros i Hi. by apply elem_of_nil in Hi.
    + apply unlink_post; try done. destruct (Z.eq_dec (ref_entries s.1 h) 0); [done|]. by destruct Hn.
  - by apply drop_post.
  - eapply (read_post _ (λ u, inr (set_usage u rep)) (λ u, u = total_size s.1)); [apply Blobs_total_size_spec|done..].
Qed.
End sweep_spec.

(** ** Interleaving *)

(** The server with the sweep under way, if there is one, and whether it is a dry run. *)
Abbreviation Sweeping := (App * option (bool * Sweep))%type.

(** The sweep's own moves.  The mutex lets a sweep start only when none is under way.  It
    does not unlink what has been registered again since it was listed: that is the race
    that the findings show. *)
Inductive sweep_own (config : Config) : Sweeping → Sweeping → Prop :=
| own_start dry_run s :
    sweep_own config (s, None) (s, Some (dry_run, (TtlStart, GcReport_default)))
| own_step `{!Env, !FsEnv} dry_run sw s n sw' s' n' :
    ¬ tears dry_run sw.1 (app_db s) →
    zoom lens_sys (sweep_step (gc config) dry_run sw) s n = (Ok (inl sw'), s', n') →
    sweep_own config (s, Some (dry_run, sw)) (s', Some (dry_run, sw'))
| own_end `{!Env, !FsEnv} dry_run sw s n r s' n' :
    ¬ tears dry_run sw.1 (app_db s) →
    zoom lens_sys (sweep_step (gc config) dry_run sw) s n = (r, s', n') → (∀ sw', r ≠ Ok (inl sw')) →
    sweep_own config (s, Some (dry_run, sw)) (s', None)
| own_dropped dry_run sw s :
    sweep_own config (s, Some (dry_run, sw)) (s, None).

(** Everything that is not a sweep. *)
Inductive sweep_beside `{!Sha256, !Argon2, !Base64, !ListLibs, !JsonText} (config : Config)
    : Sweeping → Sweeping → Prop :=
| beside_does ev s s' o :
    server_does config ev s s' → event_sweeps ev = false → sweep_beside config (s, o) (s', o).

Definition sweep_move `{!Sha256, !Argon2, !Base64, !ListLibs, !JsonText} (config : Config)
    (x y : Sweeping) : Prop := sweep_own config x y ∨ sweep_beside config x y.

(** An entry is there, and pinned. *)
Definition pinned_at (i : Z) (s : App) : Prop :=
  ∃ e, entries (app_db s) !! i = Some e ∧ e_pinned e = true.

Definition sweeping_ok `{!Sha256} (x : Sweeping) : Prop :=
  app_ok x.1 ∧ match x.2 with Some (_, sw) => Forall (λ h, is_hash h = true) (batch_of sw.1) | None => True end.
Definition not_picked (i : Z) (x : Sweeping) : Prop :=
  match x.2 with Some (_, sw) => i ∉ cand_ids sw.1 | None => True end.

Section interleaving.
Context {sha : Sha256} {ar : Argon2} {b64 : Base64} {libs : ListLibs} {jt : JsonText}.
Variable config : Config.

(** One step of the sweep, on the server's state. *)
Lemma sweep_step_app `{!Env, !FsEnv} dry_run sw s n r s' n' :
  app_ok s → Forall (λ h, is_hash h = true) (batch_of sw.1) → ¬ tears dry_run sw.1 (app_db s) →
  zoom lens_sys (sweep_step (gc config) dry_run sw) s n = (r, s', n') →
  app_ok s' ∧ sweep_post sw.1 (app_sys s) r (app_sys s').
Proof.
  intros Hs Hb Hn Hrun. destruct sw as [at_ rep].
  pose proof (sweep_step_post (gc config) dry_run at_ rep (app_sys s) (ao_sys _ Hs) Hb Hn n) as Hpost.
  unfold zoom in Hrun. change (lget lens_sys s) with (app_sys s) in Hrun.
  destruct (sweep_step (gc config) dry_run (at_, rep) (app_sys s) n) as [[r1 [t fs]] n1]. simpl in Hpost.
  injection Hrun as -> <- <-. split; [|exact Hpost]. destruct Hpost as (Hsys & Hdirs & _).
  split; [exact Hsys|]. unfold opened. simpl in *. rewrite Hdirs. apply Hs.
Qed.

Lemma sweep_own_ok x y : sweep_own config x y → sweeping_ok x → sweeping_ok y.
Proof.
  intros Hst [Hs Hb]. destruct Hst as [d s|? ? d sw s n sw' s' n' Hn Hrun|? ? d sw s n r s' n' Hn Hrun Hend|d sw s];
    simpl in *.
  - split; [done|constructor].
  - destruct (sweep_step_app _ _ _ _ _ _ _ Hs Hb Hn Hrun) as [Hs' (_ & _ & _ & _ & Hp)].
    split; [done|]. by apply Hp.
  - destruct (sweep_step_app _ _ _ _ _ _ _ Hs Hb Hn Hrun) as [Hs' _]. by split.
  - by split.
Qed.

Lemma sweep_move_ok x y : sweep_move config x y → sweeping_ok x → sweeping_ok y.
Proof.
  intros [Hst|Hst] Hx; [by eapply sweep_own_ok|]. destruct Hst as [ev s s' o Hd _].
  destruct Hx as [Hs Hb]. split; [|done]. eapply server_step_ok; [by exists ev|done].
Qed.

(** A pinned entry that is not picked stays, and is not picked. *)
Lemma sweep_own_spares i x y :
  sweep_own config x y → sweeping_ok x → pinned_at i x.1 → not_picked i x →
  pinned_at i y.1 ∧ not_picked i y.
Proof.
  unfold not_picked. intros Hst [Hs Hb] Hpin Hnp.
  destruct Hst as [d s|? ? d sw s n sw' s' n' Hn Hrun|? ? d sw s n r s' n' Hn Hrun Hend|d sw s]; simpl in *.
  - split; [done|]. apply not_elem_of_nil.
  - destruct (sweep_step_app _ _ _ _ _ _ _ Hs Hb Hn Hrun) as [_ (_ & _ & _ & Hent & Hp)].
    destruct (Hp _ eq_refl) as [_ Hpick]. destruct Hpin as (e & He & Hpe). split.
    + exists e. split; [|done]. destruct (Hent i) as [Heq|[Hin _]]; [by rewrite <- He|done].
    + intros Hin. destruct (Hpick i Hin) as [|(e' & He' & Hpe')]; [done|].
      simpl in He'. congruence.
  - destruct (sweep_step_app _ _ _ _ _ _ _ Hs Hb Hn Hrun) as [_ (_ & _ & _ & Hent & _)].
    destruct Hpin as (e & He & Hpe). split; [|done]. exists e. split; [|done].
    destruct (Hent i) as [Heq|[Hin _]]; [by rewrite <- He|done].
  - done.
Qed.

Lemma sweeping_reachable x : rtc (sweep_move config) (fresh config, None) x → sweeping_ok x.
Proof.
  intros Hr. assert (sweeping_ok (fresh config, None)) as H0 by (split; [apply fresh_ok|done]).
  revert H0. induction Hr; eauto using sweep_move_ok.
Qed.

Lemma pinned_spared i x y :
  rtc (λ a b, sweep_own config a b ∨ (sweep_beside config a b ∧ pinned_at i b.1)) x y →
  sweeping_ok x → pinned_at i x.1 → not_picked i x → pinned_at i y.1.
Proof.
  induction 1 as [x|x z y Hst _ IH]; [done|]. intros Hx Hpin Hnp.
  destruct Hst as [Hown|[Hbes Hpz]].
  - destruct (sweep_own_spares i x z Hown Hx Hpin Hnp). apply IH; [by eapply sweep_own_ok|done..].
  - apply IH; [by eapply sweep_move_ok; [right|]|done|]. by destruct Hbes.
Qed.
End interleaving.

(** ** Theorems *)

(** C7: a sweep may run beside everything else.  Its steps in a row are [GcSvc_run].  In
    every state reached by interleaving the steps of sweeps, finished, failed or dropped,
    with requests, tasks, restarts and [init] runs, every entry has its file with content
    of its digest, provided that no sweep unlinks a content that was registered again
    since the sweep listed it; and a sweep never takes an entry that was pinned before it
    started, as long as nobody else unpins or deletes it. *)
Theorem sweeps_beside_anything `{!Sha256, !Argon2, !Base64, !ListLibs, !JsonText} config x :
  rtc (sweep_move config) (fresh config, None) x →
  (∀ (env : Env) (fsenv : FsEnv) dry_run s n,
     match GcSvc_run (gc config) dry_run s n with
     | (Ok rep, s', n') => sweep_runs (gc config) dry_run (TtlStart, GcReport_default) s n (Ok rep) s' n'
     | (Err e, s', n') => sweep_runs (gc config) dry_run (TtlStart, GcReport_default) s n (Err e) s' n'
     | (Stop _, _, _) => True
     end) ∧
  (∀ i e, entries (app_db x.1) !! i = Some e →
     ∃ c, blob_at (app_store x.1) (e_blob_hash e) = Some c ∧ sha256_hex c = e_blob_hash e) ∧
  (∀ i y, x.2 = None → pinned_at i x.1 →
     rtc (λ a b, sweep_own config a b ∨ (sweep_beside config a b ∧ pinned_at i b.1)) x y → pinned_at i y.1).
Proof.
  intros Hx%sweeping_reachable. split_and!.
  - intros env fsenv dry_run s n. apply GcSvc_run_ends.
  - intros i e Hi. destruct (app_ok_entry x.1 i e (proj1 Hx) Hi) as (_ & c & Hc & Hsha). by exists c.
  - intros i y Hnone Hpin Hr. apply (pinned_spared config i x y Hr Hx Hpin). unfold not_picked. by rewrite Hnone.
Qed.
