(* ===== verification/AdminAudit.v ===== *)
(** * The audit log

    The handlers of [crates/marmotte-server/src/routes/admin/*] do their work first and
    write a line about it afterwards, in a transaction of its own.  [did] says what the
    work of each request is and what its line says; the theorem relates answer, work and
    line on every path.  [admin_work] and [admin_finish] are the handlers cut between
    the two; AuditRun.v interleaves them. *)
From stdpp Require Import base numbers list strings gmap relations sorting pretty.
From Stdlib Require Import ZArith Lia.
From S2P Require Import Prelude Models Db Blobs Entries Projects Credentials Stats Storage Config Gc GcRun Orphans Auth Http Metrics App Listing Admin Yocto Server.

(** ** What a line says *)

(** The requests that leave a line. *)
Definition audited (req : AdminRequest) : bool :=
  match req with
  | CreateProject _ _ _ | UpdateProject _ _ _ _ | DeleteProject _ | CreateKey _ _ _ | RevokeKey _ _
  | CreateToken _ | RevokeToken _ | DeleteEntry _ _ | PinEntry _ _ | UnpinEntry _ _
  | RunGc _ | RunOrphanScan _ => true
  | _ => false
  end.

(** Action, target and detail. *)
Abbreviation Line := (string * option string * option Json)%type.

(** A sweep or a scan takes entries and blobs and leaves the other tables alone. *)
Definition shrunk (t t' : Tables) : Prop :=
  entries t' ⊆ entries t ∧ projects t' = projects t ∧ api_keys t' = api_keys t ∧
  admin_tokens t' = admin_tokens t ∧ stats_counters t' = stats_counters t ∧ audit_log t' = audit_log t.

(** The work of a request on the tables, and what is written about it. *)
Inductive did (t : Tables) : AdminRequest → Tables → Line → Prop :=
| did_create_project name q l id now :
    projects t !! id = None → ¬ name_taken t name →
    did t (CreateProject name q l) (set_projects (<[id := mkProject id name q l now]> (projects t)) id t)
      ("project.create", Some (pretty id), Some (JObj [("name", JStr name)]))%string
| did_update_project id name q l :
    is_Some (projects t !! id) → name_free t id name →
    did t (UpdateProject id name q l) (updated_tables t id name (double_option q) (double_option l))
      ("project.update", Some (pretty id), None)%string
| did_delete_project id :
    is_Some (projects t !! id) →
    did t (DeleteProject id) (drop_project id t) ("project.delete", Some (pretty id), None)%string
| did_create_key id role label kid lookup phc now :
    is_Some (projects t !! id) → api_keys t !! kid = None →
    did t (CreateKey id role label)
      (set_api_keys (<[kid := mkApiKey kid id lookup phc role label now None]> (api_keys t)) kid t)
      ("key.create", Some (pretty kid), Some (JObj [("role", JStr (Role_as_str role))]))%string
| did_revoke_key id kid k now :
    revocable t id kid k →
    did t (RevokeKey id kid) (set_api_keys (<[kid := revoke_key now k]> (api_keys t)) (seq_api_keys t) t)
      ("key.revoke", Some (pretty kid), None)%string
| did_create_token label id lookup phc now :
    admin_tokens t !! id = None →
    did t (CreateToken label)
      (set_admin_tokens (<[id := mkAdminToken id lookup phc label now None]> (admin_tokens t)) id t)
      ("token.create", Some (pretty id), Some (JObj [("label", json_opt JStr label)]))%string
| did_revoke_token id k now :
    admin_tokens t !! id = Some k → t_revoked_at k = None →
    did t (RevokeToken id) (set_admin_tokens (<[id := revoke_token now k]> (admin_tokens t)) (seq_admin_tokens t) t)
      ("token.revoke", Some (pretty id), None)%string
| did_delete_entry id eid e :
    entry_of t id eid = Some e →
    did t (DeleteEntry id eid) (drop_entry e t) ("entry.delete", Some (pretty eid), None)%string
| did_pin id eid e :
    entry_of t id eid = Some e →
    did t (PinEntry id eid) (update_entry eid (set_entry_pinned true e) t)
      ("entry.pin", Some (pretty eid), None)%string
| did_unpin id eid e :
    entry_of t id eid = Some e →
    did t (UnpinEntry id eid) (update_entry eid (set_entry_pinned false e) t)
      ("entry.unpin", Some (pretty eid), None)%string
| did_gc dry_run t' :
    shrunk t t' → (dry_run = true → t' = t) →
    did t (RunGc dry_run) t' ("gc.run", None, Some (dry_run_detail dry_run))%string
| did_orphan_scan dry_run t' :
    shrunk t t' → (dry_run = true → t' = t) →
    did t (RunOrphanScan dry_run) t' ("gc.orphan_scan", None, Some (dry_run_detail dry_run))%string.

Lemma shrunk_refl t : shrunk t t.
Proof. done. Qed.

(** Work is not about the log. *)
Lemma did_log t req t' l : did t req t' l → audit_log t' = audit_log t.
Proof. by destruct 1 as [| | | | | | | | | |? ? (_&_&_&_&_&->) _|? ? (_&_&_&_&_&->) _]. Qed.
Lemma did_audited t req t' l : did t req t' l → audited req = true.
Proof. by destruct 1. Qed.

Section audit.
Context {env : Env} {fsenv : FsEnv} {sha : Sha256} {ar : Argon2} {aenv : AuthEnv} {mk : Moka}
  {libs : ListLibs} {jt : JsonText}.
Variable config : Config.

(** The row that a line becomes. *)
Definition logs (auth : AdminAuth) (l : Line) (t t' : Tables) : Prop :=
  ∃ id now, clock_reading now ∧ seq_audit_log t < id <= i64_max ∧
    t' = set_audit_log (audit_log t ++
      [mkAuditRow id now (aa_token_label auth) l.1.1 l.1.2 (json_to_string <$> l.2)]) id t.

(** What an admin request may come to: done and logged; refused and not done; or an
    error that leaves no line, although the work may be done.  What only reads changes
    no table. *)
Definition admin_post (auth : AdminAuth) (req : AdminRequest) (t : Tables)
    (r : res CoreError Response) (s' : App) : Prop :=
  match r with
  | Ok resp =>
      if audited req
      then resp_status resp < 400 ∧ ∃ t1 l, did t req t1 l ∧ logs auth l t1 (app_db s')
      else app_db s' = t
  | Err _ => app_db s' = t ∨ ∃ l, did t req (app_db s') l
  | Stop _ => False
  end.

(** ** The handlers, cut before the line is written *)

(** What is left to do: the line, the counter of sweeps, the answer. *)
Record Pending := mkPending {
  pd_line : Line;
  pd_count : option string;
  pd_answer : Response
}.

Definition admin_work (auth : AdminAuth) (req : AdminRequest) : M CoreError App (Response + Pending) :=
  match req with
  | CreateProject name q l =>
      let* p := zoom lens_db (Projects_create name q l) in
      ret (inr (mkPending ("project.create", Some (pretty (p_id p)), Some (JObj [("name", JStr (p_name p))]))%string
        None (json_response CREATED (ProjectView p))))
  | UpdateProject id name q l =>
      let* p := zoom lens_db (Projects_update id name (double_option q) (double_option l)) in
      ret (inr (mkPending ("project.update", Some (pretty id), None)%string None (json_response OK_200 (ProjectView p))))
  | DeleteProject id =>
      zoom lens_db (Projects_delete id) ;*
      ret (inr (mkPending ("project.delete", Some (pretty id), None)%string None no_content))
  | CreateKey id role label =>
      let* _ := zoom lens_db (Projects_get id) in
      let* secret := generate_secret in
      let* phc := hash_argon2 secret in
      let* key := zoom lens_db (ApiKeys_create id (lookup_hash secret) phc role label) in
      ret (inr (mkPending ("key.create", Some (pretty (k_id key)), Some (JObj [("role", JStr (Role_as_str role))]))%string
        None (json_response CREATED (ApiKeyCreated key secret))))
  | RevokeKey id kid =>
      zoom lens_db (ApiKeys_revoke id kid) ;*
      ret (inr (mkPending ("key.revoke", Some (pretty kid), None)%string None no_content))
  | CreateToken label =>
      let* secret := generate_secret in
      let* phc := hash_argon2 secret in
      let* t := zoom lens_db (AdminTokens_create (lookup_hash secret) phc label) in
      ret (inr (mkPending ("token.create", Some (pretty (t_id t)), Some (JObj [("label", json_opt JStr (t_label t))]))%string
        None (json_response CREATED (AdminTokenCreated t secret))))
  | RevokeToken id =>
      zoom lens_db (AdminTokens_revoke id) ;*
      ret (inr (mkPending ("token.revoke", Some (pretty id), None)%string None no_content))
  | DeleteEntry id eid =>
      zoom lens_db (Entries_delete id eid) ;*
      ret (inr (mkPending ("entry.delete", Some (pretty eid), None)%string None no_content))
  | PinEntry id eid =>
      zoom lens_db (Entries_set_pinned id eid true) ;*
      ret (inr (mkPending ("entry.pin", Some (pretty eid), None)%string None no_content))
  | UnpinEntry id eid =>
      zoom lens_db (Entries_set_pinned id eid false) ;*
      ret (inr (mkPending ("entry.unpin", Some (pretty eid), None)%string None no_content))
  | RunGc dry_run =>
      let* r := zoom lens_sys (GcSvc_run (gc config) dry_run) in
      ret (inr (mkPending ("gc.run", None, Some (dry_run_detail dry_run))%string
        (Some (if dry_run then "true" else "false")%string)
        (json_response OK_200 (JObj
          [("dry_run", JBool dry_run); ("evicted_entries", JInt (evicted_entries r));
           ("evicted_bytes", JInt (evicted_bytes r)); ("freed_blobs", JInt (freed_blobs r));
           ("usage_global_bytes", JInt (usage_global_bytes r))]%string))))
  | RunOrphanScan dry_run =>
      let* r := zoom lens_sys (GcSvc_orphan_scan dry_run) in
      ret (inr (mkPending ("gc.orphan_scan", None, Some (dry_run_detail dry_run))%string None
        (json_response OK_200 (JObj
          [("dry_run", JBool dry_run); ("disk_orphans_removed", JInt (disk_orphans_removed r));
           ("db_orphans_removed", JInt (db_orphans_removed r))]%string))))
  | _ => let* resp := admin_handler config auth req in ret (inl resp)
  end.

Definition admin_finish (auth : AdminAuth) (pd : Pending) : M CoreError App Response :=
  audit auth (pd_line pd).1.1 (pd_line pd).1.2 (pd_line pd).2 ;*
  (match pd_count pd with Some label => inc_gc_runs label | None => ret tt end) ;*
  ret (pd_answer pd).

Definition finish_with (auth : AdminAuth) (x : Response + Pending) : M CoreError App Response :=
  match x with inl resp => ret resp | inr pd => admin_finish auth pd end.

Lemma admin_handler_phases auth req s n :
  admin_handler config auth req s n = bind (admin_work auth req) (finish_with auth) s n.
Proof.
  destruct req; simpl;
    unfold create_project, update_project, delete_project, create_key, revoke_key_handler, create_token,
      revoke_token_handler, delete_entry, pin, unpin, gc_run, gc_orphan_scan;
    repeat first [done | rewrite bind_assoc; symmetry; apply bind_ret_r | rewrite bind_assoc; apply bind_ext; intros].
Qed.

(** ** What changes no table, and what leaves the log alone *)

Class Same {B} (f : App → B) {A} (m : M CoreError App A) : Prop :=
  same s : wp m (λ _ s', f s' = f s) s.
Definition log_of (s : App) : list AuditRow := audit_log (app_db s).

Section same.
Context {B : Type} {f : App → B}.
#[local] Instance ret_same {A} (a : A) : Same f (ret a).
Proof. intros s. by apply wp_ret. Qed.
#[local] Instance throw_same {A} e : Same f (throw (A := A) e).
Proof. intros s. by apply wp_throw. Qed.
#[local] Instance halt_same {A} w : Same f (halt (A := A) w).
Proof. intros s. by apply wp_halt. Qed.
#[local] Instance gets_same {A} (g : App → A) : Same f (gets g).
Proof. intros s. by apply wp_gets. Qed.
#[local] Instance ok_or_same {A} e (o : option A) : Same f (ok_or e o).
Proof. intros s. apply wp_ok_or. by destruct o. Qed.
#[local] Instance bind_same {A C} (m : M CoreError App A) (k : A → M CoreError App C) :
  Same f m → (∀ a, Same f (k a)) → Same f (bind m k).
Proof.
  intros Hm Hk s. apply wp_bind. eapply wp_mono; [apply Hm|].
  intros [a|e|w] s1 Heq; simpl; [|done..]. eapply wp_mono; [apply Hk|]. intros r s2 Heq2. by rewrite Heq2.
Qed.
#[local] Instance attempt_same {A} (m : M CoreError App A) : Same f m → Same f (attempt (F := CoreError) m).
Proof. intros Hm s. apply wp_attempt. eapply wp_mono; [apply Hm|]. by intros [a|e|w] s1 Heq. Qed.
End same.
#[export] Existing Instances ret_same throw_same halt_same gets_same ok_or_same bind_same attempt_same.

Lemma db_same {A} (m : M CoreError Tables A) :
  (∀ t, wp m (λ _ t', t' = t) t) → Same app_db (zoom lens_db m).
Proof. intros Hm s. apply wp_zoom. wp_use Hm. by intros r t' ->. Qed.
Lemma db_outcome_same {A} (m : M CoreError Tables A) (Q : Tables → A → Prop) err :
  (∀ t, wp m (outcome t (λ a t', t' = t ∧ Q t a) (err t)) t) → Same app_db (zoom lens_db m).
Proof.
  intros Hm. apply db_same. intros t. wp_use Hm.
  intros [a|e|w] t' Ht; simpl in *; [by destruct Ht|by destruct Ht|done].
Qed.

#[local] Instance transpose_same {A} (f : string → res CoreError A) o : Same app_db (transpose f o).
Proof. destruct o as [x|]; simpl; [destruct (f x)|]; apply _. Qed.
#[local] Instance list_projects_same : Same app_db (zoom lens_db Projects_list).
Proof. eapply (db_outcome_same _ (λ t l, l = merge_sort p_le (rows (projects t)))), Projects_list_spec. Qed.
#[local] Instance get_project_same id : Same app_db (zoom lens_db (Projects_get id)).
Proof.
  eapply (db_outcome_same _ (λ t p, projects t !! id = Some p) (λ t e, e = NotFound ("project " +:+ pretty id) ∧ projects t !! id = None)).
  intros t. apply Projects_get_spec.
Qed.
#[local] Instance total_size_same : Same app_db (zoom lens_db Blobs_total_size).
Proof. eapply (db_outcome_same _ (λ t n, n = total_size t)), Blobs_total_size_spec. Qed.
#[local] Instance project_usage_same id : Same app_db (zoom lens_db (Entries_project_usage id)).
Proof. eapply (db_outcome_same _ (λ t n, n = project_usage t id)). intros t. apply Entries_project_usage_spec. Qed.
#[local] Instance stats_sum_same p k d : Same app_db (zoom lens_db (Stats_sum p k d)).
Proof.
  apply db_same. intros t. wp_use Stats_sum_spec. intros [a|e|w] t' Ht; simpl in *; [by destruct Ht|by destruct Ht|done].
Qed.
#[local] Instance audit_since_same a b : Same app_db (zoom lens_db (Stats_audit_since a b)).
Proof. apply db_same. intros t. unfold Stats_audit_since. by db_go. Qed.
#[local] Instance list_keys_same id : Same app_db (zoom lens_db (ApiKeys_list id)).
Proof. apply db_same. intros t. unfold ApiKeys_list. by db_go. Qed.
#[local] Instance list_tokens_same : Same app_db (zoom lens_db AdminTokens_list).
Proof. apply db_same. intros t. unfold AdminTokens_list. by db_go. Qed.
#[local] Instance count_entries_same id : Same app_db (zoom lens_db (count_entries id)).
Proof. apply db_same. intros t. unfold count_entries. by db_go. Qed.
#[local] Instance get_entry_same id eid : Same app_db (zoom lens_db (sql (query (λ t, entry_of t id eid)))).
Proof. apply db_same. intros t. by db_go. Qed.
#[local] Instance list_entries_same id f : Same app_db (zoom lens_db (Entries_list id f)).
Proof.
  apply db_same. intros t. unfold Entries_list. db_go.
  destruct (f_cursor f) as [c|]; [destruct (Cursor_decode c)|]; by db_go.
Qed.

Ltac same_go := repeat first [apply _ | apply bind_same; [|intros ?] | apply attempt_same | case_match].

(** A request that leaves no line changes no table. *)
Lemma reads_change_nothing auth req : audited req = false → Same app_db (admin_handler config auth req).
Proof.
  destruct req; try done; intros _; simpl;
    unfold list_projects, get_project, list_keys, list_tokens, list_entries, get_entry, global_stats,
      project_stats, audit_query; same_go.
Qed.
(** ** What leaves a line *)

(** What the first part of a handler may come to. *)
Definition work_post (req : AdminRequest) (t : Tables) (r : res CoreError (Response + Pending)) (s' : App) : Prop :=
  match r with
  | Ok (inl _) => audited req = false ∧ app_db s' = t
  | Ok (inr pd) => did t req (app_db s') (pd_line pd) ∧ resp_status (pd_answer pd) < 400
  | Err _ => app_db s' = t ∨ ∃ l, did t req (app_db s') l
  | Stop _ => False
  end.

(** One statement, and the line about it. *)
Lemma work_call {A} (m : M CoreError Tables A) (ok : Tables → A → Tables → Prop) err
    (pd : A → Pending) req s :
  wp m (outcome (app_db s) (ok (app_db s)) err) (app_db s) →
  (∀ a t1, ok (app_db s) a t1 → did (app_db s) req t1 (pd_line (pd a))) →
  (∀ a, resp_status (pd_answer (pd a)) < 400) →
  wp (let* a := zoom lens_db m in ret (inr (pd a))) (work_post req (app_db s)) s.
Proof.
  intros Hm Hd Hk. wp_go. wp_use Hm. intros [a|e|w] t1 Hr; simpl; [|by destruct Hr as [_ ->]; left|done].
  wp_go. split; [by apply Hd|done].
Qed.

Lemma fresh_row {A} (id_of : A → Z) m sq id : ids_ok id_of m sq → sq < id → m !! id = None.
Proof.
  intros [_ Hids] Hlt. destruct (m !! id) as [x|] eqn:Hx; [|done]. destruct (Hids _ _ Hx). lia.
Qed.

Lemma create_project_work auth name q l s :
  schema_ok (app_db s) →
  wp (admin_work auth (CreateProject name q l)) (work_post (CreateProject name q l) (app_db s)) s.
Proof.
  intros Hok. eapply (work_call _ (λ t p t', ∃ id now, clock_reading now ∧ seq_projects t < id <= i64_max ∧
      p = mkProject id name q l now ∧ ¬ name_taken t name ∧ t' = set_projects (<[id:=p]> (projects t)) id t) _); [apply Projects_create_spec| |done].
  intros p t1 (id & now & _ & [Hid _] & -> & Hn & ->). constructor; [|done].
  eapply fresh_row; [apply Hok|done].
Qed.

Lemma update_project_work auth id name q l s :
  schema_ok (app_db s) →
  wp (admin_work auth (UpdateProject id name q l)) (work_post (UpdateProject id name q l) (app_db s)) s.
Proof.
  intros Hok. unfold admin_work. wp_go. wp_use Projects_update_spec; [done|].
  intros [p|e|w] t1 Hr; simpl; [| |done].
  - destruct Hr as (-> & Hfree & old & Hold & ->).
    wp_go. split; [by constructor; eauto|done].
  - destruct Hr as [[-> _]|(-> & Hfree & _)]; [by left|]. simpl.
    destruct (projects (app_db s) !! id) eqn:Hid.
    + right. eexists. by constructor; eauto.
    + left. by apply updated_tables_absent.
Qed.

Lemma create_key_work auth id role label s :
  schema_ok (app_db s) →
  wp (admin_work auth (CreateKey id role label)) (work_post (CreateKey id role label) (app_db s)) s.
Proof.
  intros Hok. destruct s as [t fs au me ta]. simpl in *. unfold admin_work. wp_go. wp_use Projects_get_spec.
  intros [p|e|w] t1 Hp; simpl; [|by destruct Hp as [_ ->]; left|done]. destruct Hp as [-> _].
  wp_go. apply wp_generate_secret. intros secret. wp_go. apply wp_hash_argon2; [by left|]. intros phc _ _.
  eapply (work_call _ (λ t k t', ∃ kid now, clock_reading now ∧ seq_api_keys t < kid <= i64_max ∧
      k = mkApiKey kid id (lookup_hash secret) phc role label now None ∧ ¬ key_lookup_taken t (lookup_hash secret) ∧
      is_Some (projects t !! id) ∧ t' = set_api_keys (<[kid:=k]> (api_keys t)) kid t) _); [apply ApiKeys_create_spec| |done].
  intros k t1 (kid & now & _ & [Hid _] & -> & _ & Hproj & ->). constructor; [done|].
  eapply fresh_row; [apply Hok|done].
Qed.

Lemma create_token_work auth label s :
  schema_ok (app_db s) → wp (admin_work auth (CreateToken label)) (work_post (CreateToken label) (app_db s)) s.
Proof.
  intros Hok. unfold admin_work. wp_go. apply wp_generate_secret. intros secret. wp_go.
  apply wp_hash_argon2; [by left|]. intros phc _ _.
  eapply (work_call _ (λ t k t', ∃ id now, clock_reading now ∧ seq_admin_tokens t < id <= i64_max ∧
      k = mkAdminToken id (lookup_hash secret) phc label now None ∧ ¬ token_lookup_taken t (lookup_hash secret) ∧
      t' = set_admin_tokens (<[id:=k]> (admin_tokens t)) id t) _); [apply AdminTokens_create_spec| |done].
  intros k t1 (id & now & _ & [Hid _] & -> & _ & ->). constructor. eapply fresh_row; [apply Hok|done].
Qed.

Lemma delete_project_work auth id s :
  wp (admin_work auth (DeleteProject id)) (work_post (DeleteProject id) (app_db s)) s.
Proof.
  eapply (work_call _ (λ t _ t', is_Some (projects t !! id) ∧ t' = drop_project id t) _); [apply Projects_delete_spec| |done].
  intros _ t1 [Hp ->]. by constructor.
Qed.
Lemma revoke_key_work auth id kid s :
  wp (admin_work auth (RevokeKey id kid)) (work_post (RevokeKey id kid) (app_db s)) s.
Proof.
  eapply (work_call _ (λ t _ t', ∃ k now, revocable t id kid k ∧
      t' = set_api_keys (<[kid:=revoke_key now k]> (api_keys t)) (seq_api_keys t) t) _);
    [apply ApiKeys_revoke_spec| |done].
  intros _ t1 (k & now & Hk & ->). by constructor.
Qed.
Lemma revoke_token_work auth id s :
  wp (admin_work auth (RevokeToken id)) (work_post (RevokeToken id) (app_db s)) s.
Proof.
  eapply (work_call _ (λ t _ t', ∃ k now, admin_tokens t !! id = Some k ∧ t_revoked_at k = None ∧
      t' = set_admin_tokens (<[id:=revoke_token now k]> (admin_tokens t)) (seq_admin_tokens t) t) _);
    [apply AdminTokens_revoke_spec| |done].
  intros _ t1 (k & now & Hk & Hn & ->). by constructor.
Qed.
Lemma delete_entry_work auth id eid s :
  schema_ok (app_db s) → wp (admin_work auth (DeleteEntry id eid)) (work_post (DeleteEntry id eid) (app_db s)) s.
Proof.
  intros Hok. eapply (work_call _ (λ t _ t', ∃ e, entry_of t id eid = Some e ∧ t' = drop_entry e t) _);
    [by apply Entries_delete_spec| |done].
  intros _ t1 (e & He & ->). by constructor.
Qed.
Lemma pin_work auth id eid s : wp (admin_work auth (PinEntry id eid)) (work_post (PinEntry id eid) (app_db s)) s.
Proof.
  eapply (work_call _ (λ t _ t', ∃ e, entry_of t id eid = Some e ∧
      t' = update_entry eid (set_entry_pinned true e) t) _); [apply Entries_set_pinned_spec| |done].
  intros _ t1 (e & He & ->). by constructor.
Qed.
Lemma unpin_work auth id eid s : wp (admin_work auth (UnpinEntry id eid)) (work_post (UnpinEntry id eid) (app_db s)) s.
Proof.
  eapply (work_call _ (λ t _ t', ∃ e, entry_of t id eid = Some e ∧
      t' = update_entry eid (set_entry_pinned false e) t) _); [apply Entries_set_pinned_spec| |done].
  intros _ t1 (e & He & ->). by constructor.
Qed.

(** A sweep, finished or not, is a deletion of entries and blobs. *)
Lemma gc_shrinks cfg dry_run s :
  sys_ok s → wp (GcSvc_run cfg dry_run) (λ r s', shrunk s.1 s'.1 ∧ (dry_run = true → s'.1 = s.1) ∧ no_stop r) s.
Proof.
  intros Hs. destruct dry_run.
  - wp_use GcSvc_run_dry_spec; [apply Hs|]. intros r s' [-> Hr]. by split_and!.
  - wp_use GcSvc_run_spec; [apply Hs|]. intros r s' (l & t1 & Hev & Hfree & Hr).
    destruct (free_steps_frame _ _ Hfree) as (He & Hp & Hk & Ht & Hst & Hl & _). simpl in *.
    destruct (evicts_frame _ _ _ _ Hev) as (Hp1 & Hk1 & Ht1 & Hst1 & Hl1 & _).
    split_and!; [|done|by destruct r]. split_and!; try congruence.
    rewrite He. by eapply evicts_subseteq.
Qed.
Lemma orphan_steps_shrink s s' : rtc orphan_step s s' → shrunk s.1 s'.1.
Proof.
  intros Hst. split_and!; [by apply orphan_steps_entries|..]; induction Hst as [|s1 s2 s3 H _ IH]; try done;
    rewrite IH; by destruct H.
Qed.
Lemma orphan_shrinks dry_run s :
  sys_ok s → ["blobs"%string] ∈ fs_dirs s.2 →
  wp (GcSvc_orphan_scan dry_run) (λ r s', shrunk s.1 s'.1 ∧ (dry_run = true → s'.1 = s.1) ∧ no_stop r) s.
Proof.
  intros Hs Hd. destruct dry_run.
  - wp_use orphan_scan_dry_spec; [apply Hs|done|]. intros r s' [-> Hr]. split_and!; [done..|by destruct r].
  - wp_use orphan_scan_spec; [apply Hs|apply Hs|done|]. intros r s' [Hst Hr].
    split_and!; [by apply orphan_steps_shrink|done|by destruct r].
Qed.

(** The work of every request, on every path. *)
Lemma admin_work_spec auth req s :
  app_ok s → wp (admin_work auth req) (work_post req (app_db s)) s.
Proof.
  intros Hs. pose proof (ro_schema _ (sys_refs _ (ao_sys _ Hs))) as Hok.
  destruct (audited req) eqn:Ha.
  - destruct req as [| | | | | | | | | | | | | | | |dry_run|dry_run| | |]; try done;
      auto using create_project_work, update_project_work, delete_project_work, create_key_work, revoke_key_work,
        create_token_work, revoke_token_work, delete_entry_work, pin_work, unpin_work; simpl; wp_go.
    + wp_use gc_shrinks; [apply Hs|]. intros [rep|e|w] s1 (Hsh & Hdry & Hr); simpl in *; [|right; eexists; by constructor|done].
      wp_go. split; [by constructor|done].
    + wp_use orphan_shrinks; [apply Hs|apply Hs|].
      intros [rep|e|w] s1 (Hsh & Hdry & Hr); simpl in *; [|right; eexists; by constructor|done].
      wp_go. split; [by constructor|done].
  - assert (wp (let* resp := admin_handler config auth req in ret (inl (B := Pending) resp)) (work_post req (app_db s)) s)
      as Hread; [|by destruct req].
    wp_go. eapply wp_mono; [apply wp_and; [by apply reads_change_nothing|]|].
    { by apply (admin_handler_does config (R := anyhow) auth req). }
    intros [resp|e|w] s' [Heq Hr]; simpl in *; [by wp_go|by left|by destruct Hr as (_ & _ & [])].
Qed.

Lemma admin_finish_spec auth pd s :
  wp (admin_finish auth pd) (λ r s', match r with
    | Ok resp => resp = pd_answer pd ∧ logs auth (pd_line pd) (app_db s) (app_db s')
    | Err _ => app_db s' = app_db s
    | Stop _ => False
    end) s.
Proof.
  unfold admin_finish, audit. wp_go. wp_use Stats_audit_spec.
  intros [[]|e|w] t2 Hr; simpl; [|by destruct Hr as [_ ->]|done].
  destruct (pd_count pd); unfold inc_gc_runs; wp_go; done.
Qed.

Lemma admin_handler_post auth req s :
  app_ok s → wp (admin_handler config auth req) (admin_post auth req (app_db s)) s.
Proof.
  intros Hs. intros n. rewrite admin_handler_phases. revert n.
  fold (wp (bind (admin_work auth req) (finish_with auth)) (admin_post auth req (app_db s)) s). wp_go.
  wp_use admin_work_spec; [done|]. intros [[resp|pd]|e|w] s1 Hw; simpl in Hw; simpl; [| |done|done].
  - wp_go. destruct Hw as [-> Hw]. done.
  - destruct Hw as [Hd Hst]. wp_use admin_finish_spec.
    intros [resp|e|w] s2 Hf; simpl in *; [|right; exists (pd_line pd); by rewrite Hf|done].
    destruct Hf as [-> Hl]. rewrite (did_audited _ _ _ _ Hd). split; [done|]. by exists (app_db s1), (pd_line pd).
Qed.
End audit.

(** ** Theorems *)

(** C13: an admin request that is answered with success and is to be audited has done its
    work and written its line, about exactly that work, in the name of its token; the
    ones that only read change no table; and one that fails either did nothing or did
    its work without a line (the line is written after the work is committed). *)
Theorem admin_requests_are_audited `{!Env, !FsEnv, !Sha256, !Argon2, !AuthEnv, !Moka, !ListLibs, !JsonText}
    config auth req s n r s' n' :
  app_ok s → admin_handler config auth req s n = (r, s', n') → admin_post auth req (app_db s) r s'.
Proof.
  intros Hs Hrun. pose proof (admin_handler_post config auth req s Hs n) as Hpost. by rewrite Hrun in Hpost.
Qed.
