(* ===== verification/AuditRun.v ===== *)
(** * The audit log, over time

    An admin request commits its work and writes its line in two transactions, with
    awaits between: other requests, sweeps and ticks come in there, and the client may
    be gone.  [admin_step] lets that happen anywhere, next to every step of the server,
    and remembers the deeds; [audit_log_is_true] says that the log has no line without
    its deed. *)
From stdpp Require Import base numbers list strings gmap relations sorting pretty.
From Stdlib Require Import ZArith Lia.
From S2P Require Import Prelude Models Db Blobs Entries Projects Credentials Stats Storage Config Gc GcRun Orphans Auth Http Metrics App Listing Admin Yocto Server AdminAudit.

(** ** What leaves the log alone *)

Ltac log_go := repeat first [apply _ | apply bind_same; [|intros ?] | apply attempt_same | case_match].

Section quiet.
Context {env : Env} {fsenv : FsEnv} {sha : Sha256} {ar : Argon2} {aenv : AuthEnv} {mk : Moka}
  {b64 : Base64} {libs : ListLibs} {jt : JsonText}.
Variable config : Config.

#[export] Instance store_same {A} (m : M CoreError Fs A) : Same log_of (zoom lens_store m).
Proof. intros s. apply wp_zoom. by intros n. Qed.
#[export] Instance spawn_same x : Same log_of (spawn x).
Proof. intros s. by apply wp_modify. Qed.
#[export] Instance inc_hits_same a b : Same log_of (inc_hits a b).
Proof. intros s. by apply wp_modify. Qed.
#[export] Instance inc_misses_same a b : Same log_of (inc_misses a b).
Proof. intros s. by apply wp_modify. Qed.
#[export] Instance project_auth_same a b : Same log_of (zoom lens_auth (authenticate_project a b)).
Proof.
  intros s. apply wp_zoom. intros n. destruct (authenticate_project _ _ _ n) as [[r [t svc]] n'] eqn:Hrun.
  apply authenticate_project_run in Hrun as [Ht _]. simpl in *. by subst.
Qed.
#[export] Instance admin_auth_same a : Same log_of (zoom lens_auth (authenticate_admin a)).
Proof.
  intros s. apply wp_zoom. intros n. destruct (authenticate_admin _ _ n) as [[r [t svc]] n'] eqn:Hrun.
  apply authenticate_admin_run in Hrun as [Ht _]. simpl in *. by subst.
Qed.

Lemma db_log {A} (m : M CoreError Tables A) :
  (∀ t, wp m (λ _ t', audit_log t' = audit_log t) t) → Same log_of (zoom lens_db m).
Proof. intros Hm s. apply wp_zoom. by wp_use Hm. Qed.
Lemma db_outcome_log {A} (m : M CoreError Tables A) (Q : Tables → A → Tables → Prop) err :
  (∀ t, wp m (outcome t (Q t) (err t)) t) → (∀ t a t', Q t a t' → audit_log t' = audit_log t) →
  Same log_of (zoom lens_db m).
Proof.
  intros Hm HQ. apply db_log. intros t. wp_use Hm.
  intros [a|e|w] t' Hr; [by eapply HQ|by destruct Hr as [_ ->]|done].
Qed.
#[export] Instance find_same p kind path : Same log_of (zoom lens_db (Entries_find p kind path)).
Proof. eapply db_outcome_log; [intros t; apply Entries_find_spec|]. by intros t a t' [-> _]. Qed.
#[export] Instance total_size_log : Same log_of (zoom lens_db Blobs_total_size).
Proof. eapply db_outcome_log; [intros t; apply Blobs_total_size_spec|]. by intros t a t' [-> _]. Qed.
#[export] Instance bump_same p kind count size_bytes : Same log_of (zoom lens_db (Stats_bump p kind count size_bytes)).
Proof. eapply db_outcome_log; [intros t; apply Stats_bump_spec|]. by intros t a t' (now & _ & _ & ->). Qed.
#[export] Instance token_same lookup phc label : Same log_of (zoom lens_db (AdminTokens_create lookup phc label)).
Proof. eapply db_outcome_log; [intros t; apply AdminTokens_create_spec|]. by intros t a t' (id & now & _ & _ & _ & _ & ->). Qed.
#[export] Instance touch_same id : Same log_of (zoom lens_db (Entries_touch id)).
Proof. apply db_log. intros t. wp_use Entries_touch_spec. by intros r t' [_ [->|(now & _ & ->)]]. Qed.
#[export] Instance ping_same : Same log_of (zoom lens_db (sql (query (λ _, tt)))).
Proof. apply db_log. intros t. by db_go. Qed.
#[export] Instance migrate_same : Same log_of (zoom lens_db (map_err migration_error (sql (query (λ _, tt))))).
Proof. apply db_log. intros t. apply wp_map_err. by db_go. Qed.
#[export] Instance secret_same : Same log_of generate_secret.
Proof. by intros s n. Qed.
#[export] Instance argon_same x : Same log_of (hash_argon2 x).
Proof. intros s n. unfold hash_argon2, bind, rand_fill. simpl. by destruct (argon2_hash x _). Qed.
#[export] Instance header_same x : Same log_of (header_from_str x).
Proof. unfold header_from_str. case_match; apply _. Qed.

(** ** The server apart from admin requests *)

#[export] Instance get_one_same auth kind url path head_only : Same log_of (get_one auth kind url path head_only).
Proof. unfold get_one, ensure_project. log_go. Qed.
#[export] Instance get_handler_same auth kind url path head_only : Same log_of (get_handler auth kind url path head_only).
Proof. unfold get_handler, miss_response. log_go. Qed.
#[export] Instance readyz_same : Same log_of readyz.
Proof. unfold readyz. log_go. Qed.
#[export] Instance init_run_same : Same log_of init_run.
Proof. unfold init_run, Db_connect. log_go. Qed.
#[export] Instance serve_boot_same : Same log_of (serve_boot config).
Proof.
  unfold serve_boot, Db_connect. apply bind_same; [log_go|]. intros _. apply bind_same; [log_go|].
  intros _. apply bind_same; [intros s; by apply wp_AuthSvc_new|]. intros svc s. by apply wp_modify.
Qed.

(** The upsert of a PUT, and a sweep, find the database in order. *)
Lemma upsert_log p kind path hash size_bytes s :
  schema_ok (app_db s) →
  wp (zoom lens_db (Entries_upsert p kind path hash size_bytes)) (λ _ s', log_of s' = log_of s) s.
Proof.
  intros Ht. apply wp_zoom. wp_use Entries_upsert_spec; [done|].
  intros [a|e|w] t' Hr; [|by destruct Hr as [_ ->]|done]. destruct Hr as (id & nb & now & -> & _).
  unfold log_of, upserted, upserted_blobs. simpl. by repeat case_match.
Qed.

(** After a part that leaves the tables alone, and before one that leaves the log alone. *)
Lemma log_frame {A B} (m : M CoreError App A) (k : A → M CoreError App B) s :
  Same app_db m → (∀ a s1, app_db s1 = app_db s → wp (k a) (λ _ s', log_of s' = log_of s1) s1) →
  wp (bind m k) (λ _ s', log_of s' = log_of s) s.
Proof.
  intros Hm Hk. apply wp_bind. eapply wp_mono; [apply Hm|].
  intros [a|e|w] s1 Heq; simpl; [|unfold log_of; congruence..].
  assert (log_of s1 = log_of s) as <- by (unfold log_of; congruence). by apply Hk.
Qed.
Lemma log_after {A B} (m : M CoreError App A) (k : A → M CoreError App B) s :
  wp m (λ _ s', log_of s' = log_of s) s → (∀ a, Same log_of (k a)) →
  wp (bind m k) (λ _ s', log_of s' = log_of s) s.
Proof.
  intros Hm Hk. apply wp_bind. eapply wp_mono; [exact Hm|].
  intros [a|e|w] s1 Heq; simpl; [|done..]. rewrite <-Heq. by apply Hk.
Qed.

Lemma do_put_log auth kind url path body s :
  app_ok s → wp (do_put config auth kind url path body) (λ _ s', log_of s' = log_of s) s.
Proof.
  intros Hs. unfold do_put, ensure_project.
  apply log_frame; [case_match; apply _|]. intros _ s1 H1. apply log_frame; [case_match; apply _|].
  intros _ s2 H2. apply log_frame. { intros s'. apply wp_zoom. by intros n. }
  intros w s3 H3. apply log_after; [|intros e; log_go].
  apply upsert_log. rewrite H3, H2, H1. apply Hs.
Qed.
Lemma put_handler_log auth kind url path body s :
  app_ok s → wp (put_handler config auth kind url path body) (λ _ s', log_of s' = log_of s) s.
Proof.
  intros Hs. unfold put_handler. apply log_after; [|intros r; log_go].
  apply wp_attempt. eapply wp_mono; [by apply do_put_log|]. by intros [a|e|w] s' ->.
Qed.
Lemma yocto_handler_log auth req s :
  app_ok s → wp (yocto_handler config auth req) (λ _ s', log_of s' = log_of s) s.
Proof.
  intros Hs. destruct req as [[]|[]|[]]; simpl; try by apply put_handler_log.
  all: by apply get_handler_same.
Qed.

Lemma sweep_log s :
  app_ok s → wp (logged (let* _ := zoom lens_sys (GcSvc_run (gc config) false) in ret tt))
    (λ _ s', log_of s' = log_of s) s.
Proof.
  intros Hs. unfold logged. apply log_after; [|intros r; log_go].
  apply wp_attempt, wp_bind, wp_zoom. wp_use gc_shrinks; [apply Hs|].
  intros [a|e|w] s' [Hsh _]; unfold log_of; simpl; [|apply Hsh..]. apply wp_ret. apply Hsh.
Qed.
End quiet.

(** The admin requests apart, no step of the server touches the log. *)
Definition by_admin (ev : Event) : bool :=
  match ev with EvRequest (AdminApi _ _) => true | _ => false end.

Lemma ends_log `{!Sha256} {A} (m : M CoreError App A) n s s' :
  wp m (λ _ s', log_of s' = log_of s) s → ends m n s s' → log_of s' = log_of s.
Proof. intros Hm <-. apply Hm. Qed.

Lemma handle_log `{!Env, !FsEnv, !Sha256, !Argon2, !AuthEnv, !Moka, !Base64, !ListLibs, !JsonText} config req s :
  by_admin (EvRequest req) = false → app_ok s → wp (handle config req) (λ _ s', log_of s' = log_of s) s.
Proof.
  intros Hna Hs. destruct req as [| | |headers req|headers req]; simpl in *; [by wp_go| |by unfold metrics_page; log_go| |done].
  - apply readyz_same.
  - unfold yocto_route, auth_project_middleware. destruct (parse_basic headers) as [c|]; [|by wp_go].
    apply wp_bind, wp_attempt.
    eapply wp_mono; [apply wp_and; [by apply (auth_project_does (R := anyhow))|apply project_auth_same]|].
    intros [a|e|w] s1 [(Hs1 & _ & Hr) Hl]; simpl in *; [| |done].
    + rewrite <-Hl. by apply yocto_handler_log.
    + destruct e; by wp_go.
Qed.

Lemma server_log `{!Sha256, !Argon2, !Base64, !ListLibs, !JsonText} config ev s s' :
  server_does config ev s s' → by_admin ev = false → app_ok s → log_of s' = log_of s.
Proof.
  intros Hst Hna Hs.
  destruct Hst as [? ? ? ? req n s s' He|? ? x l1 l2 n s s' _ He|? ? n s s' He|? ? n s s' He|? ? ? n s s' He].
  - eapply ends_log; [|exact He]. by apply handle_log.
  - change (log_of s) with (log_of (set_tasks (l1 ++ l2) s)). eapply ends_log; [|exact He].
    destruct x; simpl; [apply touch_same|by apply sweep_log, set_tasks_ok].
  - eapply ends_log; [|exact He]. by apply sweep_log.
  - eapply ends_log; [|exact He]. apply serve_boot_same.
  - eapply ends_log; [|exact He]. apply init_run_same.
Qed.

(** ** Admin requests in two steps *)

Section phases.
Context {env : Env} {fsenv : FsEnv} {sha : Sha256} {ar : Argon2} {aenv : AuthEnv} {mk : Moka}
  {libs : ListLibs} {jt : JsonText}.
Variable config : Config.

(** A request up to the point where its line is due: answered, or with that left. *)
Definition admin_begin (headers : Headers) (req : AdminRequest)
    : M CoreError App (Response + (AdminAuth * Pending)) :=
  match parse_bearer headers with
  | None => ret (inl unauthorized_bearer)
  | Some token =>
      let* r := attempt (zoom lens_auth (authenticate_admin token)) in
      match r with
      | inr a =>
          let* w := attempt (F := CoreError) (admin_work config a req) in
          match w with
          | inr (inr pd) => ret (inr (a, pd))
          | inr (inl resp) => ret (inl resp)
          | inl e => ret (inl (ApiError_into_response e))
          end
      | inl Unauthorized => ret (inl unauthorized_bearer)
      | inl e => ret (inl (ApiError_into_response e))
      end
  end.
Definition admin_end (x : AdminAuth * Pending) : M CoreError App Response :=
  respond (admin_finish x.1 x.2).
Definition end_with (x : Response + (AdminAuth * Pending)) : M CoreError App Response :=
  match x with inl resp => ret resp | inr p => admin_end p end.

Lemma respond_phases auth req s n :
  respond (admin_handler config auth req) s n =
  bind (attempt (F := CoreError) (admin_work config auth req)) (λ w, match w with
    | inr (inr pd) => admin_end (auth, pd)
    | inr (inl resp) => ret resp
    | inl e => ret (ApiError_into_response e)
    end) s n.
Proof.
  unfold respond, admin_end, respond, bind, attempt. simpl. rewrite admin_handler_phases. unfold bind.
  by destruct (admin_work config auth req s n) as [[[[resp|pd]|e|w] s1] n1].
Qed.

(** Nothing is lost by the cut. *)
Lemma admin_route_phases headers req s n :
  admin_route config headers req s n = bind (admin_begin headers req) end_with s n.
Proof.
  unfold admin_route, auth_admin_middleware, admin_begin.
  destruct (parse_bearer headers) as [token|]; [|done]. rewrite bind_assoc. apply bind_ext.
  intros [e|a] s1 n1; [by destruct e|]. rewrite bind_assoc, respond_phases. apply bind_ext.
  by intros [e|[resp|pd]] s2 n2.
Qed.

Lemma admin_auth_db a : Same app_db (zoom lens_auth (authenticate_admin a)).
Proof.
  intros s. apply wp_zoom. intros n. destruct (authenticate_admin _ _ n) as [[r [t svc]] n'] eqn:Hrun.
  by apply authenticate_admin_run in Hrun as [Ht _].
Qed.

Lemma admin_work_keeps auth req : Keeps (admin_work config auth req).
Proof.
  pose proof (admin_handler_does config (R := anyhow) auth req (λ _, anyhow_lossy) (λ _, anyhow_sweeps)) as Hh.
  assert (Keeps (let* resp := admin_handler config auth req in ret (inl (B := Pending) resp))) as Hread by does_go.
  destruct req; first [exact Hread | simpl; does_go].
Qed.
#[export] Instance admin_end_keeps p : Keeps (admin_end p).
Proof. unfold admin_end, respond, admin_finish, audit. does_go. Qed.

Definition begun (req : AdminRequest) (s : App) (r : res CoreError (Response + (AdminAuth * Pending))) (s' : App) : Prop :=
  app_ok s' ∧ log_of s' = log_of s ∧
  match r with
  | Ok (inr (a, pd)) => did (app_db s) req (app_db s') (pd_line pd)
  | Ok (inl _) => True
  | _ => False
  end.

Lemma begun_work auth req s :
  app_ok s →
  wp (let* w := attempt (F := CoreError) (admin_work config auth req) in
      match w with
      | inr (inr pd) => ret (inr (auth, pd))
      | inr (inl resp) => ret (inl resp)
      | inl e => ret (inl (ApiError_into_response e))
      end) (begun req s) s.
Proof.
  intros Hs. apply wp_bind, wp_attempt.
  eapply wp_mono; [apply wp_and; [by apply admin_work_keeps|by apply admin_work_spec]|].
  intros [[resp|pd]|e|w] s' [(Hs' & _ & _) Hw]; simpl in *; [| | |done]; wp_go; split; try done; unfold log_of.
  - by destruct Hw as [_ ->].
  - destruct Hw as [Hd _]. split; [by eapply did_log|done].
  - split; [|done]. destruct Hw as [->|[l Hd]]; [done|by eapply did_log].
Qed.

Lemma admin_begin_spec headers req s : app_ok s → wp (admin_begin headers req) (begun req s) s.
Proof.
  intros Hs. unfold admin_begin. destruct (parse_bearer headers) as [token|]; [|by wp_go].
  apply wp_bind, wp_attempt.
  eapply wp_mono; [apply wp_and; [by apply (auth_admin_does (R := anyhow))|apply admin_auth_db]|].
  intros [a|e|w] s1 [(Hs1 & _ & Hr) Hl]; simpl in *; [|destruct e; wp_go; by unfold begun, log_of; rewrite Hl|done].
  wp_use begun_work; [done|]. intros r s' H. unfold begun, log_of in *. by rewrite <-Hl.
Qed.

(** What is written, if anything is, is the line. *)
Lemma admin_end_spec p s :
  wp (admin_end p) (λ _ s', log_of s' = log_of s ∨ ∃ id now, log_of s' =
    log_of s ++ [mkAuditRow id now (aa_token_label p.1) (pd_line p.2).1.1 (pd_line p.2).1.2
      (json_to_string <$> (pd_line p.2).2)]) s.
Proof.
  unfold admin_end, respond. apply wp_bind, wp_attempt. wp_use admin_finish_spec.
  intros [resp|e|w] s' Hf; simpl in *; [| |done]; wp_go.
  - destruct Hf as (_ & id & now & _ & _ & Ht). right. exists id, now. unfold log_of. by rewrite Ht.
  - left. unfold log_of. by rewrite Hf.
Qed.
End phases.

(** ** The server, with admin requests cut in two *)

(** The state, and the admin requests that are at work on it. *)
Record World := mkWorld { w_app : App; w_open : list (AdminAuth * Pending) }.

(** A step, and the deed done in it. *)
Inductive admin_step `{!Sha256, !Argon2, !Base64, !ListLibs, !JsonText} (config : Config)
    : World → list (AdminAuth * Pending) → World → Prop :=
| step_server ev s s' l :
    server_does config ev s s' → by_admin ev = false →
    admin_step config (mkWorld s l) [] (mkWorld s' (match ev with EvRestart => [] | _ => l end))
| step_answered `{!Env, !FsEnv, !AuthEnv, !Moka} headers req n s resp s' n' l :
    admin_begin config headers req s n = (Ok (inl resp), s', n') →
    admin_step config (mkWorld s l) [] (mkWorld s' l)
| step_begun `{!Env, !FsEnv, !AuthEnv, !Moka} headers req n s p s' n' l :
    admin_begin config headers req s n = (Ok (inr p), s', n') →
    admin_step config (mkWorld s l) [p] (mkWorld s' (p :: l))
| step_ended `{!Env} p n s s' l1 l2 :
    ends (admin_end p) n s s' → admin_step config (mkWorld s (l1 ++ p :: l2)) [] (mkWorld s' (l1 ++ l2))
| step_hung_up p s l1 l2 :
    admin_step config (mkWorld s (l1 ++ p :: l2)) [] (mkWorld s (l1 ++ l2)).

Inductive admin_run `{!Sha256, !Argon2, !Base64, !ListLibs, !JsonText} (config : Config) (w : World)
    : list (AdminAuth * Pending) → World → Prop :=
| admin_start : admin_run config w [] w
| admin_more ds d w1 w2 :
    admin_run config w ds w1 → admin_step config w1 d w2 → admin_run config w (ds ++ d) w2.

(** What a row tells, and what a deed has to be told. *)
Definition tells (r : AuditRow) : option string * string * option string * option string :=
  (ar_actor_token r, ar_action r, ar_target r, ar_detail_json r).
Definition deed `{!JsonText} (p : AdminAuth * Pending) : option string * string * option string * option string :=
  (aa_token_label p.1, (pd_line p.2).1.1, (pd_line p.2).1.2, json_to_string <$> (pd_line p.2).2).

Section run.
Context {sha : Sha256} {ar : Argon2} {b64 : Base64} {libs : ListLibs} {jt : JsonText}.
Variable config : Config.

(** The log grew by what [rows] tell, and every row, and every line that is due, has
    a deed of its own. *)
Definition explained (s0 : App) (ds : list (AdminAuth * Pending)) (w : World) : Prop :=
  app_ok (w_app w) ∧ ∃ rows, log_of (w_app w) = log_of s0 ++ rows ∧
    (tells <$> rows) ++ (deed <$> w_open w) ⊆+ deed <$> ds.

(** What a step does to the log. *)
Definition step_post (w1 : World) (d : list (AdminAuth * Pending)) (w2 : World) : Prop :=
  app_ok (w_app w2) ∧ ∃ rows, log_of (w_app w2) = log_of (w_app w1) ++ rows ∧
    (tells <$> rows) ++ (deed <$> w_open w2) ⊆+ (deed <$> w_open w1) ++ (deed <$> d).

Lemma admin_step_post w1 d w2 :
  admin_step config w1 d w2 → app_ok (w_app w1) → step_post w1 d w2.
Proof.
  intros Hst Hs. destruct Hst as
    [ev s s' l Hd Hna|? ? ? ? headers req n s resp s' n' l Hb|? ? ? ? headers req n s p s' n' l Hb|? p n s s' l1 l2 He|p s l1 l2];
    unfold step_post; simpl in *.
  - split; [eapply server_step_ok; [by eexists|done]|]. exists []. rewrite app_nil_r.
    split; [by eapply server_log|]. simpl. rewrite app_nil_r. by destruct ev; simpl; try apply submseteq_nil_l.
  - pose proof (admin_begin_spec config headers req s Hs n) as H. rewrite Hb in H. simpl in H.
    destruct H as (? & ? & _). split; [done|]. exists []. by rewrite !app_nil_r.
  - pose proof (admin_begin_spec config headers req s Hs n) as H. rewrite Hb in H. simpl in H.
    destruct H as (? & ? & _). split; [done|]. exists []. rewrite app_nil_r. split; [done|]. simpl.
    apply Permutation_submseteq. by rewrite (Permutation_app_comm _ [_]).
  - split; [by apply (does_ends anyhow _ n s s' (admin_end_keeps p))|].
    pose proof (admin_end_spec p s n) as H. unfold ends in He. rewrite He in H.
    assert (deed <$> l1 ++ p :: l2 ≡ₚ deed p :: (deed <$> l1 ++ l2)) as Hperm
      by (rewrite !fmap_app, fmap_cons; by rewrite <-Permutation_middle).
    destruct H as [->|(id & now & ->)]; [exists []|eexists [_]]; (split; [by rewrite ?app_nil_r|]);
      rewrite Hperm, app_nil_r; simpl; [by apply submseteq_cons|done].
  - split; [done|]. exists []. rewrite !app_nil_r. split; [done|]. simpl.
    rewrite !fmap_app, fmap_cons, <-Permutation_middle. by apply submseteq_cons.
Qed.

Lemma admin_run_post s0 ds w :
  admin_run config (mkWorld s0 []) ds w → app_ok s0 → explained s0 ds w.
Proof.
  induction 1 as [|ds d w1 w2 Hr IH Hst]; intros Hs.
  - split; [done|]. exists []. by rewrite app_nil_r.
  - destruct (IH Hs) as (Hs1 & rows1 & Hl1 & Hsub1).
    destruct (admin_step_post _ _ _ Hst Hs1) as (Hs2 & rows2 & Hl2 & Hsub2).
    split; [done|]. exists (rows1 ++ rows2). split; [by rewrite Hl2, Hl1, app_assoc|].
    rewrite !fmap_app, <-app_assoc. etransitivity; [by apply submseteq_skips_l|].
    rewrite app_assoc. by apply submseteq_skips_r.
Qed.

(** A deed, and the work it is about. *)
Definition done_in (w0 : World) (ds1 : list (AdminAuth * Pending)) (p : AdminAuth * Pending) : Prop :=
  ∃ u v req, admin_run config w0 ds1 u ∧ admin_step config u [p] v ∧
    did (app_db (w_app u)) req (app_db (w_app v)) (pd_line p.2).

Lemma admin_run_done s0 ds w :
  admin_run config (mkWorld s0 []) ds w → app_ok s0 →
  ∀ ds1 p ds2, ds = ds1 ++ p :: ds2 → done_in (mkWorld s0 []) ds1 p.
Proof.
  induction 1 as [|ds d w1 w2 Hr IH Hst]; intros Hs ds1 p ds2 Heq; [by destruct ds1|].
  destruct (admin_run_post _ _ _ Hr Hs) as [Hs1 _].
  assert (d = [] ∨ ∃ q, d = [q] ∧ ∃ req, did (app_db (w_app w1)) req (app_db (w_app w2)) (pd_line q.2)) as [->|(q & -> & req & Hd)].
  { destruct Hst as [| |? ? ? ? headers req n s q s' n' l Hb| |]; [by left..| |by left|by left].
    right. exists q. split; [done|]. exists req.
    pose proof (admin_begin_spec config headers req s Hs1 n) as H. rewrite Hb in H. destruct q.
    apply H. }
  - rewrite app_nil_r in Heq. by eapply IH.
  - destruct ds2 as [|x ds2 _] using rev_ind.
    + apply app_inj_tail in Heq as [-> ->]. by exists w1, w2, req.
    + rewrite app_comm_cons, app_assoc in Heq. apply app_inj_tail in Heq as [-> _]. by eapply IH.
Qed.

(** An admin request of the server is one or two of these steps. *)
Lemma server_run ev s s' l :
  server_does config ev s s' → app_ok s →
  ∃ ds, admin_run config (mkWorld s l) ds (mkWorld s' (match ev with EvRestart => [] | _ => l end)).
Proof.
  intros Hst Hs. destruct (by_admin ev) eqn:Hna.
  2: { exists ([] ++ []). eapply admin_more; [apply admin_start|by apply step_server]. }
  destruct Hst as [? ? ? ? req n s s' He| | | |]; try done. destruct req as [| | |h|headers req]; try done.
  unfold ends in He. simpl in He. rewrite admin_route_phases in He. unfold bind in He.
  pose proof (admin_begin_spec config headers req s Hs n) as H.
  destruct (admin_begin config headers req s n) as [[[[resp|p]|e|w] s1] n1] eqn:Hb; simpl in *; try (by destruct H as (_ & _ & [])).
  - exists ([] ++ []). subst. eapply admin_more; [apply admin_start|by eapply step_answered].
  - exists (([] ++ [p]) ++ []). eapply admin_more; [eapply admin_more; [apply admin_start|by eapply step_begun]|].
    by apply (step_ended config p n1 s1 s' [] l).
Qed.
End run.

(** ** Theorems *)

(** C11: whatever the interleaving of admin requests with each other and with the rest of
    the server, with clients that hang up in between: every line of the audit log that
    was written since is told of a deed of its own, an admin request of that actor whose
    work had that action, target and detail and was committed before, and no deed has
    two lines; what is still at work will add at most its one line. *)
Theorem audit_log_is_true `{!Sha256, !Argon2, !Base64, !ListLibs, !JsonText} config s0 ds s l :
  admin_run config (mkWorld s0 []) ds (mkWorld s l) → app_ok s0 →
  (∃ rows, log_of s = log_of s0 ++ rows ∧ (tells <$> rows) ++ (deed <$> l) ⊆+ deed <$> ds) ∧
  ∀ ds1 p ds2, ds = ds1 ++ p :: ds2 → done_in config (mkWorld s0 []) ds1 p.
Proof.
  intros Hr Hs. split; [by apply (admin_run_post config s0 ds (mkWorld s l))|by eapply admin_run_done].
Qed.
