(* ===== verification/Uploads.v ===== *)
(** * Uploads in flight

    A PUT is not one step: it streams the body into the store first and registers
    the entry afterwards ([do_put] of [crates/marmotte-server/src/routes/yocto.rs]).
    In between, other requests run, and the client may go away, which drops the
    rest of the handler.  [upload_step] interleaves the two phases of any number of
    uploads with everything else the server does.  The invariant survives as long
    as no sweep deletes files while an upload is between its phases; that this
    condition is needed is shown in [Findings.v]. *)
From stdpp Require Import base numbers list strings gmap relations pretty.
From Stdlib Require Import ZArith Lia.
From S2P Require Import Prelude Models Db Blobs Entries Projects Stats Storage Config Gc GcRun Auth Http Metrics App Yocto Listing Admin Server Spec.

Section phases.
Context {env : Env} {fsenv : FsEnv} {sha : Sha256}.
Variable config : Config.

(** The first phase: the checks, and the body goes to the store. *)
Definition put_receive (auth : ProjectAuth) (url : string) (body : list (IoError + bytes))
    : M CoreError App Written :=
  ensure_project auth url ;*
  (if negb (Role_allows_write (pa_role auth)) then throw (Forbidden "write") else ret tt) ;*
  zoom lens_store (LocalFsStore_write_streamed (root config) body).

(** The second phase: the entry, the counters, the trigger, the answer. *)
Definition put_register (auth : ProjectAuth) (kind : Kind) (path : string) (written : Written)
    : M CoreError App Response :=
  let* _ := zoom lens_db
    (Entries_upsert (pa_project_id auth) kind path (w_hash written) (w_size_bytes written)) in
  zoom lens_db (Stats_bump (Some (pa_project_id auth)) "put" 1 (w_size_bytes written)) ;*
  let* total := zoom lens_db Blobs_total_size in
  (if gc_threshold (gc config) <? u64_or_zero total then spawn SweepAfterPut else ret tt) ;*
  let* etag := header_from_str (quoted (w_hash written)) in
  ret (mkResponse CREATED [("etag"%string, etag)] BodyEmpty).

Lemma do_put_phases auth kind url path body s n :
  do_put config auth kind url path body s n =
  bind (put_receive auth url body) (put_register auth kind path) s n.
Proof.
  unfold do_put, put_receive.
  rewrite bind_assoc. apply bind_ext. intros _ s1 n1. rewrite bind_assoc. by apply bind_ext.
Qed.

(** An upload between its phases. *)
Record Upload := mkUpload {
  up_auth : ProjectAuth;
  up_kind : Kind;
  up_path : string;
  up_written : Written
}.

(** The file it is going to register is there. *)
Definition up_ok (s : App) (up : Upload) : Prop :=
  is_hash (w_hash (up_written up)) = true ∧
  is_Some (blob_at (app_store s) (w_hash (up_written up))).

Lemma up_ok_files s s' up : keeps_files s s' → up_ok s up → up_ok s' up.
Proof. intros Hf [Hh Hb]. split; [done|by apply Hf]. Qed.

Lemma put_receive_spec auth url body s :
  app_ok s →
  wp (put_receive auth url body) (λ r s', app_ok s' ∧ keeps_files s s' ∧
    match r with
    | Ok w => is_hash (w_hash w) = true ∧ is_Some (blob_at (app_store s') (w_hash w))
    | Err _ => True
    | Stop _ => False
    end) s.
Proof.
  intros Hs. unfold put_receive, ensure_project. wp_go.
  destruct (String.eqb _ _); wp_go; [|done].
  destruct (negb _); wp_go; [done|].
  wp_use write_streamed_outcome; [apply Hs|]. intros [w|x|st] fs' Hw; simpl; [| |done].
  - destruct Hw as (chunks & -> & Hw). destruct (write_done_keeps _ _ _ _ Hs Hw) as (Hs1 & Hh & Hb).
    split_and!; [done|by eapply write_done_files|done..].
  - destruct Hw as (_ & Hst & Hsame). split_and!; [by apply same_blobs_ok| |done].
    intros h. simpl. by rewrite (same_blobs_at _ _ h Hsame).
Qed.

Lemma etag_does R `{!Steady R} h : is_hash h = true → Does R (header_from_str (quoted h)).
Proof. intros Hh s Hs. by apply wp_header_from_str; [apply etag_visible|]. Qed.

(** Registering keeps everything in order if the file is there. *)
Lemma put_register_spec auth kind path w s :
  app_ok s → is_hash (w_hash w) = true → is_Some (blob_at (app_store s) (w_hash w)) →
  wp (put_register auth kind path w) (λ r s', app_ok s' ∧ keeps_files s s' ∧ no_stop r) s.
Proof.
  intros Hs Hh Hb. unfold put_register. apply wp_bind, wp_zoom.
  wp_use Entries_upsert_spec; [apply Hs|]. intros [e|x|st] t1 Hup; simpl; [| |done].
  - pose proof (upsert_keeps _ _ _ _ _ _ _ _ Hs Hh Hb Hup) as Hs1.
    assert (∀ m : M CoreError App Response, Does keeps_files m → wp m
      (λ r s', app_ok s' ∧ keeps_files s s' ∧ no_stop r)
      (mkApp t1 (app_store s) (app_auth s) (app_metrics s) (app_tasks s))) as Hrest; [by intros m Hm; exact (Hm _ Hs1)|].
    apply Hrest. pose proof (etag_does keeps_files _ Hh). does_go.
  - destruct Hup as [_ ->]. split_and!; [by destruct s, Hs|by intros h|done].
Qed.
End phases.

(** ** Interleaving *)

Inductive upload_step `{!Sha256, !Argon2, !Base64, !ListLibs, !JsonText} (config : Config)
    : App * list Upload → App * list Upload → Prop :=
| upload_received `{!Env, !FsEnv} auth kind url path body s n w s' n' ups :
    put_receive config auth url body s n = (Ok w, s', n') →
    upload_step config (s, ups) (s', ups ++ [mkUpload auth kind path w])
| upload_refused `{!Env, !FsEnv} auth url body s n e s' n' ups :
    put_receive config auth url body s n = (Err e, s', n') →
    upload_step config (s, ups) (s', ups)
| upload_registered `{!Env, !FsEnv} up s n ups1 ups2 s' :
    ends (put_register config (up_auth up) (up_kind up) (up_path up) (up_written up)) n s s' →
    upload_step config (s, ups1 ++ up :: ups2) (s', ups1 ++ ups2)
| upload_dropped up s ups1 ups2 :
    upload_step config (s, ups1 ++ up :: ups2) (s, ups1 ++ ups2)
| upload_beside ev s s' ups :
    server_does config ev s s' → (event_sweeps ev = true → ups = []) →
    upload_step config (s, ups) (s', ups).

Definition uploads_ok `{!Sha256} (x : App * list Upload) : Prop :=
  app_ok x.1 ∧ Forall (up_ok x.1) x.2.

Section interleaving.
Context {sha : Sha256} {ar : Argon2} {b64 : Base64} {libs : ListLibs} {jt : JsonText}.
Variable config : Config.

Lemma uploads_ok_files s s' ups :
  app_ok s' → keeps_files s s' → Forall (up_ok s) ups → uploads_ok (s', ups).
Proof. intros Hs' Hf Hups. split; [done|]. eapply Forall_impl; [done|]. intros up. by apply up_ok_files. Qed.

(** Nothing but a sweep deletes a file. *)
Lemma server_does_files ev s s' :
  event_sweeps ev = false → server_does config ev s s' → app_ok s → keeps_files s s'.
Proof.
  intros Hev Hst Hs. assert (event_sweeps ev = true → Sweeps keeps_files) as Hsw by (by rewrite Hev).
  destruct (server_does_cases keeps_files _ _ _ _ Hsw Hst Hs)
    as [(e1 & e2 & e3 & e4 & req & n & -> & Hends)|[_ ?]]; [|done].
  assert (Does keeps_files (handle config req)) as Hreq; [|by destruct (does_ends _ _ _ _ _ Hreq Hs Hends)].
  apply (handle_does keeps_files); [intros _; apply _|done|].
  intros auth kind url path body. apply (do_put_does keeps_files).
  intros s1 w content s2 _ [Hw _]. by eapply write_done_files.
Qed.

Lemma upload_step_ok x x' : upload_step config x x' → uploads_ok x → uploads_ok x'.
Proof.
  intros Hst [Hs Hups]. destruct Hst as [? ? auth kind url path body s n w s' n' ups Hrun
    |? ? auth url body s n e s' n' ups Hrun|? ? up s n ups1 ups2 s' Hends|up s ups1 ups2|ev s s' ups Hev Hsw]; simpl in *.
  - destruct (wp_run _ _ _ _ _ _ _ (put_receive_spec config auth url body s Hs) Hrun) as (Hs' & Hf & Hw).
    destruct (uploads_ok_files s s' ups Hs' Hf Hups) as [_ Hups']. split; [done|].
    apply Forall_app. split; [done|]. by apply Forall_singleton.
  - destruct (wp_run _ _ _ _ _ _ _ (put_receive_spec config auth url body s Hs) Hrun) as (Hs' & Hf & _).
    by apply (uploads_ok_files s).
  - apply Forall_app in Hups as [H1 [[Hh Hb] H2]%Forall_cons].
    pose proof (put_register_spec config (up_auth up) (up_kind up) (up_path up) (up_written up) s Hs Hh Hb n)
      as (Hs' & Hf & _). rewrite Hends in Hs', Hf.
    apply (uploads_ok_files s); [done|done|by apply Forall_app].
  - split; [done|]. apply Forall_app in Hups as [H1 [_ H2]%Forall_cons]. by apply Forall_app.
  - assert (app_ok s') as Hs' by (by eapply server_step_ok; [exists ev|]).
    destruct (event_sweeps ev) eqn:He; [by rewrite Hsw|].
    apply (uploads_ok_files s); [done|by eapply server_does_files|done].
Qed.

Lemma uploads_reachable x : rtc (upload_step config) (fresh config, []) x → uploads_ok x.
Proof.
  intros Hr. assert (uploads_ok (fresh config, [])) as H0 by (split; [apply fresh_ok|done]).
  revert H0. induction Hr; eauto using upload_step_ok.
Qed.
End interleaving.

(** ** Theorems *)

(** C8: uploads may run beside each other and beside anything else: the handler of a PUT
    is its two phases in a row, and in every state reached by interleaving the phases
    of any number of uploads, some of them abandoned, with requests, tasks, restarts
    and runs of [init], every entry is still backed by content of its hash, provided
    that files are only swept while no upload is between its phases. *)
Theorem uploads_beside_anything_but_sweeps `{!Sha256, !Argon2, !Base64, !ListLibs, !JsonText} config s ups :
  rtc (upload_step config) (fresh config, []) (s, ups) →
  (∀ i e, entries (app_db s) !! i = Some e →
     ∃ c, blob_at (app_store s) (e_blob_hash e) = Some c ∧ sha256_hex c = e_blob_hash e) ∧
  ∀ (env : Env) (fsenv : FsEnv) auth kind url path body n,
    do_put config auth kind url path body s n =
    bind (put_receive config auth url body) (put_register config auth kind path) s n.
Proof.
  intros [Hs _]%uploads_reachable. split; [|intros; apply do_put_phases].
  intros i e Hi. by destruct (app_ok_entry s i e Hs Hi) as [_ ?].
Qed.
