(* ===== verification/Reads.v ===== *)
(** * Reads in flight

    A GET is not one step either: [get_one] of
    [crates/marmotte-server/src/routes/yocto.rs] looks the entry up first and opens
    its file afterwards.  [flight_step] interleaves the two halves of any number of
    reads with uploads in flight and with everything else the server does; sweeps
    and orphan scans, as in [upload_step], while no upload is between its phases
    (otherwise there may be rows without a file, as Findings.v shows).  Contents are named by their digest, so a read that
    comes late may miss, but it never serves something else. *)
From stdpp Require Import base numbers list strings gmap relations pretty.
From Stdlib Require Import ZArith Lia.
From S2P Require Import Prelude Models Db Blobs Entries Projects Stats Storage Config Gc GcRun Auth Http Metrics App Yocto Listing Admin Server Spec Uploads.

Section phases.
Context {env : Env} {fsenv : FsEnv}.

(** The first half: the checks, the row, the headers. *)
Definition get_lookup (auth : ProjectAuth) (kind : Kind) (project_in_url path : string)
    : M CoreError App (Entry * list (string * string)) :=
  ensure_project auth project_in_url ;*
  (if negb (Role_allows_read (pa_role auth)) then throw (Forbidden "read") else ret tt) ;*
  let* found := zoom lens_db (Entries_find (pa_project_id auth) kind path) in
  let* entry := ok_or (NotFound (Kind_as_str kind +:+ " " +:+ path)) found in
  let* length := header_from_str (pretty (e_size_bytes entry)) in
  let* etag := header_from_str (quoted (e_blob_hash entry)) in
  ret (entry, [("content-length", length); ("etag", etag); ("cache-control", cache_control)]%string).

(** The second half: the file, the task, the counter, the answer. *)
Definition get_serve (auth : ProjectAuth) (kind : Kind) (entry : Entry) (headers : list (string * string))
    : M CoreError App Response :=
  let* file := zoom lens_store (LocalFsStore_read_blob (e_blob_hash entry)) in
  spawn (TouchEntry (e_id entry)) ;*
  inc_hits (Kind_as_str kind) (pa_project_name auth) ;*
  ret (mkResponse OK_200 headers (BodyStream file)).

(** The [match] in [get_sstate] and [get_downloads]. *)
Definition get_answer (auth : ProjectAuth) (kind : Kind) (m : M CoreError App Response)
    : M CoreError App Response :=
  let* r := attempt m in
  match r with
  | inr resp => ret resp
  | inl (NotFound _) => miss_response auth kind
  | inl e => ret (ApiError_into_response e)
  end.

Lemma get_handler_phases auth kind url path s n :
  get_handler auth kind url path false s n =
  get_answer auth kind (let* found := get_lookup auth kind url path in
                        get_serve auth kind found.1 found.2) s n.
Proof.
  unfold get_handler, get_answer. unfold bind at 1, attempt at 1. unfold bind at 2, attempt at 1.
  assert (get_one auth kind url path false s n =
    bind (get_lookup auth kind url path) (λ found, get_serve auth kind found.1 found.2) s n) as ->; [|done].
  unfold get_one, get_lookup.
  repeat (rewrite bind_assoc; apply bind_ext; intros ? ? ?). by rewrite bind_ret.
Qed.

(** A read between its halves. *)
Record Reading := mkReading {
  rd_auth : ProjectAuth;
  rd_kind : Kind;
  rd_entry : Entry;
  rd_headers : list (string * string)
}.

(** It holds a row that names a digest, and announces that digest. *)
Definition rd_ok (rd : Reading) : Prop :=
  is_hash (e_blob_hash (rd_entry rd)) = true ∧
  rd_headers rd = [("content-length", pretty (e_size_bytes (rd_entry rd)));
    ("etag", quoted (e_blob_hash (rd_entry rd))); ("cache-control", cache_control)]%string.

Definition get_finish (rd : Reading) : M CoreError App Response :=
  get_answer (rd_auth rd) (rd_kind rd) (get_serve (rd_auth rd) (rd_kind rd) (rd_entry rd) (rd_headers rd)).

Context {sha : Sha256}.

(** The row looked up is the one that the cache has under the key at that moment. *)
Lemma get_lookup_spec auth kind url path s :
  app_ok s →
  wp (get_lookup auth kind url path) (λ r s', s' = s ∧ match r with
    | Ok (e, headers) => rd_ok (mkReading auth kind e headers) ∧ pa_project_name auth = url ∧
        cached s (pa_project_id auth, kind, path) = Some (e_blob_hash e)
    | Err e => get_one_err s auth kind url path e
    | Stop _ => False
    end) s.
Proof.
  intros Hs. unfold get_lookup, ensure_project, get_one_err, rd_ok. wp_go.
  destruct (String.eqb_spec (pa_project_name auth) url) as [Hurl|Hurl]; wp_go; [|by split_and!; auto].
  assert (Role_allows_read (pa_role auth) = true) as -> by (by destruct (pa_role auth)).
  simpl. wp_go. wp_use Entries_find_spec. intros [found|x|w] u Hu; simpl; [| |done].
  2: { destruct Hu as [[Hx|[]] ->]. destruct s; simpl; split_and!; auto. }
  destruct Hu as [-> ->]. wp_go.
  destruct (entry_at _ _ _ _) as [e|] eqn:He; [|destruct s; simpl; split_and!; auto 8].
  pose proof He as [Hi _]%entry_at_Some; [|apply (ro_schema _ (sys_refs _ (ao_sys _ Hs)))].
  destruct (app_ok_entry s _ e Hs Hi) as (Hh & _).
  wp_go. apply wp_header_from_str; [apply pretty_Z_visible|]. wp_go.
  apply wp_header_from_str; [by apply etag_visible|]. wp_go.
  split; [by destruct s|]. split_and!; [done..|]. apply cached_entry; [done|]. by exists e.
Qed.

(** What the second half answers, from any state. *)
Definition late_answer (s : App) (rd : Reading) (resp : Response) : Prop :=
  let h := e_blob_hash (rd_entry rd) in
  (resp_status resp = OK_200 ∧ resp_headers resp = rd_headers rd ∧
     ∃ c, resp_body resp = BodyStream c ∧ blob_at (app_store s) h = Some c ∧ sha256_hex c = h) ∨
  (resp_status resp = NOT_FOUND ∧ (blob_at (app_store s) h = None ∨ ∃ x, fs_faulty x)) ∨
  (resp_status resp = INTERNAL_SERVER_ERROR ∧ ∃ x, fs_faulty x).

Lemma read_blob_errors h fs :
  is_hash h = true →
  wp (LocalFsStore_read_blob h) (λ r fs', fs' = fs ∧ match r with
    | Ok c => blob_at fs h = Some c
    | Err e => (e = NotFound ("blob " +:+ h) ∧ (blob_at fs h = None ∨ ∃ x, fs_faulty x)) ∨
               ((∃ y, e = Io y) ∧ ∃ x, fs_faulty x)
    | Stop _ => False
    end) fs.
Proof.
  intros Hh. unfold LocalFsStore_read_blob. wp_go. apply wp_blob_path; [done|]. wp_go.
  apply wp_fs_op; simpl.
  - intros x k Hx. split; [done|]. assert (∃ x, fs_faulty x) by (by exists x).
    destruct (io_kind x); eauto 6.
  - unfold blob_at. destruct (fs_files fs !! blob_components h); simpl; auto.
Qed.

Lemma get_finish_spec rd s :
  app_ok s → rd_ok rd →
  wp (get_finish rd) (λ r s', app_sys s' = app_sys s ∧ app_ok s' ∧
    ∃ resp, r = Ok resp ∧ late_answer s rd resp) s.
Proof.
  intros Hs [Hh Hhd]. unfold get_finish, get_answer, get_serve, late_answer. wp_go.
  assert (∀ a m l, app_ok (mkApp (app_db s) (app_store s) a m l)) as Hok by (by intros; destruct Hs).
  wp_use read_blob_errors; [done|]. intros [c|e|w] fs' [-> Hr]; simpl in *; [| |done].
  - unfold spawn, inc_hits, with_metrics. wp_go. split_and!; [done|apply Hok|].
    eexists. split; [done|]. left. split_and!; [done..|]. exists c. split_and!; try done.
    eapply store_ok_blob; [apply Hs|done].
  - unfold miss_response, inc_misses, with_metrics.
    destruct Hr as [[-> Hr]|[[y ->] Hr]]; wp_go; (split_and!; [done|apply Hok|]);
      (eexists; split; [done|]); right; [by left|by right].
Qed.
End phases.

(** ** Interleaving *)

Inductive flight_step `{!Sha256, !Argon2, !Base64, !ListLibs, !JsonText} (config : Config)
    : App * list Upload * list Reading → App * list Upload * list Reading → Prop :=
| flight_looked_up `{!Env, !FsEnv} auth kind url path s n e headers s' n' ups rds :
    get_lookup auth kind url path s n = (Ok (e, headers), s', n') →
    flight_step config (s, ups, rds) (s', ups, rds ++ [mkReading auth kind e headers])
| flight_served `{!Env, !FsEnv} rd s n ups rds1 rds2 s' :
    ends (get_finish rd) n s s' →
    flight_step config (s, ups, rds1 ++ rd :: rds2) (s', ups, rds1 ++ rds2)
| flight_dropped rd s ups rds1 rds2 :
    flight_step config (s, ups, rds1 ++ rd :: rds2) (s, ups, rds1 ++ rds2)
| flight_upload s ups s' ups' rds :
    upload_step config (s, ups) (s', ups') → flight_step config (s, ups, rds) (s', ups', rds).

Definition flight_ok `{!Sha256} (x : App * list Upload * list Reading) : Prop :=
  uploads_ok x.1 ∧ Forall rd_ok x.2.

Section interleaving.
Context {sha : Sha256} {ar : Argon2} {b64 : Base64} {libs : ListLibs} {jt : JsonText}.
Variable config : Config.

Lemma flight_step_ok x x' : flight_step config x x' → flight_ok x → flight_ok x'.
Proof.
  intros Hst [[Hs Hups] Hrds]. destruct Hst as [? ? auth kind url path s n e headers s' n' ups rds Hrun
    |? ? rd s n ups rds1 rds2 s' Hends|rd s ups rds1 rds2|s ups s' ups' rds Hup]; simpl in *.
  - destruct (wp_run _ _ _ _ _ _ _ (get_lookup_spec auth kind url path s Hs) Hrun) as [-> (Hrd & _)].
    split; [done|]. apply Forall_app. split; [done|]. by apply Forall_singleton.
  - apply Forall_app in Hrds as [H1 [Hrd H2]%Forall_cons].
    destruct (get_finish_spec rd s Hs Hrd n) as (Hsys & Hs' & _). rewrite Hends in Hsys, Hs'.
    split; [|by apply Forall_app]. apply (uploads_ok_files s); [done| |done].
    intros h. injection Hsys as _ ->. done.
  - apply Forall_app in Hrds as [H1 [_ H2]%Forall_cons]. split; [done|]. by apply Forall_app.
  - split; [|done]. by eapply upload_step_ok.
Qed.

Lemma flight_reachable x : rtc (flight_step config) (fresh config, [], []) x → flight_ok x.
Proof.
  intros Hr. assert (flight_ok (fresh config, [], [])) as H0 by (split; [split; [apply fresh_ok|done]|done]).
  revert H0. induction Hr; eauto using flight_step_ok.
Qed.
End interleaving.

(** ** Theorems *)

(** C9: reads may run beside anything.  The handler of a GET is its two halves in a row.  In
    every state reached by interleaving reads, the phases of uploads and all else the
    server does, with sweeps and orphan scans at any time at which no upload is between
    its phases, a lookup finds exactly what the cache has under its key at that moment, and changes
    nothing; and whenever a read in flight gets to open its file, it answers with 200,
    the ETag of the row that it found and content of exactly that digest, or it misses
    because the file has gone since, or the file system failed.  With nothing failing and
    the file still there, it answers 200. *)
Theorem reads_beside_anything `{!Sha256, !Argon2, !Base64, !ListLibs, !JsonText} config s ups rds :
  rtc (flight_step config) (fresh config, [], []) (s, ups, rds) →
  ∀ (env : Env) (fsenv : FsEnv),
  (∀ auth kind url path n,
     get_handler auth kind url path false s n =
       get_answer auth kind (let* found := get_lookup auth kind url path in
                             get_serve auth kind found.1 found.2) s n ∧
     ∀ e headers s' n', get_lookup auth kind url path s n = (Ok (e, headers), s', n') →
       s' = s ∧ pa_project_name auth = url ∧
       cached s (pa_project_id auth, kind, path) = Some (e_blob_hash e)) ∧
  (∀ rd n, rd ∈ rds →
     ("etag"%string, quoted (e_blob_hash (rd_entry rd))) ∈ rd_headers rd ∧
     ∃ resp, (get_finish rd s n).1.1 = Ok resp ∧ late_answer s rd resp ∧
       (fs_quiet → is_Some (blob_at (app_store s) (e_blob_hash (rd_entry rd))) → resp_status resp = OK_200)).
Proof.
  intros [[Hs _] Hrds]%flight_reachable env fsenv. simpl in *. split.
  - intros auth kind url path n. split; [apply get_handler_phases|].
    intros e headers s' n' Hrun.
    destruct (wp_run _ _ _ _ _ _ _ (get_lookup_spec auth kind url path s Hs) Hrun) as [-> (_ & Hurl & Hc)].
    done.
  - intros rd n Hin. pose proof (proj1 (Forall_forall _ _) Hrds rd Hin) as Hrd.
    split; [destruct Hrd as [_ ->]; set_solver|].
    destruct (get_finish_spec rd s Hs Hrd n) as (_ & _ & resp & Hresp & Hlate).
    exists resp. split_and!; [done..|]. intros Hq [c Hc].
    destruct Hlate as [(Hst & _)|[(_ & [Hn|[x Hx%fs_quiet_faulty]])|(_ & x & Hx%fs_quiet_faulty)]];
      [done|congruence|done..].
Qed.
