(* ===== verification/Routes.v ===== *)
(** * Routing

    The route tables of [crates/marmotte-server/src/routes/*.rs] and the way a request
    goes through them: the path picks a route, the middleware of its group runs, then
    the method picks the handler, and its extractors read path, query and body.
    [serve_http] is the whole of it; the theorems relate it to [handle], on which the
    rest of the development builds. *)
From stdpp Require Import base numbers list strings gmap pretty.
From Stdlib Require Import ZArith Lia Init.Byte.
From S2P Require Import Prelude Models Db Blobs Entries Projects Storage Config Gc GcRun Auth Http Metrics App Yocto Listing Admin Server.

(** ** Paths *)

Inductive Method := GET | HEAD | PUT | POST | PATCH | DELETE | OtherMethod (name : string).
#[export] Instance Method_eq_dec : EqDecision Method.
Proof. solve_decision. Defined.

(** A literal segment, [{name}], or [{*name}] at the end. *)
Inductive Segment := Lit (s : string) | Param | Rest.

(** What a pattern captures of a path that it matches: a parameter takes one segment
    that is not empty, the wildcard everything that is left. *)
Fixpoint match_path (pattern : list Segment) (segments : list string) : option (list string) :=
  match pattern, segments with
  | [], [] => Some []
  | [Rest], _ =>
      let rest := String.concat "/" segments in
      if String.eqb rest EmptyString then None else Some [rest]
  | Lit a :: pattern, s :: segments =>
      if String.eqb a s then match_path pattern segments else None
  | Param :: pattern, s :: segments =>
      if String.eqb s EmptyString then None else cons s <$> match_path pattern segments
  | _, _ => None
  end.

Fixpoint find_route {A} (table : list (list Segment * A)) (segments : list string) : option (list string * A) :=
  match table with
  | [] => None
  | (pattern, a) :: table =>
      match match_path pattern segments with
      | Some captures => Some (captures, a)
      | None => find_route table segments
      end
  end.

#[global] Arguments find_route : simpl never.

(** The handler of a method; [get(..)] answers HEAD too, without the body. *)
Fixpoint method_handler {A} (m : Method) (l : list (Method * A)) : option A :=
  match l with
  | [] => None
  | (m', a) :: l => if decide (m = m') then Some a else method_handler m l
  end.
Definition pick {A} (m : Method) (l : list (Method * A)) : option (bool * A) :=
  match method_handler m l with
  | Some a => Some (false, a)
  | None => if decide (m = HEAD) then pair true <$> method_handler GET l else None
  end.

(** ** Requests *)

Record HttpRequest := mkHttpRequest {
  method : Method;
  segments : list string;
  query : string;
  authorization : Headers;
  body : list (IoError + bytes)
}.

(** [i64::from_str] *)
Definition digit_of (a : Ascii.ascii) : option Z :=
  let n := Ascii.nat_of_ascii a in
  if (48 <=? n)%nat && (n <=? 57)%nat then Some (Z.of_nat n - 48) else None.
Fixpoint parse_digits (acc : Z) (s : string) : option Z :=
  match s with
  | EmptyString => Some acc
  | String a s => d ← digit_of a; parse_digits (10 * acc + d) s
  end.
Definition parse_nat (s : string) : option Z := if String.eqb s EmptyString then None else parse_digits 0 s.
Definition parse_i64 (s : string) : option Z :=
  z ← match strip_prefix "-" s with
      | Some s => Z.opp <$> parse_nat s
      | None => match strip_prefix "+" s with Some s => parse_nat s | None => parse_nat s end
      end;
  if (- 2 ^ 63 <=? z) && (z <? 2 ^ 63) then Some z else None.

(** [Query] and [Json] extractors (axum, serde): a value or the rejection they answer. *)
Class Extract := mkExtract {
  path_rejection : Response;
  ex_list_query : string → Response + ListQuery;
  ex_dry_run : string → Response + bool;
  ex_audit_query : string → Response + (option Z * option Z);
  ex_create_project : list (IoError + bytes) → Response + (string * option Z * option Z);
  ex_update_project : list (IoError + bytes) → Response + (option string * JsonField Z * JsonField Z);
  ex_create_key : list (IoError + bytes) → Response + (Role * option string);
  ex_create_token : list (IoError + bytes) → Response + option string
}.

Definition Extracted (A : Type) : Type := Response + A.

Section tables.
Context {ex : Extract}.

Definition ex_map {A B} (f : A → B) (r : Extracted A) : Extracted B :=
  match r with inl resp => inl resp | inr a => inr (f a) end.

(** [Path<i64>] and [Path<(i64, i64)>] *)
Definition with_id {A} (captures : list string) (k : Z → Extracted A) : Extracted A :=
  match captures with
  | [a] => match parse_i64 a with Some id => k id | None => inl path_rejection end
  | _ => inl path_rejection
  end.
Definition with_ids {A} (captures : list string) (k : Z → Z → Extracted A) : Extracted A :=
  match captures with
  | [a; b] =>
      match parse_i64 a, parse_i64 b with
      | Some i, Some j => k i j
      | _, _ => inl path_rejection
      end
  | _ => inl path_rejection
  end.

(** What a handler reads out of the captures and the request. *)
Definition Extractor (A : Type) : Type := list string → HttpRequest → Extracted A.
Definition Table (A : Type) : Type := list (list Segment * list (Method * Extractor A)).

(** [routes/public.rs] *)
Definition public_routes : Table Request :=
  [([Lit "healthz"], [(GET, λ _ _, inr Healthz)]);
   ([Lit "readyz"], [(GET, λ _ _, inr Readyz)]);
   ([Lit "metrics"], [(GET, λ _ _, inr MetricsPage)])]%string.

(** [Path((project, path))] *)
Definition with_entry (captures : list string) (k : string → string → YoctoRequest) : Extracted YoctoRequest :=
  match captures with [project; path] => inr (k project path) | _ => inl path_rejection end.

(** [routes/yocto.rs] *)
Definition yocto_methods (kind : Kind) : list (Method * Extractor YoctoRequest) :=
  [(GET, λ c _, with_entry c (GetEntry kind)); (HEAD, λ c _, with_entry c (HeadEntry kind));
   (PUT, λ c r, with_entry c (λ project path, PutEntry kind project path (body r)))].
Definition yocto_routes : Table YoctoRequest :=
  [([Lit "sstate"; Param; Rest], yocto_methods Sstate);
   ([Lit "downloads"; Param; Param], yocto_methods Downloads)]%string.

(** [routes/admin/projects.rs] *)
Definition project_routes : Table AdminRequest :=
  [([Lit "projects"],
     [(POST, λ _ r, ex_map (λ '(name, q, l), CreateProject name q l) (ex_create_project (body r)));
      (GET, λ _ _, inr ListProjects)]);
   ([Lit "projects"; Param],
     [(GET, λ c _, with_id c (λ id, inr (GetProject id)));
      (PATCH, λ c r, with_id c (λ id,
         ex_map (λ '(name, q, l), UpdateProject id name q l) (ex_update_project (body r))));
      (DELETE, λ c _, with_id c (λ id, inr (DeleteProject id)))])]%string.

(** [routes/admin/keys.rs] *)
Definition key_routes : Table AdminRequest :=
  [([Lit "projects"; Param; Lit "keys"],
     [(POST, λ c r, with_id c (λ id,
         ex_map (λ '(role, label), CreateKey id role label) (ex_create_key (body r))));
      (GET, λ c _, with_id c (λ id, inr (ListKeys id)))]);
   ([Lit "projects"; Param; Lit "keys"; Param],
     [(DELETE, λ c _, with_ids c (λ id kid, inr (RevokeKey id kid)))])]%string.

(** [routes/admin/tokens.rs] *)
Definition token_routes : Table AdminRequest :=
  [([Lit "tokens"],
     [(POST, λ _ r, ex_map CreateToken (ex_create_token (body r))); (GET, λ _ _, inr ListTokens)]);
   ([Lit "tokens"; Param], [(DELETE, λ c _, with_id c (λ id, inr (RevokeToken id)))])]%string.

(** [routes/admin/entries.rs] *)
Definition entry_routes : Table AdminRequest :=
  [([Lit "projects"; Param; Lit "entries"],
     [(GET, λ c r, with_id c (λ id, ex_map (ListEntries id) (ex_list_query (query r))))]);
   ([Lit "projects"; Param; Lit "entries"; Param],
     [(GET, λ c _, with_ids c (λ id eid, inr (GetEntryById id eid)));
      (DELETE, λ c _, with_ids c (λ id eid, inr (DeleteEntry id eid)))]);
   ([Lit "projects"; Param; Lit "entries"; Param; Lit "pin"],
     [(POST, λ c _, with_ids c (λ id eid, inr (PinEntry id eid)));
      (DELETE, λ c _, with_ids c (λ id eid, inr (UnpinEntry id eid)))])]%string.

(** [routes/admin/gc.rs] *)
Definition gc_routes : Table AdminRequest :=
  [([Lit "gc"; Lit "run"], [(POST, λ _ r, ex_map RunGc (ex_dry_run (query r)))]);
   ([Lit "gc"; Lit "orphan-scan"], [(POST, λ _ r, ex_map RunOrphanScan (ex_dry_run (query r)))])]%string.

(** [routes/admin/stats.rs] *)
Definition stats_routes : Table AdminRequest :=
  [([Lit "stats"], [(GET, λ _ _, inr GlobalStats)]);
   ([Lit "stats"; Lit "projects"; Param], [(GET, λ c _, with_id c (λ id, inr (ProjectStats id)))]);
   ([Lit "audit"], [(GET, λ _ r, ex_map (λ '(since, limit), AuditLog since limit) (ex_audit_query (query r)))])]%string.

(** [routes/admin/mod.rs]: everything nested under one prefix. *)
Definition admin_prefix : list Segment := [Lit "api"; Lit "v1"; Lit "admin"]%string.
Definition admin_routes : Table AdminRequest :=
  (λ route, (admin_prefix ++ route.1, route.2)) <$>
    (project_routes ++ key_routes ++ token_routes ++ entry_routes ++ gc_routes ++ stats_routes).
End tables.

(** ** Serving *)

Definition METHOD_NOT_ALLOWED : Z := 405.

Section serve.
Context {env : Env} {fsenv : FsEnv} {sha : Sha256} {ar : Argon2} {aenv : AuthEnv} {mk : Moka}
  {b64 : Base64} {libs : ListLibs} {jt : JsonText} {ex : Extract}.
Variable config : Config.

Definition strip_body (strip : bool) (m : M CoreError App Response) : M CoreError App Response :=
  let* resp := m in
  ret (if strip then mkResponse (resp_status resp) (resp_headers resp) BodyEmpty else resp).

(** The end of a route: method, extractors, handler. *)
Definition run_route {A} (r : HttpRequest) (captures : list string) (methods : list (Method * Extractor A))
    (handler : A → M CoreError App Response) : M CoreError App Response :=
  match pick (method r) methods with
  | None => ret (mkResponse METHOD_NOT_ALLOWED [] BodyEmpty)
  | Some (strip, extract) =>
      strip_body strip
        match extract captures r with
        | inl rejection => ret rejection
        | inr a => handler a
        end
  end.

(** The merged routers of [build_app]; the two middlewares wrap whole groups, so they
    also come before an answer of 405 or a rejected extractor.  [Router::layer] wraps the
    fallback of its router too, and of routers that are merged the last one's is left: a
    path that nobody has is behind the middleware of the administration. *)
Definition serve_http (r : HttpRequest) : M CoreError App Response :=
  match find_route public_routes (segments r) with
  | Some (captures, methods) => run_route r captures methods (handle config)
  | None =>
  match find_route yocto_routes (segments r) with
  | Some (captures, methods) =>
      auth_project_middleware (authorization r) (λ auth, run_route r captures methods (yocto_handler config auth))
  | None =>
  match find_route admin_routes (segments r) with
  | Some (captures, methods) =>
      auth_admin_middleware (authorization r) (λ auth, run_route r captures methods (λ req, respond (admin_handler config auth req)))
  | None => auth_admin_middleware (authorization r) (λ _, ret (mkResponse NOT_FOUND [] BodyEmpty))
  end end end.

(** The request that a route, its method and its extractors make of an HTTP request, and
    whether it is the GET behind a HEAD. *)
Definition target_of {A} (r : HttpRequest) (table : Table A) : option (bool * A) :=
  '(captures, methods) ← find_route table (segments r);
  '(strip, extract) ← pick (method r) methods;
  match extract captures r with inl _ => None | inr a => Some (strip, a) end.
Definition dispatch (r : HttpRequest) : option (bool * Request) :=
  match find_route public_routes (segments r), find_route yocto_routes (segments r) with
  | Some _, _ => target_of r public_routes
  | None, Some _ => prod_map id (Yocto (authorization r)) <$> target_of r yocto_routes
  | None, None => prod_map id (AdminApi (authorization r)) <$> target_of r admin_routes
  end.

(** ** Routing adds nothing to the handlers *)

Lemma strip_body_false m s n : strip_body false m s n = m s n.
Proof. unfold strip_body, bind, ret. by destruct (m s n) as [[[a|e|w] s'] n']. Qed.

Lemma strip_body_idemp strip m s n : strip_body strip (strip_body strip m) s n = strip_body strip m s n.
Proof. unfold strip_body, bind, ret. destruct (m s n) as [[[a|e|w] s'] n']; [|done..]. by destruct strip. Qed.

Lemma strip_body_ext strip m m' s n : m s n = m' s n → strip_body strip m s n = strip_body strip m' s n.
Proof. unfold strip_body, bind. by intros ->. Qed.

Lemma auth_project_middleware_strip strip headers next next' s n :
  (∀ auth s n, strip_body strip (next auth) s n = strip_body strip (next' auth) s n) →
  strip_body strip (auth_project_middleware headers next) s n =
  strip_body strip (auth_project_middleware headers next') s n.
Proof.
  intros Hnext. unfold auth_project_middleware. destruct (parse_basic headers); [|done].
  unfold strip_body. rewrite !bind_assoc. apply bind_ext. intros [e|auth] s1 n1; [done|].
  apply (Hnext auth).
Qed.

Lemma auth_admin_middleware_strip strip headers next next' s n :
  (∀ auth s n, strip_body strip (next auth) s n = strip_body strip (next' auth) s n) →
  strip_body strip (auth_admin_middleware headers next) s n =
  strip_body strip (auth_admin_middleware headers next') s n.
Proof.
  intros Hnext. unfold auth_admin_middleware. destruct (parse_bearer headers); [|done].
  unfold strip_body. rewrite !bind_assoc. apply bind_ext. intros [e|auth] s1 n1; [done|].
  apply (Hnext auth).
Qed.

(** A route whose extractors accept runs the handler on what they read. *)
Lemma run_route_target {A} r captures (methods : list (Method * Extractor A)) handler strip a s n :
  ('(strip, extract) ← pick (method r) methods;
   match extract captures r with inl _ => None | inr a => Some (strip, a) end) = Some (strip, a) →
  strip_body strip (run_route r captures methods handler) s n = strip_body strip (handler a) s n.
Proof.
  unfold run_route. destruct (pick _ _) as [[strip' extract]|]; simpl; [|done].
  destruct (extract captures r) as [resp|a']; [done|]. intros [= -> ->].
  by rewrite strip_body_idemp.
Qed.

Lemma serve_http_dispatch r strip req s n :
  dispatch r = Some (strip, req) →
  strip_body strip (serve_http r) s n = strip_body strip (handle config req) s n.
Proof.
  unfold dispatch, serve_http, target_of.
  destruct (find_route public_routes (segments r)) as [[c methods]|]; simpl.
  { intros Ht. by apply run_route_target. }
  destruct (find_route yocto_routes (segments r)) as [[c methods]|]; simpl.
  { intros ([strip' yreq] & Ht & Heq)%fmap_Some. injection Heq as -> ->. simpl. unfold yocto_route.
    apply auth_project_middleware_strip. intros auth s1 n1. by apply run_route_target. }
  destruct (find_route admin_routes (segments r)) as [[c methods]|]; simpl; [|done].
  intros ([strip' areq] & Ht & Heq)%fmap_Some. injection Heq as -> ->. simpl. unfold admin_route.
  apply auth_admin_middleware_strip. intros auth s1 n1. by apply run_route_target with (handler := λ req, respond (admin_handler config auth req)).
Qed.

(** ** What is not routed *)

Definition same_but_auth (s s' : App) : Prop :=
  app_db s' = app_db s ∧ app_store s' = app_store s ∧
  app_metrics s' = app_metrics s ∧ app_tasks s' = app_tasks s.

Lemma same_but_auth_refl s : same_but_auth s s.
Proof. done. Qed.

Lemma auth_project_same headers next s :
  (∀ auth s, wp (next auth) (λ r s', s' = s ∧ is_ok r = true) s) →
  wp (auth_project_middleware headers next) (λ r s', same_but_auth s s' ∧ is_ok r = true) s.
Proof.
  intros Hnext. unfold auth_project_middleware. destruct (parse_basic headers) as [c|]; [|by apply wp_ret].
  wp_go. intros n. simpl.
  destruct (authenticate_project (user c) (pass c) _ n) as [[r [t' svc']] n'] eqn:Hrun.
  apply authenticate_project_run in Hrun as (Ht & _ & _ & Hr). simpl in *. subst t'.
  destruct r as [a|e|w]; simpl; [|by destruct e; apply wp_ret|done].
  eapply wp_mono; [apply Hnext|]. by intros r s' [-> Hok].
Qed.

Lemma auth_admin_same headers next s :
  (∀ auth s, wp (next auth) (λ r s', s' = s ∧ is_ok r = true) s) →
  wp (auth_admin_middleware headers next) (λ r s', same_but_auth s s' ∧ is_ok r = true) s.
Proof.
  intros Hnext. unfold auth_admin_middleware. destruct (parse_bearer headers) as [token|]; [|by apply wp_ret].
  wp_go. intros n. simpl.
  destruct (authenticate_admin token _ n) as [[r [t' svc']] n'] eqn:Hrun.
  apply authenticate_admin_run in Hrun as (Ht & _ & _ & Hr). simpl in *. subst t'.
  destruct r as [a|e|w]; simpl; [|by destruct e; apply wp_ret|done].
  eapply wp_mono; [apply Hnext|]. by intros r s' [-> Hok].
Qed.

(** A route without a handler for the method, or whose extractors refuse. *)
Lemma run_route_refused {A} r captures (methods : list (Method * Extractor A)) handler s :
  ('(strip, extract) ← pick (method r) methods;
   match extract captures r with inl _ => None | inr a => Some (strip, a) end) = None →
  wp (run_route r captures methods handler) (λ r s', s' = s ∧ is_ok r = true) s.
Proof.
  unfold run_route, strip_body. destruct (pick _ _) as [[strip extract]|]; simpl; [|by intros _; apply wp_ret].
  destruct (extract captures r) as [resp|a]; [|done]. intros _. by wp_go.
Qed.

Lemma serve_http_refused r s :
  dispatch r = None → wp (serve_http r) (λ res s', same_but_auth s s' ∧ is_ok res = true) s.
Proof.
  unfold dispatch, serve_http, target_of.
  destruct (find_route public_routes (segments r)) as [[c methods]|]; simpl.
  { intros Ht. eapply wp_mono; [by apply run_route_refused|]. by intros res s' [-> Hok]. }
  destruct (find_route yocto_routes (segments r)) as [[c methods]|]; simpl.
  { intros Ht%fmap_None. apply auth_project_same. intros auth s1. by apply run_route_refused. }
  destruct (find_route admin_routes (segments r)) as [[c methods]|]; simpl.
  2: { intros _. apply auth_admin_same. intros auth s1. by apply wp_ret. }
  intros Ht%fmap_None. apply auth_admin_same. intros auth s1. by apply run_route_refused.
Qed.
End serve.

(** ** No two routes fight over a path *)

(** Two patterns that may match the same path. *)
Fixpoint overlap (p q : list Segment) : bool :=
  match p, q with
  | [], [] => true
  | Rest :: _, _ | _, Rest :: _ => true
  | Lit a :: p, Lit b :: q => String.eqb a b && overlap p q
  | _ :: p, _ :: q => overlap p q
  | _, _ => false
  end.

Lemma match_path_overlap p q segs c d :
  match_path p segs = Some c → match_path q segs = Some d → overlap p q = true.
Proof.
  revert q segs c d. induction p as [|[a| |] p IH]; intros [|[b| |] q] segs c d; try done.
  all: try (destruct segs as [|s segs]; [done|]); simpl; try done.
  - destruct (String.eqb_spec a s) as [->|], (String.eqb_spec b s) as [->|]; try done.
    rewrite String.eqb_refl. simpl. apply IH.
  - destruct (String.eqb a s), (String.eqb s EmptyString); try done.
    intros Hc (? & Hd & _)%fmap_Some. by eapply IH.
  - destruct (String.eqb b s), (String.eqb s EmptyString); try done.
    intros (? & Hc & _)%fmap_Some Hd. by eapply IH.
  - destruct (String.eqb s EmptyString); try done.
    intros (? & Hc & _)%fmap_Some (? & Hd & _)%fmap_Some. by eapply IH.
Qed.

Definition all_patterns `{!Extract} : list (list Segment) :=
  public_routes.*1 ++ yocto_routes.*1 ++ admin_routes.*1.

Definition no_overlap (l : list (list Segment)) : bool :=
  forallb (λ '(i, p), forallb (λ '(j, q), Nat.eqb i j || negb (overlap p q)) (imap pair l)) (imap pair l).

Lemma no_overlap_spec l i j p q segs c d :
  no_overlap l = true → l !! i = Some p → l !! j = Some q →
  match_path p segs = Some c → match_path q segs = Some d → i = j.
Proof.
  unfold no_overlap. rewrite forallb_forall. intros Hall Hi Hj Hp Hq.
  assert (∀ k x, l !! k = Some x → In (k, x) (imap pair l)) as Hin.
  { intros k x Hk. apply list_elem_of_In, list_elem_of_lookup. exists k.
    by rewrite list_lookup_imap, Hk. }
  specialize (Hall _ (Hin i p Hi)). simpl in Hall. rewrite forallb_forall in Hall.
  specialize (Hall _ (Hin j q Hj)). simpl in Hall.
  rewrite (match_path_overlap p q segs c d Hp Hq), orb_false_r in Hall.
  by apply Nat.eqb_eq in Hall.
Qed.

(** ** Numbers in paths *)

Lemma digit_of_pretty n : (n < 10)%N → digit_of (pretty_N_char n) = Some (Z.of_N n).
Proof.
  intros Hn. destruct n as [|p]; [done|]. do 4 (destruct p as [p|p|]; try done); lia.
Qed.

Lemma parse_digits_go x s : parse_digits 0 (pretty_N_go x s) = parse_digits (Z.of_N x) s.
Proof.
  revert s. induction (N.lt_wf_0 x) as [x _ IH]. intros s.
  destruct (decide (x = 0%N)) as [->|Hx]; [by rewrite pretty_N_go_0|].
  rewrite pretty_N_go_step by lia. rewrite IH by (apply N.div_lt; lia). cbn [parse_digits].
  rewrite digit_of_pretty by (apply N.mod_lt; lia). simpl. f_equal.
  pose proof (N.div_mod x 10 ltac:(lia)) as Hdm. lia.
Qed.

Lemma parse_digits_pretty (x : N) : parse_digits 0 (pretty x) = Some (Z.of_N x).
Proof.
  unfold pretty, pretty_N. case_decide as Hx; [by rewrite Hx|]. by rewrite parse_digits_go.
Qed.

Lemma pretty_N_signless (x : N) sign : digit_of sign = None → strip_prefix (String sign EmptyString) (pretty x) = None.
Proof.
  intros Hs. destruct (strip_prefix _ _) as [t|] eqn:Hp; [|done]. apply strip_prefix_Some in Hp.
  pose proof (parse_digits_pretty x) as Hd. rewrite Hp, app_string_cons in Hd. simpl in Hd.
  by rewrite Hs in Hd.
Qed.

Lemma pretty_N_nonempty (x : N) : pretty x ≠ EmptyString.
Proof.
  unfold pretty, pretty_N. case_decide as Hx; [done|]. intros He.
  pose proof (parse_digits_go x EmptyString) as Hd. rewrite He in Hd. simpl in Hd. injection Hd as Hd. lia.
Qed.

Lemma parse_nat_pretty (x : N) : parse_nat (pretty x) = Some (Z.of_N x).
Proof.
  unfold parse_nat. destruct (String.eqb_spec (pretty x) EmptyString) as [He|_];
    [by apply pretty_N_nonempty in He|apply parse_digits_pretty].
Qed.

Lemma parse_i64_pretty (z : Z) : in_i64 z → parse_i64 (pretty z) = Some z ∧ pretty z ≠ EmptyString.
Proof.
  intros [Hlo Hhi].
  assert (((- 2 ^ 63 <=? z) && (z <? 2 ^ 63)) = true) as Hr.
  { apply andb_true_iff. split; [by apply Z.leb_le|by apply Z.ltb_lt]. }
  assert (∀ x : N, Z.of_N x = z → pretty z = pretty x →
    parse_i64 (pretty z) = Some z ∧ pretty z ≠ EmptyString) as Hnat.
  { intros x Hx ->. split; [|apply pretty_N_nonempty]. unfold parse_i64.
    rewrite !pretty_N_signless, parse_nat_pretty, Hx by done. cbn [mbind option_bind]. by rewrite Hr. }
  destruct z as [|p|p]; [by apply (Hnat 0%N)|by apply (Hnat (N.pos p))|].
  change (pretty (Z.neg p)) with ("-" +:+ pretty (N.pos p))%string. split; [|done].
  unfold parse_i64. rewrite (proj2 (strip_prefix_Some _ _ _) eq_refl), parse_nat_pretty.
  cbn [mbind option_bind fmap option_fmap option_map].
  change (- Z.of_N (N.pos p)) with (Z.neg p). by rewrite Hr.
Qed.

(** ** How a client spells a request *)

(** Optional values in their types. *)
Definition opt_is {A} (P : A → Prop) (o : option A) : Prop := match o with Some a => P a | None => True end.
Definition field_is {A} (P : A → Prop) (f : JsonField A) : Prop := match f with Value a => P a | _ => True end.
Definition list_query_ok (q : ListQuery) : Prop :=
  opt_is is_text (q_kind q) ∧ opt_is is_text (q_path_prefix q) ∧ opt_is is_text (q_sort q) ∧
  opt_is is_text (q_order q) ∧ opt_is in_i64 (q_limit q) ∧ opt_is is_text (q_cursor q).

(** Queries and bodies that the extractors read back, as long as numbers are i64 and
    texts are UTF-8. *)
Class Render `{!Extract} := mkRender {
  render_list_query : ListQuery → string;
  render_dry_run : bool → string;
  render_audit_query : option Z → option Z → string;
  render_create_project : string → option Z → option Z → list (IoError + bytes);
  render_update_project : option string → JsonField Z → JsonField Z → list (IoError + bytes);
  render_create_key : Role → option string → list (IoError + bytes);
  render_create_token : option string → list (IoError + bytes);
  ex_list_query_render q : list_query_ok q → ex_list_query (render_list_query q) = inr q;
  ex_dry_run_render b : ex_dry_run (render_dry_run b) = inr b;
  ex_audit_query_render a b : opt_is in_i64 a → opt_is in_i64 b →
    ex_audit_query (render_audit_query a b) = inr (a, b);
  ex_create_project_render a b c : is_text a → opt_is in_i64 b → opt_is in_i64 c →
    ex_create_project (render_create_project a b c) = inr (a, b, c);
  ex_update_project_render a b c : opt_is is_text a → field_is in_i64 b → field_is in_i64 c →
    ex_update_project (render_update_project a b c) = inr (a, b, c);
  ex_create_key_render a b : opt_is is_text b → ex_create_key (render_create_key a b) = inr (a, b);
  ex_create_token_render a : opt_is is_text a → ex_create_token (render_create_token a) = inr a
}.

Section spell.
Context {ex : Extract} {render : Render}.

Definition kind_prefix (k : Kind) : string := match k with Sstate => "sstate" | Downloads => "downloads" end.
Definition spell_yocto (h : Headers) (req : YoctoRequest) : HttpRequest :=
  match req with
  | GetEntry k p x => mkHttpRequest GET [kind_prefix k; p; x] EmptyString h []
  | HeadEntry k p x => mkHttpRequest HEAD [kind_prefix k; p; x] EmptyString h []
  | PutEntry k p x b => mkHttpRequest PUT [kind_prefix k; p; x] EmptyString h b
  end.

Definition spell_admin (h : Headers) (req : AdminRequest) : HttpRequest :=
  let at_path m segs q b := mkHttpRequest m ("api" :: "v1" :: "admin" :: segs)%string q h b in
  let plain m segs := at_path m segs EmptyString [] in
  (match req with
  | CreateProject n q l => at_path POST ["projects"] EmptyString (render_create_project n q l)
  | ListProjects => plain GET ["projects"]
  | GetProject i => plain GET ["projects"; pretty i]
  | UpdateProject i n q l => at_path PATCH ["projects"; pretty i] EmptyString (render_update_project n q l)
  | DeleteProject i => plain DELETE ["projects"; pretty i]
  | CreateKey i r l => at_path POST ["projects"; pretty i; "keys"] EmptyString (render_create_key r l)
  | ListKeys i => plain GET ["projects"; pretty i; "keys"]
  | RevokeKey i j => plain DELETE ["projects"; pretty i; "keys"; pretty j]
  | CreateToken l => at_path POST ["tokens"] EmptyString (render_create_token l)
  | ListTokens => plain GET ["tokens"]
  | RevokeToken i => plain DELETE ["tokens"; pretty i]
  | ListEntries i q => at_path GET ["projects"; pretty i; "entries"] (render_list_query q) []
  | GetEntryById i j => plain GET ["projects"; pretty i; "entries"; pretty j]
  | DeleteEntry i j => plain DELETE ["projects"; pretty i; "entries"; pretty j]
  | PinEntry i j => plain POST ["projects"; pretty i; "entries"; pretty j; "pin"]
  | UnpinEntry i j => plain DELETE ["projects"; pretty i; "entries"; pretty j; "pin"]
  | RunGc b => at_path POST ["gc"; "run"] (render_dry_run b) []
  | RunOrphanScan b => at_path POST ["gc"; "orphan-scan"] (render_dry_run b) []
  | GlobalStats => plain GET ["stats"]
  | ProjectStats i => plain GET ["stats"; "projects"; pretty i]
  | AuditLog a b => at_path GET ["audit"] (render_audit_query a b) []
  end)%string.

Definition spell (req : Request) : HttpRequest :=
  match req with
  | Healthz => mkHttpRequest GET ["healthz"%string] EmptyString None []
  | Readyz => mkHttpRequest GET ["readyz"%string] EmptyString None []
  | MetricsPage => mkHttpRequest GET ["metrics"%string] EmptyString None []
  | Yocto h req => spell_yocto h req
  | AdminApi h req => spell_admin h req
  end.

(** Numbers are i64 and texts are UTF-8; names and paths in a URL are not empty. *)
Definition spellable (req : Request) : Prop :=
  match req with
  | Healthz | Readyz | MetricsPage => True
  | Yocto _ (GetEntry _ p x | HeadEntry _ p x | PutEntry _ p x _) =>
      (p ≠ EmptyString ∧ is_text p) ∧ (x ≠ EmptyString ∧ is_text x)
  | AdminApi _ areq =>
      match areq with
      | CreateProject n q l => is_text n ∧ opt_is in_i64 q ∧ opt_is in_i64 l
      | UpdateProject i n q l => in_i64 i ∧ opt_is is_text n ∧ field_is in_i64 q ∧ field_is in_i64 l
      | GetProject i | DeleteProject i | ListKeys i | RevokeToken i | ProjectStats i => in_i64 i
      | CreateKey i _ l => in_i64 i ∧ opt_is is_text l
      | CreateToken l => opt_is is_text l
      | ListEntries i q => in_i64 i ∧ list_query_ok q
      | RevokeKey i j | GetEntryById i j | DeleteEntry i j | PinEntry i j | UnpinEntry i j =>
          in_i64 i ∧ in_i64 j
      | AuditLog a b => opt_is in_i64 a ∧ opt_is in_i64 b
      | ListProjects | ListTokens | RunGc _ | RunOrphanScan _ | GlobalStats => True
      end
  end.
End spell.

(** ** The routes of the cache *)

(** Only the cache routes start with the name of a kind. *)
Lemma cache_url `{!Extract} k rest :
  find_route public_routes (kind_prefix k :: rest) = None ∧
  find_route admin_routes (kind_prefix k :: rest) = None ∧
  (find_route yocto_routes (kind_prefix k :: rest) = None ∨
   ∃ p x, find_route yocto_routes (kind_prefix k :: rest) = Some ([p; x], yocto_methods k)).
Proof.
  destruct k; (split; [done|split; [done|]]); unfold find_route; cbn [yocto_routes match_path kind_prefix String.eqb];
    (destruct rest as [|p rest]; [by left|]); simpl; (destruct (String.eqb p EmptyString); [by left|]).
  - destruct (String.eqb (String.concat "/" rest) EmptyString); [by left|right]. by eexists _, _.
  - destruct rest as [|x [|? ?]]; [by left| |by left; destruct (String.eqb x EmptyString)].
    simpl. destruct (String.eqb x EmptyString); [by left|right]. by eexists _, _.
Qed.

(** HEAD and PUT of a path reach the handler for this entry. *)
Definition leads_to `{!Extract} (segs : list string) (k : Kind) (project path : string) : Prop :=
  ∀ r, segments r = segs → method r = HEAD ∨ method r = PUT →
    dispatch r = Some (false, Yocto (authorization r)
      (if decide (method r = HEAD) then HeadEntry k project path else PutEntry k project path (body r))).

(** ... or there is no route at all. *)
Definition unrouted `{!Extract} (segs : list string) : Prop :=
  find_route public_routes segs = None ∧ find_route yocto_routes segs = None ∧
  find_route admin_routes segs = None.

Lemma routed_leads `{!Extract} k rest p x r :
  find_route yocto_routes (kind_prefix k :: rest) = Some ([p; x], yocto_methods k) →
  segments r = kind_prefix k :: rest → method r = HEAD ∨ method r = PUT →
  dispatch r = Some (false, Yocto (authorization r)
    (if decide (method r = HEAD) then HeadEntry k p x else PutEntry k p x (body r))).
Proof.
  intros Hyoc Hs Hm. destruct (cache_url k rest) as (Hpub & _ & _). rewrite <-Hs in *.
  unfold dispatch, target_of. rewrite Hpub, Hyoc. by destruct Hm as [Hm|Hm]; rewrite Hm.
Qed.

Lemma cache_url_leads `{!Extract} k rest :
  unrouted (kind_prefix k :: rest) ∨ ∃ p x, leads_to (kind_prefix k :: rest) k p x.
Proof.
  destruct (cache_url k rest) as (Hpub & Hadm & [Hyoc|(p & x & Hyoc)]); [by left|right].
  exists p, x. intros r. by apply routed_leads.
Qed.

(** ** Theorems *)

(** No path matches two routes, so the order in which the routers are merged and
    the precedence rules of the router library do not matter. *)
Theorem routes_are_unambiguous `{!Extract} i j p q segs c d :
  all_patterns !! i = Some p → all_patterns !! j = Some q →
  match_path p segs = Some c → match_path q segs = Some d → i = j.
Proof. apply no_overlap_spec. by vm_compute. Qed.

(** A path that nobody has is answered 401, not 404, unless the request brings an admin
    token: the last router that is merged guards the fallback too. *)
Theorem unknown_path_asks_for_a_token `{!Env, !FsEnv, !Sha256, !Argon2, !AuthEnv, !Moka, !Base64, !ListLibs, !JsonText,
    !Extract} config r s n :
  unrouted (segments r) → parse_bearer (authorization r) = None →
  serve_http config r s n = (Ok unauthorized_bearer, s, n).
Proof.
  intros (Hpub & Hyoc & Hadm) Hb. unfold serve_http, auth_admin_middleware. by rewrite Hpub, Hyoc, Hadm, Hb.
Qed.

(** HTTP adds routing to the handlers and nothing else: a request that path, method
    and extractors turn into a [Request] is answered exactly as [handle] answers that
    one, up to the body when HEAD falls back to GET; any other request is answered too,
    and changes nothing but the verification caches. *)
Theorem serve_http_is_handle `{!Env, !FsEnv, !Sha256, !Argon2, !AuthEnv, !Moka, !Base64, !ListLibs, !JsonText, !Extract}
    config r s n :
  match dispatch r with
  | Some (true, req) => strip_body true (serve_http config r) s n = strip_body true (handle config req) s n
  | Some (false, req) => serve_http config r s n = handle config req s n
  | None => let '(res, s', _) := serve_http config r s n in is_ok res = true ∧ same_but_auth s s'
  end.
Proof.
  destruct (dispatch r) as [[[] req]|] eqn:Hd.
  - by apply serve_http_dispatch.
  - rewrite <-(strip_body_false (serve_http config r)), <-(strip_body_false (handle config req)).
    by apply serve_http_dispatch.
  - pose proof (serve_http_refused config r s Hd n) as Hr.
    destruct (serve_http config r s n) as [[res s'] n']. by destruct Hr.
Qed.
#[local] Arguments find_route : simpl nomatch.
#[local] Arguments parse_i64 : simpl never.
#[local] Arguments String.concat : simpl never.

(** A decimal id becomes a segment that is not empty and that parses as the id. *)
Ltac id_segment :=
  match goal with
  | Hi : in_i64 ?i |- context [pretty ?i] =>
      let Hp := fresh "Hp" in let Hn := fresh "Hn" in
      destruct (parse_i64_pretty i Hi) as [Hp Hn]; revert Hp Hn;
      generalize (pretty i); intros [|? ?] Hp Hn; [done|]
  end.

(** Spelled out, a request comes out of path matching, method and extractors as itself. *)
Lemma spell_dispatch `{!Extract, !Render} req : spellable req → dispatch (spell req) = Some (false, req).
Proof.
  destruct req as [| | |h req|h req]; [done|done|done|..]; simpl.
  - destruct req as [k p x|k p x|k p x b]; intros [[Hp _] [Hx _]]; by destruct p, x, k.
  - intros Hok. unfold dispatch, target_of, spell_admin.
    destruct req; try match type of Hok with _ ∧ _ => destruct Hok end; repeat id_segment; simpl;
      rewrite ?ex_list_query_render, ?ex_dry_run_render, ?ex_audit_query_render, ?ex_create_project_render,
        ?ex_update_project_render, ?ex_create_key_render, ?ex_create_token_render by tauto; simpl;
      repeat match goal with Hp : parse_i64 _ = Some _ |- _ => rewrite Hp; clear Hp end; simpl;
      rewrite ?ex_list_query_render, ?ex_update_project_render, ?ex_create_key_render by tauto; done.
Qed.

