(* ===== verification/Layers.v ===== *)
(** * The layers around the router

    [build_app] of [crates/marmotte-server/src/lib.rs]: the body limit that every
    request passes before routing and authentication.  What tower-http's
    [RequestBodyLimitLayer] does with a request is a parameter with its documented
    behaviour; how the limit is configured, and what becomes of a body that is cut
    off on its way into the store, is the code's. *)
From stdpp Require Import base numbers list strings gmap pretty.
From Stdlib Require Import ZArith Lia Init.Byte.
From S2P Require Import Prelude Models Db Blobs Entries Projects Storage Config Gc GcRun Auth Http Metrics App Yocto Listing Admin Server Spec Routes.

(** A request as it arrives: with the length that its header announces, if any. *)
Record Incoming := mkIncoming {
  in_request : HttpRequest;
  in_content_length : option Z
}.

(** The bytes of a body, up to its end or beyond a failing chunk. *)
Definition chunk_size (c : IoError + bytes) : Z :=
  match c with inl _ => 0 | inr b => Z.of_nat (length b) end.
Definition body_size (b : list (IoError + bytes)) : Z := zsum (chunk_size <$> b).

Definition with_body (b : list (IoError + bytes)) (r : HttpRequest) : HttpRequest :=
  mkHttpRequest (method r) (segments r) (query r) (authorization r) b.

(** The length that counts: the announced one, if it is not exceeded. *)
Definition announced_beyond (limit : Z) (i : Incoming) : Prop :=
  ∃ len, in_content_length i = Some len ∧ limit < len.
#[export] Instance announced_beyond_dec limit i : Decision (announced_beyond limit i).
Proof.
  refine (match in_content_length i as o return in_content_length i = o → _ with
          | Some len => λ Heq, cast_if (decide (limit < len))
          | None => λ Heq, right _
          end eq_refl); unfold announced_beyond; abstract (rewrite Heq; naive_solver).
Defined.
Definition well_announced (i : Incoming) : Prop :=
  ∀ len, in_content_length i = Some len → body_size (body (in_request i)) <= len.

Definition PAYLOAD_TOO_LARGE : Z := 413.

(** [RequestBodyLimitLayer::new(limit)]: answers 413 by itself if the announced length
    is too big; otherwise hands the request on, unchanged if its body fits, with a
    body that fails instead of yielding more than [limit] bytes if not. *)
Class BodyLimit := mkBodyLimit {
  limit_body : Z → Incoming → Response + list (IoError + bytes);
  limit_announced limit i : announced_beyond limit i →
    ∃ resp, limit_body limit i = inl resp ∧ resp_status resp = PAYLOAD_TOO_LARGE;
  limit_within limit i : ¬ announced_beyond limit i → well_announced i →
    body_size (body (in_request i)) <= limit → limit_body limit i = inr (body (in_request i));
  limit_beyond limit i : ¬ announced_beyond limit i → limit < body_size (body (in_request i)) →
    ∃ b e, limit_body limit i = inr b ∧ inl e ∈ b
}.

Section layers.
Context {env : Env} {fsenv : FsEnv} {sha : Sha256} {ar : Argon2} {aenv : AuthEnv} {mk : Moka}
  {b64 : Base64} {libs : ListLibs} {jt : JsonText} {ex : Extract} {bl : BodyLimit}.
Variable config : Config.

(** [upload_max_bytes as usize], on a 64-bit target. *)
Definition upload_limit : Z := wrap_u64 (upload_max_bytes (server config)).

Definition build_app (i : Incoming) : M CoreError App Response :=
  match limit_body upload_limit i with
  | inl resp => ret resp
  | inr b => serve_http config (with_body b (in_request i))
  end.

(** ** The body goes to the store, and nowhere else *)

Lemma yocto_table segs c methods :
  find_route yocto_routes segs = Some (c, methods) → ∃ kind, methods = yocto_methods kind.
Proof.
  unfold find_route, yocto_routes.
  destruct (match_path _ segs); [intros [= _ <-]; by eexists|].
  destruct (match_path _ segs); [intros [= _ <-]; by eexists|done].
Qed.

Lemma public_target r strip req :
  target_of r public_routes = Some (strip, req) → req = Healthz ∨ req = Readyz ∨ req = MetricsPage.
Proof.
  unfold target_of, find_route, public_routes.
  destruct (match_path _ (segments r)); [|destruct (match_path _ (segments r));
    [|destruct (match_path _ (segments r)); [|done]]]; simpl; unfold pick, method_handler;
    repeat case_match; simpl; intros ?; simplify_eq; auto.
Qed.

(** Only a PUT reads the body of a request to a cache route, and all of it. *)
Lemma put_target r kind c strip url path k b b' :
  ('(strip, extract) ← pick (method r) (yocto_methods kind);
   match extract c r with inl _ => None | inr a => Some (strip, a) end) =
    Some (strip, PutEntry k url path b) →
  strip = false ∧ b = body r ∧
  ('(strip, extract) ← pick (method (with_body b' r)) (yocto_methods kind);
   match extract c (with_body b' r) with inl _ => None | inr a => Some (strip, a) end) =
    Some (false, PutEntry k url path b').
Proof.
  unfold pick, method_handler, yocto_methods, with_entry. cbn [method with_body].
  destruct c as [|project [|path' [|? ?]]]; repeat case_match; simpl; intros ?; by simplify_eq.
Qed.

Lemma dispatch_with_body r strip headers kind url path b b' :
  dispatch r = Some (strip, Yocto headers (PutEntry kind url path b)) →
  strip = false ∧ b = body r ∧
  dispatch (with_body b' r) = Some (false, Yocto headers (PutEntry kind url path b')).
Proof.
  unfold dispatch. cbn [segments authorization with_body].
  destruct (find_route public_routes (segments r)) as [[c methods]|].
  { intros [?|[?|?]]%public_target; done. }
  destruct (find_route yocto_routes (segments r)) as [[c methods]|] eqn:Hyoc.
  2: { by intros ([? ?] & _ & ?)%fmap_Some. }
  destruct (yocto_table _ _ _ Hyoc) as [k ->].
  intros ([strip' req] & Ht & Heq)%fmap_Some. injection Heq as <- <- <-.
  unfold target_of in *. cbn [segments with_body]. rewrite Hyoc in *. simpl in Ht.
  apply (put_target _ _ _ _ _ _ _ _ b') in Ht as (-> & -> & Ht). split_and!; [done..|].
  apply fmap_Some. eexists (_, _). split; [exact Ht|done].
Qed.

(** ** A body that breaks off *)

Lemma broken_put auth kind url path b e s :
  app_ok s → inl e ∈ b →
  wp (put_handler config auth kind url path b) (λ r s', ∃ resp, r = Ok resp ∧
    400 <= resp_status resp ∧ app_db s' = app_db s ∧ same_blobs (app_store s) (app_store s')) s.
Proof.
  intros Hs He. unfold put_handler, do_put, ensure_project. wp_go.
  assert (∀ x, ∃ resp, (Ok (ApiError_into_response x) : res CoreError Response) = Ok resp ∧
    400 <= resp_status resp) as Herr by (intros x; eexists; split; [done|apply error_status]).
  destruct (String.eqb _ _); wp_go; [|destruct (Herr (Forbidden "url project does not match credential")) as (resp & ? & ?); by exists resp].
  destruct (negb _); wp_go; [destruct (Herr (Forbidden "write")) as (resp & ? & ?); by exists resp|].
  wp_use write_streamed_outcome; [apply Hs|]. intros [w|x|st] fs' Hw; simpl; [| |done].
  - destruct Hw as (chunks & -> & _). by apply list_elem_of_fmap in He as (? & ? & _).
  - destruct Hw as (_ & _ & Hsame). wp_go. destruct (Herr x) as (resp & ? & ?). by exists resp.
Qed.

(** A PUT through the router, up to the answer of its handler. *)
Lemma put_through_router r headers kind url path b s (Q : res CoreError Response → App → Prop) :
  dispatch r = Some (false, Yocto headers (PutEntry kind url path b)) →
  (∀ resp, 400 <= resp_status resp → Q (Ok resp) s) →
  (∀ c auth svc, parse_basic headers = Some c → admitted s c auth →
     wp (put_handler config auth kind url path b) Q
       (mkApp (app_db s) (app_store s) svc (app_metrics s) (app_tasks s))) →
  wp (serve_http config r) Q s.
Proof.
  intros Hd Hrefuse Hnext n. pose proof (serve_http_dispatch config r false _ s n Hd) as Heq.
  rewrite !strip_body_false in Heq. rewrite Heq. clear Heq. revert n. simpl. unfold yocto_route.
  apply auth_project_wp; [done|]. intros c auth svc Hc Ha. by destruct kind; simpl; apply (Hnext c).
Qed.

(** What a PUT that was stored has left behind. *)
Definition put_took_place (s : App) (headers : Headers) (kind : Kind) (url path : string)
    (b : list (IoError + bytes)) (s' : App) : Prop :=
  ∃ c auth chunks row, parse_basic headers = Some c ∧ admitted s c auth ∧
    pa_project_name auth = url ∧ pa_role auth = Write ∧ b = inr <$> chunks ∧
    entry_at (app_db s') (pa_project_id auth) kind path = Some row ∧
    e_blob_hash row = sha256_hex (concat chunks).

Lemma put_within r headers kind url path b s :
  app_ok s → dispatch r = Some (false, Yocto headers (PutEntry kind url path b)) →
  wp (serve_http config r) (λ res s', ∀ resp, res = Ok resp → resp_status resp = CREATED →
    put_took_place s headers kind url path b s') s.
Proof.
  intros Hs Hd. eapply put_through_router; [done| |].
  - intros resp Hge resp' [= <-] H201. rewrite H201 in Hge. done.
  - intros c auth svc Hc Ha. set (s0 := mkApp _ _ _ _ _).
    assert (app_ok s0) as Hs0 by (by destruct Hs). unfold put_handler. wp_go.
    wp_use do_put_spec; [done|]. intros [resp|x|w] s1 Hr; simpl in *; [| |done].
    + destruct Hr as (w & (Hs1 & Hurl & Hrole & chunks & -> & Hst) & ->). wp_go. intros resp' _ _.
      destruct (stored_entry_at _ _ _ _ _ _ _ Hs0 Hs1 Hst) as [(row & Hrow & Hh) _].
      by exists c, auth, chunks, row.
    + wp_go. intros resp' [= <-] H201. by destruct x.
Qed.

Lemma put_beyond r headers kind url path b e s :
  app_ok s → dispatch r = Some (false, Yocto headers (PutEntry kind url path b)) → inl e ∈ b →
  wp (serve_http config r) (λ res s', ∃ resp, res = Ok resp ∧ 400 <= resp_status resp ∧
    app_db s' = app_db s ∧ same_blobs (app_store s) (app_store s')) s.
Proof.
  intros Hs Hd He. eapply put_through_router; [done|by eauto 8 using same_blobs_refl|].
  intros c auth svc _ _. set (s0 := mkApp _ _ _ _ _). assert (app_ok s0) as Hs0 by (by destruct Hs).
  exact (broken_put auth kind url path b e s0 Hs0 He).
Qed.
End layers.

(** ** Theorems *)

(** C14: the upload limit holds, and is all that the layer adds.  A request whose announced
    length exceeds it is answered 413 and changes nothing, whoever sends it; a PUT that
    sends more bytes than that without announcing them is answered with an error and
    leaves the database and every blob as they were; so a PUT answered with 201 has sent
    at most [upload_max_bytes], and its entry is stored under the digest of what it
    sent.  A request within the limit, of any kind, is served as if there were no limit. *)
Theorem upload_limit_enforced `{!Env, !FsEnv, !Sha256, !Argon2, !AuthEnv, !Moka, !Base64, !ListLibs, !JsonText,
    !Extract, !BodyLimit} config i s n r s' n' :
  app_ok s → well_announced i → build_app config i s n = (r, s', n') →
  let limit := upload_limit config in
  (announced_beyond limit i → s' = s ∧ ∃ resp, r = Ok resp ∧ resp_status resp = PAYLOAD_TOO_LARGE) ∧
  (¬ announced_beyond limit i → body_size (body (in_request i)) <= limit →
     serve_http config (in_request i) s n = (r, s', n')) ∧
  (∀ strip headers kind url path b,
     dispatch (in_request i) = Some (strip, Yocto headers (PutEntry kind url path b)) →
     (limit < body_size b → app_db s' = app_db s ∧ (∀ h, blob_at (app_store s') h = blob_at (app_store s) h) ∧
        ∃ resp, r = Ok resp ∧ 400 <= resp_status resp) ∧
     (∀ resp, r = Ok resp → resp_status resp = CREATED →
        body_size b <= limit ∧ put_took_place s headers kind url path b s')).
Proof.
  intros Hs Hwell Hrun limit. unfold build_app in Hrun. fold limit in Hrun.
  assert (announced_beyond limit i → s' = s ∧ ∃ resp, r = Ok resp ∧ resp_status resp = PAYLOAD_TOO_LARGE) as Hann.
  { intros Ha. destruct (limit_announced limit i Ha) as (resp & Heq & Hst). rewrite Heq in Hrun.
    injection Hrun as <- <- _. by eauto. }
  assert (¬ announced_beyond limit i → body_size (body (in_request i)) <= limit →
    serve_http config (in_request i) s n = (r, s', n')) as Hin.
  { intros Ha Hle. rewrite (limit_within limit i Ha Hwell Hle) in Hrun.
    by destruct i as [[m segs q au b] len]. }
  split; [exact Hann|]. split; [exact Hin|]. intros strip headers kind url path b Hd.
  assert (limit < body_size b → app_db s' = app_db s ∧ (∀ h, blob_at (app_store s') h = blob_at (app_store s) h) ∧
    ∃ resp, r = Ok resp ∧ 400 <= resp_status resp) as Hbig.
  { intros Hlt. destruct (decide (announced_beyond limit i)) as [Ha|Ha].
    - destruct (Hann Ha) as [-> (resp & -> & Hst)]. split_and!; [done..|]. exists resp. by rewrite Hst.
    - destruct (dispatch_with_body _ _ _ _ _ _ _ [] Hd) as (_ & -> & _).
      destruct (limit_beyond limit i Ha Hlt) as (b' & e & Heq & He). rewrite Heq in Hrun.
      destruct (dispatch_with_body _ _ _ _ _ _ _ b' Hd) as (_ & _ & Hd').
      destruct (wp_run _ _ _ _ _ _ _ (put_beyond config _ _ _ _ _ _ _ s Hs Hd' He) Hrun) as (resp & -> & Hge & Hdb & Hsame).
      split_and!; [done|intros h; by apply same_blobs_at|by exists resp]. }
  split; [exact Hbig|]. intros resp -> H201.
  destruct (Z.le_gt_cases (body_size b) limit) as [Hle|Hgt].
  2: { destruct (Hbig Hgt) as (_ & _ & resp' & [= <-] & Hge). rewrite H201 in Hge. done. }
  split; [done|]. destruct (dispatch_with_body _ _ _ _ _ _ _ b Hd) as (-> & Hb & _). rewrite Hb in Hle.
  destruct (decide (announced_beyond limit i)) as [Ha|Ha].
  { destruct (Hann Ha) as [_ (resp' & [= <-] & Hst)]. by rewrite Hst in H201. }
  exact (wp_run _ _ _ _ _ _ _ (put_within config _ _ _ _ _ _ s Hs Hd) (Hin Ha Hle) resp eq_refl H201).
Qed.
