(* ===== verification/Deadline.v ===== *)
(** * Requests that are dropped

    The outer layers of [build_app] in [crates/marmotte-server/src/lib.rs].  Layers wrap
    what comes before them, so a request passes [TraceLayer], then [TimeoutLayer], then
    the body limit, then the router.  [TimeoutLayer] answers 408 and drops the handler
    once [request_timeout_secs] have passed; hyper drops it when the client is gone.  A
    handler that is dropped stops at one of its awaits: an open transaction is rolled
    back, what was committed or written stays, what it has spawned goes on.

    A handler is dropped at position [k]: what the environment is asked from there on
    does not happen.  That is an environment in which everything from [k] on fails, the
    [k]-th interaction possibly half done, and nobody sees the error: the answer of the
    handler is not sent. *)
From stdpp Require Import base numbers list strings gmap relations pretty.
From Stdlib Require Import ZArith Lia.
From S2P Require Import Prelude Models Db Blobs Entries Projects Storage Config Gc GcRun Auth Http Metrics App Yocto Listing Admin Server Spec Routes Layers.

(** ** Handlers that go no further than an interaction *)

Definition gone : string := "dropped".

Definition cut_env `{!Env} (k : nat) : Env :=
  mkEnv env_clock (λ n, if (k <=? n)%nat then Some (SqlxOther gone) else env_fault n)
    env_scan env_scan_perm env_gap.
Definition cut_fsenv `{!FsEnv} (k part : nat) : FsEnv :=
  mkFsEnv (λ n, if (k <=? n)%nat then Some (mkIoError IoOtherKind gone, if (n =? k)%nat then part else 0%nat)
                else fs_fault n) fs_uuid.
Definition cut_authenv `{!AuthEnv} (k : nat) : AuthEnv :=
  mkAuthEnv auth_rand auth_mono auth_mono_le (λ n, if (k <=? n)%nat then Some gone else auth_join_error n)
    b64_url_no_pad.
(** The cache is the same, and so is the clock it goes by. *)
Definition cut_moka {aenv : AuthEnv} {mk : Moka} (k : nat) : @Moka (cut_authenv k) :=
  @mkMoka (cut_authenv k) (@moka_get aenv mk) (@moka_get_live aenv mk).

Section deadline.
Context {env : Env} {fsenv : FsEnv} {sha : Sha256} {ar : Argon2} {aenv : AuthEnv} {mk : Moka}
  {b64 : Base64} {libs : ListLibs} {jt : JsonText} {ex : Extract} {bl : BodyLimit}.
Variable config : Config.

(** The handler of a request that started at [n], dropped at [k]. *)
Definition dropped_at (k part : nat) (i : Incoming) : M CoreError App Response :=
  @build_app (cut_env k) (cut_fsenv k part) sha ar (cut_authenv k) (cut_moka k) b64 libs jt ex bl config i.

Definition REQUEST_TIMEOUT : Z := 408.
(** [TimeoutLayer::with_status_code(StatusCode::REQUEST_TIMEOUT, timeout)]: at [k] the
    time is over for a request that came at [n]. *)
Definition timeout : Z := request_timeout_secs (server config).
Definition overdue (n k : nat) : Prop := auth_mono n + timeout <= auth_mono k.
Definition timed_out : Response := mkResponse REQUEST_TIMEOUT [] BodyEmpty.

(** What may become of a request that comes at [n]: it is answered by the router, or
    dropped in one of its awaits with 408, or dropped without an answer. *)
Inductive request_ends (i : Incoming) (n : nat) (s : App) : option Response → App → Prop :=
| ends_in_time resp s' n' :
    build_app config i s n = (Ok resp, s', n') → request_ends i n s (Some resp) s'
| ends_too_late k part r s' n' :
    dropped_at k part i s n = (r, s', n') → (n ≤ k ≤ n')%nat → (n < n')%nat → overdue n k →
    request_ends i n s (Some timed_out) s'
| ends_hung_up k part r s' n' :
    dropped_at k part i s n = (r, s', n') → (n ≤ k ≤ n')%nat → (n < n')%nat → request_ends i n s None s'.
End deadline.

(** ** One run of the layers *)

Section one_run.
Context {env : Env} {fsenv : FsEnv} {sha : Sha256} {ar : Argon2} {aenv : AuthEnv} {mk : Moka}
  {b64 : Base64} {libs : ListLibs} {jt : JsonText} {ex : Extract} {bl : BodyLimit}.
Variable config : Config.

(** A request that is routed does what [handle] does with it; any other, nothing. *)
Lemma serve_http_does r s n res s' n' :
  serve_http config r s n = (res, s', n') →
  (same_but_auth s s' ∧ dispatch r = None) ∨
  ∃ strip req, dispatch r = Some (strip, req) ∧ ends (handle config req) n s s'.
Proof.
  intros Hrun. destruct (dispatch r) as [[strip req]|] eqn:Hd.
  - right. exists strip, req. split; [done|]. unfold ends.
    pose proof (serve_http_dispatch config r strip req s n Hd) as Heq. unfold strip_body, bind, ret in Heq.
    rewrite Hrun in Heq. destruct (handle config req s n) as [[r2 s2] n2].
    destruct res, r2; simplify_eq/=; congruence.
  - left. split; [|done]. destruct (serve_http_refused config r s Hd n) as [Hsame _]. by rewrite Hrun in Hsame.
Qed.

(** What is left of the request behind the limit. *)
Definition admitted_request (i : Incoming) : option HttpRequest :=
  match limit_body (upload_limit config) i with
  | inl _ => None
  | inr b => Some (with_body b (in_request i))
  end.

Definition took_place (i : Incoming) (s s' : App) : Prop :=
  same_but_auth s s' ∨
  ∃ r strip req, admitted_request i = Some r ∧ dispatch r = Some (strip, req) ∧
    server_does config (EvRequest req) s s'.

Lemma build_app_takes_place i s n res s' n' :
  build_app config i s n = (res, s', n') → took_place i s s'.
Proof.
  unfold build_app, took_place, admitted_request. destruct (limit_body _ i) as [resp|b].
  - intros [= _ <- _]. left. apply same_but_auth_refl.
  - intros [[Hsame _]|(strip & req & Hd & He)]%serve_http_does; [by left|]. right.
    exists (with_body b (in_request i)), strip, req. split_and!; [done..|]. by eapply does_request.
Qed.
End one_run.

(** ** Every request has an answer *)

Section answers.
Context {env : Env} {fsenv : FsEnv} {sha : Sha256} {ar : Argon2} {aenv : AuthEnv} {mk : Moka}
  {b64 : Base64} {libs : ListLibs} {jt : JsonText} {ex : Extract} {bl : BodyLimit}.
Variable config : Config.

Definition answers {A} (m : M CoreError App A) : Prop := ∀ s, app_ok s → wp m (λ r _, is_ok r = true) s.

Lemma ret_answers {A} (a : A) : answers (ret a).
Proof. intros s _. by apply wp_ret. Qed.
Lemma gets_answers {A} (f : App → A) : answers (gets f).
Proof. intros s _. by apply wp_gets. Qed.
Lemma modify_answers (f : App → App) : answers (modify f).
Proof. intros s _. by apply wp_modify. Qed.
Lemma attempt_answers {A} (m : M CoreError App A) : Keeps m → answers (attempt (F := CoreError) m).
Proof.
  intros Hm s Hs. apply wp_attempt. eapply wp_mono; [by apply Hm|]. by intros [a|e|w] s' (_ & _ & Hr).
Qed.
Lemma bind_answers {A B} (m : M CoreError App A) (k : A → M CoreError App B) :
  Keeps m → answers m → (∀ a, answers (k a)) → answers (bind m k).
Proof.
  intros Hkeep Hm Hk s Hs. apply wp_bind. eapply wp_mono; [apply wp_and; [by apply Hkeep|by apply Hm]|].
  intros [a|e|w] s' [(Hs' & _ & _) Hr]; [by apply Hk|done..].
Qed.

Ltac answers_go :=
  repeat first [apply ret_answers | apply gets_answers | apply modify_answers
    | apply attempt_answers; solve [does_go] | apply bind_answers; [solve [does_go]| |intros ?] | case_match].

Lemma handle_answers req : answers (handle config req).
Proof.
  destruct req as [| | |headers req|headers req]; simpl.
  - answers_go.
  - unfold readyz. answers_go.
  - unfold metrics_page. answers_go.
  - unfold yocto_route, auth_project_middleware.
    destruct (parse_basic headers); [|answers_go]. apply bind_answers; [does_go|answers_go|].
    intros [e|auth]; [answers_go|].
    destruct req as [[]|[]|[]]; simpl; unfold get_sstate, get_downloads, head_sstate, head_downloads,
      put_sstate, put_downloads, put_handler, get_handler, miss_response, inc_misses; answers_go.
  - unfold admin_route, auth_admin_middleware, respond.
    destruct (parse_bearer headers); [|answers_go]. apply bind_answers; [does_go|answers_go|].
    intros [e|auth]; [answers_go|].
    pose proof (admin_handler_does config (R := anyhow) auth req (λ _, anyhow_lossy) (λ _, anyhow_sweeps)).
    answers_go.
Qed.

Lemma serve_http_answers r : answers (serve_http config r).
Proof.
  intros s Hs n. destruct (dispatch r) as [[strip req]|] eqn:Hd.
  - pose proof (handle_answers req s Hs n) as Hok.
    pose proof (serve_http_dispatch config r strip req s n Hd) as Heq. unfold strip_body, bind, ret in Heq.
    destruct (serve_http config r s n) as [[r1 s1] n1], (handle config req s n) as [[r2 s2] n2].
    by destruct r1, r2.
  - by destruct (serve_http_refused config r s Hd n).
Qed.
Lemma build_app_answers i : answers (build_app config i).
Proof. unfold build_app. destruct (limit_body _ i); [apply ret_answers|apply serve_http_answers]. Qed.

(** ** A PUT that is dropped *)

(** Nothing is registered, and at most a file more is there. *)
Definition not_stored (s s' : App) : Prop :=
  entries (app_db s') = entries (app_db s) ∧ blobs (app_db s') = blobs (app_db s) ∧ keeps_files s s'.

Lemma same_but_auth_not_stored s s' : same_but_auth s s' → not_stored s s'.
Proof. intros (Hdb & Hst & _). unfold not_stored, keeps_files. by rewrite Hdb, Hst. Qed.

Lemma put_whole_or_not r headers kind url path b s :
  app_ok s → dispatch r = Some (false, Yocto headers (PutEntry kind url path b)) →
  wp (serve_http config r) (λ _ s', not_stored s s' ∨ put_took_place s headers kind url path b s') s.
Proof.
  intros Hs Hd. eapply put_through_router; [done|by intros; left; apply same_but_auth_not_stored|].
  intros c auth svc Hc Ha. set (s0 := mkApp _ _ _ _ _).
  assert (app_ok s0) as Hs0 by (by destruct Hs). unfold put_handler. wp_go.
  assert (∀ w s1, put_done s0 auth kind url path b w s1 → put_took_place s headers kind url path b s1) as Hdone.
  { intros w s1 (Hs1 & Hurl & Hrole & chunks & -> & Hst).
    destruct (stored_entry_at _ _ _ _ _ _ _ Hs0 Hs1 Hst) as [(row & Hrow & Hh) _].
    by exists c, auth, chunks, row. }
  wp_use do_put_spec; [done|]. intros [resp|x|w] s1 Hr; simpl in *; [| |done]; wp_go.
  - destruct Hr as (w & Hw & _). right. by eapply Hdone.
  - destruct Hr as [[_ ->]|[(_ & Hk & He & Hb)|(w & Hw)]]; [left; by apply same_but_auth_not_stored|by left|right; by eapply Hdone].
Qed.

(** What one run of the layers does, under any environment. *)
Definition one_run (i : Incoming) (s s' : App) : Prop :=
  app_ok s' ∧ took_place config i s s' ∧
  (∀ r headers kind url path b, admitted_request config i = Some r →
     dispatch r = Some (false, Yocto headers (PutEntry kind url path b)) →
     not_stored s s' ∨ put_took_place s headers kind url path b s').

Lemma one_run_post i s n res s' n' :
  app_ok s → build_app config i s n = (res, s', n') → one_run i s s'.
Proof.
  intros Hs Hrun. pose proof (build_app_takes_place config i s n res s' n' Hrun) as Htook. split_and!; [|done|].
  - destruct Htook as [(Hdb & Hst & _)|(r & strip & req & _ & _ & Hd)].
    + destruct Hs as [Hsys Ho]. split; unfold app_sys; by rewrite ?Hdb, ?Hst.
    + eapply server_step_ok; [by eexists|done].
  - unfold build_app, admitted_request in *. intros r headers kind url path b Hr Hd.
    destruct (limit_body _ i) as [resp|b']; [done|]. injection Hr as <-.
    exact (wp_run _ _ _ _ _ _ _ (put_whole_or_not _ _ _ _ _ _ s Hs Hd) Hrun).
Qed.
End answers.

Lemma request_one_run `{!Env, !FsEnv, !Sha256, !Argon2, !AuthEnv, !Moka, !Base64, !ListLibs, !JsonText,
    !Extract, !BodyLimit} config i n s out s' :
  app_ok s → request_ends config i n s out s' → one_run config i s s'.
Proof.
  intros Hs Hends.
  destruct Hends as [resp s' n' Hrun|k part r s' n' Hrun _ _ _|k part r s' n' Hrun _ _];
    [exact (one_run_post config i s n _ s' n' Hs Hrun)|exact (one_run_post config i s n _ s' n' Hs Hrun)..].
Qed.

(** ** Theorems *)

(** C12: dropping a handler tears nothing.  Whenever a request is dropped, for its deadline
    or because its client is gone, the state stays in order and has changed as by one
    request, or, if the request is not routed, only in its verification caches; a PUT is
    stored whole, under the digest of what was sent, or nothing is registered and no
    file is lost.  And the router has an answer to every request that is not dropped. *)
Theorem dropping_tears_nothing `{!Env, !FsEnv, !Sha256, !Argon2, !AuthEnv, !Moka, !Base64, !ListLibs, !JsonText,
    !Extract, !BodyLimit} config i n s out s' :
  app_ok s → request_ends config i n s out s' →
  app_ok s' ∧ took_place config i s s' ∧
  (∀ r headers kind url path b, admitted_request config i = Some r →
     dispatch r = Some (false, Yocto headers (PutEntry kind url path b)) →
     not_stored s s' ∨ put_took_place s headers kind url path b s') ∧
  ∃ resp s1, request_ends config i n s (Some resp) s1.
Proof.
  intros Hs Hends.
  assert (∃ resp s1, request_ends config i n s (Some resp) s1) as Hanswer.
  { pose proof (build_app_answers config i s Hs n) as Hok.
    destruct (build_app config i s n) as [[[resp|e|w] s1] n1] eqn:Hrun; [|done..].
    exists resp, s1. by eapply ends_in_time. }
  by destruct (request_one_run config i n s out s' Hs Hends) as (? & ? & ?).
Qed.
