(* ===== verification/Push.v ===== *)
(** * The push client

    [push_one] of [crates/marmotte-cli/src/commands/push.rs]: skip what the server
    already has, otherwise upload with retries.  The network and the local file
    are the environment; the state records what the client did. *)
From stdpp Require Import base numbers list strings pretty.
From Stdlib Require Import ZArith Lia Init.Byte.
From S2P Require Import Prelude Models Storage Http.

(** [CliError] of [crates/marmotte-cli/src/error.rs]; errors of libraries are kept as
    their messages. *)
Inductive CliError :=
| CliCore (e : CoreError)
| CliIo (e : IoError)
| CliHttp (msg : string)
| CliUrlParse (msg : string)
| CliStripPrefix
| CliJoin (msg : string)
| CliOther (msg : string).

Inductive Outcome := Pushed | Skipped.

(** What the client has done so far, and the world behind the network. *)
Record PushLog (W : Type) := mkPushLog {
  heads_sent : nat;
  puts_sent : list bytes;
  slept_ms : list Z;
  world : W
}.
Arguments mkPushLog {W} _ _ _ _.
Arguments heads_sent {W} _.
Arguments puts_sent {W} _.
Arguments slept_ms {W} _.
Arguments world {W} _.

(** The network: a request (its URL, its Authorization header, and the If-None-Match
    header or the body) changes the world and brings an answer, a transport error or
    a status with the ETag header.  The local file system answers by the moment, so a
    file may change between two reads. *)
Class Net (W : Type) := mkNet {
  net_head : string → string → string → W → nat → (string + (Z * option string)) * W;
  net_put : string → string → bytes → W → nat → (string + Z) * W;
  file_chunks : path → nat → IoError + list (IoError + bytes);
  file_read : path → nat → IoError + bytes;
  status_text : Z → string
}.

Definition BAD_GATEWAY : Z := 502.
Definition GATEWAY_TIMEOUT : Z := 504.
Definition NOT_MODIFIED : Z := 304.
Definition RETRYABLE_STATUSES : list Z :=
  [INTERNAL_SERVER_ERROR; BAD_GATEWAY; SERVICE_UNAVAILABLE; GATEWAY_TIMEOUT].
Definition MAX_RETRIES : Z := 5.
Definition INITIAL_BACKOFF_MS : Z := 200.

Definition is_success (status : Z) : bool := (200 <=? status) && (status <? 300).

Section push.
Context {sha : Sha256} {W : Type} {net : Net W}.

Definition ask {E S A} (f : nat → A) : M E S A := λ s n, (Ok (f n), s, Datatypes.S n).

Definition lift_io {S A} (r : IoError + A) : M CliError S A :=
  match r with inl e => throw (CliIo e) | inr a => ret a end.
Definition lift_http {S A} (r : string + A) : M CliError S A :=
  match r with inl e => throw (CliHttp e) | inr a => ret a end.

(** The read loop stops at the first empty chunk. *)
Fixpoint hash_chunks {S} (acc : bytes) (l : list (IoError + bytes)) : M CliError S string :=
  match l with
  | [] => ret (sha256_hex acc)
  | inl e :: _ => throw (CliIo e)
  | inr [] :: _ => ret (sha256_hex acc)
  | inr c :: l' => hash_chunks (acc ++ c) l'
  end.
Definition sha256_file {S} (p : path) : M CliError S string :=
  let* r := ask (file_chunks p) in
  let* chunks := lift_io r in
  hash_chunks [] chunks.

Definition send_head (url auth etag : string) : M CliError (PushLog W) (Z * option string) :=
  λ s n, let '(r, w) := net_head url auth etag (world s) n in
    lift_http r (mkPushLog (S (heads_sent s)) (puts_sent s) (slept_ms s) w) (Datatypes.S n).
Definition send_put (url auth : string) (body : bytes) : M CliError (PushLog W) Z :=
  λ s n, let '(r, w) := net_put url auth body (world s) n in
    lift_http r (mkPushLog (heads_sent s) (puts_sent s ++ [body]) (slept_ms s) w) (Datatypes.S n).
Definition sleep (ms : Z) : M CliError (PushLog W) unit :=
  modify (λ s, mkPushLog (heads_sent s) (puts_sent s) (slept_ms s ++ [ms]) (world s)).

(** The upload loop; [attempt] counts the requests made. *)
Fixpoint put_loop (fuel : nat) (url : string) (abs : path) (auth : string) (attempt : Z)
    : M CliError (PushLog W) Outcome :=
  match fuel with
  | O => halt OutOfFuel
  | S fuel =>
      let attempt := attempt + 1 in
      let* r := ask (file_read abs) in
      let* body := lift_io r in
      let* status := send_put url auth body in
      if is_success status then ret Pushed
      else if bool_decide (status ∈ RETRYABLE_STATUSES) && (attempt <? MAX_RETRIES) then
        sleep (INITIAL_BACKOFF_MS * 2 ^ attempt) ;*
        put_loop fuel url abs auth attempt
      else throw (CliOther ("PUT " +:+ url +:+ ": " +:+ status_text status))
  end.

Definition push_one (url : string) (abs : path) (auth : string) (dry_run : bool)
    : M CliError (PushLog W) Outcome :=
  let* sha := sha256_file abs in
  let etag := quoted sha in
  let* resp := send_head url auth etag in
  let '(status, etag_header) := resp in
  let put := if dry_run then ret Pushed else put_loop 5 url abs auth 0 in
  if status =? NOT_MODIFIED then ret Skipped
  else if status =? OK_200 then
    if bool_decide (etag_header ≫= header_to_str = Some etag) then ret Skipped else put
  else if status =? NOT_FOUND then put
  else if is_success status then put
  else throw (CliOther ("HEAD returned " +:+ status_text status)).
End push.

(** ** Specification *)

(** What a reader gets out of a file before the first empty chunk. *)
Fixpoint read_all (l : list (IoError + bytes)) : IoError + bytes :=
  match l with
  | [] | inr [] :: _ => inr []
  | inl e :: _ => inl e
  | inr c :: l' => match read_all l' with inl e => inl e | inr rest => inr (c ++ rest) end
  end.

Section push_spec.
Context {sha : Sha256} {W : Type} {net : Net W}.

(** Anything that no request breaks. *)
Context (I : W → Prop).
Definition net_keeps : Prop :=
  (∀ url auth etag w n, I w → I (net_head url auth etag w n).2) ∧
  (∀ url auth body w n, I w → I (net_put url auth body w n).2).
Context (HI : net_keeps).
Implicit Types (s : PushLog W) (url auth : string) (abs : path).

(** The waiting times before the retries. *)
Definition backoffs (from : Z) (k : nat) : list Z :=
  (λ i, INITIAL_BACKOFF_MS * 2 ^ (from + Z.of_nat i + 1)) <$> seq 0 k.

Lemma wp_ask {E S A} (f : nat → A) (Q : res E A → S → Prop) (s : S) : (∀ n, Q (Ok (f n)) s) → wp (ask f) Q s.
Proof. intros H n. apply H. Qed.

Lemma wp_send_head url auth etag s Q :
  I (world s) →
  (∀ r w n, I w → net_head url auth etag (world s) n = (r, w) →
     Q (match r with inl e => Err (CliHttp e) | inr a => Ok a end)
       (mkPushLog (S (heads_sent s)) (puts_sent s) (slept_ms s) w)) →
  wp (send_head url auth etag) Q s.
Proof.
  intros Hs HQ n. unfold send_head. pose proof (proj1 HI url auth etag (world s) n Hs) as Hw.
  destruct (net_head _ _ _ _ n) as [r w] eqn:Hrun. specialize (HQ r w n Hw Hrun). by destruct r.
Qed.
Lemma wp_send_put url auth body s Q :
  I (world s) →
  (∀ r w n, I w → net_put url auth body (world s) n = (r, w) →
     Q (match r with inl e => Err (CliHttp e) | inr a => Ok a end)
       (mkPushLog (heads_sent s) (puts_sent s ++ [body]) (slept_ms s) w)) →
  wp (send_put url auth body) Q s.
Proof.
  intros Hs HQ n. unfold send_put. pose proof (proj2 HI url auth body (world s) n Hs) as Hw.
  destruct (net_put _ _ _ _ n) as [r w] eqn:Hrun. specialize (HQ r w n Hw Hrun). by destruct r.
Qed.

Lemma backoffs_S from k :
  backoffs from (S k) = INITIAL_BACKOFF_MS * 2 ^ (from + 1) :: backoffs (from + 1) k.
Proof.
  unfold backoffs. simpl. f_equal; [f_equal; f_equal; lia|].
  rewrite <-fmap_S_seq, <-list_fmap_compose. apply list_fmap_ext. intros j i _. simpl.
  do 2 f_equal. lia.
Qed.

(** The server accepted [body], and the world is [w'] now. *)
Definition accepted url abs auth (body : bytes) (w' : W) : Prop :=
  ∃ w m n status, I w ∧ file_read abs m = inr body ∧
    net_put url auth body w n = (inr status, w') ∧ is_success status = true.

(** The server announced the digest of the file. *)
Definition announced url abs auth (w' : W) : Prop :=
  ∃ w m n chunks content status hdr, I w ∧
    file_chunks abs m = inr chunks ∧ read_all chunks = inr content ∧
    net_head url auth (quoted (sha256_hex content)) w n = (inr (status, hdr), w') ∧
    (status = NOT_MODIFIED ∨ status = OK_200 ∧ hdr ≫= header_to_str = Some (quoted (sha256_hex content))).

(** What an upload that started after [attempt] requests did: [k] retries. *)
Definition loop_post url abs auth (attempt : Z) s (r : res CliError Outcome) s' : Prop :=
  I (world s') ∧ heads_sent s' = heads_sent s ∧
  ∃ k bodies, puts_sent s' = puts_sent s ++ bodies ∧ slept_ms s' = slept_ms s ++ backoffs attempt k ∧
    (k ≤ length bodies ≤ S k)%nat ∧ attempt + Z.of_nat (length bodies) <= MAX_RETRIES ∧
    attempt + Z.of_nat k < MAX_RETRIES ∧
    match r with
    | Ok o => o = Pushed ∧ length bodies = S k ∧
        ∃ body, last bodies = Some body ∧ accepted url abs auth body (world s')
    | Err _ => True
    | Stop _ => False
    end.

Lemma put_loop_spec fuel url abs auth attempt s :
  0 <= attempt < MAX_RETRIES → MAX_RETRIES - attempt <= Z.of_nat fuel → I (world s) →
  wp (put_loop fuel url abs auth attempt) (loop_post url abs auth attempt s) s.
Proof.
  unfold MAX_RETRIES. revert attempt s.
  induction fuel as [|fuel IH]; intros attempt s Ha Hf Hs; [lia|]. simpl. wp_go.
  apply wp_ask. intros m. wp_go. unfold lift_io. destruct (file_read abs m) as [e|body] eqn:Hread; wp_go.
  { split_and!; [done..|]. exists 0%nat, []. unfold MAX_RETRIES. simpl. rewrite !app_nil_r. split_and!; auto; lia. }
  apply wp_send_put; [done|]. intros r w n Hw Hnet.
  set (s1 := mkPushLog (heads_sent s) (puts_sent s ++ [body]) (slept_ms s) w).
  assert (∀ e, loop_post url abs auth attempt s (Err e) s1) as Hone.
  { intros e. split_and!; [done..|]. exists 0%nat, [body]. unfold MAX_RETRIES. simpl. rewrite !app_nil_r.
    split_and!; done || lia. }
  destruct r as [e|status]; simpl; [apply Hone|].
  destruct (is_success status) eqn:Hok; wp_go.
  { split_and!; [done..|]. exists 0%nat, [body]. unfold MAX_RETRIES. simpl. rewrite !app_nil_r.
    split_and!; try done; try lia. exists body. split; [done|]. by exists (world s), m, n, status. }
  destruct (bool_decide _ && _) eqn:Hretry; wp_go; [|apply Hone].
  apply andb_prop in Hretry as [_ Hlt%Z.ltb_lt]. unfold MAX_RETRIES in Hlt.
  unfold sleep. wp_go. wp_use IH; [lia|lia|done|].
  intros r s' (Hw' & Hh & k & bodies & Hp & Hsl & Hlen & Hb & Hk & Hr). simpl in *.
  split_and!; [done..|]. exists (S k), (body :: bodies). unfold MAX_RETRIES in *. rewrite backoffs_S. simpl.
  split_and!; try lia.
  - by rewrite Hp, <-app_assoc.
  - by rewrite Hsl, <-app_assoc.
  - destruct r; [|done..]. destruct Hr as (-> & Hr & b & Hlast & Hacc). split_and!; [done|lia|].
    exists b. split; [|done]. by destruct bodies.
Qed.

Lemma hash_chunks_spec {T} acc l (s : T) :
  wp (hash_chunks acc l) (λ r (s' : T), s' = s ∧
    r = match read_all l with inl e => Err (CliIo e) | inr c => Ok (sha256_hex (acc ++ c)) end) s.
Proof.
  revert acc. induction l as [|[e|[|b c]] l IH]; intros acc; simpl;
    try (apply wp_ret || apply wp_throw); try done; try by rewrite app_nil_r.
  eapply wp_mono; [apply IH|]. intros r s1 [-> ->]. split; [done|].
  destruct (read_all l); [done|]. by rewrite <-app_assoc.
Qed.

Definition push_post url abs auth (dry_run : bool) s (r : res CliError Outcome) s' : Prop :=
  I (world s') ∧ (heads_sent s' ≤ S (heads_sent s))%nat ∧
  ∃ k bodies, puts_sent s' = puts_sent s ++ bodies ∧ slept_ms s' = slept_ms s ++ backoffs 0 k ∧
    (k ≤ length bodies ≤ S k)%nat ∧ (length bodies ≤ 5)%nat ∧ (k ≤ 4)%nat ∧
    (dry_run = true → bodies = []) ∧
    match r with
    | Ok Pushed => dry_run = false → length bodies = S k ∧
        ∃ body, last bodies = Some body ∧ accepted url abs auth body (world s')
    | Ok Skipped => bodies = [] ∧ announced url abs auth (world s')
    | Err _ => True
    | Stop _ => False
    end.

(** Nothing was uploaded. *)
Lemma push_post_quiet url abs auth dry_run s r s' :
  I (world s') → (heads_sent s' ≤ S (heads_sent s))%nat →
  puts_sent s' = puts_sent s → slept_ms s' = slept_ms s → no_stop r →
  (r = Ok Pushed → dry_run = true) → (r = Ok Skipped → announced url abs auth (world s')) →
  push_post url abs auth dry_run s r s'.
Proof.
  intros Hw Hh Hp Hsl Hns Hpu Hsk. split_and!; [done..|]. exists 0%nat, []. rewrite Hp, Hsl. simpl.
  rewrite !app_nil_r. split_and!; try done; try lia.
  destruct r as [[]|e|w]; [|by auto|done..]. intros Hd. specialize (Hpu eq_refl). congruence.
Qed.

Lemma push_one_spec url abs auth dry_run s :
  I (world s) → wp (push_one url abs auth dry_run) (push_post url abs auth dry_run s) s.
Proof.
  intros Hs. unfold push_one, sha256_file. wp_go. apply wp_ask. intros m. wp_go.
  unfold lift_io. destruct (file_chunks abs m) as [e|chunks] eqn:Hch; wp_go.
  { apply push_post_quiet; auto; done. }
  wp_use hash_chunks_spec. intros r s' [-> ->].
  destruct (read_all chunks) as [e|content] eqn:Hread; simpl.
  { apply push_post_quiet; auto; done. }
  wp_go. apply wp_send_head; [done|]. intros r w n Hw Hnet.
  destruct r as [e|[status hdr]]; simpl; [by apply push_post_quiet; simpl; auto|].
  set (s1 := mkPushLog (S (heads_sent s)) (puts_sent s) (slept_ms s) w).
  assert (wp (if dry_run then ret Pushed else put_loop 5 url abs auth 0)
    (push_post url abs auth dry_run s) s1) as Hput.
  { destruct dry_run; [apply wp_ret, push_post_quiet; simpl; auto; done|].
    wp_use put_loop_spec; [unfold MAX_RETRIES; lia|unfold MAX_RETRIES; simpl; lia|done|].
    intros r s' (Hw' & Hh & k & bodies & Hp & Hsl & Hlen & Hb & Hk & Hr). simpl in *.
    split_and!; [done|lia|]. exists k, bodies. unfold MAX_RETRIES in *. split_and!; try done; try lia.
    destruct r as [o|e|?]; [|done..]. by destruct Hr as (-> & Hr). }
  assert (status = NOT_MODIFIED ∨ status = OK_200 ∧
    hdr ≫= header_to_str = Some (quoted (sha256_hex content)) →
    wp (ret Skipped) (push_post url abs auth dry_run s) s1) as Hskip.
  { intros Hst. apply wp_ret, push_post_quiet; simpl; auto; [done|]. intros _.
    by exists (world s), m, n, chunks, content, status, hdr. }
  destruct (Z.eqb_spec status NOT_MODIFIED); [by apply Hskip; left|].
  destruct (Z.eqb_spec status OK_200).
  { case_bool_decide; [by apply Hskip; right|exact Hput]. }
  destruct (status =? NOT_FOUND); [exact Hput|]. destruct (is_success status); [exact Hput|].
  apply wp_throw, push_post_quiet; simpl; auto; done.
Qed.
End push_spec.

(** ** Theorems *)

(** C35: pushing a file always ends: it asks the server at most once whether the
    file is there, uploads at most five times, and waits before every retry with a
    time that doubles from 400 ms; a skipped file or a dry run uploads nothing, and
    a pushed one was accepted by the last upload. *)
Theorem push_retries_are_bounded {W} `{!Sha256, !Net W} url abs auth dry_run s n r s' n' :
  push_one url abs auth dry_run s n = (r, s', n') →
  no_stop r ∧ (heads_sent s' ≤ S (heads_sent s))%nat ∧
  ∃ k bodies, puts_sent s' = puts_sent s ++ bodies ∧
    slept_ms s' = slept_ms s ++ ((λ i, 400 * 2 ^ Z.of_nat i) <$> seq 0 k) ∧
    (k ≤ 4)%nat ∧ (length bodies ≤ 5)%nat ∧ (k ≤ length bodies ≤ S k)%nat ∧
    (dry_run = true → bodies = []) ∧ (r = Ok Skipped → bodies = []) ∧
    (r = Ok Pushed → dry_run = false → length bodies = S k ∧
       ∃ body, last bodies = Some body ∧ accepted (λ _, True) url abs auth body (world s')).
Proof.
  intros Hrun.
  destruct (wp_run _ _ _ _ _ _ _ (push_one_spec (λ _, True) (conj (λ _ _ _ _ _ _, Logic.I) (λ _ _ _ _ _ _, Logic.I)) url abs auth dry_run s Logic.I) Hrun)
    as (_ & Hh & k & bodies & Hp & Hs & Hlen & H5 & Hk & Hdry & Hr).
  split; [by destruct r|]. split; [done|]. exists k, bodies.
  split_and!; try done; try lia.
  - rewrite Hs. f_equal. unfold backoffs, INITIAL_BACKOFF_MS. apply list_fmap_ext. intros j i _.
    rewrite Z.add_0_l, Z.add_1_r, Z.pow_succ_r by lia. lia.
  - by intros ->; destruct Hr.
  - by intros ->.
Qed.
