(* ===== verification/PushWalk.v ===== *)
(** * The files to push

    [walk] of [crates/marmotte-cli/src/commands/push.rs]: the regular files below a
    directory, each with its path from that directory.  The directory is a tree that
    does not change while it is read; every call to the operating system may fail.
    Names are text: a name that is not Unicode is outside the model. *)
From stdpp Require Import base numbers list strings.
From Stdlib Require Import ZArith Lia.
From S2P Require Import Prelude Models Storage Push.

(** Anything that is neither a file nor a directory, a symbolic link for one, is
    [NOther]: [file_type] of a directory entry does not follow links. *)
Inductive Node :=
| NFile
| NDir (entries : list (string * Node))
| NOther.

Lemma Node_nested_ind (P : Node → Prop) :
  P NFile → P NOther → (∀ l, Forall (λ ne, P ne.2) l → P (NDir l)) → ∀ node, P node.
Proof.
  intros Hf Ho Hd. fix IH 1. intros [|l|]; [done| |done].
  apply Hd. induction l as [|[name ent] l IHl]; constructor; [apply IH|exact IHl].
Qed.

Class WalkEnv := mkWalkEnv { walk_fault : nat → option IoError }.
Definition walk_faulty `{!WalkEnv} (e : IoError) : Prop := ∃ n, walk_fault n = Some e.

Definition not_a_directory : IoError := mkIoError IoOtherKind "Not a directory (os error 20)".

(** [Path::strip_prefix] *)
Fixpoint path_strip_prefix (root p : path) : option path :=
  match root, p with
  | [], _ => Some p
  | a :: root, b :: p => if String.eqb a b then path_strip_prefix root p else None
  | _ :: _, [] => None
  end.

Section walk.
Context {wenv : WalkEnv}.

(** A call to the operating system that only matters when it fails. *)
Definition os {S} : M CliError S unit :=
  λ s n, (match walk_fault n with Some e => Err (CliIo e) | None => Ok tt end, s, Datatypes.S n).

(** [read_dir], then for every entry [ent?] and [file_type()?], the latter a second
    time for what is not a directory. *)
Fixpoint walk (root dir : path) (node : Node) : M CliError (list (path * path)) unit :=
  os ;*
  match node with
  | NDir entries =>
      (fix each (l : list (string * Node)) : M CliError (list (path * path)) unit :=
        match l with
        | [] => ret tt
        | (name, ent) :: l =>
            os ;*
            let p := dir ++ [name] in
            os ;*
            match ent with
            | NDir _ => walk root p ent
            | NFile =>
                os ;*
                let* rel := ok_or CliStripPrefix (path_strip_prefix root p) in
                modify (λ out, out ++ [(rel, p)])
            | NOther => os
            end ;*
            each l
        end) entries
  | _ => throw (CliIo not_a_directory)
  end.
End walk.

(** ** Specification *)

(** The regular files of a tree, in the order of the directory entries. *)
Fixpoint files_of (node : Node) : list path :=
  match node with
  | NFile => [[]]
  | NOther => []
  | NDir entries => flat_map (λ ne, cons ne.1 <$> files_of ne.2) entries
  end.

(** What a path leads to. *)
Fixpoint entry_named (name : string) (l : list (string * Node)) : option Node :=
  match l with
  | [] => None
  | (name', ent) :: l => if decide (name = name') then Some ent else entry_named name l
  end.
Fixpoint tree_lookup (node : Node) (p : path) : option Node :=
  match p with
  | [] => Some node
  | name :: p =>
      match node with
      | NDir entries => ent ← entry_named name entries; tree_lookup ent p
      | _ => None
      end
  end.

(** The names in a directory are different. *)
Inductive tree_ok : Node → Prop :=
| tree_ok_file : tree_ok NFile
| tree_ok_other : tree_ok NOther
| tree_ok_dir l : NoDup l.*1 → Forall (λ ne, tree_ok ne.2) l → tree_ok (NDir l).

Lemma entry_named_Some name l ent :
  NoDup l.*1 → entry_named name l = Some ent ↔ (name, ent) ∈ l.
Proof.
  induction l as [|[name' ent'] l IH]; simpl; [by intros _; split; [|intros ?%not_elem_of_nil]|].
  intros [Hn Hnd]%NoDup_cons. rewrite elem_of_cons, <-(IH Hnd).
  destruct (decide _) as [->|Hne]; split; try naive_solver.
  intros [[= ->]|He]; [done|]. exfalso. apply Hn. apply (IH Hnd) in He.
  apply list_elem_of_fmap. by exists (name', ent).
Qed.

Lemma elem_of_files_of_dir l p :
  p ∈ files_of (NDir l) ↔ ∃ name ent q, (name, ent) ∈ l ∧ p = name :: q ∧ q ∈ files_of ent.
Proof.
  simpl. rewrite list_elem_of_In, in_flat_map. setoid_rewrite <-list_elem_of_In.
  setoid_rewrite list_elem_of_fmap. split.
  - intros ([name ent] & Hin & q & -> & Hq). by exists name, ent, q.
  - intros (name & ent & q & Hin & -> & Hq). exists (name, ent). split; [done|]. by exists q.
Qed.

Lemma files_of_lookup node p : tree_ok node → p ∈ files_of node ↔ tree_lookup node p = Some NFile.
Proof.
  revert p. induction node as [| |l IH] using Node_nested_ind; intros p Hok.
  - destruct p; simpl; rewrite list_elem_of_singleton; naive_solver.
  - destruct p; simpl; rewrite elem_of_nil; naive_solver.
  - inversion_clear Hok as [| |? Hnd Hl]. rewrite elem_of_files_of_dir. rewrite Forall_forall in IH, Hl.
    destruct p as [|name q]; [naive_solver|]. simpl. rewrite bind_Some.
    setoid_rewrite entry_named_Some; [|done]. split.
    + intros (? & ent & ? & Hin & [= <- <-] & Hq). exists ent. split; [done|].
      apply (IH _ Hin); [by apply (Hl _ Hin)|done].
    + intros (ent & Hin & Hq). exists name, ent, q. split_and!; [done..|].
      apply (IH _ Hin); [by apply (Hl _ Hin)|done].
Qed.

Lemma files_of_NoDup node : tree_ok node → NoDup (files_of node).
Proof.
  induction node as [| |l IH] using Node_nested_ind; intros Hok; simpl; [apply NoDup_singleton|constructor|].
  inversion_clear Hok as [| |? Hnd Hl].
  induction l as [|[name ent] l IHl]; simpl; [constructor|].
  apply Forall_cons in IH as [IH1 IH], Hl as [Hl1 Hl]. apply NoDup_cons in Hnd as [Hn Hnd].
  apply NoDup_app. split_and!; [apply NoDup_fmap_2; [intros ? ? [= ->]; done|by apply IH1]| |by apply IHl].
  intros p (q & -> & Hq)%list_elem_of_fmap Hp. apply Hn.
  apply (elem_of_files_of_dir l) in Hp as (? & ent' & ? & Hin & [= <- _] & _).
  apply list_elem_of_fmap. by exists (name, ent').
Qed.

Lemma path_strip_prefix_app root p : path_strip_prefix root (root ++ p) = Some p.
Proof. induction root as [|a root IH]; simpl; [done|]. by rewrite String.eqb_refl. Qed.

Section walk_spec.
Context {wenv : WalkEnv}.

Lemma wp_os {S} (Q : res CliError unit → S → Prop) s :
  Q (Ok tt) s → (∀ e, walk_faulty e → Q (Err (CliIo e)) s) → wp os Q s.
Proof.
  intros Hok Herr n. unfold os. simpl. destruct (walk_fault n) as [e|] eqn:He; [|done].
  apply Herr. by exists n.
Qed.

(** [walk] appends the files of the tree, or an operating system call failed. *)
Definition walked (root rel : path) (node : Node) (out : list (path * path))
    (r : res CliError unit) (out' : list (path * path)) : Prop :=
  match r with
  | Ok _ => out' = out ++ ((λ p, (rel ++ p, root ++ rel ++ p)) <$> files_of node)
  | Err e => ∃ x, e = CliIo x ∧ walk_faulty x
  | Stop _ => False
  end.

Lemma walk_spec root rel l out :
  wp (walk root (root ++ rel) (NDir l)) (walked root rel (NDir l) out) out.
Proof.
  remember (NDir l) as node eqn:Hdir. revert rel l Hdir out.
  induction node as [| |l0 IH] using Node_nested_ind; intros rel l Hdir out; [done..|].
  injection Hdir as ->. cbn [walk]. apply wp_bind, wp_os; [|by intros e He; exists e]. simpl.
  unfold walked. cbn [files_of].
  revert out. induction l as [|[name ent] l IHl]; intros out; simpl; [by apply wp_ret; rewrite app_nil_r|].
  apply Forall_cons in IH as [IH1 IH].
  apply wp_bind, wp_os; [|by intros e He; exists e]. simpl.
  apply wp_bind, wp_os; [|by intros e He; exists e]. simpl. apply wp_bind.
  eapply (wp_mono _ (walked root (rel ++ [name]) ent out)).
  - rewrite <-app_assoc. destruct ent as [|l'|]; simpl.
    + wp_go. apply wp_os; [|by intros e He; exists e]. wp_go.
      rewrite path_strip_prefix_app. wp_go. simpl. by rewrite app_nil_r.
    + by apply (IH1 _ l').
    + apply wp_os; [|by intros e He; exists e]. simpl. by rewrite app_nil_r.
  - intros [[]|e|w] out' Hout; simpl in *; [|done..]. subst out'.
    eapply wp_mono; [by apply IHl|]. intros [[]|e|w] out' Hout; simpl in *; [|done..].
    rewrite Hout, <-app_assoc, fmap_app, <-list_fmap_compose. do 2 f_equal.
    apply list_fmap_ext. intros i p _. simpl. by rewrite <-!app_assoc.
Qed.
End walk_spec.

Lemma walked_files `{!WalkEnv} dir l n files n' :
  tree_ok (NDir l) → walk dir dir (NDir l) [] n = (Ok tt, files, n') →
  NoDup files.*1 ∧ (∀ rel, rel ∈ files.*1 ↔ tree_lookup (NDir l) rel = Some NFile) ∧
  ∀ rel abs, (rel, abs) ∈ files → abs = dir ++ rel.
Proof.
  intros Hok Hrun. pose proof (walk_spec dir [] l [] n) as Hw. rewrite app_nil_r, Hrun in Hw. simpl in Hw.
  assert (files.*1 = files_of (NDir l)) as Hrel.
  { rewrite Hw, <-list_fmap_compose. apply list_fmap_id. }
  rewrite Hrel. split_and!.
  - by apply files_of_NoDup.
  - intros rel. by apply files_of_lookup.
  - intros rel abs Hin. rewrite Hw in Hin. apply list_elem_of_fmap in Hin as (p & [= -> ->] & _). done.
Qed.

(** ** Theorems *)

(** The walk finds what there is to push: it never panics and never fails but by
    an error of the operating system; and when it succeeds, the result lists every
    regular file below the directory exactly once, and nothing else, each with its
    path from the directory and its full path. *)
Theorem walk_finds_every_file `{!WalkEnv} dir l n :
  tree_ok (NDir l) →
  match walk dir dir (NDir l) [] n with
  | (Ok _, files, _) =>
      NoDup files.*1 ∧ (∀ rel, rel ∈ files.*1 ↔ tree_lookup (NDir l) rel = Some NFile) ∧
      ∀ rel abs, (rel, abs) ∈ files → abs = dir ++ rel
  | (Err e, _, _) => ∃ x, e = CliIo x ∧ walk_faulty x
  | (Stop _, _, _) => False
  end.
Proof.
  intros Hok. destruct (walk dir dir (NDir l) [] n) as [[[[]|e|w] files] n'] eqn:Hrun.
  - by eapply walked_files.
  - pose proof (walk_spec dir [] l [] n) as Hw. by rewrite app_nil_r, Hrun in Hw.
  - pose proof (walk_spec dir [] l [] n) as Hw. by rewrite app_nil_r, Hrun in Hw.
Qed.
