(* ===== verification/PushRun.v ===== *)
(** * Pushing a directory

    [run] of [crates/marmotte-cli/src/commands/push.rs] after the walk: the loop that
    takes a permit of a semaphore and spawns a task for every file, the tasks, which
    run beside it, and the loop that counts their results.  [run_step] is one move of
    any of them.  [Client::builder().build()] and the logging are not modelled. *)
From stdpp Require Import base numbers list strings relations.
From Stdlib Require Import ZArith Lia.
From S2P Require Import Prelude Models Storage Http Push PushWalk.

(** [Url::join] and [to_string] of the url crate. *)
Class UrlLib := mkUrlLib { url_join : string → string → string + string }.

(** The arguments of the command ([Cmd::Push] of [cli.rs]). *)
Record PushArgs := mkPushArgs {
  arg_project : string;
  arg_kind : string;
  arg_base_url : string;
  arg_api_key : string;
  concurrency : nat;
  dry_run : bool
}.

(** [format!("{kind}/{project}/{}", rel.to_string_lossy())] *)
Definition target (args : PushArgs) (rel : path) : string :=
  arg_kind args +:+ "/" +:+ arg_project args +:+ "/" +:+ String.concat "/" rel.

Record Job := mkJob { job_url : string; job_abs : path }.

(** [Result<CliResult<Outcome>, JoinError>], flattened the way the counting loop does. *)
Definition TaskResult : Type := string + (CliError + Outcome).
Definition flatten (r : TaskResult) : CliError + Outcome :=
  match r with inl msg => inl (CliJoin msg) | inr r => r end.

(** [Crashed] is a panic of the command itself. *)
Inductive Status := Busy | Failed (e : CliError) | Exited (code : Z) | Crashed.

Record Run := mkRun {
  todo : list (path * path);
  permits : nat;
  running : list Job;
  finished : list (Job * TaskResult);
  pushed : nat;
  skipped : nat;
  failed : nat;
  status : Status
}.

(** [Semaphore::MAX_PERMITS], which is [usize::MAX >> 3]: [Semaphore::new] panics above. *)
Definition MAX_PERMITS : Z := Z.shiftr (2 ^ 64 - 1) 3.

Definition run_start (args : PushArgs) (files : list (path * path)) : Run :=
  mkRun files (concurrency args) [] [] 0 0 0
    (if Z.of_nat (concurrency args) <=? MAX_PERMITS then Busy else Crashed).

(** The body of the counting loop. *)
Definition count_result (res : TaskResult) (r : Run) : Run :=
  match flatten res with
  | inr Pushed => mkRun (todo r) (permits r) (running r) (finished r) (S (pushed r)) (skipped r) (failed r) (status r)
  | inr Skipped => mkRun (todo r) (permits r) (running r) (finished r) (pushed r) (S (skipped r)) (failed r) (status r)
  | inl _ => mkRun (todo r) (permits r) (running r) (finished r) (pushed r) (skipped r) (S (failed r)) (status r)
  end.

Section run.
Context {sha : Sha256} {b64 : Base64} {W : Type} {net : Net W} {urls : UrlLib}.
Variable args : PushArgs.

Definition auth_header : string := basic_header (arg_project args) (arg_api_key args).

(** What the task of a job may end with. *)
Definition task_result (j : Job) (res : TaskResult) : Prop :=
  match res with
  | inl _ => True
  | inr r => ∃ s n s' n', push_one (job_url j) (job_abs j) auth_header (dry_run args) s n =
      (match r with inl e => Err e | inr o => Ok o end, s', n')
  end.

(** The semaphore keeps the loop waiting while there is no permit; a task gives its
    permit back when it ends, however it ends.  Results are counted in the order
    in which they come, once all tasks are spawned.  [println!] panics if the report
    cannot be written.  When the process is over, nothing happens any more. *)
Inductive run_step : Run → Run → Prop :=
| step_spawn rel abs todo url p running finished a b c :
    url_join (arg_base_url args) (target args rel) = inr url →
    run_step (mkRun ((rel, abs) :: todo) (S p) running finished a b c Busy)
             (mkRun todo p (running ++ [mkJob url abs]) finished a b c Busy)
| step_bad_url rel abs todo e p running finished a b c :
    url_join (arg_base_url args) (target args rel) = inl e →
    run_step (mkRun ((rel, abs) :: todo) (S p) running finished a b c Busy)
             (mkRun todo p running finished a b c (Failed (CliUrlParse e)))
| step_finish todo p run1 j run2 finished a b c res :
    task_result j res →
    run_step (mkRun todo p (run1 ++ j :: run2) finished a b c Busy)
             (mkRun todo (S p) (run1 ++ run2) (finished ++ [(j, res)]) a b c Busy)
| step_count p running fin1 j res fin2 a b c :
    run_step (mkRun [] p running (fin1 ++ (j, res) :: fin2) a b c Busy)
             (count_result res (mkRun [] p running (fin1 ++ fin2) a b c Busy))
| step_exit p a b c :
    run_step (mkRun [] p [] [] a b c Busy)
             (mkRun [] p [] [] a b c (Exited (if decide (0 < c)%nat then 1 else 0)))
| step_unprintable p a b c :
    run_step (mkRun [] p [] [] a b c Busy) (mkRun [] p [] [] a b c Crashed).

(** ** Nothing is lost on the way *)

(** The job made for a file. *)
Definition job_for (f : path * path) (j : Job) : Prop :=
  url_join (arg_base_url args) (target args f.1) = inr (job_url j) ∧ job_abs j = f.2.

Definition is_pushed (r : TaskResult) : bool := match flatten r with inr Pushed => true | _ => false end.
Definition is_skipped (r : TaskResult) : bool := match flatten r with inr Skipped => true | _ => false end.
Definition is_failed (r : TaskResult) : bool := match flatten r with inl _ => true | _ => false end.
Definition count_of (p : TaskResult → bool) (seen : list (Job * TaskResult)) : nat :=
  length (filter (λ jr, p jr.2 = true) seen).

Lemma count_of_app p seen j res :
  count_of p (seen ++ [(j, res)]) = (count_of p seen + if p res then 1 else 0)%nat.
Proof.
  unfold count_of. rewrite filter_app, length_app, filter_cons, filter_nil. simpl.
  by destruct (p res).
Qed.

(** The results seen so far add up, and every file has one job, waiting or not. *)
Record tally (r : Run) (seen : list (Job * TaskResult)) : Prop := {
  ta_pushed : pushed r = count_of is_pushed seen;
  ta_skipped : skipped r = count_of is_skipped seen;
  ta_failed : failed r = count_of is_failed seen
}.

Record run_ok (files : list (path * path)) (r : Run) : Prop := {
  ro_permits : status r = Busy → (permits r + length (running r) = concurrency args)%nat;
  ro_bound : (length (running r) ≤ concurrency args)%nat;
  ro_files : (∀ e, status r ≠ Failed e) →
    ∃ started jobs seen, files = started ++ todo r ∧ Forall2 job_for started jobs ∧
      jobs ≡ₚ running r ++ (finished r).*1 ++ seen.*1 ∧
      Forall (λ jr, task_result jr.1 jr.2) (finished r ++ seen) ∧ tally r seen;
  ro_exit : ∀ code, status r = Exited code →
    todo r = [] ∧ running r = [] ∧ finished r = [] ∧ code = if decide (0 < failed r)%nat then 1 else 0;
  ro_crash : status r = Crashed →
    MAX_PERMITS < Z.of_nat (concurrency args) ∨ (todo r = [] ∧ running r = [] ∧ finished r = []);
  ro_failed : ∀ e, status r = Failed e →
    ∃ f x, f ∈ files ∧ url_join (arg_base_url args) (target args f.1) = inl x ∧ e = CliUrlParse x
}.

Lemma run_start_ok files : run_ok files (run_start args files).
Proof.
  split; simpl; [lia|lia| |by destruct (_ <=? _)| |by destruct (_ <=? _)].
  - intros _. exists [], [], []. by split_and!.
  - destruct (Z.leb_spec (Z.of_nat (concurrency args)) MAX_PERMITS); [done|by left].
Qed.

Lemma count_result_tally res r seen j :
  tally r seen → tally (count_result res r) (seen ++ [(j, res)]).
Proof.
  intros [Hp Hs Hf]. unfold count_result.
  split; rewrite count_of_app, <-?Hp, <-?Hs, <-?Hf; unfold is_pushed, is_skipped, is_failed;
    destruct (flatten res) as [e|[]]; simpl; lia.
Qed.

(** Only the counters differ. *)
Lemma count_result_rest res r :
  todo (count_result res r) = todo r ∧ permits (count_result res r) = permits r ∧
  running (count_result res r) = running r ∧ finished (count_result res r) = finished r ∧
  status (count_result res r) = status r.
Proof. unfold count_result. by destruct (flatten res) as [|[]]. Qed.

Lemma run_step_ok files r r' : run_step r r' → run_ok files r → run_ok files r'.
Proof.
  intros Hst [Hper Hb Hfiles _ _ _].
  destruct Hst as [rel abs td url p run fin a b c Hurl|rel abs td e p run fin a b c Hurl
    |td p run1 j run2 fin a b c res Hres|p run fin1 j res fin2 a b c|p a b c|p a b c]; simpl in *;
    specialize (Hper eq_refl).
  - split; simpl; rewrite ?length_app; simpl; try lia; [|done..]. intros _.
    destruct (Hfiles ltac:(done)) as (started & jobs & seen & -> & Hj & Hperm & Hres & Ht).
    exists (started ++ [(rel, abs)]), (jobs ++ [mkJob url abs]), seen. split_and!; try done.
    + by rewrite <-app_assoc.
    + apply Forall2_app; [done|]. constructor; [done|constructor].
    + rewrite Hperm. solve_Permutation.
    + by destruct Ht.
  - split; simpl; try done; [intros He; by destruct (He (CliUrlParse e))|]. intros x [= <-].
    destruct (Hfiles ltac:(done)) as (started & _ & _ & -> & _).
    exists (rel, abs), e. split_and!; [set_solver|done|done].
  - rewrite length_app in *. simpl in *.
    split; simpl; rewrite ?length_app; try lia; [|done..]. intros _.
    destruct (Hfiles ltac:(done)) as (started & jobs & seen & -> & Hj & Hperm & Hall & Ht).
    exists started, jobs, seen. split_and!; try done.
    + rewrite Hperm, fmap_app. simpl. solve_Permutation.
    + rewrite Forall_app in Hall. rewrite !Forall_app, Forall_singleton. naive_solver.
    + by destruct Ht.
  - destruct (count_result_rest res (mkRun [] p run (fin1 ++ fin2) a b c Busy)) as (H1 & H2 & H3 & H4 & H5).
    split; rewrite ?H1, ?H2, ?H3, ?H4, ?H5; simpl; try lia; [|done..]. intros _.
    destruct (Hfiles ltac:(done)) as (started & jobs & seen & -> & Hj & Hperm & Hall & Ht).
    exists started, jobs, (seen ++ [(j, res)]). split_and!; try done.
    + rewrite Hperm, !fmap_app. simpl. solve_Permutation.
    + rewrite !Forall_app, Forall_cons in Hall. rewrite !Forall_app, Forall_singleton. naive_solver.
    + apply count_result_tally. by destruct Ht.
  - split; simpl; try done; try lia.
    + intros _. destruct (Hfiles ltac:(done)) as (started & jobs & seen & ? & ? & ? & ? & Ht).
      exists started, jobs, seen. split_and!; try done. by destruct Ht.
    + by intros code [= <-].
  - split; simpl; try done; try lia; [|by right].
    intros _. destruct (Hfiles ltac:(done)) as (started & jobs & seen & ? & ? & ? & ? & Ht).
    exists started, jobs, seen. split_and!; try done. by destruct Ht.
Qed.

Lemma run_reachable_ok files r : rtc run_step (run_start args files) r → run_ok files r.
Proof.
  intros Hr. pose proof (run_start_ok files) as Hs. revert Hs.
  induction Hr; eauto using run_step_ok.
Qed.

(** ** It ends *)

(** Every step makes this smaller. *)
Definition left_to_do (r : Run) : nat :=
  (3 * length (todo r) + 2 * length (running r) + length (finished r) +
   match status r with Busy => 1 | _ => 0 end)%nat.

Lemma run_step_decreases r r' : run_step r r' → (left_to_do r' < left_to_do r)%nat.
Proof.
  intros Hst. destruct Hst as [| |?|p run fin1 j res fin2 a b c| |]; unfold left_to_do;
    [| | |destruct (count_result_rest res (mkRun [] p run (fin1 ++ fin2) a b c Busy)) as (-> & _ & -> & -> & ->)| |];
    simpl; rewrite ?length_app; simpl; lia.
Qed.

Lemma run_sn r : sn run_step r.
Proof.
  remember (left_to_do r) as k eqn:Hk. revert r Hk.
  induction k as [k IH] using lt_wf_ind. intros r ->. constructor. intros r' Hst.
  eapply IH; [by apply run_step_decreases|done].
Qed.

(** As long as it is busy, something can happen, if there are permits at all. *)
Lemma run_step_progress files r :
  (0 < concurrency args)%nat → run_ok files r → status r = Busy → red run_step r.
Proof.
  intros Hc [Hper _ _ _ _ _] Hst. specialize (Hper Hst).
  destruct r as [td p run fin a b c st]; simpl in *. subst st.
  destruct run as [|j run].
  - destruct td as [|[rel abs] td].
    + destruct fin as [|[j res] fin]; eexists; [apply step_exit|].
      apply (step_count _ _ [] j res fin).
    + destruct p as [|p]; [simpl in Hper; lia|].
      destruct (url_join (arg_base_url args) (target args rel)) as [e|url] eqn:Hurl;
        eexists; [by apply step_bad_url with (e := e)|by apply step_spawn].
  - eexists. apply (step_finish _ _ [] j run _ _ _ _ (inl EmptyString)). done.
Qed.
End run.

(** ** Theorems *)

(** C36: a push always comes to an end, and its report is right: with at least one permit,
    and no more than a semaphore may have, every run is finite, whatever server, network
    and scheduler do, never has more uploads under way than permits, and ends either with
    the error of a URL that cannot be built, or with each file having had exactly one task
    and every task's result counted once under what it was; then the command exits, with
    code 1 precisely if a file failed, or it panics because it cannot print the report.
    With more permits than that it panics before the first upload. *)
Theorem push_run_ends_with_a_report {W} `{!Sha256, !Base64, !Net W, !UrlLib} args files :
  (0 < concurrency args)%nat →
  (MAX_PERMITS < Z.of_nat (concurrency args) →
     nf (run_step args) (run_start args files) ∧ status (run_start args files) = Crashed) ∧
  sn (run_step args) (run_start args files) ∧
  ∀ r, rtc (run_step args) (run_start args files) r →
    (length (running r) ≤ concurrency args)%nat ∧
    (nf (run_step args) r → Z.of_nat (concurrency args) <= MAX_PERMITS →
     (∃ e, status r = Failed e) ∨
      ∃ jobs seen, Forall2 (job_for args) files jobs ∧ seen.*1 ≡ₚ jobs ∧
        Forall (λ jr, task_result args jr.1 jr.2) seen ∧ tally r seen ∧
        (status r = Exited (if decide (0 < failed r)%nat then 1 else 0) ∨ status r = Crashed)).
Proof.
  intros Hc. split; [|split; [apply run_sn|]].
  { intros Hgt. assert (status (run_start args files) = Crashed) as Hst
      by (unfold run_start; by apply Z.leb_gt in Hgt as ->).
    split; [|done]. intros [r' Hstep]. revert Hst. by destruct Hstep. }
  intros r Hr. pose proof (run_reachable_ok args files r Hr) as Hok. split; [apply Hok|]. intros Hnf Hmax.
  assert (∀ st, status r = st → (∀ e, st ≠ Failed e) → todo r = [] ∧ running r = [] ∧ finished r = [] →
    ∃ jobs seen, Forall2 (job_for args) files jobs ∧ seen.*1 ≡ₚ jobs ∧
      Forall (λ jr, task_result args jr.1 jr.2) seen ∧ tally r seen) as Hend.
  { intros st Hst Hne (Htd & Hrun & Hfin).
    destruct (ro_files _ _ _ Hok) as (started & jobs & seen & Hf & Hj & Hperm & Hall & Ht); [by rewrite Hst|].
    rewrite Htd, app_nil_r in Hf. rewrite Hrun, Hfin in Hperm. rewrite Hfin in Hall. subst started.
    exists jobs, seen. by split_and!. }
  destruct (status r) as [|e|code|] eqn:Hst; [|by left; exists e|right..].
  - exfalso. apply Hnf. by apply (run_step_progress args files).
  - destruct (ro_exit _ _ _ Hok code Hst) as (Htd & Hrun & Hfin & ->).
    destruct (Hend _ eq_refl) as (jobs & seen & ? & ? & ? & ?); [done..|]. exists jobs, seen. split_and!; auto.
  - destruct (ro_crash _ _ _ Hok Hst) as [?|Hdone]; [lia|].
    destruct (Hend _ eq_refl) as (jobs & seen & ? & ? & ? & ?); [done..|]. exists jobs, seen. split_and!; auto.
Qed.

(** With [--concurrency 0] a push of at least one file hangs: the semaphore has no
    permit and nobody will ever return one, so the command neither makes progress nor
    ends. *)
Theorem push_without_permits_hangs {W} `{!Sha256, !Base64, !Net W, !UrlLib} args files :
  concurrency args = 0%nat → files ≠ [] →
  nf (run_step args) (run_start args files) ∧ status (run_start args files) = Busy.
Proof.
  intros Hc Hf. unfold run_start. rewrite Hc. change (if _ <=? _ then _ else _) with Busy.
  split; [|done]. intros [r' Hst]. inversion Hst; subst; try done. by destruct run1.
Qed.
