(* ===== verification/PushServer.v ===== *)
(** * The client against the server

    The push client of [Push.v] with the server of [Server.v] as its network.  The
    answers to HEAD and PUT are those of [handle]; before every request the server may
    take any steps on behalf of others, and any answer may get lost on the way back.
    What the client reports is then true of the cache. *)
From stdpp Require Import base numbers list strings gmap relations pretty.
From Stdlib Require Import ZArith Lia.
From S2P Require Import Prelude Models Db Blobs Entries Projects Storage Config Gc GcRun Auth Http Metrics App Yocto Listing Admin Server Spec Routes Push.

Definition header_get (name : string) (resp : Response) : option string :=
  (λ found, found.2.2) <$> list_find (λ h, h.1 = name) (resp_headers resp).

(** ** The server as a network *)

(** Around the server, at each request: the clock, the database, the file system and
    the cache library it runs with, the work of others before it, whether the answer
    gets lost, and how a body arrives in pieces; and the path of a URL. *)
Class Wire := mkWire {
  wire_env : nat → Env;
  wire_fsenv : nat → FsEnv;
  wire_authenv : nat → AuthEnv;
  wire_moka : ∀ n, @Moka (wire_authenv n);
  wire_segments : string → list string;
  wire_between : nat → App → App;
  wire_lost : nat → option string;
  wire_chunks : nat → bytes → list bytes;
  wire_chunks_concat : ∀ n body, concat (wire_chunks n body) = body
}.

(** The local files, and the texts of statuses. *)
Class Local := mkLocal {
  local_chunks : path → nat → IoError + list (IoError + bytes);
  local_read : path → nat → IoError + bytes;
  local_status_text : Z → string
}.

Lemma string_app_inj_r (u v w : string) : (u +:+ w = v +:+ w)%string → u = v.
Proof.
  intros H. apply (f_equal String.list_ascii_of_string) in H.
  assert (∀ a b, String.list_ascii_of_string (a +:+ b) = String.list_ascii_of_string a ++ String.list_ascii_of_string b) as Happ.
  { induction a as [|x a IH]; intros b; [done|]. rewrite app_string_cons. simpl. by rewrite IH. }
  rewrite !Happ in H. apply (inj (λ l, l ++ _)) in H.
  by rewrite <-(String.string_of_list_ascii_of_string u), H, String.string_of_list_ascii_of_string.
Qed.
Lemma quoted_inj d d' : quoted d = quoted d' → d = d'.
Proof. unfold quoted. intros [= H]. by apply string_app_inj_r in H. Qed.

Section server_net.
Context {sha : Sha256} {ar : Argon2} {b64 : Base64} {libs : ListLibs} {jt : JsonText}
  {ex : Extract} {wire : Wire} {loc : Local}.
Variable config : Config.

Definition serve_at (n : nat) (r : HttpRequest) : M CoreError App Response :=
  serve_http (env := wire_env n) (fsenv := wire_fsenv n) (aenv := wire_authenv n) (mk := wire_moka n)
    config r.

(** One request of the client: what the server answered, and the state after it. *)
Definition exchange (r : HttpRequest) (n : nat) (s : App) : (string + Response) * App :=
  let '(res, s', _) := serve_at n r (wire_between n s) n in
  (match wire_lost n, res with
   | Some msg, _ => inl msg
   | None, Ok resp => inr resp
   | None, _ => inl "connection closed"%string
   end, s').

Definition head_request (url auth : string) : HttpRequest :=
  mkHttpRequest HEAD (wire_segments url) EmptyString (Some auth) [].
Definition put_request (url auth : string) (body : bytes) (n : nat) : HttpRequest :=
  mkHttpRequest PUT (wire_segments url) EmptyString (Some auth) (inr <$> wire_chunks n body).

#[export] Instance server_net : Net App := mkNet App
  (λ url auth _ s n, let '(r, s') := exchange (head_request url auth) n s in
     (match r with inl e => inl e | inr resp => inr (resp_status resp, header_get "etag" resp) end, s'))
  (λ url auth body s n, let '(r, s') := exchange (put_request url auth body n) n s in
     (match r with inl e => inl e | inr resp => inr (resp_status resp) end, s'))
  local_chunks local_read local_status_text.

(** ** What the answers say *)

(** The server, asked in state [s], admits the credentials in [h] as those of a key of
    [project], and is left with [d] under the key's project. *)
Definition granted (s : App) (h : string) (kind : Kind) (project path d : string) (s' : App) : Prop :=
  ∃ c auth, parse_basic (Some h) = Some c ∧ admitted s c auth ∧
    pa_project_name auth = project ∧ cached s' (pa_project_id auth, kind, path) = Some d.

(** What the server does, for this client or for others. *)
Inductive net_step : App → App → Prop :=
| net_other s s' : server_step config s s' → net_step s s'
| net_http `{!Env, !FsEnv, !AuthEnv, !Moka} r n s s' : ends (serve_http config r) n s s' → net_step s s'.

(** The last thing that the server did since [s0] was to answer a HEAD or PUT of the entry
    with the header [h], and this granted [d]. *)
Definition has_for (s0 : App) (h : string) (kind : Kind) (project path d : string) (s' : App) : Prop :=
  ∃ s req, rtc net_step s0 s ∧ server_does config (EvRequest (Yocto (Some h) req)) s s' ∧
    (req = HeadEntry kind project path ∨ ∃ b, req = PutEntry kind project path b) ∧
    granted s h kind project path d s'.

Lemma sys_cached s s' : app_sys s' = app_sys s → cached s' = cached s.
Proof. destruct s, s'. by intros [= -> ->]. Qed.

Lemma head_answer `{!Env, !FsEnv, !AuthEnv, !Moka} h kind project path s :
  app_ok s →
  wp (handle config (Yocto (Some h) (HeadEntry kind project path))) (λ r s', ∀ resp, r = Ok resp →
    400 <= resp_status resp ∨
    (resp_status resp = OK_200 ∧ ∃ d, header_get "etag" resp = Some (quoted d) ∧
       granted s h kind project path d s')) s.
Proof.
  intros Hs. simpl. unfold yocto_route. apply auth_project_wp; [by intros resp Hge r [= <-]; left|].
  intros c auth svc Hc Ha. set (s0 := mkApp _ _ _ _ _). assert (app_ok s0) as Hs0 by (by destruct Hs).
  assert (wp (get_handler auth kind project path true) (λ r s', ∀ resp, r = Ok resp →
    400 <= resp_status resp ∨
    (resp_status resp = OK_200 ∧ ∃ d, header_get "etag" resp = Some (quoted d) ∧
       granted s h kind project path d s')) s0) as Hget; [|by destruct kind].
  eapply wp_mono; [apply wp_and; [by apply get_handler_spec|by apply get_handler_status]|].
  intros r s' [(resp & -> & Hsys & _ & Hok) (resp' & [= <-] & Hst)] ? [= <-].
  destruct Hst as [H200|?]; [right|by left]. split; [done|].
  destruct (Hok H200) as (Hurl & e & He & _ & Hhd & _). exists (e_blob_hash e).
  split; [unfold header_get; by rewrite Hhd|]. exists c, auth. split_and!; try done.
  rewrite (sys_cached s0 s' Hsys). apply cached_entry; [done|]. by exists e.
Qed.

Lemma put_answer_status `{!Env, !FsEnv, !AuthEnv, !Moka} h kind project path chunks s :
  app_ok s →
  wp (handle config (Yocto (Some h) (PutEntry kind project path (inr <$> chunks)))) (λ r s',
    ∀ resp, r = Ok resp → 400 <= resp_status resp ∨
      (resp_status resp = CREATED ∧ granted s h kind project path (sha256_hex (concat chunks)) s')) s.
Proof.
  intros Hs. simpl. unfold yocto_route. apply auth_project_wp; [by intros resp Hge r [= <-]; left|].
  intros c auth svc Hc Ha. set (s0 := mkApp _ _ _ _ _). assert (app_ok s0) as Hs0 by (by destruct Hs).
  assert (wp (put_handler config auth kind project path (inr <$> chunks)) (λ r s', ∀ resp, r = Ok resp →
    400 <= resp_status resp ∨
    (resp_status resp = CREATED ∧ granted s h kind project path (sha256_hex (concat chunks)) s')) s0)
    as Hput; [|by destruct kind].
  unfold put_handler. wp_go. wp_use do_put_spec; [done|]. intros [resp|e|w] s' Hpost; simpl; [| |done].
  - destruct Hpost as (w & (Hs' & Hurl & _ & chunks' & Hbody & Hst) & ->). wp_go. intros ? [= <-]. right.
    split; [done|]. exists c, auth. split_and!; try done.
    assert (chunks' = chunks) as -> by (symmetry; by apply (inj (fmap (M := list) (inr (A := IoError))))).
    pose proof (stored_cached _ _ _ _ _ _ _ Hs0 Hs' Hst) as Hstep. by inversion Hstep.
  - wp_go. intros ? [= <-]. left. apply error_status.
Qed.

(** Every exchange is made of steps of the server, and keeps it in order. *)
Hypothesis between_steps : ∀ n s, rtc net_step s (wire_between n s).

Lemma serve_http_ok `{!Env, !FsEnv, !AuthEnv, !Moka} r s :
  app_ok s → wp (serve_http config r) (λ _ s', app_ok s') s.
Proof.
  intros Hs n. destruct (dispatch r) as [[strip req]|] eqn:Hd.
  - pose proof (handle_keeps config req s Hs n) as (Hs' & _).
    pose proof (serve_http_dispatch config r strip req s n Hd) as Heq. unfold strip_body, bind, ret in Heq.
    destruct (serve_http config r s n) as [[r1 s1] n1], (handle config req s n) as [[r2 s2] n2].
    assert (s1 = s2) as ->; [|done]. destruct r1, r2; congruence.
  - destruct (serve_http_refused config r s Hd n) as [(Hdb & Hst & _) _].
    destruct Hs as [Hsys Ho]. split; unfold app_sys; by rewrite ?Hdb, ?Hst.
Qed.

Lemma net_steps_ok s s' : rtc net_step s s' → app_ok s → app_ok s'.
Proof.
  induction 1 as [|s1 s2 s3 Hst _ IH]; [done|]. intros Hs. apply IH.
  destruct Hst as [s1 s2 Hst|? ? ? ? r n s1 s2 <-]; [by eapply server_step_ok|by apply serve_http_ok].
Qed.

Lemma exchange_steps r n s : rtc net_step s (exchange r n s).2.
Proof.
  transitivity (wire_between n s); [done|]. apply rtc_once. unfold exchange.
  destruct (serve_at n r (wire_between n s) n) as [[res s'] n'] eqn:Hrun.
  eapply (net_http (H := wire_env n) (H0 := wire_fsenv n) (H1 := wire_authenv n) (H2 := wire_moka n) r n).
  unfold ends. unfold serve_at in Hrun. by rewrite Hrun.
Qed.

(** What holds of the server since [s0]. *)
Definition since (s0 s : App) : Prop := app_ok s ∧ rtc net_step s0 s.

Lemma between_since s0 n s : since s0 s → since s0 (wire_between n s).
Proof.
  intros [Hs Hr]. split; [by apply (net_steps_ok s); [apply between_steps|]|]. etransitivity; [done|apply between_steps].
Qed.

Lemma net_keeps_since s0 : net_keeps (since s0).
Proof.
  assert (∀ r n w, since s0 w → since s0 (exchange r n w).2) as Hx.
  { intros r n w [Hw Hr]. pose proof (exchange_steps r n w) as Hst.
    split; [by eapply net_steps_ok|by etransitivity]. }
  split; intros url auth x w n Hw; simpl.
  - specialize (Hx (head_request url auth) n w Hw). by destruct (exchange _ n w).
  - specialize (Hx (put_request url auth x n) n w Hw). by destruct (exchange _ n w).
Qed.

(** A path that nobody has is refused. *)
Lemma no_route_refused `{!Env, !FsEnv, !AuthEnv, !Moka} r s :
  unrouted (segments r) → wp (serve_http config r) (λ res _, ∀ resp, res = Ok resp → 400 <= resp_status resp) s.
Proof.
  intros (Hpub & Hyoc & Hadm). unfold serve_http. rewrite Hpub, Hyoc, Hadm. unfold auth_admin_middleware.
  destruct (parse_bearer _) as [token|]; [|by apply wp_ret; intros ? [= <-]].
  wp_go. intros n. simpl. destruct (authenticate_admin token _ n) as [[[a|e|w] [t' svc']] n']; simpl; [| |done].
  - apply wp_ret. by intros ? [= <-].
  - pose proof (error_status e). destruct e; apply wp_ret; by intros ? [= <-].
Qed.

(** An answer that arrived from a cache URL is the handler's, or a refusal. *)
Lemma exchange_answer k rest r n s resp s' :
  segments r = kind_prefix k :: rest → method r = HEAD ∨ method r = PUT →
  exchange r n s = (inr resp, s') →
  400 <= resp_status resp ∨
  ∃ p x n', leads_to (segments r) k p x ∧
    handle (env := wire_env n) (fsenv := wire_fsenv n) (aenv := wire_authenv n) (mk := wire_moka n) config
      (Yocto (authorization r) (if decide (method r = HEAD) then HeadEntry k p x else PutEntry k p x (body r)))
      (wire_between n s) n = (Ok resp, s', n').
Proof.
  intros Hseg Hm. unfold exchange, serve_at.
  destruct (cache_url_leads k rest) as [Hno|(p & x & Hl)]; rewrite <-Hseg in *.
  - pose proof (no_route_refused (H := wire_env n) (H0 := wire_fsenv n) (H1 := wire_authenv n) (H2 := wire_moka n)
      r (wire_between n s) Hno n) as Hge.
    destruct (serve_http _ _ _ n) as [[res s1] n']. destruct (wire_lost n), res; intros [= <- <-]. left. by apply Hge.
  - rewrite <-strip_body_false, (serve_http_dispatch _ _ _ _ _ _ (Hl r eq_refl Hm)), strip_body_false.
    destruct (handle _ _ _ n) as [[res s1] n'] eqn:Hrun.
    destruct (wire_lost n), res; intros [= <- <-]. right. by exists p, x, n'.
Qed.

Lemma handled_does n m req s res s' n' :
  handle (env := wire_env n) (fsenv := wire_fsenv n) (aenv := wire_authenv n) (mk := wire_moka n) config req
    s m = (res, s', n') → server_does config (EvRequest req) s s'.
Proof.
  intros Hrun. refine (@does_request _ _ _ _ _ config (wire_env n) (wire_fsenv n) (wire_authenv n) (wire_moka n) req m s s' _).
  unfold ends. by rewrite Hrun.
Qed.

Lemma has_for_head s0 url auth k rest w n status hdr w' d :
  since s0 w → wire_segments url = kind_prefix k :: rest →
  net_head url auth (quoted d) w n = (inr (status, hdr), w') →
  status = NOT_MODIFIED ∨ status = OK_200 ∧ hdr ≫= header_to_str = Some (quoted d) →
  ∃ project path, leads_to (wire_segments url) k project path ∧ has_for s0 auth k project path d w'.
Proof.
  intros Hw Hseg Hnet Hst. simpl in Hnet.
  destruct (exchange _ n w) as [[e|resp] s'] eqn:Hx; [done|]. injection Hnet as <- <- <-.
  apply (exchange_answer k rest) in Hx as [Hge|(p & x & n' & Hl & Hrun)]; [| |done|by left].
  { by destruct Hst as [Heq|[Heq _]]; rewrite Heq in Hge. }
  exists p, x. split; [done|]. simpl in Hrun. destruct (between_since s0 n w Hw) as [Hwb Hr].
  destruct (wp_run _ _ _ _ _ _ _ (head_answer auth k p x _ Hwb) Hrun resp eq_refl)
    as [Hge|(H200 & d' & Hd' & Hhas)].
  - destruct Hst as [Heq|[Heq _]]; by rewrite Heq in Hge.
  - destruct Hst as [Heq|[_ Heq]]; [by rewrite H200 in Heq|].
    rewrite Hd' in Heq. simpl in Heq. unfold header_to_str in Heq. destruct (forall_chars _ _); [|done].
    apply (inj Some), quoted_inj in Heq as ->.
    eexists _, (HeadEntry k p x). split_and!; [done|by eapply handled_does|by left|done].
Qed.

Lemma has_for_put s0 url auth k rest body w n status w' :
  since s0 w → wire_segments url = kind_prefix k :: rest →
  net_put url auth body w n = (inr status, w') → is_success status = true →
  ∃ project path, leads_to (wire_segments url) k project path ∧
    has_for s0 auth k project path (sha256_hex body) w'.
Proof.
  intros Hw Hseg Hnet [Hlo Hhi%Z.ltb_lt]%andb_prop. simpl in Hnet.
  destruct (exchange _ n w) as [[e|resp] s'] eqn:Hx; [done|]. injection Hnet as <- <-.
  apply (exchange_answer k rest) in Hx as [Hge|(p & x & n' & Hl & Hrun)]; [lia| |done|by right].
  exists p, x. split; [done|]. simpl in Hrun. destruct (between_since s0 n w Hw) as [Hwb Hr].
  destruct (wp_run _ _ _ _ _ _ _ (put_answer_status auth k p x _ _ Hwb) Hrun resp eq_refl)
    as [Hge|[_ Hhas]]; [lia|]. rewrite wire_chunks_concat in Hhas.
  eexists _, (PutEntry k p x _). split_and!; [done|by eapply handled_does|right; by eexists|done].
Qed.
End server_net.

(** ** Routes for the files of a push *)

Lemma concat_nonempty a l : a ≠ EmptyString → String.eqb (String.concat "/" (a :: l)) EmptyString = false.
Proof. intros Ha. destruct a; [done|]. by destruct l. Qed.
Lemma sstate_route `{!Extract} project a rel :
  project ≠ EmptyString → a ≠ EmptyString →
  find_route yocto_routes (kind_prefix Sstate :: project :: a :: rel) =
  Some ([project; String.concat "/" (a :: rel)], yocto_methods Sstate).
Proof.
  intros Hp Ha. unfold find_route. cbn [yocto_routes match_path kind_prefix].
  rewrite String.eqb_refl. apply String.eqb_neq in Hp as ->. by rewrite concat_nonempty.
Qed.

(** ** Theorems *)

(** C4: what the client reports is true of the server.  From any state that the server has
    reached, when [push_one] returns [Pushed], not being a dry run, or [Skipped], whatever
    the server did for others before each request and whichever answers got lost: the URL
    leads to an entry, and the last step of the server was to answer this client's HEAD or
    PUT of that entry, in a state reached since, in which it admitted the client's
    credentials as those of a key of the project in the URL; and right after that step the
    cache has, under the key's project, kind and path, the digest of what the client read
    from the file: of the body it sent last, or of the content it hashed. *)
Theorem push_reaches_the_cache `{!Sha256, !Argon2, !Base64, !ListLibs, !JsonText, !Extract, !Wire, !Local}
    config url k rest abs auth dry_run log n o log' n' :
  rtc (net_step config) (fresh config) (world log) →
  (∀ m s, rtc (net_step config) s (wire_between m s)) →
  wire_segments url = kind_prefix k :: rest →
  push_one (net := server_net config) url abs auth dry_run log n = (Ok o, log', n') →
  (o = Pushed → dry_run = false) →
  ∃ project path content m,
    leads_to (wire_segments url) k project path ∧
    has_for config (world log) auth k project path (sha256_hex content) (world log') ∧
    match o with
    | Pushed => local_read abs m = inr content
    | Skipped => ∃ chunks, local_chunks abs m = inr chunks ∧ read_all chunks = inr content
    end.
Proof.
  intros Hfr Hb Hseg Hrun Hdry.
  assert (since config (world log) (world log)) as Hs.
  { split; [|done]. eapply net_steps_ok; [exact Hfr|apply fresh_ok]. }
  destruct (wp_run _ _ _ _ _ _ _ (push_one_spec (net := server_net config) _ (net_keeps_since config Hb (world log))
      url abs auth dry_run log Hs) Hrun) as (_ & _ & i & bodies & _ & _ & _ & _ & _ & _ & Ho).
  destruct o.
  - destruct (Ho (Hdry eq_refl)) as (_ & body & _ & w & m & n0 & status & Hw & Hread & Hnet & Hok).
    destruct (has_for_put config Hb _ _ _ _ _ _ _ _ _ _ Hw Hseg Hnet Hok) as (project & path & Hl & Hhas).
    by exists project, path, body, m.
  - destruct Ho as [_ (w & m & n0 & chunks & content & status & hdr & Hw & Hch & Hread & Hnet & Hst)].
    destruct (has_for_head config Hb _ _ _ _ _ _ _ _ _ _ _ Hw Hseg Hnet Hst) as (project & path & Hl & Hhas).
    exists project, path, content, m. split_and!; [done..|by exists chunks].
Qed.

(** Every file that a push of kind sstate finds has a route to go to; of kind
    downloads only the files at the top of the directory have: for a file in a
    subdirectory the server knows no route, under any project. *)
Theorem push_targets_have_routes `{!Extract} project rel :
  project ≠ EmptyString → rel ≠ [] → Forall (λ name, name ≠ EmptyString) rel →
  leads_to (kind_prefix Sstate :: project :: rel) Sstate project (String.concat "/" rel) ∧
  ((∃ path, leads_to (kind_prefix Downloads :: project :: rel) Downloads project path) ↔ length rel = 1%nat).
Proof.
  intros Hp Hrel Hnames. destruct rel as [|a rel]; [done|]. apply Forall_cons in Hnames as [Ha _].
  split; [|split].
  - intros r. by apply routed_leads, sstate_route.
  - intros [path Hl]. destruct rel as [|b rel]; [done|].
    set (segs := kind_prefix Downloads :: project :: a :: b :: rel) in Hl.
    specialize (Hl (mkHttpRequest HEAD segs EmptyString None []) eq_refl (or_introl eq_refl)).
    exfalso. revert Hl. unfold dispatch, target_of, segs. cbn [segments].
    unfold find_route. simpl. by destruct project, a.
  - intros Hlen. destruct rel; [|done]. exists a. intros r.
    apply routed_leads. by destruct project, a.
Qed.
