(* ===== verification/Commands.v ===== *)
(** * The command that sets up a server

    [init::run] of [crates/marmotte-cli/src/commands/init.rs]: the storage tree, the
    database, a first admin token, and its secret handed to whoever runs the command,
    on standard output or in a new file.  The state is the server's plus what the
    command can write to. *)
From stdpp Require Import base numbers list strings gmap pretty.
From Stdlib Require Import ZArith Lia Init.Byte.
From S2P Require Import Prelude Models Db Blobs Entries Projects Credentials Storage Config Gc GcRun Auth Http Metrics App Yocto Listing Admin Server Push.

Record Host := mkHost {
  h_app : App;
  h_stdout : list string;
  h_files : gmap string bytes
}.
Definition lens_app : Lens Host App := mkLens h_app (λ s h, mkHost s (h_stdout h) (h_files h)).

Definition err_already_exists : IoError := mkIoError IoAlreadyExists "File exists (os error 17)".
Definition newline : byte := Byte.x0a.

(** When writing to a standard stream fails (a pipe whose reader has gone, a full disk):
    how much of the line got out, on standard output. *)
Class Stdio := mkStdio {
  stdout_fault : nat → option nat;
  stderr_fault : nat → bool
}.
Definition stdio_broken `{!Stdio} : Prop := ∃ n, is_Some (stdout_fault n) ∨ stderr_fault n = true.

Section init.
Context {env : Env} {fsenv : FsEnv} {sha : Sha256} {ar : Argon2} {aenv : AuthEnv} {fig : Figment} {io : Stdio}.

(** [println!] and [eprintln!] panic when they cannot write. *)
Definition println (s : string) : M CliError Host unit := λ h n,
  let printed l := mkHost (h_app h) (h_stdout h ++ [l]) (h_files h) in
  match stdout_fault n with
  | Some k => (Stop Panicked, printed (String.substring 0 k s), Datatypes.S n)
  | None => (Ok tt, printed s, Datatypes.S n)
  end.
Definition eprintln : M CliError Host unit := λ h n,
  (if stderr_fault n then Stop Panicked else Ok tt, h, Datatypes.S n).

(** [OpenOptions::new().create_new(true).write(true).mode(0o600).open(path)] *)
Definition create_new (path : string) : M CliError Host unit := λ h n,
  match fs_fault n with
  | Some (x, _) => (Err (CliIo x), h, Datatypes.S n)
  | None =>
      match h_files h !! path with
      | Some _ => (Err (CliIo err_already_exists), h, Datatypes.S n)
      | None => (Ok tt, mkHost (h_app h) (h_stdout h) (<[path := []]> (h_files h)), Datatypes.S n)
      end
  end.

(** [write_all]: a failure leaves a part of the bytes written. *)
Definition write_all (path : string) (b : bytes) : M CliError Host unit := λ h n,
  let append l := mkHost (h_app h) (h_stdout h) (alter (λ c, c ++ l) path (h_files h)) in
  match fs_fault n with
  | Some (x, k) => (Err (CliIo x), append (take k b), Datatypes.S n)
  | None => (Ok tt, append b, Datatypes.S n)
  end.

Definition lift_core {A} (r : CoreError + A) : M CliError Host A :=
  match r with inl e => throw (CliCore e) | inr a => ret a end.

Definition init_cmd (config : string) (admin_token_out : option string) : M CliError Host unit :=
  let* _ := lift_core (Config_load config) in
  let* made := map_err CliCore (zoom lens_app init_run) in
  let '(token, secret) := made in
  println ("admin token id: " +:+ pretty (t_id token)) ;*
  match admin_token_out with
  | Some out =>
      create_new out ;*
      write_all out (as_bytes secret) ;*
      write_all out [newline] ;*
      eprintln
  | None => println secret
  end.

(** ** Specification *)

(** The token that [init] makes: new, active, and opened by its secret. *)
Definition minted (s : App) (token : AdminToken) (secret : string) (s' : App) : Prop :=
  app_ok s' ∧ admin_tokens (app_db s) !! t_id token = None ∧
  admin_tokens (app_db s') = <[t_id token := token]> (admin_tokens (app_db s)) ∧
  vouched_admin (app_db s') secret (mkAdminAuth (t_id token) (Some "init"%string)).

Lemma wp_Db_connect s (Q : res CoreError unit → App → Prop) :
  Q (Ok tt) s → (∀ e, Q (Err e) s) → wp Db_connect Q s.
Proof.
  intros Hok Herr. destruct s as [t fs svc mt tasks]. unfold Db_connect.
  wp_go. apply wp_io, wp_fs_op; [intros x k _; apply Herr|]. simpl. wp_go.
  eapply (wp_mono _ (outcome t (λ _ t', t' = t) (λ _, False))); [by db_go|].
  intros [[]|e|w] t' Ht; simpl in *; [|by destruct Ht as [_ ->]; apply Herr|done]. subst t'. wp_go.
  eapply (wp_mono _ (outcome t (λ _ t', t' = t) (λ _, False))); [by db_go|].
  intros [[]|e|w] t' Ht; simpl in *; [|by destruct Ht as [_ ->]; apply Herr|done]. by subst t'.
Qed.

Lemma init_run_spec s :
  app_ok s →
  wp init_run (λ r s', match r with
    | Ok (token, secret) => minted s token secret s'
    | Err _ => True
    | Stop _ => False
    end) s.
Proof.
  intros Hs. assert (Does anyhow init_run) as Hdoes by apply _.
  eapply wp_mono; [apply wp_and; [exact (Hdoes s Hs)|]|].
  - instantiate (1 := λ r s', match r with
      | Ok (token, secret) => admin_tokens (app_db s) !! t_id token = None ∧
          admin_tokens (app_db s') = <[t_id token := token]> (admin_tokens (app_db s)) ∧
          vouched_admin (app_db s') secret (mkAdminAuth (t_id token) (Some "init"%string))
      | _ => True
      end).
    unfold init_run. wp_go. wp_use open_outcome; [apply Hs|]. intros [[]|e|w] fs' _; simpl; [|done..].
    apply wp_bind, wp_Db_connect; simpl; [|done].
    wp_go. apply wp_generate_secret. intros secret. wp_go. apply wp_hash_argon2; [done|].
    intros phc Hphc Hmatch. wp_go. wp_use AdminTokens_create_spec. simpl.
    intros [token|e|w] t' Ht; simpl; [|done..]. wp_go.
    destruct Ht as (id & now & _ & Hid & -> & _ & ->). simpl.
    assert (admin_tokens (app_db s) !! id = None) as Hfree.
    { pose proof (so_admin_tokens _ (ro_schema _ (sys_refs _ (ao_sys _ Hs)))) as Hids.
      by eapply (ids_ok_insert t_id _ _ id (mkAdminToken id (lookup_hash secret) phc (Some "init"%string) now None)). }
    split_and!; [done..|]. exists id. eexists. simpl. rewrite lookup_insert_eq. split_and!; try done.
    unfold active_token. simpl. by rewrite String.eqb_refl.
  - intros [[token secret]|e|w] s' [(Hs' & _ & Hns) Hm]; [|done..]. by split.
Qed.

Lemma wp_create_new p h (Q : res CliError unit → Host → Prop) :
  (∀ e, Q (Err e) h) →
  (h_files h !! p = None → Q (Ok tt) (mkHost (h_app h) (h_stdout h) (<[p := []]> (h_files h)))) →
  wp (create_new p) Q h.
Proof.
  intros He Ho n. unfold create_new. destruct (fs_fault n) as [[x k]|]; [apply He|].
  destruct (h_files h !! p) eqn:Hp; [apply He|by apply Ho].
Qed.
Lemma wp_write_all p b h (Q : res CliError unit → Host → Prop) :
  (∀ e l, Q (Err e) (mkHost (h_app h) (h_stdout h) (alter (λ c, c ++ l) p (h_files h)))) →
  Q (Ok tt) (mkHost (h_app h) (h_stdout h) (alter (λ c, c ++ b) p (h_files h))) →
  wp (write_all p b) Q h.
Proof. intros He Ho n. unfold write_all. destruct (fs_fault n) as [[x k]|]; [apply He|done]. Qed.

Lemma wp_println l h (Q : res CliError unit → Host → Prop) :
  (∀ l', stdio_broken → Q (Stop Panicked) (mkHost (h_app h) (h_stdout h ++ [l']) (h_files h))) →
  Q (Ok tt) (mkHost (h_app h) (h_stdout h ++ [l]) (h_files h)) → wp (println l) Q h.
Proof.
  intros Hp Ho n. unfold println. destruct (stdout_fault n) as [k|] eqn:Hf; [|done].
  apply Hp. exists n. left. by rewrite Hf.
Qed.
Lemma wp_eprintln h (Q : res CliError unit → Host → Prop) :
  (stdio_broken → Q (Stop Panicked) h) → Q (Ok tt) h → wp eprintln Q h.
Proof.
  intros Hp Ho n. unfold eprintln. destruct (stderr_fault n) eqn:Hf; [|done]. apply Hp. exists n. by right.
Qed.

(** What [init] leaves behind besides the database. *)
Definition handed_out (h : Host) (out : option string) (token : AdminToken) (secret : string) (h' : Host) : Prop :=
  h_stdout h' = h_stdout h ++ ("admin token id: " +:+ pretty (t_id token))%string ::
    match out with None => [secret] | Some _ => [] end ∧
  match out with
  | None => h_files h' = h_files h
  | Some p => h_files h !! p = None ∧ h_files h' = <[p := as_bytes secret ++ [newline]]> (h_files h)
  end.

(** It panics only if it cannot print. *)
Lemma init_cmd_spec config out h :
  app_ok (h_app h) →
  wp (init_cmd config out) (λ r h', match r with
    | Ok _ => ∃ token secret, minted (h_app h) token secret (h_app h') ∧ handed_out h out token secret h'
    | Err _ => True
    | Stop w => w = Panicked ∧ stdio_broken
    end) h.
Proof.
  intros Hs. unfold init_cmd, lift_core. destruct (Config_load config) as [e|cfg]; wp_go; [done|].
  wp_use init_run_spec; [exact Hs|]. intros [[token secret]|e|w] s' Hm; simpl; [|done..].
  wp_go. apply wp_println; [done|]. wp_go. unfold handed_out. destruct out as [p|]; wp_go.
  - apply wp_create_new; [done|]. intros Hp. simpl in Hp. wp_go.
    apply wp_write_all; [done|]. wp_go. apply wp_write_all; [done|]. wp_go. apply wp_eprintln; [done|]. simpl.
    exists token, secret. split_and!; try done. by rewrite !alter_insert_eq.
  - apply wp_println; [done|]. simpl. exists token, secret. split_and!; try done. by rewrite <-app_assoc.
Qed.
End init.

(** ** Theorems *)

(** C39: [init] hands out a token that works: when the command succeeds, whatever else went
    wrong around it, it has added one admin token, a new one, and its secret is the last
    line of the output, or it is the content of a file that did not exist before.  A server
    started on this database, with any configuration, lets in whoever presents that secret,
    as that token, whenever database and verification do not fail during the login. *)
Theorem init_hands_out_a_working_token `{!Env, !FsEnv, !Sha256, !Argon2, !AuthEnv, !Figment, !Stdio}
    config out h n h' n' :
  app_ok (h_app h) → init_cmd config out h n = (Ok tt, h', n') →
  ∃ token secret,
    admin_tokens (app_db (h_app h)) !! t_id token = None ∧
    admin_tokens (app_db (h_app h')) = <[t_id token := token]> (admin_tokens (app_db (h_app h))) ∧
    h_stdout h' = h_stdout h ++ ("admin token id: " +:+ pretty (t_id token))%string ::
      match out with None => [secret] | Some _ => [] end ∧
    match out with
    | None => h_files h' = h_files h
    | Some p => h_files h !! p = None ∧ h_files h' = <[p := as_bytes secret ++ [newline]]> (h_files h)
    end ∧
    ∀ (env' : Env) (aenv' : AuthEnv) (mk' : Moka) cfg m,
      @Quiet env' → (∀ k, auth_join_error (AuthEnv := aenv') k = None) →
      (authenticate_admin (env := env') (aenv := aenv') (mk := mk') secret (app_db (h_app h'), no_logins cfg) m).1.1
        = Ok (mkAdminAuth (t_id token) (Some "init"%string)).
Proof.
  intros Hs Hrun.
  destruct (wp_run _ _ _ _ _ _ _ (init_cmd_spec config out h Hs) Hrun)
    as (token & secret & (Hs' & Hnew & Htok & Hv) & Hout & Hfile).
  exists token, secret. split_and!; [done..|]. intros env' aenv' mk' cfg m Hq Hj.
  apply authenticate_admin_accepts; [done|done|apply (ro_schema _ (sys_refs _ (ao_sys _ Hs')))|done|done].
Qed.
