(* ===== verification/Main.v ===== *)
(** * The program

    [main] of [crates/marmotte-cli/src/main.rs] with the command line of [cli.rs], and
    [serve::run] of [commands/serve.rs] from the configuration file to the shutdown:
    the phases of the process, with the ticker of [spawn_gc_ticker] beside them and
    every request passing the layers of [build_app], its deadline included.  clap's
    parsing of the words of the command line and tracing's of filters are parameters;
    what the derive attributes of [cli.rs] say about each argument is written out. *)
From stdpp Require Import base numbers list strings gmap relations.
From Stdlib Require Import ZArith Lia.
From S2P Require Import Prelude Models Db Blobs Entries Projects Credentials Storage Config Gc GcRun Auth Http Metrics App Yocto Listing Admin Server Spec Routes Layers Deadline Push PushWalk PushRun PushServer Commands.

(** ** The command line *)

(** What clap found for a subcommand, option by option. *)
Record RawArgs := mkRawArgs {
  raw_command : string;
  raw_config : option string;
  raw_admin_token_out : option string;
  raw_project : option string;
  raw_kind : option string;
  raw_base_url : option string;
  raw_api_key : option string;
  raw_concurrency : option Z;
  raw_dry_run : bool;
  raw_dir : option string
}.

Inductive Cmd :=
| Serve (config : string)
| Init (config : string) (admin_token_out : option string)
| PushCmd (args : PushArgs) (dir : string).

(** [Url]'s own parser of arguments, for [base_url]. *)
Class UrlParse := mkUrlParse { parse_url : string → option string }.

Definition default_config_path : string := "/etc/marmotte/config.toml".
Definition default_concurrency : Z := 8.

(** [value_parser = ["sstate", "downloads"]] *)
Definition kind_values : list string := ["sstate"; "downloads"]%string.
Definition kind_value (s : string) : option string := if decide (s ∈ kind_values) then Some s else None.

(** [usize], on a 64-bit target. *)
Definition usize_value (z : Z) : option nat := Z.to_nat <$> u64_of z.

(** [Cli::parse]; [None] is clap's usage error, which ends the process with 2. *)
Definition Cli_parse `{!UrlParse} (r : RawArgs) : option Cmd :=
  if String.eqb (raw_command r) "serve" then
    Some (Serve (default default_config_path (raw_config r)))
  else if String.eqb (raw_command r) "init" then
    Some (Init (default default_config_path (raw_config r)) (raw_admin_token_out r))
  else if String.eqb (raw_command r) "push" then
    project ← raw_project r;
    kind ← raw_kind r ≫= kind_value;
    base_url ← raw_base_url r ≫= parse_url;
    api_key ← raw_api_key r;
    concurrency ← field_or usize_value (Z.to_nat default_concurrency) (raw_concurrency r);
    dir ← raw_dir r;
    Some (PushCmd (mkPushArgs project kind base_url api_key concurrency (raw_dry_run r)) dir)
  else None.

(** ** Tracing ([crates/marmotte-server/src/observability.rs]) *)

(** [EnvFilter]: from [RUST_LOG], which may be unset or malformed, or from a text. *)
Class Tracing := mkTracing {
  EnvFilter : Type;
  filter_from_env : option EnvFilter;
  filter_new : string → EnvFilter
}.

(** The global subscriber; [try_init] fails if there is one, and that is ignored. *)
Definition init_tracing `{!Tracing} (cfg : LoggingConfig) (global : option (EnvFilter * LogFormat))
    : option (EnvFilter * LogFormat) :=
  let filter := default (filter_new (level cfg)) filter_from_env in
  match global with
  | Some g => Some g
  | None => Some (filter, format cfg)
  end.

(** ** [serve] *)

(** [spawn_gc_ticker]: [tokio::time::interval] panics for a period of zero, in the task. *)
Definition spawn_gc_ticker (config : Config) : bool := negb (interval_secs (gc config) =? 0).

Inductive Phase :=
| Starting
| Up (config : Config)
| Listening (config : Config)
| Ended (r : CliError + unit)
| Died.

(** The process: its state, what it is at, whether the ticker's task is alive, the
    subscriber, and the requests it has taken. *)
Record Process `{!Tracing} := mkProcess {
  pr_app : App;
  pr_phase : Phase;
  pr_ticker : bool;
  pr_tracing : option (EnvFilter * LogFormat);
  pr_taken : list Incoming
}.

Arguments mkProcess {_} _ _ _ _ _.
Arguments pr_app {_} _.
Arguments pr_phase {_} _.
Arguments pr_ticker {_} _.
Arguments pr_tracing {_} _.
Arguments pr_taken {_} _.

Definition starting `{!Tracing} (s : App) : Process := mkProcess s Starting false None [].

(** [Config::load], then [Db::connect] and [LocalFsStore::open], then [build_app], which
    spawns the ticker, then [bind]; requests only come after that.  When [serve::run]
    returns the runtime is dropped, and with it the ticker and every task.  [Died] is a
    panic on the way, in which [AuthSvc::new] may end. *)
Inductive serve_step `{!Sha256, !Argon2, !Base64, !ListLibs, !JsonText, !Extract, !BodyLimit, !Figment, !Tracing}
    (path : string) : Process → Process → Prop :=
| serve_no_config s tr e :
    Config_load path = inl e →
    serve_step path (mkProcess s Starting false tr []) (mkProcess s (Ended (inl (CliCore e))) false tr [])
| serve_boot_failed `{!Env, !FsEnv} s tr cfg n e s' n' :
    Config_load path = inr cfg → serve_boot cfg s n = (Err e, s', n') →
    serve_step path (mkProcess s Starting false tr [])
      (mkProcess s' (Ended (inl (CliCore e))) false (init_tracing (logging cfg) tr) [])
| serve_boot_panicked `{!Env, !FsEnv} s tr cfg n w s' n' :
    Config_load path = inr cfg → serve_boot cfg s n = (Stop w, s', n') →
    serve_step path (mkProcess s Starting false tr [])
      (mkProcess s' Died false (init_tracing (logging cfg) tr) [])
| serve_booted `{!Env, !FsEnv} s tr cfg n s' n' :
    Config_load path = inr cfg → serve_boot cfg s n = (Ok tt, s', n') →
    serve_step path (mkProcess s Starting false tr [])
      (mkProcess s' (Up cfg) (spawn_gc_ticker cfg) (init_tracing (logging cfg) tr) [])
| serve_tick `{!Env, !FsEnv} s ph cfg n s' tr l :
    ph = Up cfg ∨ ph = Listening cfg → ends (gc_tick cfg) n s s' →
    serve_step path (mkProcess s ph true tr l) (mkProcess s' ph true tr l)
| serve_bind_failed s cfg tk tr e :
    serve_step path (mkProcess s (Up cfg) tk tr []) (mkProcess s (Ended (inl (CliIo e))) false tr [])
| serve_bound s cfg tk tr :
    serve_step path (mkProcess s (Up cfg) tk tr []) (mkProcess s (Listening cfg) tk tr [])
| serve_request `{!Env, !FsEnv, !AuthEnv, !Moka} s cfg tk tr l i n out s' :
    request_ends cfg i n s out s' →
    serve_step path (mkProcess s (Listening cfg) tk tr l) (mkProcess s' (Listening cfg) tk tr (l ++ [i]))
| serve_task s cfg tk tr l x s' :
    server_does cfg (EvTask x) s s' →
    serve_step path (mkProcess s (Listening cfg) tk tr l) (mkProcess s' (Listening cfg) tk tr l)
| serve_shutdown s cfg tk tr l :
    serve_step path (mkProcess s (Listening cfg) tk tr l) (mkProcess s (Ended (inr tt)) false tr l)
| serve_io_error s cfg tk tr l e :
    serve_step path (mkProcess s (Listening cfg) tk tr l) (mkProcess s (Ended (inl (CliIo e))) false tr l).

(** ** [main] *)

(** The [Termination] of a [CliResult<()>], and what the runtime of Rust exits with when the
    main thread panics. *)
Definition exit_code (r : CliError + unit) : Z := match r with inl _ => 1 | inr _ => 0 end.
Definition PANIC_EXIT_CODE : Z := 101.

(** [Client::builder().build()] of reqwest: the message, if it fails. *)
Class HttpClient := mkHttpClient { client_build : option string }.

(** The directory that a path names. *)
Class Tree := mkTree {
  tree_path : string → Storage.path;
  tree_at : string → list (string * Node);
  tree_at_ok : ∀ dir, tree_ok (NDir (tree_at dir))
}.

(** How a command may end: with which exit code, and in what state of the machine. *)
Inductive main_ends {W} `{!Env, !FsEnv, !Sha256, !Argon2, !AuthEnv, !Base64, !ListLibs, !JsonText, !Extract, !BodyLimit,
    !Figment, !Stdio, !Tracing, !HttpClient, !Net W, !UrlLib, !WalkEnv, !Tree} : Cmd → Host → Host → Z → Prop :=
| main_serve path h x r :
    rtc (serve_step path) (starting (h_app h)) x → pr_phase x = Ended r →
    main_ends (Serve path) h (mkHost (pr_app x) (h_stdout h) (h_files h)) (exit_code r)
| main_serve_died path h x :
    rtc (serve_step path) (starting (h_app h)) x → pr_phase x = Died →
    main_ends (Serve path) h (mkHost (pr_app x) (h_stdout h) (h_files h)) PANIC_EXIT_CODE
| main_init path out h n r h' n' :
    init_cmd path out h n = (r, h', n') →
    main_ends (Init path out) h h'
      (match r with Ok _ => exit_code (inr tt) | Err e => exit_code (inl e) | Stop _ => PANIC_EXIT_CODE end)
| main_push_no_client args dir h (msg : string) :
    client_build = Some msg → main_ends (PushCmd args dir) h h (exit_code (inl (CliHttp msg)))
| main_push_no_files args dir h n e files n' :
    client_build = None →
    walk (tree_path dir) (tree_path dir) (NDir (tree_at dir)) [] n = (Err e, files, n') →
    main_ends (PushCmd args dir) h h (exit_code (inl e))
| main_push_stopped args dir h n files n' r e :
    client_build = None →
    walk (tree_path dir) (tree_path dir) (NDir (tree_at dir)) [] n = (Ok tt, files, n') →
    rtc (run_step args) (run_start args files) r → status r = Failed e →
    main_ends (PushCmd args dir) h h (exit_code (inl e))
| main_push_done args dir h n files n' r code :
    client_build = None →
    walk (tree_path dir) (tree_path dir) (NDir (tree_at dir)) [] n = (Ok tt, files, n') →
    rtc (run_step args) (run_start args files) r → status r = Exited code →
    main_ends (PushCmd args dir) h h code
| main_push_crashed args dir h n files n' r :
    client_build = None →
    walk (tree_path dir) (tree_path dir) (NDir (tree_at dir)) [] n = (Ok tt, files, n') →
    rtc (run_step args) (run_start args files) r → status r = Crashed →
    main_ends (PushCmd args dir) h h PANIC_EXIT_CODE.

(** ** Specifications *)

Lemma kind_value_names s k : kind_value s = Some k → ∃ kind, k = Kind_as_str kind.
Proof.
  unfold kind_value, kind_values. case_decide as Hin; [intros [= <-]|done].
  apply elem_of_cons in Hin as [->|Hin]; [by exists Sstate|].
  apply list_elem_of_singleton in Hin as ->. by exists Downloads.
Qed.

(** A push that the command line lets through is for a kind that the server has. *)
Lemma push_kind_exists `{!UrlParse} r args dir :
  Cli_parse r = Some (PushCmd args dir) → ∃ kind, arg_kind args = Kind_as_str kind.
Proof.
  unfold Cli_parse. do 3 (case_match; [try done|]); try done.
  intros (project & _ & Hr)%bind_Some. apply bind_Some in Hr as (kind & Hk & Hr).
  apply bind_Some in Hr as (? & _ & Hr). apply bind_Some in Hr as (? & _ & Hr).
  apply bind_Some in Hr as (? & _ & Hr). apply bind_Some in Hr as (? & _ & [= <- _]).
  apply bind_Some in Hk as (s & _ & Hk). simpl. by eapply kind_value_names.
Qed.

Lemma init_tracing_idempotent `{!Tracing} cfg cfg' g :
  init_tracing cfg' (init_tracing cfg g) = init_tracing cfg g.
Proof. by destruct g. Qed.

Section serve_spec.
Context {sha : Sha256} {ar : Argon2} {b64 : Base64} {libs : ListLibs} {jt : JsonText}
  {ex : Extract} {bl : BodyLimit} {fig : Figment} {tr : Tracing}.

(** Starting up, successful or not, leaves the rows and the contents as they were; what it
    starts with is fresh. *)
Lemma serve_boot_keeps `{!Env, !FsEnv} cfg s :
  app_ok s →
  wp (serve_boot cfg) (λ r s', app_ok s' ∧ app_db s' = app_db s ∧ same_blobs (app_store s) (app_store s') ∧
    (no_stop r ∨ moka_builds (auth cfg) = false) ∧
    (r = Ok tt → s' = AppState_new (app_db s) (app_store s') (no_logins (auth cfg)))) s.
Proof.
  intros Hs. unfold serve_boot. wp_go.
  apply wp_Db_connect; simpl; [|by intros e; split_and!; [..|left|]].
  wp_go. wp_use open_outcome; [apply Hs|].
  intros [[]|e|w] fs' (Hst & Hsame & Hr); simpl; [| |done];
    destruct (same_blobs_ok s fs' Hs Hst Hsame) as [Hsys Ho]; [|by split_and!; [..|left|]].
  apply wp_bind, wp_AuthSvc_new. destruct (moka_builds (auth cfg)); simpl; [apply wp_modify|];
    split_and!; try done; [by left|by right].
Qed.

Lemma request_ok `{!Env, !FsEnv, !AuthEnv, !Moka} cfg i n s out s' :
  app_ok s → request_ends cfg i n s out s' → app_ok s'.
Proof. intros Hs Hends. by destruct (request_one_run cfg i n s out s' Hs Hends). Qed.

(** What holds of the process at every moment. *)
Record process_ok (path : string) (s0 : App) (x : Process) : Prop := mkProcessOk {
  po_app : app_ok (pr_app x);
  po_phase : match pr_phase x with
    | Starting => x = starting s0
    | Up cfg => Config_load path = inr cfg ∧ pr_taken x = []
    | Listening cfg => Config_load path = inr cfg
    | Ended (inl (CliCore _)) => pr_taken x = [] ∧ app_db (pr_app x) = app_db s0 ∧
        same_blobs (app_store s0) (app_store (pr_app x))
    | Died => pr_taken x = [] ∧ app_db (pr_app x) = app_db s0 ∧ same_blobs (app_store s0) (app_store (pr_app x)) ∧
        ∃ cfg, Config_load path = inr cfg ∧ moka_builds (auth cfg) = false
    | Ended _ => True
    end;
  po_ticker : pr_ticker x = true → ∃ cfg, Config_load path = inr cfg ∧ interval_secs (gc cfg) ≠ 0 ∧
    (pr_phase x = Up cfg ∨ pr_phase x = Listening cfg)
}.

Lemma serve_step_ok path s0 x x' :
  app_ok s0 → serve_step path x x' → process_ok path s0 x → process_ok path s0 x'.
Proof.
  intros Hs0 Hst [Happ Hph Htk].
  destruct Hst as [s t e Hc|? ? s t cfg n e s' n' Hc Hb|? ? s t cfg n w s' n' Hc Hb|? ? s t cfg n s' n' Hc Hb|? ? s ph cfg n s' t l Hor Hg
    |s cfg tk t e|s cfg tk t|? ? ? ? s cfg tk t l i n out s' Hrun|s cfg tk t l y s' Hd|s cfg tk t l|s cfg tk t l e];
    simpl in *.
  - injection Hph as -> ->. by split.
  - injection Hph as -> ->.
    destruct (wp_run _ _ _ _ _ _ _ (serve_boot_keeps cfg s0 Happ) Hb) as (? & ? & ? & _). by split.
  - injection Hph as -> ->.
    destruct (wp_run _ _ _ _ _ _ _ (serve_boot_keeps cfg s0 Happ) Hb) as (? & ? & ? & [[]|?] & _).
    split; simpl; [done| |done]. split_and!; [done..|by exists cfg].
  - injection Hph as -> ->.
    destruct (wp_run _ _ _ _ _ _ _ (serve_boot_keeps cfg s0 Happ) Hb) as (? & ? & ? & _).
    split; simpl; [done..|]. unfold spawn_gc_ticker. intros Ht. exists cfg.
    apply negb_true_iff, Z.eqb_neq in Ht. auto.
  - assert (app_ok s') as Hs' by (eapply server_step_ok; [exists EvTick; by eapply does_tick|done]).
    destruct Hor as [-> | ->]; by split.
  - by split.
  - destruct Hph as [Hc _]. split; simpl; [done..|]. intros Ht.
    destruct (Htk Ht) as (c & ? & ? & [[= <-]|[=]]). eauto.
  - split; simpl; [by eapply (request_ok cfg i n s out)|done..].
  - split; simpl; [eapply server_step_ok; [by exists (EvTask y)|done]|done..].
  - by split.
  - by split.
Qed.

Lemma serve_reachable path s0 x :
  app_ok s0 → rtc (serve_step path) (starting s0) x → process_ok path s0 x.
Proof.
  intros Hs0 Hr. assert (process_ok path s0 (starting s0)) as H0 by by split.
  revert H0. induction Hr; eauto using serve_step_ok.
Qed.

(** Only a shutdown ends [serve] well, and only while it listens. *)
Lemma serve_ends_well path s0 x :
  app_ok s0 → rtc (serve_step path) (starting s0) x → pr_phase x = Ended (inr tt) →
  ∃ y cfg, Config_load path = inr cfg ∧ rtc (serve_step path) (starting s0) y ∧
    pr_phase y = Listening cfg ∧ pr_app y = pr_app x.
Proof.
  intros Hs0 Hr He. apply rtc_inv_r in Hr as [<-|(y & Hr & Hst)]; [done|].
  pose proof (serve_reachable path s0 y Hs0 Hr) as [_ Hph _].
  destruct Hst as [s t e Hc|? ? s t cfg n e s' n' Hc Hb|? ? s t cfg n w s' n' Hc Hb|? ? s t cfg n s' n' Hc Hb|? ? s ph cfg n s' t l Hor Hg
    |s cfg tk t e|s cfg tk t|? ? ? ? s cfg tk t l i n out s' Hrun|s cfg tk t l z s' Hd|s cfg tk t l|s cfg tk t l e];
    simplify_eq/=; [by destruct Hor|].
  by exists (mkProcess s (Listening cfg) tk t l), cfg.
Qed.
End serve_spec.

(** The files that a successful push has dealt with. *)
Definition all_pushed {W} `{!Sha256, !Base64, !Net W, !UrlLib} (args : PushArgs)
    (files : list (Storage.path * Storage.path)) : Prop :=
  ∃ jobs seen, Forall2 (job_for args) files jobs ∧ seen.*1 ≡ₚ jobs ∧
    Forall (λ jr, task_result args jr.1 jr.2 ∧ (is_pushed jr.2 || is_skipped jr.2)) seen.

Lemma not_failed res : is_failed res = false → is_pushed res || is_skipped res.
Proof. unfold is_failed, is_pushed, is_skipped. by destruct (flatten res) as [|[]]. Qed.

(** Every file had its task, and some task failed. *)
Definition some_failed {W} `{!Sha256, !Base64, !Net W, !UrlLib} (args : PushArgs)
    (files : list (Storage.path * Storage.path)) : Prop :=
  ∃ jobs seen jr, Forall2 (job_for args) files jobs ∧ seen.*1 ≡ₚ jobs ∧
    Forall (λ jr, task_result args jr.1 jr.2) seen ∧ jr ∈ seen ∧ is_failed jr.2 = true.

Lemma push_exit {W} `{!Sha256, !Base64, !Net W, !UrlLib} args files r code :
  rtc (run_step args) (run_start args files) r → status r = Exited code →
  (code = 0 ∧ all_pushed args files) ∨ (code = 1 ∧ some_failed args files).
Proof.
  intros Hr Hst. pose proof (run_reachable_ok args files r Hr) as Hok.
  destruct (ro_exit _ _ _ Hok code Hst) as (Htd & Hrun & Hfin & ->).
  destruct (ro_files _ _ _ Hok) as (started & jobs & seen & Hf & Hj & Hperm & Hall & [_ _ Hfailed]); [by rewrite Hst|].
  rewrite Htd, app_nil_r in Hf. rewrite Hrun, Hfin in Hperm. rewrite Hfin in Hall. subst started.
  rewrite Hfailed. unfold count_of.
  destruct (filter (λ jr : Job * TaskResult, is_failed jr.2 = true) seen) as [|jr l] eqn:Hnone; [left|right];
    (split; [done|]).
  - exists jobs, seen. split_and!; [done..|]. apply Forall_forall. intros jr Hin.
    pose proof (proj1 (Forall_forall _ _) Hall jr Hin) as Hres.
    split; [done|]. apply not_failed. destruct (is_failed jr.2) eqn:Hbad; [|done].
    assert (jr ∈ filter (λ jr : Job * TaskResult, is_failed jr.2 = true) seen) as Hx
      by by apply list_elem_of_filter. rewrite Hnone in Hx. by apply elem_of_nil in Hx.
  - assert (jr ∈ filter (λ jr : Job * TaskResult, is_failed jr.2 = true) seen) as Hx by (rewrite Hnone; left).
    apply list_elem_of_filter in Hx as [Hbad Hin]. by exists jobs, seen, jr.
Qed.

(** ** Theorems *)

(** C16: the life of [marmotte serve]: from a state in order, whatever is requested, fails
    or ends, the state stays in order; the ticker does not run before the configuration
    has loaded and the database and the store are open (it may run before the socket is
    bound), and no request is taken before the socket is bound; a start that fails in the
    configuration, the database or the store, or panics in the verification cache, has
    taken no request and leaves every row and every blob as they were; and with
    [interval_secs = 0] the ticker never runs. *)
Theorem serve_lifetime `{!Sha256, !Argon2, !Base64, !ListLibs, !JsonText, !Extract, !BodyLimit, !Figment, !Tracing}
    path s x :
  app_ok s → rtc (serve_step path) (starting s) x →
  app_ok (pr_app x) ∧
  (pr_phase x = Starting → x = starting s) ∧
  (∀ cfg, pr_phase x = Up cfg → Config_load path = inr cfg ∧ pr_taken x = []) ∧
  (∀ cfg, pr_phase x = Listening cfg → Config_load path = inr cfg) ∧
  ((∃ e, pr_phase x = Ended (inl (CliCore e))) ∨ pr_phase x = Died →
     pr_taken x = [] ∧ app_db (pr_app x) = app_db s ∧ ∀ h, blob_at (app_store (pr_app x)) h = blob_at (app_store s) h) ∧
  (pr_ticker x = true → ∃ cfg, Config_load path = inr cfg ∧ interval_secs (gc cfg) ≠ 0 ∧
     (pr_phase x = Up cfg ∨ pr_phase x = Listening cfg)).
Proof.
  intros Hs Hr. destruct (serve_reachable path s x Hs Hr) as [Happ Hph Htk].
  split_and!; [done| | | | |done].
  - intros Heq. by rewrite Heq in Hph.
  - intros cfg Heq. by rewrite Heq in Hph.
  - intros cfg Heq. by rewrite Heq in Hph.
  - assert (pr_taken x = [] ∧ app_db (pr_app x) = app_db s ∧ same_blobs (app_store s) (app_store (pr_app x)) →
      pr_taken x = [] ∧ app_db (pr_app x) = app_db s ∧
      ∀ h, blob_at (app_store (pr_app x)) h = blob_at (app_store s) h) as Hblobs.
    { intros (? & ? & Hsame). split_and!; [done..|]. intros h. by apply same_blobs_at. }
    intros [[e Heq]|Heq]; rewrite Heq in Hph; apply Hblobs; naive_solver.
Qed.

Section endings.
Context {W : Type} {env : Env} {fsenv : FsEnv} {sha : Sha256} {ar : Argon2} {aenv : AuthEnv} {b64 : Base64}
  {libs : ListLibs} {jt : JsonText} {ex : Extract} {bl : BodyLimit} {fig : Figment} {io : Stdio} {tr : Tracing}
  {client : HttpClient} {net : Net W} {urls : UrlLib} {we : WalkEnv} {tree : Tree}.

(** The command did what it is for. *)
Definition ended_well (cmd : Cmd) (h h' : Host) : Prop :=
  match cmd with
  | Serve path => ∃ y cfg, Config_load path = inr cfg ∧ rtc (serve_step path) (starting (h_app h)) y ∧
      pr_phase y = Listening cfg ∧ pr_app y = h_app h'
  | Init path out => ∃ token secret, minted (h_app h) token secret (h_app h') ∧ handed_out h out token secret h'
  | PushCmd args dir => ∃ files, NoDup files.*1 ∧
      (∀ rel, rel ∈ files.*1 ↔ tree_lookup (NDir (tree_at dir)) rel = Some NFile) ∧
      (∀ rel abs, (rel, abs) ∈ files → abs = tree_path dir ++ rel) ∧ all_pushed args files
  end.

(** Something the command reports went wrong. *)
Definition ended_badly (cmd : Cmd) (h h' : Host) : Prop :=
  match cmd with
  | Serve path => ∃ x e, rtc (serve_step path) (starting (h_app h)) x ∧ pr_phase x = Ended (inl e) ∧
      pr_app x = h_app h'
  | Init path out => ∃ n e n', init_cmd path out h n = (Err e, h', n')
  | PushCmd args dir => is_Some client_build ∨ ∃ n r files n',
      walk (tree_path dir) (tree_path dir) (NDir (tree_at dir)) [] n = (r, files, n') ∧
      ((∃ e, r = Err e) ∨
       (∃ f e, f ∈ files ∧ url_join (arg_base_url args) (target args f.1) = inl e) ∨ some_failed args files)
  end.

(** What makes a command panic. *)
Definition ended_in_panic (cmd : Cmd) (h h' : Host) : Prop :=
  match cmd with
  | Serve path => ∃ cfg, Config_load path = inr cfg ∧ MAX_TIME_TO_LIVE < verify_cache_ttl_secs (auth cfg) ∧
      app_db (h_app h') = app_db (h_app h) ∧
      ∀ d, blob_at (app_store (h_app h')) d = blob_at (app_store (h_app h)) d
  | Init _ _ => stdio_broken
  | PushCmd args dir => MAX_PERMITS < Z.of_nat (concurrency args) ∨
      ∃ n files n' r, walk (tree_path dir) (tree_path dir) (NDir (tree_at dir)) [] n = (Ok tt, files, n') ∧
        rtc (run_step args) (run_start args files) r ∧ todo r = [] ∧ running r = [] ∧ finished r = []
  end.

Lemma push_ends_early args dir n files n' r e :
  walk (tree_path dir) (tree_path dir) (NDir (tree_at dir)) [] n = (Ok tt, files, n') →
  rtc (run_step args) (run_start args files) r → status r = Failed e → ∀ h, ended_badly (PushCmd args dir) h h.
Proof.
  intros Hw Hr Hst h. destruct (ro_failed _ _ _ (run_reachable_ok args files r Hr) e Hst) as (f & x & Hf & Hx & _).
  right. exists n, (Ok tt), files, n'. split; [done|]. right; left. by exists f, x.
Qed.
End endings.

