(* ===== verification/Demo.v ===== *)
(** * A concrete world

    Instances of every parameter of the development and a small server state
    built by running the handlers themselves, so that the theorems can be applied
    to concrete inputs (see [Witnesses.v]).  Nothing here claims to be SHA-256,
    argon2 or base64: each instance only has the documented properties that the
    corresponding class asks for. *)
From stdpp Require Import base numbers list strings gmap sorting pretty.
From Stdlib Require Import ZArith Lia Init.Byte.
From S2P Require Import Prelude Models Db Blobs Entries Projects Credentials Stats Storage Config Gc GcRun Orphans Auth Logins Http Decode Metrics App Yocto Listing Admin Server Connect Sweeps Routes Layers Push Commands.

(** ** Environment *)

(** The clock advances by a second with every interaction; nothing fails. *)
#[export] Instance demo_env : Env :=
  mkEnv (λ n, 1000 + Z.of_nat n) (λ _, None) (λ _ _ l, l) (λ _ _ _, reflexivity _) (λ _, 0%N).
#[export] Instance demo_fsenv : FsEnv := mkFsEnv (λ _, None) (λ n, pretty n).

Lemma demo_quiet : Quiet.
Proof. done. Qed.
Lemma demo_fs_quiet : fs_quiet.
Proof. done. Qed.

(** ** A hash: the sum of the bytes and the first byte, as 64 equal digits *)

Definition hex_digit (n : N) : Ascii.ascii :=
  Ascii.ascii_of_N (if (n <? 10)%N then 48 + n else 87 + n)%N.
Fixpoint repeat_char (k : nat) (a : Ascii.ascii) : string :=
  match k with O => EmptyString | S k => String a (repeat_char k a) end.
Definition byte_sum (b : bytes) : N := foldr (λ x s, (Byte.to_N x + s)%N) 0%N b.
Definition demo_hash (b : bytes) : string := repeat_char 64 (hex_digit ((byte_sum (take 1 b) + byte_sum b) mod 16)).

Lemma repeat_char_length k a : String.length (repeat_char k a) = k.
Proof. induction k; simpl; congruence. Qed.
Lemma repeat_char_forall p k a : p a = true → forall_chars p (repeat_char k a) = true.
Proof. intros Ha. induction k; simpl; [done|]. by rewrite Ha. Qed.

Lemma hex_digit_lower n : (n < 16)%N → is_hex_lower (hex_digit n) = true.
Proof.
  intros Hn. destruct n as [|p]; [done|]. do 4 (destruct p as [p|p|]; try done); lia.
Qed.

#[export] Instance demo_sha : Sha256.
Proof.
  refine (mkSha256 demo_hash _). intros b. unfold is_hash, demo_hash.
  rewrite repeat_char_length, repeat_char_forall; [done|]. apply hex_digit_lower, N.mod_lt. done.
Defined.

(** ** Credentials *)

#[export] Instance demo_argon2 : Argon2.
Proof.
  refine (mkArgon2 (λ secret _, inr ("$" +:+ secret)) (λ _, None)
    (λ secret phc, String.eqb phc ("$" +:+ secret)) _).
  intros secret salt phc [= <-]. split; [done|]. apply String.eqb_refl.
Defined.

Definition demo_rand (n len : nat) : bytes :=
  replicate len (default Byte.x61 (Byte.of_N (97 + N.of_nat n mod 26))).
#[export] Instance demo_authenv : AuthEnv.
Proof.
  refine (mkAuthEnv demo_rand Z.of_nat _ (λ _, None) String.string_of_list_byte).
  intros n m H. by apply Nat2Z.inj_le.
Defined.

Lemma demo_no_join_error m : auth_join_error m = None.
Proof. reflexivity. Qed.

#[export] Instance demo_moka `{!AuthEnv} : Moka.
Proof.
  refine (mkMoka _ (λ V capacity ttl l n k,
    match last_inserted k l with
    | Some (v, m) => if auth_mono n <? auth_mono m + ttl then Some v else None
    | None => None
    end) _).
  intros V capacity ttl l n k v. destruct (last_inserted k l) as [[v' m]|]; [|done].
  destruct (Z.ltb_spec (auth_mono n) (auth_mono m + ttl)); [|done]. intros [= <-]. by exists m.
Defined.

(** A byte as two letters. *)
Definition letter (n : N) : Ascii.ascii := Ascii.ascii_of_N (97 + n).
Definition unletter (a : Ascii.ascii) : N := (Ascii.N_of_ascii a - 97)%N.
Fixpoint demo_b64_encode (l : list byte) : string :=
  match l with
  | [] => EmptyString
  | b :: l => String (letter (Byte.to_N b / 16)) (String (letter (Byte.to_N b mod 16)) (demo_b64_encode l))
  end.
Fixpoint demo_b64_decode (s : string) : option (list byte) :=
  match s with
  | EmptyString => Some []
  | String a (String b s) =>
      x ← Byte.of_N (16 * unletter a + unletter b); l ← demo_b64_decode s; Some (x :: l)
  | _ => None
  end.
#[export] Instance demo_base64 : Base64.
Proof.
  refine (mkBase64 demo_b64_decode demo_b64_encode _ _).
  - induction l as [|b l IH]; [done|].
    cbn [demo_b64_encode demo_b64_decode]. rewrite IH. by destruct b.
  - induction l as [|b l IH]; [done|]. cbn [demo_b64_encode forall_chars]. rewrite IH. by destruct b.
Defined.

(** ** Listing and JSON *)

(** A pattern that ends with a percent sign is a prefix. *)
Definition demo_like (pattern s : string) : bool :=
  starts_with (String.substring 0 (String.length pattern - 1) pattern) s.

(** Cursors as the binary digits of a number. *)
Definition cursor_code (c : Cursor) : positive :=
  encode (match sv c with SvInt z => inl z | SvString s => inr s | _ => inl 0 end, cur_id c).
Definition cursor_decode (p : positive) : string + Cursor :=
  match decode (A := (Z + string) * Z) p with
  | Some (inl z, i) => inr (mkCursor (SvInt z) i)
  | Some (inr s, i) => inr (mkCursor (SvString s) i)
  | None => inl "cursor"%string
  end.
Fixpoint digits (p : positive) : list byte :=
  match p with xH => [] | xO p => Byte.x30 :: digits p | xI p => Byte.x31 :: digits p end.
Fixpoint undigits (l : list byte) : positive :=
  match l with [] => xH | Byte.x30 :: l => xO (undigits l) | _ :: l => xI (undigits l) end.
Lemma undigits_digits p : undigits (digits p) = p.
Proof. induction p; simpl; congruence. Qed.

#[export] Instance demo_listlibs : ListLibs.
Proof.
  refine (mkListLibs demo_like (λ _ _, Lt) (λ c, digits (cursor_code c))
    (λ l, cursor_decode (undigits l)) String.string_of_list_byte
    (λ s, inr (String.list_byte_of_string s)) _ _).
  - intros [v i] [_ Hv]. rewrite undigits_digits. unfold cursor_decode, cursor_code.
    simpl in *. destruct v; try done; by rewrite decode_encode.
  - intros l. by rewrite String.list_byte_of_string_of_list_byte.
Defined.

#[export] Instance demo_jsontext : JsonText := mkJsonText (λ _, "{}"%string) (λ _, None) (λ _, Some EmptyString).

(** ** Queries, bodies and configuration files *)

Definition demo_text {A} `{Countable A} (a : A) : bytes := digits (encode a).
Definition demo_untext {A} `{Countable A} (l : bytes) : option A := decode (undigits l).
Lemma demo_untext_text {A} `{Countable A} (a : A) : demo_untext (demo_text a) = Some a.
Proof. unfold demo_untext, demo_text. by rewrite undigits_digits, decode_encode. Qed.

Definition demo_rejection : Response := mkResponse BAD_REQUEST [] BodyEmpty.
Definition or_reject {A} (o : option A) : Response + A :=
  match o with Some a => inr a | None => inl demo_rejection end.

(** [B] is coded in the countable type [A]. *)
Definition query_out {A B} `{Countable A} (f : B → A) (b : B) : string :=
  String.string_of_list_byte (demo_text (f b)).
Definition query_in {A B} `{Countable A} (g : A → B) (q : string) : Response + B :=
  or_reject (g <$> demo_untext (String.list_byte_of_string q)).
Definition body_out {A B} `{Countable A} (f : B → A) (b : B) : list (IoError + bytes) := [inr (demo_text (f b))].
Definition body_in {A B} `{Countable A} (g : A → B) (l : list (IoError + bytes)) : Response + B :=
  match l with [inr b] => or_reject (g <$> demo_untext b) | _ => inl demo_rejection end.
Lemma query_in_out {A B} `{Countable A} (f : B → A) (g : A → B) b :
  g (f b) = b → query_in g (query_out f b) = inr b.
Proof.
  intros Hgf. unfold query_in, query_out.
  rewrite String.list_byte_of_string_of_list_byte, demo_untext_text. simpl. by rewrite Hgf.
Qed.
Lemma body_in_out {A B} `{Countable A} (f : B → A) (g : A → B) b :
  g (f b) = b → body_in g (body_out f b) = inr b.
Proof. intros Hgf. unfold body_in, body_out. rewrite demo_untext_text. simpl. by rewrite Hgf. Qed.

Definition list_query_code (q : ListQuery) :=
  (q_kind q, q_pinned q, q_path_prefix q, q_sort q, (q_order q, q_limit q, q_cursor q, q_count q)).
Definition list_query_of x :=
  let '(k, p, pp, s, (o, l, c, n)) := x in mkListQuery k p pp s o l c n.
Definition role_code (r : Role) : bool := match r with Read => false | Write => true end.
Definition role_of (b : bool) : Role := if b then Write else Read.
Definition field_code (f : JsonField Z) : option (option Z) :=
  match f with Absent => None | Null => Some None | Value z => Some (Some z) end.
Definition field_of (o : option (option Z)) : JsonField Z :=
  match o with None => Absent | Some None => Null | Some (Some z) => Value z end.

#[export] Instance demo_extract : Extract :=
  mkExtract demo_rejection (query_in list_query_of) (query_in (A := bool) id)
    (query_in (A := option Z * option Z) id)
    (body_in (A := string * option Z * option Z) id)
    (body_in (λ '(n, q, l), (n, field_of q, field_of l)))
    (body_in (λ '(r, l), (role_of r, l))) (body_in (A := option string) id).
#[export] Instance demo_render : Render.
Proof.
  refine (mkRender _ (query_out list_query_code) (query_out (A := bool) id)
    (λ a b, query_out (A := option Z * option Z) id (a, b))
    (λ a b c, body_out (A := string * option Z * option Z) id (a, b, c))
    (λ n q l, body_out (λ '(n, q, l), (n, field_code q, field_code l)) (n, q, l))
    (λ r l, body_out (λ '(r, l), (role_code r, l)) (r, l))
    (body_out (A := option string) id) _ _ _ _ _ _ _);
    intros; apply query_in_out || apply body_in_out; try done.
  - by destruct q.
  - by destruct b, c as [| |].
  - by destruct a.
Defined.

(** A body up to a limit; the chunk that crosses it is replaced by an error. *)
Definition demo_too_long : IoError := mkIoError IoOtherKind "length limit exceeded".
Fixpoint cut_body (limit : Z) (b : list (IoError + bytes)) : list (IoError + bytes) :=
  match b with
  | [] => []
  | inl e :: b => inl e :: cut_body limit b
  | inr c :: b =>
      if Z.of_nat (length c) <=? limit then inr c :: cut_body (limit - Z.of_nat (length c)) b
      else [inl demo_too_long]
  end.
Lemma cut_body_beyond b : ∀ limit, limit < body_size b → 0 <= limit → ∃ e, inl e ∈ cut_body limit b.
Proof.
  induction b as [|[e|c] b IH]; intros limit Hlt H0; [by unfold body_size in Hlt; simpl in Hlt; lia| |].
  - exists e. left.
  - change (body_size (inr c :: b)) with (Z.of_nat (length c) + body_size b) in Hlt. simpl.
    destruct (Z.leb_spec (Z.of_nat (length c)) limit); [|exists demo_too_long; left].
    destruct (IH (limit - Z.of_nat (length c))) as [e He]; [lia|lia|]. exists e. by right.
Qed.
#[export] Instance demo_body_limit : BodyLimit.
Proof.
  refine (mkBodyLimit (λ limit i,
    if decide (announced_beyond limit i) then inl (mkResponse PAYLOAD_TOO_LARGE [] BodyEmpty)
    else if body_size (body (in_request i)) <=? limit then inr (body (in_request i))
    else inr (if 0 <=? limit then cut_body limit (body (in_request i)) else [inl demo_too_long])) _ _ _).
  - intros limit i Ha. rewrite decide_True by done. by eexists.
  - intros limit i Ha _ Hle. rewrite decide_False by done. by apply Z.leb_le in Hle as ->.
  - intros limit i Ha Hlt. rewrite decide_False by done. apply Z.leb_gt in Hlt as Heq. rewrite Heq.
    destruct (Z.leb_spec 0 limit) as [H0|H0].
    + destruct (cut_body_beyond _ _ Hlt H0) as [e He]. eauto.
    + eexists _, demo_too_long. split; [done|]. left.
Defined.

Definition demo_raw_config : RawConfig :=
  mkRawConfig (Some (mkRawServer (Some "127.0.0.1:9090") (Some "/srv/marmotte") None None))%string
    (Some (Some "/srv/marmotte.db", None))%string
    (Some (mkRawGc None (Some 30) (Some 365) (Some 1000) None)) None None.
#[export] Instance demo_figment : Figment :=
  mkFigment (λ path, if String.eqb path "config.toml" then inr demo_raw_config else inl "no such file"%string)
    (λ _, "missing field"%string) Some.

(** Standard streams that take everything. *)
#[export] Instance demo_stdio : Stdio := mkStdio (λ _, None) (λ _, false).

(** Reading a column of a row. *)
Definition demo_no_column : SqlxError := SqlxOther "no such column".
#[export] Instance demo_try_get : TryGet.
Proof.
  refine (mkTryGet
    (λ row c, match row !! c with Some (SqlInteger z) => Ok z | _ => Err demo_no_column end)
    (λ row c, match row !! c with Some (SqlText s) => Ok s | _ => Err demo_no_column end)
    (λ row c, match row !! c with
              | Some (SqlInteger z) => Ok (Some z) | Some SqlNull => Ok None
              | _ => Err demo_no_column end)
    (λ row c, match row !! c with
              | Some (SqlText s) => Ok (Some s) | Some SqlNull => Ok None
              | _ => Err demo_no_column end) _ _ _ _ _ _ _);
    intros row c *; intros ->; eauto.
Defined.

(** ** SQLite *)

(** A database that opens whenever it is there or may be made, and migrations that run. *)
Definition demo_open (o : SqliteConnectOptions) (d : option DbFile) : (SqlxError + unit) * option DbFile :=
  match d with
  | Some d => (inr tt, Some d)
  | None => if co_create_if_missing o || co_in_memory o then (inr tt, Some empty_database)
            else (inl (SqlxDatabase (Some "14") "unable to open database file"), None)
  end.
Definition demo_migrate (l : list MigrationFile) (d : DbFile) : (string + unit) * DbFile :=
  match apply_pending l d with inl e => (inl e, d) | inr d' => (inr tt, d') end.
#[export] Instance demo_sqlx : Sqlx.
Proof.
  refine (mkSqlx (mkConnectOptions ":memory:" false false None SynchronousFull 5000 true) eq_refl
    (λ o d _, demo_open o d) _ _ (λ l d _, demo_migrate l d) _ _).
  - by intros o d n.
  - intros o n r d. unfold demo_open. destruct (_ || _) eqn:Hc; intros [= <- <-]; [by right|by left].
  - intros l d n d'. unfold demo_migrate. by destruct (apply_pending l d) as [e|d1]; intros [= <-].
  - intros l d n e d'. unfold demo_migrate. destruct (apply_pending l d) as [e1|d1]; intros [= <- <-].
    by exists [], l.
Defined.

(** ** A server with some content *)

Definition demo_gc : GcConfig := mkGcConfig 300 1 0 1000 90.
Definition demo_config : Config :=
  mkConfig (mkServerConfig "127.0.0.1:8080" "/srv/marmotte" 300 5368709120)
    (mkDatabaseConfig "/srv/marmotte.db" 5000) demo_gc (mkAuthConfig 100 60)
    (mkLoggingConfig "info" Pretty).

Definition demo_admin : AdminAuth := mkAdminAuth 1 (Some "init"%string).
Definition demo_writer : ProjectAuth := mkProjectAuth 1 "alpha" 1 Write.
Definition demo_reader : ProjectAuth := mkProjectAuth 1 "alpha" 2 Read.

Definition content_a : bytes := [Byte.x01; Byte.x02; Byte.x03].
Definition content_b : bytes := [Byte.x04; Byte.x05; Byte.x06; Byte.x08].

(** Two projects, a key, and three entries of the first project: two with the same
    content, one of them pinned, on a quota of five bytes. *)
Definition demo_setup : M CoreError App unit :=
  let* _ := create_project demo_admin "alpha" (Some 5) None in
  let* _ := create_project demo_admin "beta" None None in
  let* _ := create_key demo_admin 1 Write None in
  let* _ := put_handler demo_config demo_writer Sstate "alpha" "a" [inr content_a] in
  let* _ := put_handler demo_config demo_writer Sstate "alpha" "b" [inr [Byte.x04; Byte.x05]; inr [Byte.x06; Byte.x08]] in
  let* _ := put_handler demo_config demo_writer Downloads "alpha" "c" [inr content_a] in
  let* _ := pin demo_admin 1 1 in
  ret tt.

Definition demo_app : App := (demo_setup (fresh demo_config) 0%nat).1.2.
Definition demo_sys : Sys := app_sys demo_app.
Definition demo_db : Tables := demo_sys.1.
Definition demo_store : Fs := demo_sys.2.

Lemma demo_setup_keeps : Keeps demo_setup.
Proof. unfold demo_setup, create_project, create_key, pin, audit. does_go. Qed.
Lemma demo_app_ok : app_ok demo_app.
Proof. exact (proj1 (demo_setup_keeps (fresh demo_config) (fresh_ok _) 0%nat)). Qed.
Lemma demo_sys_ok : sys_ok demo_sys.
Proof. exact (ao_sys _ demo_app_ok). Qed.
Lemma demo_schema_ok : schema_ok demo_db.
Proof. exact (ro_schema _ (sys_refs _ demo_sys_ok)). Qed.
Lemma demo_store_ok : store_ok demo_store.
Proof. exact (sys_store _ demo_sys_ok). Qed.
Lemma demo_opened : opened demo_store.
Proof. exact (ao_opened _ demo_app_ok). Qed.

(** The set-up ran to its end. *)
Example demo_setup_runs :
  (demo_setup (fresh demo_config) 0%nat).1.1 = Ok tt ∧
  (e_path <$> rows (entries demo_db)) = ["c"; "b"; "a"]%string ∧
  project_usage demo_db 1 = 10 ∧ total_size demo_db = 7.
Proof. split_and!; vm_compute; reflexivity. Qed.

(** The tables' numbers are in range: checked row by row. *)
Definition entries_check (p : Entry → bool) (t : Tables) : bool :=
  forallb (λ ie, p ie.2) (map_to_list (entries t)).
Lemma entries_check_spec p t :
  entries_check p t = true → ∀ i e, entries t !! i = Some e → p e = true.
Proof.
  unfold entries_check. rewrite forallb_forall. intros H i e Hi.
  apply (H (i, e)). apply list_elem_of_In, elem_of_map_to_list, Hi.
Qed.
Definition in_i64b (z : Z) : bool := (- 2 ^ 63 <=? z) && (z <? 2 ^ 63).
Lemma in_i64b_spec z : in_i64b z = true → in_i64 z.
Proof. unfold in_i64b, in_i64. rewrite andb_true_iff, Z.leb_le, Z.ltb_lt. done. Qed.

Lemma demo_sizes_nonneg : sizes_nonneg demo_db.
Proof.
  intros i e Hi. apply Z.leb_le. revert i e Hi.
  apply (entries_check_spec (λ e, 0 <=? e_size_bytes e)). by vm_compute.
Qed.
Lemma demo_rows_in_i64 : rows_in_i64 demo_db.
Proof.
  intros i e Hi.
  assert ((in_i64b (e_id e) && (in_i64b (e_last_accessed e) && in_i64b (e_size_bytes e))) = true) as H.
  { revert i e Hi. apply (entries_check_spec (λ e, in_i64b (e_id e) &&
      (in_i64b (e_last_accessed e) && in_i64b (e_size_bytes e)))). by vm_compute. }
  apply andb_prop in H as [H1 [H2 H3]%andb_prop]. auto using in_i64b_spec.
Qed.

(** The usage of a project is at most the sum of all sizes. *)
Lemma demo_usage_in_i64 p : in_i64 (project_usage demo_db p).
Proof.
  destruct (decide (p = 1)) as [->|Hne]; [by vm_compute|].
  assert (project_usage demo_db p = 0) as ->; [|by vm_compute].
  apply sum_map_zero. intros i e Hi.
  assert (e_project_id e = 1) as ->; [|clear Hi; destruct (Z.eqb_spec 1 p); [congruence|reflexivity]].
  apply Z.eqb_eq. revert i e Hi. apply (entries_check_spec (λ e, e_project_id e =? 1)). by vm_compute.
Qed.

(** ** A run of the server *)

Definition secret_at (n : nat) : string := String.string_of_list_byte (demo_rand n 32).
Definition demo_bearer (n : nat) : Headers := Some ("Bearer " +:+ secret_at n).
Definition demo_basic (project : string) (n : nat) : Headers := Some (basic_header project (secret_at n)).

Definition served (req : Request) (n : nat) (s : App) : App := (handle demo_config req s n).1.2.

(** [init] prints the secret of the first token; with it a project and a key are
    made, and with the key an entry is stored. *)
Definition trace1 : App := (init_run (fresh demo_config) 0%nat).1.2.
Definition trace2 : App := served (AdminApi (demo_bearer 7) (CreateProject "alpha" (Some 5) None)) 100 trace1.
Definition trace3 : App := served (AdminApi (demo_bearer 7) (CreateKey 1 Write None)) 200 trace2.
Definition trace4 : App :=
  served (Yocto (demo_basic "alpha" 205) (PutEntry Sstate "alpha" "a" [inr content_a])) 300 trace3.

Lemma demo_step1 : server_does demo_config EvInit (fresh demo_config) trace1.
Proof. by eapply does_init with (n := 0%nat). Qed.
Lemma demo_served req n s : server_does demo_config (EvRequest req) s (served req n s).
Proof. by eapply does_request with (n := n). Qed.

Lemma demo_reachable3 : rtc (server_step demo_config) (fresh demo_config) trace3.
Proof.
  apply (rtc_l _ _ trace1); [eexists; apply demo_step1|].
  apply (rtc_l _ _ trace2); [eexists; apply demo_served|].
  apply rtc_once. eexists. apply demo_served.
Qed.
Lemma demo_reachable : rtc (server_step demo_config) (fresh demo_config) trace4.
Proof. eapply rtc_r; [apply demo_reachable3|]. eexists. apply demo_served. Qed.

(** None of these requests deletes a project. *)
Lemma demo_keeping :
  rtc (λ s s', ∃ ev, server_does demo_config ev s s' ∧
         ∀ req, ev = EvRequest req → keeps_projects req = true) (fresh demo_config) trace4.
Proof.
  apply (rtc_l _ _ trace1); [by exists EvInit; split; [exact demo_step1|]|].
  apply (rtc_l _ _ trace2); [eexists; split; [apply demo_served|by intros req [= <-]]|].
  apply (rtc_l _ _ trace3); [eexists; split; [apply demo_served|by intros req [= <-]]|].
  apply rtc_once. eexists. split; [apply demo_served|]. by intros req [= <-].
Qed.

(** ** Logins *)

(** The scheduler that always goes on with the first pending login. *)
Definition drive_one (w : Station) : Station :=
  match st_logins w with
  | [] => w
  | lg :: lgs =>
      match login_step lg (st_state w) (st_now w) with
      | (Ok (inl st), s', n') => mkStation (Nat.max (st_now w) n') s' (advance lg st :: lgs)
      | (_, s', n') => mkStation (Nat.max (st_now w) n') s' lgs
      end
  end.
Fixpoint drive (k : nat) (w : Station) : Station :=
  match k with O => w | S k => drive k (drive_one w) end.
Definition arrive (name api_key : string) (w : Station) : Station :=
  mkStation (st_now w) (st_state w) (st_logins w ++ [mkLogin name api_key Arrived]).

Lemma drive_one_moves w : rtc login_move w (drive_one w).
Proof.
  destruct w as [now s [|lg lgs]]; unfold drive_one; simpl; [apply rtc_refl|].
  destruct (login_step lg s now) as [[[[st|a]|e|f] s'] n'] eqn:Hrun; apply rtc_once.
  - by apply (move_on now s [] lg lgs now st s' n').
  - by eapply (move_end now s [] lg lgs now _ s' n').
  - by eapply (move_end now s [] lg lgs now _ s' n').
  - by eapply (move_end now s [] lg lgs now _ s' n').
Qed.
Lemma drive_moves k w : rtc login_move w (drive k w).
Proof.
  revert w. induction k as [|k IH]; intros w; [apply rtc_refl|]. simpl.
  etransitivity; [apply drive_one_moves|apply IH].
Qed.
Lemma arrive_moves name api_key w : rtc login_move w (arrive name api_key w).
Proof. destruct w. apply rtc_once, move_arrive. Qed.

(** ** Sweeps *)

(** Up to [k] steps of a sweep in a row. *)
Fixpoint sweep_for (k : nat) (cfg : GcConfig) (dry_run : bool) (sw : Sweep)
    : M CoreError Sys (Sweep + GcReport) :=
  match k with
  | O => ret (inl sw)
  | S k =>
      let* next := sweep_step cfg dry_run sw in
      match next with
      | inl sw => sweep_for k cfg dry_run sw
      | inr rep => ret (inr rep)
      end
  end.

(** The same on the server, as moves; a step that would tear is not taken. *)
Fixpoint sweep_drive (k : nat) (n : nat) (x : Sweeping) : Sweeping :=
  match k, x with
  | S k, (s, Some (dry_run, sw)) =>
      if decide (tears dry_run sw.1 (app_db s)) then x
      else match zoom lens_sys (sweep_step (gc demo_config) dry_run sw) s n with
           | (Ok (inl sw), s, n) => sweep_drive k n (s, Some (dry_run, sw))
           | (_, s, _) => (s, None)
           end
  | _, _ => x
  end.
Lemma sweep_drive_own k n x : rtc (sweep_own demo_config) x (sweep_drive k n x).
Proof.
  revert n x. induction k as [|k IH]; intros n [s [[d sw]|]]; [apply rtc_refl..| |apply rtc_refl].
  simpl. case_decide as Ht; [apply rtc_refl|].
  destruct (zoom lens_sys _ s n) as [[[[sw'|rep]|e|w] s'] n'] eqn:Hrun.
  - eapply rtc_l; [exact (own_step demo_config d sw s n sw' s' n' Ht Hrun)|apply IH].
  - apply rtc_once. refine (own_end demo_config d sw s n _ s' n' Ht Hrun _). discriminate.
  - apply rtc_once. refine (own_end demo_config d sw s n _ s' n' Ht Hrun _). discriminate.
  - apply rtc_once. refine (own_end demo_config d sw s n _ s' n' Ht Hrun _). discriminate.
Qed.
