(* ===== verification/Scenarios.v ===== *)
(** * The unit tests of the code, run on the model

    The unit tests of [marmotte-core] and of [marmotte-server/src/error.rs] are
    translated here as the Rust code has them, with [assert!] and [unwrap()] as panics,
    and run: [unit_tests_pass].  A test that passes in the code and panicked here would
    show a definition that is not the code's.  Left out are the two tests of things that
    are parameters here: [pragmas_applied] (SQLite) and [env_var_overrides_toml] (figment).  The digests of
    [test_hash] are not SHA-256, so contents are compared through [sha256_hex]. *)
From stdpp Require Import base numbers list strings gmap sorting pretty.
From Stdlib Require Import ZArith Lia Init.Byte.
From S2P Require Import Prelude Models Db Blobs Entries Projects Credentials Stats Storage DiskWalk Config Gc GcRun Orphans Auth Http Listing App Server Connect Demo.

(** ** The world of the tests *)

(** A digest that tells contents apart: a number in base 131, in 64 digits. *)
Fixpoint hex_fixed (k : nat) (n : N) : string :=
  match k with O => EmptyString | S k => String (hex_digit (n mod 16)) (hex_fixed k (n / 16)) end.
Definition test_hash (b : bytes) : string :=
  hex_fixed 64 (foldl (λ h x, (h * 131 + Byte.to_N x) mod 2 ^ 256)%N 7%N b).

Lemma hex_fixed_length k n : String.length (hex_fixed k n) = k.
Proof. revert n. induction k as [|k IH]; intros n; simpl; [done|]. by rewrite IH. Qed.
Lemma hex_fixed_lower k n : forall_chars is_hex_lower (hex_fixed k n) = true.
Proof.
  revert n. induction k as [|k IH]; intros n; [done|]. cbn [hex_fixed forall_chars].
  rewrite hex_digit_lower by (by apply N.mod_lt). apply IH.
Qed.
#[local] Instance test_sha : Sha256.
Proof.
  refine (mkSha256 test_hash _). intros b. unfold is_hash, test_hash.
  by rewrite hex_fixed_length, hex_fixed_lower.
Defined.

(** A version 4 UUID has 36 characters. *)
Definition test_uuid (n : nat) : string := hex_fixed 32 (N.of_nat n) +:+ "-4-8".
#[local] Instance test_fsenv : FsEnv := mkFsEnv (λ _, None) test_uuid.

(** base64's URL-safe alphabet without padding, and random bytes that differ. *)
Definition b64_digit (n : N) : Ascii.ascii :=
  Ascii.ascii_of_N (if n <? 26 then 65 + n else if n <? 52 then 71 + n else if n <? 62 then n - 4
                    else if n =? 62 then 45 else 95)%N.
Fixpoint b64_digits (k : nat) (n : N) : string :=
  match k with O => EmptyString | S k => b64_digits k (n / 64) +:+ String (b64_digit (n mod 64)) EmptyString end.
Fixpoint b64_url (l : bytes) : string :=
  match l with
  | a :: b :: c :: l => b64_digits 4 ((Byte.to_N a * 256 + Byte.to_N b) * 256 + Byte.to_N c) +:+ b64_url l
  | [a; b] => b64_digits 3 ((Byte.to_N a * 256 + Byte.to_N b) * 4)
  | [a] => b64_digits 2 (Byte.to_N a * 16)
  | [] => EmptyString
  end.
Definition test_rand (n len : nat) : bytes :=
  (λ i, default Byte.x00 (Byte.of_N ((N.of_nat i * 89 + N.of_nat n) mod 256))) <$> seq 0 len.
#[local] Instance test_authenv : AuthEnv.
Proof.
  refine (mkAuthEnv test_rand Z.of_nat _ (λ _, None) b64_url).
  intros n m H. by apply Nat2Z.inj_le.
Defined.

(** ** Tests as computations *)

Section asserts.
Context {E S : Type}.

Definition assert (b : bool) : M CoreError S unit := if b then ret tt else halt Panicked.
Definition unwrap {A} (m : M E S A) : M CoreError S A := λ s n,
  match m s n with
  | (Ok a, s', n') => (Ok a, s', n')
  | (Err _, s', n') => (Stop Panicked, s', n')
  | (Stop w, s', n') => (Stop w, s', n')
  end.
Definition unwrap_err {A} (m : M E S A) : M CoreError S E := λ s n,
  match m s n with
  | (Ok _, s', n') => (Stop Panicked, s', n')
  | (Err e, s', n') => (Ok e, s', n')
  | (Stop w, s', n') => (Stop w, s', n')
  end.
Definition unwrap_opt {A} (o : option A) : M CoreError S A :=
  match o with Some a => ret a | None => halt Panicked end.
End asserts.

Definition assert_eq {S A} `{EqDecision A} (a b : A) : M CoreError S unit := assert (bool_decide (a = b)).
Definition is_some {A} (o : option A) : bool := match o with Some _ => true | None => false end.
Definition is_none {A} (o : option A) : bool := negb (is_some o).

(** [connect_memory] and an empty directory. *)
Definition passes {S} (m : M CoreError S unit) (s : S) : bool :=
  match (m s 0%nat).1.1 with Ok _ => true | _ => false end.
Definition no_files : Fs := mkFs ∅ ∅.

Definition is_not_found (e : CoreError) : bool := match e with NotFound _ => true | _ => false end.
Definition is_conflict (e : CoreError) : bool := match e with Conflict _ => true | _ => false end.
Definition is_database (e : CoreError) : bool := match e with Database _ => true | _ => false end.
Definition is_unauthorized (e : CoreError) : bool := match e with Unauthorized => true | _ => false end.
Definition rep64 (s : string) : string := String.concat EmptyString (repeat s 64).

(** ** [models.rs] *)

Definition role_round_trips_via_str : M CoreError unit unit :=
  assert_eq (Role_as_str Read) "read" ;*
  assert_eq (Role_as_str Write) "write" ;*
  assert (match Role_from_str "read" with Ok Read => true | _ => false end) ;*
  assert (match Role_from_str "write" with Ok Write => true | _ => false end) ;*
  assert (negb (is_ok (Role_from_str "admin"))).
Definition kind_round_trips_via_str : M CoreError unit unit :=
  assert_eq (Kind_as_str Sstate) "sstate" ;*
  assert_eq (Kind_as_str Downloads) "downloads" ;*
  assert (match Kind_from_str "sstate" with Ok Sstate => true | _ => false end) ;*
  assert (negb (is_ok (Kind_from_str "npm"))).
Definition write_role_implies_read : M CoreError unit unit :=
  assert (Role_allows_read Write) ;*
  assert (Role_allows_read Read) ;*
  assert (Role_allows_write Write) ;*
  assert (negb (Role_allows_write Read)).

(** ** [error.rs] *)

Definition not_found_renders_a_human_message : M CoreError unit unit :=
  assert_eq (CoreError_to_string (NotFound "entry: foo/bar")) "not found: entry: foo/bar".
Definition forbidden_carries_reason : M CoreError unit unit :=
  assert (contains "cross-project access" (CoreError_to_string (Forbidden "cross-project access"))).

(** ** [db/projects.rs] *)

Definition create_then_get_by_name : M CoreError Tables unit :=
  let* p := unwrap (Projects_create "acme" (Some 1024) None) in
  assert_eq (p_name p) "acme" ;*
  let* by_name := unwrap (Projects_get_by_name "acme") in
  assert_eq (p_id by_name) (p_id p).
Definition duplicate_name_is_conflict : M CoreError Tables unit :=
  let* _ := unwrap (Projects_create "acme" None None) in
  let* e := unwrap_err (Projects_create "acme" None None) in
  assert (is_conflict e).
Definition update_quota : M CoreError Tables unit :=
  let* p := unwrap (Projects_create "acme" None None) in
  let* updated := unwrap (Projects_update (p_id p) None (Some (Some 2048)) None) in
  assert_eq (p_quota_bytes updated) (Some 2048).
Definition delete_unknown_returns_not_found : M CoreError Tables unit :=
  let* e := unwrap_err (Projects_delete 999) in
  assert (is_not_found e).

(** ** [db/api_keys.rs], [db/admin_tokens.rs] *)

Definition fresh_pid : M CoreError Tables Z :=
  let* p := unwrap (Projects_create "acme" None None) in ret (p_id p).

Definition create_then_find : M CoreError Tables unit :=
  let* pid := fresh_pid in
  let* _ := unwrap (ApiKeys_create pid "lookup1" "hash1" Read (Some "ci"%string)) in
  let* found := unwrap (ApiKeys_find_active_by_lookup pid "lookup1") in
  let* k := unwrap_opt found in
  assert (match k_role k with Read => true | Write => false end).
Definition revoke_hides_from_active_lookup : M CoreError Tables unit :=
  let* pid := fresh_pid in
  let* k := unwrap (ApiKeys_create pid "lookup1" "hash1" Read None) in
  unwrap (ApiKeys_revoke pid (k_id k)) ;*
  let* found := unwrap (ApiKeys_find_active_by_lookup pid "lookup1") in
  assert (is_none found).
Definition duplicate_lookup_fails : M CoreError Tables unit :=
  let* pid := fresh_pid in
  let* _ := unwrap (ApiKeys_create pid "lookup1" "h1" Read None) in
  let* e := unwrap_err (ApiKeys_create pid "lookup1" "h2" Write None) in
  assert (is_database e).
Definition create_find_revoke : M CoreError Tables unit :=
  let* t := unwrap (AdminTokens_create "look" "hash" (Some "root"%string)) in
  let* found := unwrap (AdminTokens_find_active_by_lookup "look") in
  assert (is_some found) ;*
  unwrap (AdminTokens_revoke (t_id t)) ;*
  let* found := unwrap (AdminTokens_find_active_by_lookup "look") in
  assert (is_none found).

(** ** [db/blobs.rs], [db/stats.rs] *)

Definition upsert_incr_then_decr : M CoreError Tables unit :=
  unwrap (transaction (
    let* existed := unwrap (Blobs_upsert_incr "deadbeef" 100) in
    assert (negb existed) ;*
    let* existed := unwrap (Blobs_upsert_incr "deadbeef" 100) in
    assert existed ;*
    let* r := unwrap (Blobs_decr "deadbeef") in
    assert_eq r 1 ;*
    let* r := unwrap (Blobs_decr "deadbeef") in
    assert_eq r 0)) ;*
  let* zero := unwrap (Blobs_zero_refcount 10) in
  assert_eq zero ["deadbeef"%string].
Definition total_size_sums_existing_blobs : M CoreError Tables unit :=
  unwrap (transaction (
    let* _ := unwrap (Blobs_upsert_incr (rep64 "a") 100) in
    let* _ := unwrap (Blobs_upsert_incr (rep64 "b") 250) in
    ret tt)) ;*
  let* total := unwrap Blobs_total_size in
  assert_eq total 350.
Definition bump_then_sum : M CoreError Tables unit :=
  unwrap (Stats_bump None "hit" 3 1000) ;*
  unwrap (Stats_bump None "hit" 2 500) ;*
  let* cb := unwrap (Stats_sum None "hit" 0) in
  assert_eq cb (5, 1500).
Definition audit_round_trip : M CoreError Tables unit :=
  unwrap (Stats_audit (Some "root"%string) "project.create" (Some "acme"%string) (Some "{id: 1}"%string)) ;*
  let* rows := unwrap (Stats_audit_since 0 10) in
  assert_eq (length rows) 1%nat ;*
  let* row := unwrap_opt (head rows) in
  assert_eq (ar_action row) "project.create".

(** ** [db/entries.rs] *)

Definition upsert_increments_refcount_when_blob_is_new : M CoreError Tables unit :=
  let* pid := fresh_pid in
  let h := rep64 "a" in
  let* _ := unwrap (Entries_upsert pid Sstate "foo" h 10) in
  let* b := unwrap (Blobs_get h) in
  let* b := unwrap_opt b in
  assert_eq (b_refcount b) 1.
Definition upsert_replaces_blob_decrements_old : M CoreError Tables unit :=
  let* pid := fresh_pid in
  let h1 := rep64 "a" in
  let h2 := rep64 "b" in
  let* _ := unwrap (Entries_upsert pid Sstate "foo" h1 10) in
  let* _ := unwrap (Entries_upsert pid Sstate "foo" h2 20) in
  let* b1 := unwrap (Blobs_get h1) in
  let* b1 := unwrap_opt b1 in
  assert_eq (b_refcount b1) 0 ;*
  let* b2 := unwrap (Blobs_get h2) in
  let* b2 := unwrap_opt b2 in
  assert_eq (b_refcount b2) 1.
Definition delete_decrements_refcount : M CoreError Tables unit :=
  let* pid := fresh_pid in
  let h := rep64 "a" in
  let* e := unwrap (Entries_upsert pid Sstate "foo" h 10) in
  unwrap (Entries_delete pid (e_id e)) ;*
  let* b := unwrap (Blobs_get h) in
  let* b := unwrap_opt b in
  assert_eq (b_refcount b) 0.

(** The [loop] of the test: five entries in pages of two, so three rounds are enough. *)
Fixpoint collect_pages (fuel : nat) (pid : Z) (filter : ListFilter) (got : list string)
    : M CoreError Tables (list string) :=
  match fuel with
  | O => halt OutOfFuel
  | S fuel =>
      let* page := unwrap (Entries_list pid filter) in
      let got := got ++ (e_path <$> page_entries page) in
      match page_next_cursor page with
      | Some c => collect_pages fuel pid (with_cursor c filter) got
      | None => ret got
      end
  end.
Definition pagination_traverses_all_with_cursor : M CoreError Tables unit :=
  let* pid := fresh_pid in
  let* _ := foldM (λ _ i, unwrap (Entries_upsert pid Sstate ("p/" +:+ i) (String.concat EmptyString (repeat "0" 63) +:+ i) 10) ;* ret tt)
    tt ["0"; "1"; "2"; "3"; "4"]%string in
  let* got := collect_pages 3 pid (mkListFilter None None None (Some Path) (Some Asc) (Some 2) None) [] in
  assert_eq got ["p/0"; "p/1"; "p/2"; "p/3"; "p/4"]%string.
Definition pin_excludes_from_pinned_filter : M CoreError Tables unit :=
  let* pid := fresh_pid in
  let h := rep64 "a" in
  let* e := unwrap (Entries_upsert pid Sstate "foo" h 10) in
  let* _ := unwrap (Entries_set_pinned pid (e_id e) true) in
  let* page := unwrap (Entries_list pid (mkListFilter None (Some false) None None None None None)) in
  assert (match page_entries page with [] => true | _ => false end).

(** ** [storage.rs] *)

Definition test_root : string := "/tmp/store".
Definition exists_path (p : path) : M CoreError Fs bool := gets (λ fs, is_some (fs_files fs !! p)).
Definition tmp_is_empty : M CoreError Fs bool :=
  gets (λ fs, match filter (λ p : path * bytes, head p.1 = Some "tmp"%string) (map_to_list (fs_files fs)) with
              | [] => true | _ => false end).
Definition chunks (l : list string) : list (IoError + bytes) := (λ s, inr (as_bytes s)) <$> l.

Definition init_creates_layout : M CoreError Fs unit :=
  unwrap LocalFsStore_open ;*
  let* dirs := gets fs_dirs in
  assert (bool_decide (["blobs"%string] ∈ dirs) && bool_decide (["tmp"%string] ∈ dirs)).
Definition open_purges_existing_tmp_files : M CoreError Fs unit :=
  unwrap (fs_create_dir_all ["tmp"%string]) ;*
  unwrap (fs_create ["tmp"; "leftover"]%string) ;*
  unwrap (fs_write_all ["tmp"; "leftover"]%string (as_bytes "junk")) ;*
  unwrap LocalFsStore_open ;*
  let* leftover := exists_path ["tmp"; "leftover"]%string in
  assert (negb leftover).
Definition write_streamed_returns_hash_and_writes_file : M CoreError Fs unit :=
  unwrap LocalFsStore_open ;*
  let* written := unwrap (LocalFsStore_write_streamed test_root (chunks ["hello "; "world"]%string)) in
  assert_eq (w_hash written) (sha256_hex (as_bytes "hello world")) ;*
  assert_eq (w_size_bytes written) 11 ;*
  let* p := LocalFsStore_blob_path (w_hash written) in
  let* there := exists_path p in
  assert there.
Definition write_streamed_dedups_existing_blob : M CoreError Fs unit :=
  unwrap LocalFsStore_open ;*
  let* a := unwrap (LocalFsStore_write_streamed test_root (chunks ["abc"%string])) in
  let* b := unwrap (LocalFsStore_write_streamed test_root (chunks ["abc"%string])) in
  assert_eq (w_hash a) (w_hash b) ;*
  let* empty := tmp_is_empty in
  assert empty.
Definition read_streamed_returns_full_body : M CoreError Fs unit :=
  unwrap LocalFsStore_open ;*
  let* w := unwrap (LocalFsStore_write_streamed test_root (chunks ["hello"%string])) in
  let* buf := unwrap (LocalFsStore_read_blob (w_hash w)) in
  assert_eq (String.string_of_list_byte buf) "hello".
Definition read_missing_blob_is_not_found : M CoreError Fs unit :=
  unwrap LocalFsStore_open ;*
  let* e := unwrap_err (LocalFsStore_read_blob (rep64 "a")) in
  assert (is_not_found e).
Definition delete_blob_removes_file : M CoreError Fs unit :=
  unwrap LocalFsStore_open ;*
  let* w := unwrap (LocalFsStore_write_streamed test_root (chunks ["x"%string])) in
  unwrap (LocalFsStore_delete_blob (w_hash w)) ;*
  let* p := LocalFsStore_blob_path (w_hash w) in
  let* there := exists_path p in
  assert (negb there).

(** ** [gc.rs] *)

Definition fixture_gc : GcConfig := mkGcConfig 60 1 7 (1024 * 1024) 90.
Definition fixture : M CoreError Sys unit := unwrap (on_fs LocalFsStore_open).
Definition acme (quota : option Z) : M CoreError Sys Z :=
  let* p := unwrap (on_db (Projects_create "acme" quota None)) in ret (p_id p).

(** Writes a blob, makes an entry of it, and backdates the entry. *)
Definition put_entry (project : Z) (path : string) (age_secs : Z) : M CoreError Sys string :=
  let* u := on_fs new_uuid in
  let* w := unwrap (on_fs (LocalFsStore_write_streamed test_root (chunks ["body-" +:+ path +:+ "-" +:+ u]))) in
  let* e := unwrap (on_db (Entries_upsert project Sstate path (w_hash w) (w_size_bytes w))) in
  let* now := now_unix in
  on_db (modify (λ t, set_entries (alter (set_last_accessed (now - age_secs)) (e_id e) (entries t)) (seq_entries t) t)) ;*
  ret (w_hash w).
Definition find_entry (p : Z) (path : string) : M CoreError Sys (option Entry) :=
  unwrap (on_db (Entries_find p Sstate path)).

(** Four entries, the oldest first. *)
Definition put_four (p : Z) : M CoreError Sys unit :=
  let* _ := put_entry p "p1" 400 in
  let* _ := put_entry p "p2" 300 in
  let* _ := put_entry p "p3" 200 in
  let* _ := put_entry p "p4" 100 in
  ret tt.

Definition empty_run_reports_zero : M CoreError Sys unit :=
  fixture ;*
  let* r := unwrap (GcSvc_run fixture_gc false) in
  assert_eq (evicted_entries r) 0 ;*
  assert_eq (usage_global_bytes r) 0.
Definition ttl_phase_evicts_old_entries : M CoreError Sys unit :=
  fixture ;*
  let* p := acme None in
  let* _ := put_entry p "fresh" 60 in
  let* h_old := put_entry p "old" (86400 * 2) in
  let* r := unwrap (GcSvc_run fixture_gc false) in
  assert_eq (evicted_entries r) 1 ;*
  let* old := find_entry p "old" in
  assert (is_none old) ;*
  let* fresh := find_entry p "fresh" in
  assert (is_some fresh) ;*
  let* row := unwrap (on_db (Blobs_get h_old)) in
  assert (match row with None => true | Some b => b_refcount b =? 0 end).
Definition pinned_entries_survive_ttl : M CoreError Sys unit :=
  fixture ;*
  let* p := acme None in
  let* _ := put_entry p "old" (86400 * 2) in
  let* e := find_entry p "old" in
  let* e := unwrap_opt e in
  let* _ := unwrap (on_db (Entries_set_pinned p (e_id e) true)) in
  let* r := unwrap (GcSvc_run fixture_gc false) in
  assert_eq (evicted_entries r) 0 ;*
  let* e := find_entry p "old" in
  assert (is_some e).
Definition quota_phase_evicts_lru_when_project_over_quota : M CoreError Sys unit :=
  fixture ;*
  let* p := acme (Some 95) in
  put_four p ;*
  let* r := unwrap (GcSvc_run fixture_gc false) in
  assert_eq (evicted_entries r) 2 ;*
  let* p1 := find_entry p "p1" in
  assert (is_none p1) ;*
  let* p2 := find_entry p "p2" in
  assert (is_none p2) ;*
  let* p3 := find_entry p "p3" in
  assert (is_some p3).
Definition global_phase_evicts_world_lru_when_global_quota_exceeded : M CoreError Sys unit :=
  fixture ;*
  let small_cfg := mkGcConfig 60 365 365 100 90 in
  let* p := acme None in
  put_four p ;*
  let* r := unwrap (GcSvc_run small_cfg false) in
  assert (2 <=? evicted_entries r) ;*
  let* p4 := find_entry p "p4" in
  assert (is_some p4).
Definition cleanup_blobs_removes_zero_refcount : M CoreError Sys unit :=
  fixture ;*
  let* p := acme None in
  let* h := put_entry p "x" (86400 * 2) in
  let* _ := unwrap (GcSvc_run fixture_gc false) in
  let* row := unwrap (on_db (Blobs_get h)) in
  assert (is_none row) ;*
  let* path := on_fs (LocalFsStore_blob_path h) in
  let* there := on_fs (exists_path path) in
  assert (negb there).
Definition orphan_scan_finds_dangling_files_and_missing_blobs : M CoreError Sys unit :=
  fixture ;*
  let* p := acme None in
  let* h := put_entry p "good" 0 in
  let* orphan_path := on_fs (LocalFsStore_blob_path (rep64 "f")) in
  unwrap (on_fs (io (fs_create_dir_all (take 3 orphan_path)))) ;*
  unwrap (on_fs (io (fs_create orphan_path ;* fs_write_all orphan_path (as_bytes "orphan")))) ;*
  let missing := rep64 "e" in
  on_db (modify (λ t, set_blobs (<[missing := mkBlob missing 1 0 0]> (blobs t)) t)) ;*
  let* report := unwrap (GcSvc_orphan_scan false) in
  assert_eq (disk_orphans_removed report) 1 ;*
  assert_eq (db_orphans_removed report) 1 ;*
  let* there := on_fs (exists_path orphan_path) in
  assert (negb there) ;*
  let* row := unwrap (on_db (Blobs_get missing)) in
  assert (is_none row) ;*
  let* good := on_fs (LocalFsStore_blob_path h) in
  let* there := on_fs (exists_path good) in
  assert there.

(** ** [auth.rs] *)

Definition is_url_safe (c : Ascii.ascii) : bool :=
  let n := Ascii.nat_of_ascii c in
  ((48 <=? n) && (n <=? 57) || (65 <=? n) && (n <=? 90) || (97 <=? n) && (n <=? 122)
   || (n =? 45) || (n =? 95))%nat.
Definition generate_secret_is_url_safe_and_long : M CoreError unit unit :=
  let* s := generate_secret in
  assert (40 <=? String.length s)%nat ;*
  assert (forall_chars is_url_safe s).
Definition lookup_is_stable_and_hex : M CoreError unit unit :=
  let h1 := lookup_hash "abcdef" in
  let h2 := lookup_hash "abcdef" in
  assert_eq h1 h2 ;*
  assert_eq (String.length h1) 64%nat ;*
  assert (forall_chars is_ascii_hexdigit h1).
Definition argon2_round_trip_test : M CoreError unit unit :=
  let secret := "mar_test_secret"%string in
  let* h := unwrap (hash_argon2 secret) in
  let* yes := unwrap (verify_argon2 secret h) in
  assert yes ;*
  let* no := unwrap (verify_argon2 "other" h) in
  assert (negb no).

(** A project with one key, and its secret. *)
Definition with_key (role : Role) : M CoreError AuthState string :=
  let* p := unwrap (zoom lens_fst (Projects_create "acme" None None)) in
  let* secret := generate_secret in
  let lookup := lookup_hash secret in
  let* phc := unwrap (hash_argon2 secret) in
  let* _ := unwrap (zoom lens_fst (ApiKeys_create (p_id p) lookup phc role None)) in
  ret secret.
Definition authenticate_project_with_valid_key : M CoreError AuthState unit :=
  let* secret := with_key Write in
  let* ok := unwrap (authenticate_project "acme" secret) in
  assert (match pa_role ok with Write => true | Read => false end).
Definition authenticate_project_rejects_wrong_key : M CoreError AuthState unit :=
  let* _ := with_key Read in
  let* e := unwrap_err (authenticate_project "acme" "wrong") in
  assert (is_unauthorized e).
Definition authenticate_admin_round_trip : M CoreError AuthState unit :=
  let* secret := generate_secret in
  let lookup := lookup_hash secret in
  let* phc := unwrap (hash_argon2 secret) in
  let* _ := unwrap (zoom lens_fst (AdminTokens_create lookup phc (Some "ci"%string))) in
  let* a := unwrap (authenticate_admin secret) in
  assert_eq (aa_token_label a) (Some "ci"%string).

(** ** [config.rs], [marmotte-server/src/error.rs] *)

(** [tests/fixtures/config_minimal.toml], as figment finds it. *)
Definition config_minimal : RawConfig :=
  mkRawConfig (Some (mkRawServer (Some "127.0.0.1:9090") (Some "/tmp/marmotte-test") None None))%string
    (Some (Some "/tmp/marmotte-test/marmotte.db", None))%string
    (Some (mkRawGc None (Some 30) (Some 365) (Some 1073741824) None)) None None.
Definition load_minimal : M CoreError unit Config := unwrap_opt (Config_deserialize Some config_minimal).
Definition loads_minimal_toml_fixture : M CoreError unit unit :=
  let* cfg := load_minimal in
  assert_eq (listen (server cfg)) "127.0.0.1:9090" ;*
  assert_eq (busy_timeout_ms (database cfg)) 5000 ;*
  assert_eq (default_ttl_sstate_days (gc cfg)) 30.
Definition default_log_format_is_json : M CoreError unit unit :=
  let* cfg := load_minimal in
  assert (match format (logging cfg) with Config.Json => true | Pretty => false end).
Definition server_request_timeout_returns_duration : M CoreError unit unit :=
  let* cfg := load_minimal in
  assert_eq (request_timeout_secs (server cfg)) (5 * 60).
Definition not_found_renders_problem_json : M CoreError unit unit :=
  let resp := ApiError_into_response (NotFound "x") in
  assert_eq (resp_status resp) NOT_FOUND ;*
  assert_eq (list_to_map (M := gmap string string) (resp_headers resp) !! "content-type"%string)
    (Some "application/problem+json"%string) ;*
  let* v := unwrap_opt (match resp_body resp with BodyProblem v => Some v | _ => None end) in
  assert_eq (pr_title v) "not_found" ;*
  assert_eq (pr_status v) 404.
Definition unauthorized_maps_to_401 : M CoreError unit unit :=
  assert_eq (status_and_title Unauthorized).1 UNAUTHORIZED.

(** *** [db/mod.rs] and [error.rs] *)

Definition no_disk : Disk := mkDisk ∅ ∅ [].
Definition migrates_in_memory_db_cleanly : M CoreError Disk unit :=
  let* db := unwrap connect_memory in
  let* seen_db := gets (λ d, seen d db 0) in
  let* t := unwrap_opt (seen_db ≫= db_schema) in
  assert_eq (size (projects t)) 0%nat.
Definition from_sqlx_maps_to_database : M CoreError Tables unit :=
  let inner := SqlxOther "no rows returned by a query that expected to return at least one row" in
  let* e := unwrap_err (sql (throw (A := unit) inner)) in
  assert (is_database e).

(** ** Theorems *)

(** Every test passes. *)
Theorem unit_tests_pass :
  forallb (λ m, passes m tt)
    [role_round_trips_via_str; kind_round_trips_via_str; write_role_implies_read;
     not_found_renders_a_human_message; forbidden_carries_reason; generate_secret_is_url_safe_and_long;
     lookup_is_stable_and_hex; argon2_round_trip_test; loads_minimal_toml_fixture; default_log_format_is_json;
     server_request_timeout_returns_duration; not_found_renders_problem_json; unauthorized_maps_to_401] = true ∧
  forallb (λ m, passes m empty_tables)
    [create_then_get_by_name; duplicate_name_is_conflict; update_quota; delete_unknown_returns_not_found;
     create_then_find; revoke_hides_from_active_lookup; duplicate_lookup_fails; create_find_revoke;
     upsert_incr_then_decr; total_size_sums_existing_blobs; bump_then_sum; audit_round_trip;
     upsert_increments_refcount_when_blob_is_new; upsert_replaces_blob_decrements_old;
     delete_decrements_refcount; pagination_traverses_all_with_cursor; pin_excludes_from_pinned_filter;
     from_sqlx_maps_to_database] = true ∧
  passes migrates_in_memory_db_cleanly no_disk = true ∧
  forallb (λ m, passes m no_files)
    [init_creates_layout; open_purges_existing_tmp_files; write_streamed_returns_hash_and_writes_file;
     write_streamed_dedups_existing_blob; read_streamed_returns_full_body; read_missing_blob_is_not_found;
     delete_blob_removes_file] = true ∧
  forallb (λ m, passes m (empty_tables, no_files))
    [empty_run_reports_zero; ttl_phase_evicts_old_entries; pinned_entries_survive_ttl;
     quota_phase_evicts_lru_when_project_over_quota;
     global_phase_evicts_world_lru_when_global_quota_exceeded; cleanup_blobs_removes_zero_refcount;
     orphan_scan_finds_dangling_files_and_missing_blobs] = true ∧
  forallb (λ m, passes m (empty_tables, no_logins AuthConfig_default))
    [authenticate_project_with_valid_key; authenticate_project_rejects_wrong_key;
     authenticate_admin_round_trip] = true.
Proof. vm_compute. split_and!; reflexivity. Qed.
