(* ===== verification/HttpTests.v ===== *)
(** * The tests of the HTTP API, run on the model

    The tests under [crates/marmotte-server/tests/] and those of [marmotte init] and
    [marmotte push] ([crates/marmotte-cli/tests/]), translated as those of Scenarios.v are,
    with their fixture ([tests/common/mod.rs]).  Each request passes the whole of
    [build_app]: body limit, routing, authentication, extractors, handler.  Query strings
    and JSON bodies are rendered by [Render], and the JSON of an answer is inspected as
    the value it stands for.  The push runs one task after the other, which is one of the
    orders that PushRun.v allows for.  Left out is [metrics_endpoint_lists_marmotte_metrics],
    which reads the text that the prometheus crate renders.  [http_tests_pass] runs them
    all. *)
From stdpp Require Import base numbers list strings gmap sorting pretty.
From Stdlib Require Import ZArith Lia Init.Byte.
From S2P Require Import Prelude Models Db Blobs Entries Projects Credentials Stats Storage Config Gc GcRun Auth Http Metrics App Yocto Listing Admin Server Routes Layers Push PushWalk PushRun PushServer Commands Main Demo Scenarios.

#[local] Existing Instance test_sha.
#[local] Existing Instance test_fsenv.
#[local] Existing Instance test_authenv.

(** ** The fixture *)

Definition fixture_config : Config :=
  mkConfig (mkServerConfig "127.0.0.1:0" "/tmp/store" 5 (1024 * 1024))
    (mkDatabaseConfig ":memory:" 0) (mkGcConfig 60 1 1 (1024 * 1024) 90)
    (mkAuthConfig (verify_cache_size AuthConfig_default) 0) (mkLoggingConfig "warn" Config.Json).

Record Fixture := mkFixture {
  project_name : string;
  api_key : string;
  admin_token : string
}.

(** The wiring of [fixture] on a new database and directory. *)
Definition fixture_with_config : M CoreError App Fixture :=
  unwrap (zoom lens_store LocalFsStore_open) ;*
  let* project := unwrap (zoom lens_db (Projects_create "acme" None None)) in
  let* key := generate_secret in
  let* phc := unwrap (hash_argon2 key) in
  let* _ := unwrap (zoom lens_db (ApiKeys_create (p_id project) (lookup_hash key) phc Write (Some "ci"%string))) in
  let* token := generate_secret in
  let* phc := unwrap (hash_argon2 token) in
  let* _ := unwrap (zoom lens_db (AdminTokens_create (lookup_hash token) phc (Some "root"%string))) in
  ret (mkFixture (p_name project) key token).

(** ** Requests *)

Definition slash : Ascii.ascii := Ascii.ascii_of_nat 47.
Fixpoint split_slashes (cur s : string) : list string :=
  match s with
  | EmptyString => [cur]
  | String a s => if Ascii.eqb a slash then cur :: split_slashes EmptyString s
                  else split_slashes (cur +:+ String a EmptyString) s
  end.
(** The segments of a path that starts with a slash and has no escapes. *)
Definition uri (s : string) : list string := tail (split_slashes EmptyString s).

Definition basic (u p : string) : Headers := Some (basic_header u p).
Definition bearer (token : string) : Headers := Some ("Bearer " +:+ token).
Definition text_body (s : string) : list (IoError + bytes) := [inr (as_bytes s)].

(** [app.oneshot(req)] *)
Definition oneshot (cfg : Config) (m : Method) (path q : string) (h : Headers) (b : list (IoError + bytes))
    : M CoreError App Response :=
  unwrap (build_app cfg (mkIncoming (mkHttpRequest m (uri path) q h b) None)).
Definition call := oneshot fixture_config.

Definition status_is {S} (status : Z) (resp : Response) : M CoreError S unit := assert_eq (resp_status resp) status.
Definition header_of (name : string) (resp : Response) : option string :=
  snd <$> head (filter (λ h : string * string, h.1 = name) (resp_headers resp)).

(** [serde_json::from_slice] of the body, and the accessors of [Value]. *)
Definition json_of {S} (resp : Response) : M CoreError S Json :=
  unwrap_opt (match resp_body resp with BodyJson j => Some j | _ => None end).
Definition field (name : string) (j : Json) : option Json :=
  match j with JObj l => snd <$> head (filter (λ x : string * Json, x.1 = name) l) | _ => None end.
Definition as_i64 {S} (o : option Json) : M CoreError S Z :=
  unwrap_opt (match o with Some (JInt z) => Some z | _ => None end).
Definition as_str {S} (o : option Json) : M CoreError S string :=
  unwrap_opt (match o with Some (JStr s) => Some s | _ => None end).
Definition as_bool {S} (o : option Json) : M CoreError S bool :=
  unwrap_opt (match o with Some (JBool b) => Some b | _ => None end).
Definition as_array {S} (o : option Json) : M CoreError S (list Json) :=
  unwrap_opt (match o with Some (JArr l) => Some l | _ => None end).

Definition project_id (name : string) : M CoreError App Z :=
  let* p := unwrap (zoom lens_db (Projects_get_by_name name)) in ret (p_id p).

(** ** [tests/public.rs] *)

Definition healthz_returns_ok : M CoreError App unit :=
  let* _ := fixture_with_config in
  let* resp := call GET "/healthz" "" None [] in
  status_is 200 resp ;*
  assert (match resp_body resp with BodyText s => bool_decide (s = line "ok") | _ => false end).
Definition readyz_returns_ready : M CoreError App unit :=
  let* _ := fixture_with_config in
  let* resp := call GET "/readyz" "" None [] in
  status_is 200 resp.

(** ** [tests/auth_project.rs], [tests/auth_admin.rs] *)

(** The test's own router: one route behind the middleware. *)
Definition echo_app (h : Headers) : M CoreError App Response :=
  unwrap (auth_project_middleware h (λ p, ret (mkResponse OK_200 [] (BodyText (Role_as_str (pa_role p)))))).
Definition ping_app (h : Headers) : M CoreError App Response :=
  unwrap (auth_admin_middleware h (λ _, ret (mkResponse OK_200 [] (BodyText "pong")))).

Definition rejects_missing_credentials : M CoreError App unit :=
  let* _ := fixture_with_config in
  let* resp := echo_app None in
  status_is UNAUTHORIZED resp.
Definition accepts_valid_basic_credentials : M CoreError App unit :=
  let* f := fixture_with_config in
  let* resp := echo_app (basic (project_name f) (api_key f)) in
  status_is OK_200 resp.
Definition rejects_wrong_password : M CoreError App unit :=
  let* f := fixture_with_config in
  let* resp := echo_app (basic (project_name f) "wrong") in
  status_is UNAUTHORIZED resp.
Definition accepts_valid_bearer : M CoreError App unit :=
  let* f := fixture_with_config in
  let* resp := ping_app (bearer (admin_token f)) in
  status_is OK_200 resp.
Definition rejects_missing_or_wrong : M CoreError App unit :=
  let* f := fixture_with_config in
  let* r1 := ping_app None in
  status_is UNAUTHORIZED r1 ;*
  let* r2 := ping_app (bearer "bogus") in
  status_is UNAUTHORIZED r2.

(** ** [tests/yocto.rs] *)

Definition put_then_get_round_trip : M CoreError App unit :=
  let* f := fixture_with_config in
  let auth := basic (project_name f) (api_key f) in
  let* resp := call PUT "/sstate/acme/foo/bar.tar.zst" "" auth (text_body "hello world") in
  status_is CREATED resp ;*
  let* resp := call GET "/sstate/acme/foo/bar.tar.zst" "" auth [] in
  status_is OK_200 resp ;*
  assert (match resp_body resp with BodyStream b => String.eqb (String.string_of_list_byte b) "hello world" | _ => false end) ;*
  assert (is_some (header_of "etag" resp)).
Definition cross_project_url_returns_forbidden : M CoreError App unit :=
  let* f := fixture_with_config in
  let auth := basic (project_name f) (api_key f) in
  let* resp := call PUT "/sstate/other/x" "" auth (text_body "x") in
  status_is FORBIDDEN resp.
Definition read_role_cannot_put : M CoreError App unit :=
  let* f := fixture_with_config in
  let* secret := generate_secret in
  let lookup := lookup_hash secret in
  let* phc := unwrap (hash_argon2 secret) in
  let* pid := project_id (project_name f) in
  let* _ := unwrap (zoom lens_db (ApiKeys_create pid lookup phc Read (Some "ro"%string))) in
  let auth := basic (project_name f) secret in
  let* resp := call PUT "/sstate/acme/y" "" auth (text_body "y") in
  status_is FORBIDDEN resp.
Definition missing_entry_returns_404 : M CoreError App unit :=
  let* f := fixture_with_config in
  let auth := basic (project_name f) (api_key f) in
  let* resp := call GET "/sstate/acme/none/here" "" auth [] in
  status_is NOT_FOUND resp.
Definition head_returns_etag_without_body : M CoreError App unit :=
  let* f := fixture_with_config in
  let auth := basic (project_name f) (api_key f) in
  let* _ := call PUT "/sstate/acme/h" "" auth (text_body "body") in
  let* resp := call HEAD "/sstate/acme/h" "" auth [] in
  status_is OK_200 resp ;*
  assert (is_some (header_of "etag" resp)).

(** A global quota of one byte. *)
Definition tiny_config : Config :=
  mkConfig (server fixture_config) (database fixture_config) (mkGcConfig 60 1 1 1 90)
    (auth fixture_config) (logging fixture_config).
(** The spawned tasks run while the test polls. *)
Definition run_spawned (cfg : Config) : M CoreError App unit :=
  let* l := gets app_tasks in
  modify (set_tasks []) ;*
  foldM (λ _ x, run_task cfg x) tt l.
Definition put_above_threshold_triggers_gc_eventually : M CoreError App unit :=
  let* f := fixture_with_config in
  let auth := basic (project_name f) (api_key f) in
  let* _ := oneshot tiny_config PUT "/sstate/acme/big" "" auth [inr (replicate 1024 Byte.x00)] in
  unwrap (run_spawned tiny_config) ;*
  let* total := unwrap (zoom lens_db Blobs_total_size) in
  assert_eq total 0.

(** ** [tests/admin_projects.rs], [admin_keys.rs], [admin_tokens.rs] *)

Definition create_get_update_delete_project : M CoreError App unit :=
  let* f := fixture_with_config in
  let token := bearer (admin_token f) in
  let* resp := call POST "/api/v1/admin/projects" "" token (render_create_project "new-proj" None None) in
  status_is CREATED resp ;*
  let* v := json_of resp in
  let* id := as_i64 (field "id" v) in
  let project := ("/api/v1/admin/projects/" +:+ pretty id)%string in
  let* resp := call GET project "" token [] in
  status_is OK_200 resp ;*
  let* v := json_of resp in
  let* name := as_str (field "name" v) in
  assert_eq name "new-proj" ;*
  let* resp := call PATCH project "" token (render_update_project None (Value 9999) Absent) in
  status_is OK_200 resp ;*
  let* v := json_of resp in
  let* quota := as_i64 (field "quota_bytes" v) in
  assert_eq quota 9999 ;*
  let* resp := call DELETE project "" token [] in
  status_is NO_CONTENT resp.
Definition duplicate_name_returns_409 : M CoreError App unit :=
  let* f := fixture_with_config in
  let* resp := call POST "/api/v1/admin/projects" "" (bearer (admin_token f)) (render_create_project "acme" None None) in
  status_is CONFLICT resp.
Definition unauthenticated_returns_401 : M CoreError App unit :=
  let* _ := fixture_with_config in
  let* resp := call GET "/api/v1/admin/projects" "" None [] in
  status_is UNAUTHORIZED resp.
Definition create_then_list_then_revoke : M CoreError App unit :=
  let* f := fixture_with_config in
  let token := bearer (admin_token f) in
  let* pid := project_id (project_name f) in
  let keys := ("/api/v1/admin/projects/" +:+ pretty pid +:+ "/keys")%string in
  let* resp := call POST keys "" token (render_create_key Read (Some "l"%string)) in
  status_is CREATED resp ;*
  let* v := json_of resp in
  let* kid := as_i64 (field "id" v) in
  let* secret := as_str (field "secret" v) in
  assert (40 <=? String.length secret)%nat ;*
  let* resp := call GET keys "" token [] in
  let* v := json_of resp in
  let* arr := as_array (Some v) in
  assert (2 <=? length arr)%nat ;*
  assert (forallb (λ k, is_none (field "secret" k)) arr) ;*
  let* resp := call DELETE (keys +:+ "/" +:+ pretty kid) "" token [] in
  status_is NO_CONTENT resp.
Definition create_token_returns_secret_once : M CoreError App unit :=
  let* f := fixture_with_config in
  let* resp := call POST "/api/v1/admin/tokens" "" (bearer (admin_token f)) (render_create_token (Some "ci"%string)) in
  status_is CREATED resp ;*
  let* v := json_of resp in
  let* secret := as_str (field "secret" v) in
  assert (40 <=? String.length secret)%nat.
Definition revoked_token_cannot_authenticate : M CoreError App unit :=
  let* f := fixture_with_config in
  let token := bearer (admin_token f) in
  let* tokens := unwrap (zoom lens_db AdminTokens_list) in
  let* t := unwrap_opt (head tokens) in
  let* resp := call DELETE ("/api/v1/admin/tokens/" +:+ pretty (t_id t)) "" token [] in
  status_is NO_CONTENT resp ;*
  let* resp := call GET "/api/v1/admin/projects" "" token [] in
  status_is UNAUTHORIZED resp.

(** ** [tests/admin_entries.rs] *)

Definition put_ok (f : Fixture) (path body : string) : M CoreError App unit :=
  let* resp := call PUT ("/sstate/" +:+ project_name f +:+ "/" +:+ path) ""
    (basic (project_name f) (api_key f)) (text_body body) in
  assert ((200 <=? resp_status resp) && (resp_status resp <? 300)).
Definition page_query (limit : Z) (cursor : option string) : string :=
  render_list_query (mkListQuery None None None (Some "path"%string) (Some "asc"%string) (Some limit) cursor None).

Definition list_paginates_and_filters : M CoreError App unit :=
  let* f := fixture_with_config in
  let* pid := project_id (project_name f) in
  foldM (λ _ b, put_ok f ("p/" +:+ pretty (String.length b)) b) tt ["a"; "bb"; "ccc"; "dddd"]%string ;*
  let entries := ("/api/v1/admin/projects/" +:+ pretty pid +:+ "/entries")%string in
  let* resp := call GET entries (page_query 2 None) (bearer (admin_token f)) [] in
  let* v := json_of resp in
  let* arr := as_array (field "entries" v) in
  assert_eq (length arr) 2%nat ;*
  let* cursor := as_str (field "next_cursor" v) in
  let* resp := call GET entries (page_query 10 (Some cursor)) (bearer (admin_token f)) [] in
  let* v := json_of resp in
  let* arr := as_array (field "entries" v) in
  assert_eq (length arr) 2%nat ;*
  let* more := as_bool (field "has_more" v) in
  assert_eq more false.
Definition pin_then_delete_blocked_by_gc_only : M CoreError App unit :=
  let* f := fixture_with_config in
  let* pid := project_id (project_name f) in
  put_ok f "x" "x" ;*
  let* page := unwrap (zoom lens_db (Entries_list pid (mkListFilter None None None None None None None))) in
  let* e := unwrap_opt (head (page_entries page)) in
  let entry := ("/api/v1/admin/projects/" +:+ pretty pid +:+ "/entries/" +:+ pretty (e_id e))%string in
  let* resp := call POST (entry +:+ "/pin") "" (bearer (admin_token f)) [] in
  status_is 204 resp ;*
  let* resp := call DELETE entry "" (bearer (admin_token f)) [] in
  status_is 204 resp.
Definition gc_run_returns_zero_on_empty : M CoreError App unit :=
  let* f := fixture_with_config in
  let* resp := call POST "/api/v1/admin/gc/run" (render_dry_run true) (bearer (admin_token f)) [] in
  status_is 200 resp ;*
  let* v := json_of resp in
  let* dry := as_bool (field "dry_run" v) in
  assert_eq dry true.
Definition stats_endpoint_returns_global_summary : M CoreError App unit :=
  let* f := fixture_with_config in
  let* resp := call GET "/api/v1/admin/stats" "" (bearer (admin_token f)) [] in
  status_is 200 resp ;*
  let* v := json_of resp in
  let* projects := as_i64 (field "projects" v) in
  assert (1 <=? projects).

(** ** [tests/init.rs] of the client *)

(** [trim] takes the newline off. *)
Definition init_creates_db_and_emits_token : M CoreError Host unit :=
  unwrap (init_cmd "config.toml" (Some "admin.token"%string)) ;*
  let* token := gets (λ h, h_files h !! "admin.token"%string) in
  let* token := unwrap_opt token in
  assert (40 <=? length (removelast token))%nat.

(** ** [tests/push.rs] of the client *)

(** The source tree of the test, and its files. *)
Definition src_tree : Node := NDir [("a", NDir [("b", NDir [("c.txt", NFile)]); ("d.txt", NFile)])]%string.
Definition src_file (p : path) : IoError + bytes :=
  if decide (p = ["src"; "a"; "b"; "c.txt"]%string) then inr (as_bytes "hello")
  else if decide (p = ["src"; "a"; "d.txt"]%string) then inr (as_bytes "world")
  else inl err_not_found.
#[local] Instance src_local : Local :=
  mkLocal (λ p _, match src_file p with inl e => inl e | inr b => inr [inr b] end) (λ p _, src_file p) (λ z, pretty z).
#[local] Instance src_walkenv : WalkEnv := mkWalkEnv (λ _, None).
(** [http://127.0.0.1:9090/], and what follows it. *)
#[local] Instance test_wire : Wire.
Proof.
  refine (mkWire (λ _, demo_env) (λ _, test_fsenv) (λ _, test_authenv) (λ _, demo_moka)
    (λ url, drop 3 (split_slashes EmptyString url)) (λ _ s, s) (λ _, None) (λ _ body, [body]) _).
  intros n body. simpl. apply app_nil_r.
Defined.
#[local] Instance test_urls : UrlLib := mkUrlLib (λ base rel, inr (base +:+ rel)).
#[local] Instance test_parse : UrlParse := mkUrlParse Some.

Definition push_config : Config :=
  mkConfig (mkServerConfig "127.0.0.1:0" "/tmp/store" 10 (1024 * 1024))
    (mkDatabaseConfig ":memory:" 0) (mkGcConfig 9999 1 1 (1024 * 1024) 90) AuthConfig_default LoggingConfig_default.

(** [run] with one task after the other, up to the exit code. *)
Definition run_in_turn (args : PushArgs) (files : list (path * path)) : M CliError (PushLog App) Z :=
  let* r := foldM (λ r f,
    match url_join (arg_base_url args) (target args f.1) with
    | inl e => throw (CliUrlParse e)
    | inr url =>
        let* res := attempt (F := CliError)
          (push_one (net := server_net push_config) url f.2 (auth_header args) (PushRun.dry_run args)) in
        ret (count_result (inr res) r)
    end) (run_start args files) files in
  ret (if decide (0 < failed r)%nat then 1 else 0).
Definition push_command (cmd : option Cmd) : M CliError App Z := λ s n,
  match cmd with
  | Some (PushCmd args dir) =>
      match walk [dir] [dir] src_tree [] n with
      | (Ok tt, files, n1) =>
          let '(r, log, n2) := run_in_turn args files (mkPushLog 0 [] [] s) n1 in (r, world log, n2)
      | (Err e, _, n1) => (Err e, s, n1)
      | (Stop w, _, n1) => (Stop w, s, n1)
      end
  | _ => (Ok 2, s, n)
  end.

Definition push_uploads_files : M CoreError App unit :=
  unwrap (zoom lens_store LocalFsStore_open) ;*
  let* project := unwrap (zoom lens_db (Projects_create "acme" None None)) in
  let* secret := generate_secret in
  let* phc := unwrap (hash_argon2 secret) in
  let* _ := unwrap (zoom lens_db (ApiKeys_create (p_id project) (lookup_hash secret) phc Write None)) in
  let* status := unwrap (push_command (Cli_parse (mkRawArgs "push" None None (Some "acme"%string) (Some "sstate"%string)
    (Some "http://127.0.0.1:9090/"%string) (Some secret) None false (Some "src"%string)))) in
  assert (status =? 0).

(** ** Theorems *)

(** Every test passes. *)
Theorem http_tests_pass :
  forallb (λ m, passes m (blank fixture_config))
    [healthz_returns_ok; readyz_returns_ready; rejects_missing_credentials;
     accepts_valid_basic_credentials; rejects_wrong_password; accepts_valid_bearer;
     rejects_missing_or_wrong; put_then_get_round_trip; cross_project_url_returns_forbidden;
     read_role_cannot_put; missing_entry_returns_404; head_returns_etag_without_body;
     create_get_update_delete_project; duplicate_name_returns_409; unauthenticated_returns_401;
     create_then_list_then_revoke; create_token_returns_secret_once;
     revoked_token_cannot_authenticate; list_paginates_and_filters;
     pin_then_delete_blocked_by_gc_only; gc_run_returns_zero_on_empty;
     stats_endpoint_returns_global_summary] = true ∧
  passes put_above_threshold_triggers_gc_eventually (blank tiny_config) = true ∧
  passes init_creates_db_and_emits_token (mkHost (blank fixture_config) [] ∅) = true ∧
  passes push_uploads_files (blank push_config) = true.
Proof. vm_compute. split_and!; reflexivity. Qed.
