(* ===== verification/Findings.v ===== *)
(** * Where the code and its documentation part

    Concrete runs, in the world of [Demo.v], of behaviours that the comments or
    the documentation of the code rule out.  Each theorem is closed: it is the
    computation of the modelled code on one input. *)
From stdpp Require Import base numbers list strings gmap sorting pretty.
From Stdlib Require Import ZArith Lia Init.Byte.
From S2P Require Import Prelude Models Db Blobs Entries Projects Credentials Stats Storage Config Gc GcRun Orphans Auth Logins Http Decode Metrics App Yocto Listing Admin Server AdminAudit AuditRun Sweeps Spec Uploads Reads Routes Layers Deadline Push PushWalk PushRun PushServer Commands Main Demo.

(** ** The global quota *)

(** Seven bytes in two blobs, one of them shared by two entries, under a global
    quota of four bytes and without any TTL. *)
Definition crowded_gc : GcConfig := mkGcConfig 300 1000 1000 4 90.
Definition crowded_setup : M CoreError App unit :=
  let* _ := create_project demo_admin "alpha" None None in
  let* _ := put_handler demo_config demo_writer Sstate "alpha" "a" [inr content_a] in
  let* _ := put_handler demo_config demo_writer Sstate "alpha" "c" [inr content_a] in
  let* _ := put_handler demo_config demo_writer Sstate "alpha" "b" [inr content_b] in
  ret tt.
Definition crowded_sys : Sys := app_sys (crowded_setup (fresh demo_config) 0%nat).1.2.

(** ** The file system fails while the scan looks for its directory *)

Definition broken_fsenv : FsEnv := mkFsEnv (λ _, Some (mkIoError IoOtherKind "EIO", 0%nat)) (λ n, pretty n).

(** ** An upload and a sweep at the same time *)

(** The entry "b" is deleted, its blob waits for the collector. *)
Definition before_race : App := (delete_entry demo_admin 1 2 demo_app 500%nat).1.2.

(** The two phases of a PUT of that content, with a sweep in between. *)
Definition racing_put : M CoreError App Response :=
  let* w := put_receive demo_config demo_writer "alpha" [inr content_b] in
  let* _ := zoom lens_sys (GcSvc_run crowded_gc false) in
  put_register demo_config demo_writer Sstate "again" w.

Lemma before_race_ok : app_ok before_race.
Proof.
  assert (Keeps (delete_entry demo_admin 1 2)) as Hk by (unfold delete_entry, audit; does_go).
  exact (proj1 (Hk demo_app demo_app_ok 500%nat)).
Qed.

(** The admin token of [init], when the file for it exists already. *)
Definition unlucky_init := init_cmd "config.toml" (Some "token.txt"%string)
  (mkHost (fresh demo_config) [] {["token.txt"%string := []]}) 0%nat.

(** ** An upload beyond the limit *)

(** A limit of two bytes, and an upload of three, whose length is announced or not. *)
Definition small_config : Config :=
  mkConfig (mkServerConfig "127.0.0.1:8080" "/srv/marmotte" 300 2)
    (database demo_config) (gc demo_config) (auth demo_config) (logging demo_config).
Definition big_upload (announced : option Z) : Incoming :=
  mkIncoming (mkHttpRequest PUT ["sstate"; "alpha"; "big"]%string EmptyString (demo_basic "alpha" 205)
    [inr content_a]) announced.
Definition status_of (r : res CoreError Response) : option Z :=
  match r with Ok resp => Some (resp_status resp) | _ => None end.

(** ** A login in flight while its key is revoked *)

(** The login has read the row of the key when the key is revoked; its verification is
    done 496 seconds later, and a minute after that another login presents the secret. *)
Definition secret_alpha : string := secret_at 9.
Definition login_before : Station :=
  drive 3 (arrive "alpha" secret_alpha (opened_station (auth demo_config) 500 demo_db)).
Definition lag_revoke := ApiKeys_revoke 1 1 (st_state login_before).1 (st_now login_before).
Definition login_revoked : Station :=
  mkStation 1000 (lag_revoke.1.2, (st_state login_before).2) (st_logins login_before).
Definition login_cached : Station := arrive "alpha" secret_alpha (drive 2 login_revoked).

(** ** Requests between the steps of a sweep *)

(** The sweep of [demo_app] up to the moment when it has listed what the quota of the
    first project calls for, and the entry "b" that it is going to evict. *)
Definition sweep_start : Sweep := (TtlStart, GcReport_default).
Definition sweep_listed := sweep_for 10 demo_gc false sweep_start demo_sys 500%nat.
Definition sweep_rest (s : Sys) : res CoreError (Sweep + GcReport) * Sys * nat :=
  match sweep_listed.1.1 with
  | Ok (inl sw) => sweep_for 40 demo_gc false sw s 600%nat
  | r => (r, s, 600%nat)
  end.
Definition listed_app : App :=
  mkApp sweep_listed.1.2.1 sweep_listed.1.2.2 (app_auth demo_app) (app_metrics demo_app) [].

(** ** An audit log that cannot be written *)

(** From the [k]-th interaction on, every statement fails. *)
Definition failing_env (k : nat) : Env :=
  mkEnv (λ n, 1000 + Z.of_nat n) (λ n, if (k <=? n)%nat then Some (SqlxOther "disk I/O error") else None)
    (λ _ _ l, l) (λ _ _ _, reflexivity _) (λ _, 0%N).
Definition unlogged_pin := pin (env := failing_env 501) demo_admin 1 2 demo_app 500%nat.

(** ** A deadline in the middle of an upload *)

(** Five seconds for a request, and an upload that is dropped in its eighth second or in
    its twenty-second. *)
Definition hasty_config : Config :=
  mkConfig (mkServerConfig "127.0.0.1:8080" "/srv/marmotte" 5 1000)
    (database demo_config) (gc demo_config) (auth demo_config) (logging demo_config).
Definition slow_upload : Incoming :=
  mkIncoming (mkHttpRequest PUT ["sstate"; "alpha"; "slow"]%string EmptyString (demo_basic "alpha" 205)
    [inr content_a; inr content_b]) None.
Definition dropped_early := dropped_at hasty_config 608 0 slow_upload trace3 600%nat.
Definition dropped_late := dropped_at hasty_config 622 0 slow_upload trace3 600%nat.
Definition slow_key : Key := (1, Sstate, "slow"%string).

Lemma dropped_in_time k part i n s :
  ((n <=? k) && (k <=? (dropped_at hasty_config k part i s n).2) &&
   (n <? (dropped_at hasty_config k part i s n).2))%nat = true →
  Z.of_nat n + 5 <= Z.of_nat k →
  request_ends hasty_config i n s (Some timed_out) (dropped_at hasty_config k part i s n).1.2.
Proof.
  intros [[H1%Nat.leb_le H2%Nat.leb_le]%andb_prop H3%Nat.ltb_lt]%andb_prop Hdue.
  destruct (dropped_at hasty_config k part i s n) as [[r s'] n'] eqn:Hrun. simpl in *.
  by apply (ends_too_late hasty_config i n s k part r s' n').
Qed.

(** ** Theorems *)

(** A sweep may stop while the global quota is still exceeded and unpinned
    entries are left: the loop subtracts the size of every evicted entry from the
    usage, also when another entry keeps the blob alive.  Here the report itself
    admits seven bytes under a quota of four. *)
Theorem global_phase_may_stop_early :
  let '(r, s', _) := GcSvc_run crowded_gc false crowded_sys 100%nat in
  global_quota_bytes crowded_gc = 4 ∧ r = Ok (mkGcReport 1 3 0 7) ∧ total_size s'.1 = 7 ∧
  (e_path <$> select (λ e, negb (e_pinned e)) (entries s'.1)) = ["b"; "c"]%string.
Proof. vm_compute. split_and!; reflexivity. Qed.

Definition demo_report (dry_run : bool) : res CoreError GcReport :=
  (GcSvc_run demo_gc dry_run demo_sys 500%nat).1.1.

(** A dry run announces more than a sweep does: it removes nothing, so an entry
    that is past its TTL is counted again by the quota phase.  On the same state the
    dry run reports three evictions and ten bytes, the sweep two and seven. *)
Theorem dry_run_counts_twice :
  demo_report true = Ok (mkGcReport 3 10 0 7) ∧ demo_report false = Ok (mkGcReport 2 7 1 3).
Proof. vm_compute. split; reflexivity. Qed.

(** An upload is not protected from a sweep that runs beside it: the store finds
    the file of an unreferenced blob and drops the new copy, the sweep then frees that
    file, and the upsert registers an entry that no file backs.  Every step succeeds
    and the state before was fine. *)
Theorem put_beside_a_sweep_loses_the_blob :
  app_ok before_race ∧
  let '(r, s', _) := racing_put before_race 600%nat in
  is_ok r = true ∧
  (λ e, blob_at (app_store s') (e_blob_hash e)) <$> entry_at (app_db s') 1 Sstate "again" = Some None.
Proof. split; [exact before_race_ok|]. vm_compute. split; reflexivity. Qed.

(** When the file for the token exists, [init] fails only after the token was made: the
    database keeps an active admin token whose secret nobody has seen. *)
Theorem init_fails_after_minting :
  unlucky_init.1.1 = Err (CliIo err_already_exists) ∧
  (t_revoked_at <$> rows (admin_tokens (app_db (h_app unlucky_init.1.2)))) = [None] ∧
  h_stdout unlucky_init.1.2 = ["admin token id: 1"]%string.
Proof. vm_compute. split_and!; reflexivity. Qed.

(** An upload over the limit is answered 413 if it announces its length, but 500 if it
    does not: the error of the cut body comes back from the store as an I/O error. *)
Theorem unannounced_big_upload_is_500 :
  status_of (build_app small_config (big_upload (Some 3)) trace3 600%nat).1.1 = Some PAYLOAD_TOO_LARGE ∧
  status_of (build_app small_config (big_upload None) trace3 600%nat).1.1 = Some INTERNAL_SERVER_ERROR.
Proof. split; vm_compute; reflexivity. Qed.

(** The time to live does not bound the revocation lag: with 60 seconds, a key revoked at
    second 506 still lets a login in at second 1001, from what a login in flight cached. *)
Theorem revocation_lag_exceeds_ttl :
  rtc login_move (opened_station (auth demo_config) 500 demo_db) login_before ∧
  lag_revoke.1.1 = Ok tt ∧
  auth_mono lag_revoke.2 + verify_cache_ttl_secs (auth demo_config) < auth_mono (st_now login_cached) ∧
  ∃ lg, st_logins login_cached = [lg] ∧ lg_stage lg = Arrived ∧
    (login_step lg (st_state login_cached) (st_now login_cached)).1.1 = Ok (inr demo_writer).
Proof.
  split; [unfold login_before; etransitivity; [apply arrive_moves|apply drive_moves]|].
  split; [vm_compute; reflexivity|]. split; [vm_compute; reflexivity|].
  exists (mkLogin "alpha" secret_alpha Arrived). split_and!; vm_compute; reflexivity.
Qed.

(** A pin set while a sweep runs does not protect the entry if the sweep has listed it
    already: the pin is answered, the entry is pinned, and then it is evicted. *)
Theorem pin_during_sweep_is_ignored :
  let '(r, s, _) := pin demo_admin 1 2 listed_app 550%nat in
  is_ok r = true ∧ e_pinned <$> entries (app_db s) !! 2 = Some true ∧
  let '(r', s', _) := sweep_rest (app_sys s) in is_ok r' = true ∧ entries s'.1 !! 2 = None.
Proof. vm_compute. split_and!; reflexivity. Qed.

(** An entry that is deleted after a sweep has listed it makes the sweep fail with
    NotFound; what it has not done yet is left undone. *)
Theorem delete_during_sweep_aborts_it :
  let '(r, s, _) := delete_entry demo_admin 1 2 listed_app 550%nat in
  is_ok r = true ∧ (sweep_rest (app_sys s)).1.1 = Err (NotFound "entry 2").
Proof. vm_compute. split; reflexivity. Qed.

(** An admin action is committed before its line is written: when writing it fails, the
    action stays, the log knows nothing of it, and the answer is an error. *)
Theorem work_without_a_line :
  is_ok unlogged_pin.1.1 = false ∧
  e_pinned <$> entries (app_db demo_app) !! 2 = Some false ∧
  e_pinned <$> entries (app_db unlogged_pin.1.2) !! 2 = Some true ∧
  log_of unlogged_pin.1.2 = log_of demo_app.
Proof. vm_compute. split_and!; reflexivity. Qed.

(** A client that is told 408 does not know whether its upload was stored: one that is
    dropped in its eighth second is not, and leaves its temporary file behind, which
    nothing removes before the next start; one that is dropped later is. *)
Theorem timed_out_put_may_be_stored :
  request_ends hasty_config slow_upload 600 trace3 (Some timed_out) dropped_early.1.2 ∧
  cached dropped_early.1.2 slow_key = None ∧
  files_in ["tmp"%string] (app_store dropped_early.1.2) = [["tmp"; "605"]%string] ∧
  request_ends hasty_config slow_upload 600 trace3 (Some timed_out) dropped_late.1.2 ∧
  cached dropped_late.1.2 slow_key = Some (demo_hash (content_a ++ content_b)).
Proof.
  split; [apply dropped_in_time; [vm_compute; reflexivity|lia]|].
  split; [vm_compute; reflexivity|]. split; [vm_compute; reflexivity|].
  split; [apply dropped_in_time; [vm_compute; reflexivity|lia]|]. vm_compute; reflexivity.
Qed.
