(* ===== verification/Witnesses.v ===== *)
(** * The theorems at concrete inputs

    For every theorem with hypotheses, one instance in the world of [Demo.v] in
    which they hold, with what the theorem says there. *)
From stdpp Require Import base numbers list strings gmap sorting pretty.
From Stdlib Require Import ZArith Lia Init.Byte.
From S2P Require Import Prelude Models Db Blobs Entries Projects Credentials Stats Storage Config Gc GcRun Orphans Auth Logins Http Decode Metrics App Yocto Listing Admin Server Connect AdminAudit AuditRun Sweeps Spec Uploads Reads Routes Layers Deadline Push PushWalk PushRun PushServer Commands Main Demo Findings.

(** The states are big terms: nothing but [vm_compute] should look inside. *)
#[local] Opaque trace3 trace4 demo_app.

Ltac by_run := vm_compute; reflexivity.

(** ** Server and handlers *)

Lemma reachable_serves_every_entry_witness :
  ∃ e c, entries (app_db trace4) !! 1 = Some e ∧ e_path e = "a"%string ∧
    blob_at (app_store trace4) (e_blob_hash e) = Some c ∧ sha256_hex c = e_blob_hash e.
Proof.
  assert (e_path <$> entries (app_db trace4) !! 1 = Some "a"%string) as Hp by (vm_compute; reflexivity).
  apply fmap_Some in Hp as (e & He & Hp).
  destruct (reachable_serves_every_entry demo_config trace4 demo_reachable) as [Hall _].
  destruct (Hall 1 e He) as (_ & _ & c & Hc & Hsha). exists e, c. auto.
Defined.

(** The PUT that leads from [trace3] to [trace4]: the step sets exactly its key. *)
Definition demo_cache_key : Key := (1, Sstate, "a"%string).
Definition demo_put_request : Request :=
  Yocto (demo_basic "alpha" 205) (PutEntry Sstate "alpha" "a" [inr content_a]).
Lemma server_refines_cache_witness :
  ∃ d, cache_step (Some (demo_cache_key, d)) (cached trace3) (cached trace4) ∧
    may_store trace3 demo_put_request demo_cache_key d.
Proof.
  assert (cached trace3 demo_cache_key = None) as H3 by by_run.
  assert (cached trace4 demo_cache_key = Some (demo_hash content_a)) as H4 by by_run.
  destruct (server_refines_cache demo_config (EvRequest demo_put_request) trace3 trace4
    demo_reachable3 (demo_served demo_put_request 300 trace3)) as (l & Hc & Hl).
  pose proof (cache_step_new _ _ _ _ _ Hc H3 H4) as Heq. rewrite Heq in Hc, Hl.
  destruct Hl as (req & Hreq & Hm). injection Hreq as <-.
  exact (ex_intro _ _ (conj Hc Hm)).
Defined.

Definition demo_get_request : Request := Yocto (demo_basic "alpha" 205) (GetEntry Sstate "alpha" "a").
Definition demo_read := handle demo_config demo_get_request trace4 900%nat.
Definition demo_read_response : Response :=
  mkResponse OK_200 [("content-length", "3"); ("etag", quoted (demo_hash content_a));
    ("cache-control", cache_control)]%string (BodyStream content_a).
Lemma reads_answer_from_the_cache_witness :
  demo_read.1.1 = Ok demo_read_response ∧
  answers_from_cache trace4 (demo_basic "alpha" 205) Sstate "alpha" "a" demo_read_response.
Proof.
  assert (demo_read.1.1 = Ok demo_read_response) as Hrun by by_run.
  split; [exact Hrun|].
  exact (reads_answer_from_the_cache demo_config _ Sstate "alpha" "a" trace4 900%nat demo_read_response _ _
    (reachable_ok _ _ demo_reachable) (run_is demo_read _ Hrun) eq_refl).
Defined.

Lemma reachable_refcounts_exact_witness :
  refcount_of (app_db trace4) (demo_hash content_a) = 1 ∧
  ref_entries (app_db trace4) (demo_hash content_a) = 1.
Proof.
  assert (refcount_of (app_db trace4) (demo_hash content_a) = 1) as H1 by by_run.
  split; [exact H1|]. rewrite <-H1. symmetry. revert H1.
  exact (λ _, reachable_refcounts_exact demo_config trace4 demo_keeping (demo_hash content_a)).
Defined.

(** Two uploads at once, the second of which is given up. *)
Definition received_a := put_receive demo_config demo_writer "alpha" [inr content_a] (fresh demo_config) 100%nat.
Definition received_b := put_receive demo_config demo_writer "alpha" [inr content_b] received_a.1.2 200%nat.
Definition in_flight (content : bytes) : Upload :=
  mkUpload demo_writer Sstate "a" (mkWritten (demo_hash content) (Z.of_nat (length content))).
Lemma uploads_beside_anything_but_sweeps_witness :
  let s := received_b.1.2 in
  is_ok received_a.1.1 = true ∧ is_ok received_b.1.1 = true ∧
  do_put demo_config demo_writer Sstate "alpha" "a" [inr content_a] s 300%nat =
  bind (put_receive demo_config demo_writer "alpha" [inr content_a])
    (put_register demo_config demo_writer Sstate "a") s 300%nat.
Proof.
  cbv zeta. split; [by_run|]. split; [by_run|].
  refine (proj2 (uploads_beside_anything_but_sweeps demo_config received_b.1.2 [in_flight content_a] _) _ _ _ _ _ _ _ _).
  apply (rtc_l _ _ (received_a.1.2, [in_flight content_a])).
  { eapply (upload_received demo_config demo_writer Sstate "alpha" "a" [inr content_a] _ 100%nat _ _ _ []). by_run. }
  apply (rtc_l _ _ (received_b.1.2, [in_flight content_a; in_flight content_b])).
  { eapply (upload_received demo_config demo_writer Sstate "alpha" "a" [inr content_b] _ 200%nat _ _ _ [_]). by_run. }
  apply rtc_once. exact (upload_dropped demo_config (in_flight content_b) _ [in_flight content_a] []).
Defined.

Definition demo_put := put_handler demo_config demo_writer Sstate "alpha" "d" [inr content_b] demo_app 700%nat.
(** The GET comes after another one, which has touched the entry. *)
Definition demo_touched : App :=
  (run_task demo_config (TouchEntry 4) (get_handler demo_writer Sstate "alpha" "d" false demo_put.1.2 800%nat).1.2 850%nat).1.2.
Lemma demo_touched_ok : app_ok demo_put.1.2 → app_ok demo_touched.
Proof.
  intros Hs. assert (Does anyhow (run_task demo_config (TouchEntry 4))) as Hrun by (simpl; apply _).
  assert (Keeps (get_handler demo_writer Sstate "alpha" "d" false)) as Hget by apply _.
  apply Hrun. exact (proj1 (Hget _ Hs 800%nat)).
Qed.
Lemma put_then_get_witness :
  ∃ resp c, (get_handler demo_reader Sstate "alpha" "d" false demo_touched 900%nat).1.1 = Ok resp ∧
    resp_status resp = OK_200 ∧ resp_body resp = BodyStream c ∧ sha256_hex c = demo_hash content_b.
Proof.
  destruct (put_then_get demo_config demo_writer Sstate "alpha" "d" [inr content_b] demo_app 700%nat
    (mkResponse CREATED [("etag"%string, quoted (demo_hash content_b))] BodyEmpty) demo_put.1.2 demo_put.2 demo_app_ok)
    as (chunks & Hch & _ & Hok & _ & Hget).
  - apply run_is. by_run.
  - reflexivity.
  - assert (chunks = [content_b]) as ->.
    { clear -Hch. destruct chunks as [|c0 [|? ?]]; [done| |done]. simpl in Hch. by injection Hch as <-. }
    destruct (Hget demo_env demo_fsenv demo_touched demo_reader 900%nat demo_quiet demo_fs_quiet (demo_touched_ok Hok))
      as (resp & c & Hrun & Hst & _ & Hb & Hsha & _).
    + by_run.
    + reflexivity.
    + reflexivity.
    + exists resp, c. split; [exact Hrun|]. split; [done|]. split; [done|]. rewrite Hsha. reflexivity.
Defined.

(** Stopped with an entry in the cache, started again, and read from since. *)
Lemma restart_recovers_witness :
  ∃ s' n', serve_boot demo_config trace4 900%nat = (Ok tt, s', n') ∧ app_db s' = app_db trace4 ∧
    (readyz (served (Yocto (demo_basic "alpha" 205) (GetEntry Sstate "alpha" "a")) 920 s') 950%nat).1.1
      = Ok (mkResponse OK_200 [] (BodyText (line "ready"))).
Proof.
  destruct (restart_recovers demo_config trace4 900%nat demo_quiet demo_fs_quiet (reachable_ok _ _ demo_reachable))
    as (r & s' & n' & Hrun & _ & Hdb & _ & _ & -> & _ & _ & Hready).
  exists s', n'. split; [exact Hrun|]. split; [exact Hdb|].
  apply (Hready _ 950%nat). apply rtc_once. eexists. apply demo_served.
Defined.

(** ** Commands and routes *)

Definition demo_init := init_cmd "config.toml" (Some "token.txt"%string) (mkHost (fresh demo_config) [] ∅) 0%nat.
Lemma init_hands_out_a_working_token_witness :
  ∃ token secret,
    h_files demo_init.1.2 = {["token.txt"%string := as_bytes secret ++ [newline]]} ∧
    (authenticate_admin secret (app_db (h_app demo_init.1.2), no_logins (auth demo_config)) 900%nat).1.1
      = Ok (mkAdminAuth (t_id token) (Some "init"%string)).
Proof.
  destruct (init_hands_out_a_working_token "config.toml" (Some "token.txt"%string) (mkHost (fresh demo_config) [] ∅)
    0%nat demo_init.1.2 demo_init.2 (fresh_ok demo_config))
    as (token & secret & _ & _ & _ & [_ Hfile] & Hauth).
  - apply run_is. by_run.
  - pose proof (Hauth demo_env demo_authenv demo_moka (auth demo_config) 900%nat demo_quiet demo_no_join_error) as Hin.
    exact (ex_intro _ token (ex_intro _ secret (conj Hfile Hin))).
Defined.

Definition downloads_pattern : list Segment := [Lit "downloads"; Param; Param]%string.
Lemma routes_are_unambiguous_witness :
  match_path downloads_pattern ["downloads"; "alpha"; "a"]%string = Some ["alpha"; "a"]%string ∧
  all_patterns !! 4%nat = Some downloads_pattern ∧ 4%nat = 4%nat.
Proof.
  split; [reflexivity|]. split; [reflexivity|].
  exact (routes_are_unambiguous 4 4 downloads_pattern downloads_pattern
    ["downloads"; "alpha"; "a"]%string _ _ eq_refl eq_refl eq_refl eq_refl).
Defined.


(** ** Garbage collection *)

Definition demo_sweep := GcSvc_run demo_gc false demo_sys 500%nat.
Lemma demo_sweep_runs : demo_sweep = (Ok (mkGcReport 2 7 1 3), demo_sweep.1.2, demo_sweep.2).
Proof. apply run_is. by_run. Qed.
#[local] Opaque demo_sys.

Lemma gc_run_keeps_invariant_witness : sys_ok demo_sweep.1.2.
Proof.
  exact (proj1 (gc_run_keeps_invariant demo_gc false demo_sys 500%nat _ _ _ demo_sys_ok demo_sweep_runs)).
Defined.

Lemma gc_run_spares_pinned_witness :
  e_path <$> entries demo_sweep.1.2.1 !! 1 = Some "a"%string.
Proof.
  assert (∃ e, entries demo_sys.1 !! 1 = Some e ∧ e_pinned e = true ∧ e_path e = "a"%string)
    as (e & He & Hpin & Hp).
  { assert ((λ e, (e_pinned e, e_path e)) <$> entries demo_sys.1 !! 1 = Some (true, "a"%string)) as Hf by by_run.
    apply fmap_Some in Hf as (e & He & Hf). exists e.
    injection Hf as H1 H2. exact (conj He (conj (eq_sym H1) (eq_sym H2))). }
  destruct (gc_run_spares_pinned demo_gc demo_sys 500%nat _ _ _ demo_sys_ok demo_sweep_runs) as (Hkeep & _).
  rewrite (Hkeep 1 e He Hpin). cbn [fmap option_fmap option_map]. by rewrite Hp.
Defined.

Lemma gc_run_reaches_goals_witness :
  ∃ now, clock_reading now ∧
    (∀ i e, entries demo_sweep.1.2.1 !! i = Some e → ttl_due demo_gc (projects demo_sys.1) now e = false) ∧
    (∀ i p, projects demo_sys.1 !! i = Some p → quota_met p demo_sweep.1.2.1).
Proof.
  destruct (gc_run_reaches_goals demo_gc demo_sys 500%nat _ _ _ demo_sys_ok demo_sizes_nonneg
    demo_usage_in_i64 demo_sweep_runs) as (now & Hnow & Hdue & Hq & _).
  by exists now.
Defined.

Lemma gc_run_terminates_witness : is_ok (GcSvc_run demo_gc false demo_sys 500%nat).1.1 = true.
Proof.
  destruct (gc_run_terminates demo_gc demo_sys 500%nat demo_quiet demo_sys_ok) as [[rep Hr]|He].
  - rewrite Hr. reflexivity.
  - by_run.
Defined.

Lemma gc_dry_run_is_read_only_witness : (GcSvc_run demo_gc true demo_sys 500%nat).1.2 = demo_sys.
Proof. exact (gc_dry_run_is_read_only demo_gc demo_sys 500%nat demo_schema_ok). Defined.

Definition demo_alpha : Project := mkProject 1 "alpha" (Some 5) None 1000.
Definition demo_evict := quota_project false GcReport_default demo_alpha demo_db 500%nat.
Lemma quota_evicts_lru_prefix_witness :
  ∃ l rest, lru_of (λ e, e_project_id e =? 1) demo_db = l ++ rest ∧
    project_usage demo_evict.1.2 1 = project_usage demo_db 1 - sizes l ∧
    (rest = [] ∨ project_usage demo_evict.1.2 1 <= 5).
Proof.
  destruct (quota_evicts_lru_prefix GcReport_default demo_alpha 5 demo_db 500%nat
    (mkGcReport 2 7 0 0) demo_evict.1.2 demo_evict.2 demo_schema_ok)
    as (l & rest & Hl & _ & _ & Hu & Hr & _ & _).
  - reflexivity.
  - by_run.
  - exact demo_sizes_nonneg.
  - apply demo_usage_in_i64.
  - apply run_is. by_run.
  - exact (ex_intro _ l (ex_intro _ rest (conj Hl (conj Hu Hr)))).
Defined.

(** ** Orphan scan *)

Lemma demo_blobs_dir : ["blobs"%string] ∈ fs_dirs demo_sys.2.
Proof. exact (proj1 demo_opened). Qed.

Lemma orphan_scan_keeps_invariant_witness : sys_ok (GcSvc_orphan_scan false demo_sys 500%nat).1.2.
Proof.
  exact (proj1 (orphan_scan_keeps_invariant false demo_sys 500%nat _ _ _ demo_sys_ok demo_blobs_dir
    (run_is (GcSvc_orphan_scan false demo_sys 500%nat) _ eq_refl))).
Defined.

Lemma orphan_scan_reconciles_witness :
  ∃ rep s', (GcSvc_orphan_scan false demo_sys 500%nat).1 = (Ok rep, s') ∧ entries s'.1 = entries demo_sys.1.
Proof.
  destruct (orphan_scan_reconciles demo_sys 500%nat demo_quiet demo_fs_quiet demo_sys_ok demo_blobs_dir)
    as (rep & s' & Hrun & _ & _ & He).
  exact (ex_intro _ rep (ex_intro _ s' (conj Hrun He))).
Defined.

Lemma orphan_scan_wipes_on_stat_error_witness :
  ∃ rep s', (@GcSvc_orphan_scan demo_env broken_fsenv false demo_sys 500%nat).1 = (Ok rep, s') ∧
    entries s'.1 = ∅.
Proof.
  destruct (@orphan_scan_wipes_on_stat_error demo_env broken_fsenv demo_sha demo_sys 500%nat
    (mkIoError IoOtherKind "EIO") 0%nat demo_quiet demo_schema_ok demo_store_ok eq_refl)
    as (rep & s' & Hrun & He & _).
  exact (ex_intro _ rep (ex_intro _ s' (conj Hrun He))).
Defined.

(** ** Store *)

Definition demo_write := LocalFsStore_write_streamed "/srv/marmotte" [inr content_b; inr content_a] demo_store 500%nat.
Definition demo_new_hash : string := demo_hash (content_b ++ content_a).
Lemma write_streamed_stores_witness :
  ∃ c, blob_at demo_write.1.2 demo_new_hash = Some c ∧ sha256_hex c = demo_new_hash.
Proof.
  destruct (write_streamed_stores "/srv/marmotte" [inr content_b; inr content_a] demo_store 500%nat
    (mkWritten demo_new_hash 7) demo_write.1.2 demo_write.2 demo_store_ok)
    as (chunks & _ & _ & _ & (c & Hc & Hsha & _) & _).
  - apply run_is. by_run.
  - exact (ex_intro _ c (conj Hc Hsha)).
Defined.

(** The client goes away after the first chunk. *)
Definition gone : IoError := mkIoError IoOtherKind "connection reset".
Definition demo_broken_write := LocalFsStore_write_streamed "/srv/marmotte" [inr content_b; inl gone] demo_store 500%nat.
Lemma write_streamed_failure_harmless_witness :
  store_ok demo_broken_write.1.2 ∧ ∀ h, blob_at demo_broken_write.1.2 h = blob_at demo_store h.
Proof.
  destruct (write_streamed_failure_harmless "/srv/marmotte" [inr content_b; inl gone] demo_store 500%nat
    (Err (Io gone)) demo_broken_write.1.2 demo_broken_write.2 demo_store_ok)
    as (e & _ & Hok & Hsame & _).
  - apply run_is. by_run.
  - reflexivity.
  - exact (conj Hok Hsame).
Defined.

Lemma write_then_read_witness :
  ∃ c, ((let* w := LocalFsStore_write_streamed "/srv/marmotte" (inr <$> [content_b; content_a]) in
         LocalFsStore_read_blob (w_hash w)) demo_store 500%nat).1.1 = Ok c ∧ sha256_hex c = demo_new_hash.
Proof.
  destruct (write_then_read "/srv/marmotte" [content_b; content_a] demo_store 500%nat
    demo_fs_quiet demo_store_ok demo_opened) as (c & Hc & Hsha & _).
  exact (ex_intro _ c (conj Hc Hsha)).
Defined.

(** An interrupted upload left a file behind. *)
Definition demo_leftover : Fs := set_files (<[["tmp"; "x"]%string := content_a]> (fs_files demo_store)) demo_store.
Lemma demo_leftover_ok : store_ok demo_leftover.
Proof.
  apply (store_ok_tmp demo_store); [exact demo_store_ok| |reflexivity|intros u Hu; right; apply demo_opened].
  refine (same_blobs_tmp_files demo_store _ "x" _). intros p Hp. by apply lookup_insert_ne.
Qed.
Definition demo_open := LocalFsStore_open demo_leftover 500%nat.
Lemma open_purges_tmp_witness : fs_files demo_open.1.2 !! ["tmp"; "x"]%string = None.
Proof.
  destruct (open_purges_tmp demo_leftover 500%nat (Ok tt) demo_open.1.2 demo_open.2 demo_leftover_ok)
    as (_ & _ & _ & Hgone).
  - apply run_is. by_run.
  - exact (Hgone demo_fs_quiet "x"%string).
Defined.

(** ** Repositories *)

Definition demo_upsert := Entries_upsert 1 Sstate "b" (demo_hash content_a) 3 demo_db 500%nat.
Lemma upsert_keeps_refcounts_witness :
  (∀ h, slack demo_upsert.1.2 h = slack demo_db h) ∧
  ∃ row, entry_at demo_upsert.1.2 1 Sstate "b" = Some row ∧ e_id row = 2 ∧
    e_blob_hash row = demo_hash content_a.
Proof.
  destruct (upsert_keeps_refcounts 1 Sstate "b" (demo_hash content_a) 3 demo_db 500%nat
    (mkEntry 2 1 Sstate "b" (demo_hash content_a) 3 1505 1505 false) demo_upsert.1.2 demo_upsert.2
    demo_schema_ok) as (_ & Hslack & (row & Hrow & Hid & Hh & _) & _).
  - apply run_is. by_run.
  - exact (conj Hslack (ex_intro _ row (conj Hrow (conj Hid Hh)))).
Defined.

Definition demo_refused := Entries_upsert 77 Sstate "b" (demo_hash content_a) 3 demo_db 500%nat.
Lemma entry_errors_change_nothing_witness : demo_refused.1.2 = demo_db.
Proof.
  destruct (entry_errors_change_nothing 77 Sstate "b" (demo_hash content_a) 3 1 demo_db 500%nat demo_schema_ok)
    as [[_ Hsame] _].
  apply Hsame. by_run.
Defined.

Definition demo_delete := Entries_delete 1 3 demo_db 500%nat.
Lemma delete_releases_reference_witness :
  entries demo_delete.1.2 = delete 3 (entries demo_db) ∧ ∀ h, slack demo_delete.1.2 h = slack demo_db h.
Proof.
  destruct (delete_releases_reference 1 3 demo_db 500%nat demo_delete.1.2 demo_delete.2 demo_schema_ok)
    as (e & _ & He & _ & Hslack & _).
  - apply run_is. by_run.
  - exact (conj He Hslack).
Defined.

Definition demo_conflict := Projects_create "beta" None None demo_db 500%nat.
Lemma project_create_unique_name_witness : demo_conflict.1.2 = demo_db ∧ name_taken demo_db "beta".
Proof.
  destruct (project_create_unique_name "beta" None None demo_db 500%nat (Err (conflict_of "beta"))
    demo_conflict.1.2 demo_conflict.2 demo_quiet demo_schema_ok) as [Hsame [[_ Ht]|Hfull]].
  - apply run_is. by_run.
  - exact (conj Hsame Ht).
  - discriminate Hfull.
Defined.

Definition demo_patch := Projects_update 1 (Some "gamma"%string) (Some None) None demo_db 500%nat.
Lemma project_update_all_or_nothing_witness :
  schema_ok demo_patch.1.2 ∧ entries demo_patch.1.2 = entries demo_db.
Proof.
  destruct (project_update_all_or_nothing 1 (Some "gamma"%string) (Some None) None demo_db 500%nat
    (Ok (mkProject 1 "gamma" None None 1000)) demo_patch.1.2 demo_patch.2 demo_quiet demo_schema_ok)
    as (Hok & old & _ & _ & _ & He & _).
  - apply run_is. by_run.
  - exact (conj Hok He).
Defined.

Definition demo_drop := Projects_delete 1 demo_db 500%nat.
Lemma project_delete_cascades_witness :
  blobs demo_drop.1.2 = blobs demo_db ∧ slack demo_drop.1.2 (demo_hash content_b) = 1.
Proof.
  destruct (project_delete_cascades 1 demo_db 500%nat demo_drop.1.2 demo_drop.2 demo_schema_ok)
    as (_ & _ & Hb & _ & _ & _ & Hslack).
  - apply run_is. by_run.
  - split; [exact Hb|]. rewrite Hslack. by_run.
Defined.

Definition demo_bump := Stats_bump (Some 1) "hit" 2 30 demo_db 500%nat.
Lemma bump_adds_to_sums_witness :
  schema_ok demo_bump.1.2 ∧ stat_total sr_bytes demo_bump.1.2 (Some 2) "hit" 0 = 0.
Proof.
  destruct (bump_adds_to_sums (Some 1) "hit" 2 30 demo_db 500%nat (Ok tt) demo_bump.1.2 demo_bump.2
    demo_schema_ok) as [Hok (now & _ & Htot)].
  - apply run_is. by_run.
  - split; [exact Hok|]. destruct (Htot (Some 2) 0) as [_ Hb]. rewrite Hb.
    unfold bump_counts. rewrite andb_false_r. by_run.
Defined.

(** ** Authentication *)

(** The key of the set-up was made with the random bytes of the tenth interaction. *)
Definition demo_key : string := secret_at 9.
Definition demo_svc : AuthSvc := no_logins (auth demo_config).
Definition demo_login := authenticate_project "alpha" demo_key (demo_db, demo_svc) 500%nat.
Lemma demo_svc_scoped : scoped demo_svc.
Proof. intros k a m Hin. by apply not_elem_of_nil in Hin. Qed.

Definition demo_login_auth : ProjectAuth := mkProjectAuth 1 "alpha" 1 Write.
Lemma demo_login_runs : demo_login = (Ok demo_login_auth, demo_login.1.2, demo_login.2).
Proof. apply run_is. by_run. Qed.

Lemma authenticate_project_sound_witness : vouched demo_db "alpha" demo_key demo_login_auth.
Proof.
  destruct (authenticate_project_sound "alpha" demo_key demo_db demo_svc 500%nat (Ok demo_login_auth)
    demo_login.1.2 demo_login.2 demo_svc_scoped demo_login_runs) as (_ & _ & _ & _ & [Hv|(m & Hin & _)]).
  - exact Hv.
  - exfalso. apply not_elem_of_nil in Hin. exact Hin.
Defined.

Lemma demo_vouched : vouched demo_db "alpha" demo_key demo_login_auth.
Proof.
  destruct (authenticate_project_run _ _ _ _ _ _ _ _ demo_login_runs) as (_ & _ & _ & [(_ & m & Hm & _)|[Hv _]]).
  - discriminate Hm.
  - exact Hv.
Qed.

(** Another position, so another random number and another time. *)
Lemma authenticate_project_decides_witness :
  (authenticate_project "alpha" demo_key (demo_db, demo_svc) 900%nat).1.1 = Ok demo_login_auth.
Proof.
  apply (proj2 (authenticate_project_decides "alpha" demo_key demo_db demo_svc 900%nat demo_login_auth
    demo_quiet demo_no_join_error demo_schema_ok eq_refl)).
  exact demo_vouched.
Defined.

Definition demo_revoke := ApiKeys_revoke 1 1 demo_db 500%nat.
Definition demo_late := authenticate_project "alpha" demo_key (demo_revoke.1.2, demo_svc) 900%nat.
Lemma revoked_key_locked_out_witness :
  demo_late.1.1 = Err Unauthorized ∧ locked 1 demo_revoke.2 demo_revoke.1.2 demo_late.1.2.2.
Proof.
  destruct (revoked_key_locked_out 1 1 demo_db 500%nat demo_revoke.1.2 demo_revoke.2 demo_svc
    demo_schema_ok) as [Hlock Hlater].
  - apply run_is. by_run.
  - intros k a m Hin. exfalso. by apply not_elem_of_nil in Hin.
  - assert (auth_mono demo_revoke.2 + vc_time_to_live (project_cache demo_svc) <= auth_mono 900%nat) as Hle
      by (vm_compute; discriminate).
    split; [by_run|].
    exact (proj2 (Hlater demo_svc "alpha"%string demo_key 900%nat demo_late.1.1 demo_late.1.2 demo_late.2
      Hlock Hle (run_is demo_late _ eq_refl))).
Defined.

(** ** Handlers *)

Definition demo_get := get_handler demo_reader Sstate "alpha" "b" true demo_app 500%nat.
Definition demo_get_response : Response :=
  mkResponse OK_200 [("content-length", "4"); ("etag", quoted (demo_hash content_b));
    ("cache-control", cache_control)]%string BodyEmpty.
Lemma get_serves_the_entry_witness :
  ∃ e, entry_at (app_db demo_app) 1 Sstate "b" = Some e ∧ entry_response demo_app e true demo_get_response.
Proof.
  destruct (get_serves_the_entry demo_reader Sstate "alpha" "b" true demo_app 500%nat (Ok demo_get_response)
    demo_get.1.2 demo_get.2 demo_app_ok) as (resp & [= <-] & _ & _ & Hserved).
  - apply run_is. by_run.
  - exact (proj2 (Hserved eq_refl)).
Defined.

Lemma get_answers_witness :
  ∃ resp, (get_handler demo_reader Sstate "alpha" "nothing" false demo_app 500%nat).1.1 = Ok resp ∧
    resp_status resp = NOT_FOUND.
Proof.
  destruct (get_answers demo_reader Sstate "alpha" "nothing" false demo_app 500%nat demo_quiet demo_fs_quiet
    demo_app_ok) as (resp & Hresp & Hst).
  exists resp. split; [exact Hresp|]. rewrite Hst. by_run.
Defined.

Lemma put_needs_write_on_own_project_witness :
  ∃ resp, (put_handler demo_config demo_reader Sstate "alpha" "a" [inr content_b] demo_app 500%nat).1
    = (Ok resp, demo_app) ∧ resp_status resp = FORBIDDEN.
Proof.
  exact (put_needs_write_on_own_project demo_config demo_reader Sstate "alpha" "a" [inr content_b] demo_app
    500%nat (or_intror eq_refl)).
Defined.

Definition demo_raw_gc : RawGc := mkRawGc None (Some 30) (Some 365) (Some 1000) None.
Lemma gc_threshold_bounds_witness :
  gc_threshold (mkGcConfig 300 30 365 1000 90) = 900 ∧ 900 <= 1000.
Proof.
  destruct (gc_threshold_bounds demo_raw_gc (mkGcConfig 300 30 365 1000 90) eq_refl eq_refl)
    as (_ & Heq & _ & Hle).
  split; [exact Heq|]. apply Hle. vm_compute. discriminate.
Defined.

Definition demo_new_key := create_key demo_admin 2 Read None demo_app 800%nat.
Lemma created_key_is_accepted_witness :
  ∃ p key secret, projects (app_db demo_new_key.1.2) !! 2 = Some p ∧
    demo_new_key.1.1 = Ok (json_response CREATED (ApiKeyCreated key secret)) ∧ k_role key = Read.
Proof.
  destruct (created_key_is_accepted demo_admin 2 Read None demo_app 800%nat
    (json_response CREATED (ApiKeyCreated (mkApiKey 2 2 EmptyString EmptyString Read None 1803 None) (secret_at 801)))
    demo_new_key.1.2 demo_new_key.2 500%nat demo_quiet demo_no_join_error demo_app_ok)
    as (p & key & secret & Hp & Hresp & Hrole & _).
  - apply run_is. by_run.
  - exists p, key, secret. split; [exact Hp|]. split; [|exact Hrole]. rewrite <-Hresp. by_run.
Defined.

(** No header at all. *)
Lemma strangers_change_nothing_witness :
  ∃ resp, (handle demo_config (Yocto None (GetEntry Sstate "alpha" "a")) demo_app 500%nat).1
    = (Ok resp, demo_app) ∧
    (resp_status resp = UNAUTHORIZED ∨ resp_status resp = INTERNAL_SERVER_ERROR).
Proof.
  apply (strangers_change_nothing demo_config (Yocto None (GetEntry Sstate "alpha" "a")) demo_app 500%nat).
  intros c Hc. discriminate Hc.
Defined.

(** ** Listing, credentials on the wire, pushing *)

(** Two rows to a page. *)
Definition demo_filter : ListFilter := mkListFilter None None None (Some Path) (Some Asc) (Some 2) None.
Definition demo_pages := traverse 2 1 demo_filter demo_db 500%nat.
Definition demo_rest : list Entry := listing 1 demo_filter demo_db.
Lemma pages_cover_the_listing_witness :
  length demo_rest = 3%nat ∧ demo_pages.1.1 = Ok (demo_rest, 2%nat) ∧
  StronglySorted (row_le Path Asc) demo_rest ∧ NoDup (e_id <$> demo_rest).
Proof.
  assert (length demo_rest = 3%nat) as Hlen by by_run.
  assert (demo_pages.1.1 = Ok (demo_rest, 2%nat)) as Hrun by by_run.
  destruct (pages_cover_the_listing 1 demo_filter demo_db 500%nat 2 (Ok (demo_rest, 2%nat)) demo_pages.1.2 demo_pages.2
    demo_schema_ok demo_rows_in_i64 eq_refl) as (_ & _ & Hsorted & Hnd & _).
  - fold demo_rest. rewrite Hlen. vm_compute. discriminate.
  - apply run_is. exact Hrun.
  - exact (conj Hlen (conj Hrun (conj Hsorted Hnd))).
Defined.

Definition demo_page := Entries_list 1 demo_filter demo_db 500%nat.
Lemma demo_at_cursor : at_cursor 1 demo_filter demo_db demo_rest.
Proof. unfold at_cursor, demo_rest. cbn [f_cursor demo_filter]. reflexivity. Qed.
Lemma page_shape_witness : demo_page.1.2 = demo_db ∧ list_limit demo_filter = 2.
Proof.
  destruct (page_shape 1 demo_filter demo_db demo_rest 500%nat (page_of demo_filter demo_rest)
    demo_page.1.2 demo_page.2 demo_schema_ok demo_rows_in_i64 demo_at_cursor)
    as (Hsame & _ & _ & Hlim & _).
  - apply run_is. by_run.
  - split; [exact Hsame|]. apply (Hlim 2); [reflexivity|lia].
Defined.

Lemma basic_credentials_round_trip_witness :
  parse_basic (Some (basic_header "alpha" "se:cret")) = Some (mkBasic "alpha" "se:cret").
Proof. exact (proj1 (basic_credentials_round_trip "alpha" "se:cret" eq_refl eq_refl)). Defined.

(** The server does not have the file, answers 503 twice and then accepts it. *)
#[local] Instance demo_net : Net unit :=
  mkNet unit (λ _ _ _ w _, (inr (404, None), w))
    (λ _ _ _ w n, (inr (if (n <? 10)%nat then 503 else 201), w))
    (λ _ _, inr [inr content_a]) (λ _ _, inr content_a) (λ _, "status"%string).
Definition demo_url : string := "/sstate/alpha/a".
Definition demo_push := push_one demo_url [demo_url] EmptyString false (mkPushLog 0 [] [] tt) 0%nat.
Lemma push_retries_are_bounded_witness :
  (heads_sent demo_push.1.2 ≤ 1)%nat ∧
  ∃ k bodies, puts_sent demo_push.1.2 = bodies ∧ (k ≤ 4)%nat ∧ length bodies = S k.
Proof.
  destruct (push_retries_are_bounded demo_url [demo_url] EmptyString false (mkPushLog 0 [] [] tt) 0%nat
    (Ok Pushed) demo_push.1.2 demo_push.2) as (_ & Hh & k & bodies & Hp & _ & Hk & _ & _ & _ & _ & Hlen).
  - apply run_is. by_run.
  - split; [exact Hh|]. exists k, bodies. split; [exact Hp|]. split; [exact Hk|].
    exact (proj1 (Hlen eq_refl eq_refl)).
Defined.

(** A directory with a file, a subdirectory with another, and a link. *)
Definition demo_tree : list (string * Node) :=
  [("a", NFile); ("link", NOther); ("sub", NDir [("a", NFile)])]%string.
#[local] Instance demo_walkenv : WalkEnv := mkWalkEnv (λ _, None).
Lemma demo_tree_ok : tree_ok (NDir demo_tree).
Proof.
  constructor.
  - apply (bool_decide_unpack _). by_run.
  - repeat constructor; simpl; set_solver.
Qed.
Definition demo_files : list (path * path) :=
  [(["a"], ["build"; "a"]); (["sub"; "a"], ["build"; "sub"; "a"])]%string.
Definition demo_walk := walk ["build"%string] ["build"%string] (NDir demo_tree) [] 0%nat.
Lemma walk_finds_every_file_witness :
  demo_walk.1 = (Ok tt, demo_files) ∧ NoDup demo_files.*1.
Proof.
  assert (demo_walk.1 = (Ok tt, demo_files)) as Hrun by by_run. split; [exact Hrun|].
  pose proof (walk_finds_every_file ["build"%string] demo_tree 0%nat demo_tree_ok) as Hw.
  fold demo_walk in Hw. destruct demo_walk as [[r files] n]. simpl in Hrun. injection Hrun as -> ->.
  exact (proj1 Hw).
Defined.

#[local] Instance demo_urls : UrlLib := mkUrlLib (λ base rel, inr (base +:+ rel)).
Definition demo_args (permits : nat) : PushArgs :=
  mkPushArgs "alpha" "sstate" "http://localhost:9090/" "secret" permits false.
Lemma push_run_ends_with_a_report_witness :
  sn (run_step (demo_args 1)) (run_start (demo_args 1) demo_files).
Proof.
  exact (proj1 (proj2 (push_run_ends_with_a_report (demo_args 1) demo_files (le_n 1)))).
Defined.

Lemma push_without_permits_hangs_witness :
  nf (run_step (demo_args 0)) (run_start (demo_args 0) demo_files).
Proof.
  refine (proj1 (push_without_permits_hangs (demo_args 0) demo_files eq_refl _)). discriminate.
Defined.

Lemma push_targets_have_routes_witness :
  leads_to ["sstate"; "alpha"; "sub"; "a"]%string Sstate "alpha" "sub/a" ∧
  ¬ ∃ path, leads_to ["downloads"; "alpha"; "sub"; "a"]%string Downloads "alpha" path.
Proof.
  assert (["sub"; "a"]%string ≠ []) as Hne by discriminate.
  assert (Forall (λ name, name ≠ EmptyString) ["sub"; "a"]%string) as Hnames by (repeat constructor; discriminate).
  assert ("alpha"%string ≠ EmptyString) as Hp by discriminate.
  destruct (push_targets_have_routes "alpha" ["sub"; "a"]%string Hp Hne Hnames) as [Hs [Hd _]].
  split; [exact Hs|]. intros Hm. discriminate (Hd Hm).
Defined.

(** The client pushes a file with the key of [trace4]; before each of its requests
    somebody else reads. *)
#[local] Instance demo_wire : Wire.
Proof.
  refine (mkWire (λ _, demo_env) (λ _, demo_fsenv) (λ _, demo_authenv) (λ _, demo_moka)
    (λ url, ["sstate"; "alpha"; url]%string) (λ n s, served demo_get_request n s)
    (λ _, None) (λ _ body, [body]) _).
  intros n body. simpl. apply app_nil_r.
Defined.
#[local] Instance demo_local : Local :=
  mkLocal (λ _ _, inr [inr content_b]) (λ _ _, inr content_b) (λ _, "status"%string).
Lemma demo_between n s : rtc (net_step demo_config) s (wire_between n s).
Proof. apply rtc_once, net_other. eexists. apply demo_served. Qed.
Lemma demo_net_reachable : rtc (net_step demo_config) (fresh demo_config) trace4.
Proof. eapply rtc_subrel; [|exact demo_reachable]. apply net_other. Qed.
Definition demo_secret_header : string := basic_header "alpha" (secret_at 205).
Definition demo_upload :=
  push_one (net := server_net demo_config) "new" ["new"%string] demo_secret_header false
    (mkPushLog 0 [] [] trace4) 900%nat.
Lemma push_reaches_the_cache_witness :
  ∃ content, has_for demo_config trace4 demo_secret_header Sstate "alpha" "new" (sha256_hex content)
      (world demo_upload.1.2) ∧ content = content_b.
Proof.
  destruct (push_reaches_the_cache demo_config "new" Sstate ["alpha"; "new"]%string ["new"%string] demo_secret_header
    false (mkPushLog 0 [] [] trace4) 900%nat Pushed demo_upload.1.2 demo_upload.2
    demo_net_reachable demo_between eq_refl)
    as (project & path & content & m & Hl & Hhas & Hread).
  - apply run_is. by_run.
  - reflexivity.
  - injection Hread as <-. exists content_b. split; [|reflexivity].
    pose proof (Hl (head_request "new" demo_secret_header) eq_refl (or_introl eq_refl)) as Hd.
    assert (dispatch (head_request "new" demo_secret_header) =
      Some (false, Yocto (Some demo_secret_header) (HeadEntry Sstate "alpha" "new"))) as Hd' by by_run.
    rewrite Hd' in Hd. injection Hd as <- <-. exact Hhas.
Defined.

(** ** The layers, reads and logins in flight, the program *)

Definition demo_incoming : Incoming :=
  mkIncoming (mkHttpRequest PUT ["sstate"; "alpha"; "n"]%string EmptyString (demo_basic "alpha" 205)
    [inr content_b]) (Some 4).
Definition demo_layered := build_app demo_config demo_incoming trace4 900%nat.
Lemma upload_limit_enforced_witness :
  body_size [inr content_b] <= upload_limit demo_config ∧
  put_took_place trace4 (demo_basic "alpha" 205) Sstate "alpha" "n" [inr content_b] demo_layered.1.2.
Proof.
  assert (well_announced demo_incoming) as Hwell.
  { intros len Hlen. injection Hlen as <-. vm_compute. discriminate. }
  destruct (upload_limit_enforced demo_config demo_incoming trace4 900%nat demo_layered.1.1 demo_layered.1.2
    demo_layered.2 (reachable_ok _ _ demo_reachable) Hwell) as (_ & _ & Hput).
  - exact (run_is demo_layered _ eq_refl).
  - assert (dispatch (in_request demo_incoming) =
      Some (false, Yocto (demo_basic "alpha" 205) (PutEntry Sstate "alpha" "n" [inr content_b]))) as Hd by by_run.
    destruct (Hput _ _ _ _ _ _ Hd) as [_ H201].
    assert (status_of demo_layered.1.1 = Some CREATED) as Hst by by_run.
    destruct demo_layered.1.1 as [resp|e|w]; [|discriminate Hst|discriminate Hst].
    injection Hst as Hst. exact (H201 resp eq_refl Hst).
Defined.

(** A read looks its entry up in a state with content, and opens the file after an
    upload came in between. *)
Definition demo_lookup := get_lookup demo_writer Sstate "alpha" "a" trace4 900%nat.
Definition demo_found : Entry * list (string * string) :=
  match demo_lookup.1.1 with Ok found => found | _ => (mkEntry 0 0 Sstate "" "" 0 0 0 false, []) end.
Definition demo_reading : Reading := mkReading demo_writer Sstate demo_found.1 demo_found.2.
Lemma demo_trace_flight : rtc (flight_step demo_config) (fresh demo_config, [], []) (trace4, [], []).
Proof.
  pose proof demo_reachable as Hr. induction Hr as [x|x y z Hxy _ IH]; [apply rtc_refl|].
  destruct Hxy as [ev Hev]. eapply rtc_l; [|exact IH]. apply flight_upload.
  by apply (upload_beside demo_config ev).
Qed.
Lemma reads_beside_anything_witness :
  ∃ resp, (get_finish demo_reading demo_lookup.1.2 950%nat).1.1 = Ok resp ∧ resp_status resp = OK_200 ∧
    late_answer demo_lookup.1.2 demo_reading resp.
Proof.
  assert (demo_lookup = (Ok (demo_found.1, demo_found.2), demo_lookup.1.2, demo_lookup.2)) as Hrun by by_run.
  assert (rtc (flight_step demo_config) (fresh demo_config, [], []) (demo_lookup.1.2, [], [demo_reading])) as Hr.
  { eapply rtc_r; [exact demo_trace_flight|].
    exact (flight_looked_up demo_config demo_writer Sstate "alpha" "a" trace4 900%nat _ _ _ _ [] [] Hrun). }
  destruct (proj2 (reads_beside_anything demo_config demo_lookup.1.2 [] [demo_reading] Hr demo_env demo_fsenv)
    demo_reading 950%nat) as (_ & resp & Hresp & Hlate & Hok).
  - left.
  - exists resp. split; [exact Hresp|]. split; [|exact Hlate]. apply Hok; [exact demo_fs_quiet|].
    assert (blob_at (app_store demo_lookup.1.2) (e_blob_hash (rd_entry demo_reading)) = Some content_a) as -> by by_run.
    by eexists.
Defined.

(** A sweep of a state with one entry, which is pinned before the sweep starts. *)
Definition demo_pinned : App := served (AdminApi (demo_bearer 7) (PinEntry 1 1)) 900 trace4.
Definition demo_swept : Sweeping := sweep_drive 40 1000%nat (demo_pinned, Some (false, sweep_start)).
Lemma demo_pinned_reachable : rtc (sweep_move demo_config) (fresh demo_config, None) (demo_pinned, None).
Proof.
  assert (∀ ev s s', event_sweeps ev = false → server_does demo_config ev s s' →
    rtc (sweep_move demo_config) (s, None) (s', None)) as Hstep.
  { intros ev s s' Hsw Hd. apply rtc_once. right. by apply (beside_does demo_config ev). }
  etransitivity; [exact (Hstep EvInit _ _ eq_refl demo_step1)|].
  etransitivity; [exact (Hstep (EvRequest (AdminApi (demo_bearer 7) (CreateProject "alpha" (Some 5) None)))
    trace1 trace2 eq_refl (demo_served _ 100%nat trace1))|].
  etransitivity; [exact (Hstep (EvRequest (AdminApi (demo_bearer 7) (CreateKey 1 Write None)))
    trace2 trace3 eq_refl (demo_served _ 200%nat trace2))|].
  etransitivity; [exact (Hstep (EvRequest demo_put_request) trace3 trace4 eq_refl (demo_served _ 300%nat trace3))|].
  exact (Hstep (EvRequest (AdminApi (demo_bearer 7) (PinEntry 1 1))) trace4 demo_pinned eq_refl
    (demo_served _ 900%nat trace4)).
Qed.
Lemma sweeps_beside_anything_witness : demo_swept.2 = None ∧ pinned_at 1 demo_swept.1.
Proof.
  split; [by_run|].
  refine (proj2 (proj2 (sweeps_beside_anything demo_config (demo_pinned, None) demo_pinned_reachable)) 1 _ eq_refl _ _).
  - assert (e_pinned <$> entries (app_db demo_pinned) !! 1 = Some true) as Hp by by_run.
    apply fmap_Some in Hp as (e & He & Hp). exists e. split; [exact He|]. symmetry. exact Hp.
  - apply (rtc_l _ _ (demo_pinned, Some (false, sweep_start))); [left; apply own_start|].
    apply (rtc_subrel (sweep_own demo_config) _); [intros x y Hxy; by left|].
    exact (sweep_drive_own 40 1000%nat (demo_pinned, Some (false, sweep_start))).
Defined.

(** A login, caught just before it answers. *)
Definition demo_station : Station := opened_station (auth demo_config) 500 demo_db.
Definition demo_arrived : Station := drive 4 (arrive "alpha" demo_key demo_station).
Definition demo_pending : Login := mkLogin "alpha" demo_key (Accepted demo_login_auth).
Lemma demo_arrived_runs : rtc login_move demo_station demo_arrived.
Proof. unfold demo_arrived. etransitivity; [apply arrive_moves|apply drive_moves]. Qed.
Lemma logins_in_flight_witness :
  (login_step demo_pending (st_state demo_arrived) 600%nat).1.1 = Ok (inr demo_login_auth) ∧
  pa_project_name demo_login_auth = "alpha"%string.
Proof.
  assert ((login_step demo_pending (st_state demo_arrived) 600%nat).1.1 = Ok (inr demo_login_auth)) as Hrun by by_run.
  split; [exact Hrun|].
  refine (proj2 (logins_in_flight (auth demo_config) 500 demo_db demo_arrived demo_schema_ok demo_arrived_runs)
    demo_pending 600%nat demo_login_auth _ _ _ _ (run_is _ _ Hrun)).
  - assert (st_logins demo_arrived = [demo_pending]) as -> by by_run. left.
  - vm_compute. lia.
Defined.

(** The key is revoked while a login has it; that login ends, a second key is made, and a
    login with the new key is answered after the time to live has passed. *)
Definition demo_bar := ApiKeys_revoke 1 1 (st_state demo_arrived).1 600%nat.
Definition demo_barred : Station :=
  mkStation (Nat.max 600 demo_bar.2) (demo_bar.1.2, (st_state demo_arrived).2) (st_logins demo_arrived).
Definition demo_left : Station := drive 1 demo_barred.
Definition demo_second := ApiKeys_create 1 (lookup_hash "second") "$second" Read None (st_state demo_left).1 700%nat.
Definition demo_replaced : Station :=
  mkStation (Nat.max 700 demo_second.2) (demo_second.1.2, (st_state demo_left).2) (st_logins demo_left).
Definition demo_again : Station := drive 4 (arrive "alpha" "second" demo_replaced).
Definition demo_new_login : Login := mkLogin "alpha" "second" (Accepted demo_reader).
Lemma demo_again_runs : rtc login_move demo_left demo_again.
Proof.
  apply (rtc_l _ _ demo_replaced).
  - assert (st_now demo_left ≤ 700)%nat as Hle by (vm_compute; lia).
    assert (key_write 700 (st_state demo_left).1 demo_second.1.2 demo_second.2) as Hw.
    { apply (write_create 1 (lookup_hash "second") "$second" Read None _ _ demo_second.1.1).
      exact (run_is demo_second _ eq_refl). }
    unfold demo_replaced. destruct demo_left as [now [t svc] lgs]. by apply move_write.
  - unfold demo_again. etransitivity; [apply arrive_moves|apply drive_moves].
Qed.
Lemma revoked_key_stays_out_witness :
  (login_step demo_new_login (st_state demo_again) 900%nat).1.1 = Ok (inr demo_reader) ∧
  pa_api_key_id demo_reader ≠ 1.
Proof.
  assert ((login_step demo_new_login (st_state demo_again) 900%nat).1.1 = Ok (inr demo_reader)) as Hrun by by_run.
  split; [exact Hrun|].
  assert (st_now demo_arrived ≤ 600)%nat as H1 by (vm_compute; lia).
  assert (demo_bar = (Ok tt, demo_bar.1.2, demo_bar.2)) as H2 by (apply run_is; by_run).
  assert (Forall (λ lg, ¬ holds 1 lg) (st_logins demo_left)) as H3.
  { assert (st_logins demo_left = []) as -> by by_run. constructor. }
  assert (demo_new_login ∈ st_logins demo_again) as H4.
  { assert (st_logins demo_again = [demo_new_login]) as -> by by_run. left. }
  assert (st_now demo_again ≤ 900)%nat as H5 by (vm_compute; lia).
  assert (auth_mono (st_now demo_left) + verify_cache_ttl_secs (auth demo_config) <= auth_mono 900) as H6
    by (vm_compute; discriminate).
  exact (revoked_key_stays_out (auth demo_config) 500 demo_db demo_arrived 1 1 600 demo_bar.1.2 demo_bar.2 demo_left
    demo_again demo_new_login 900 demo_reader _ _ demo_schema_ok demo_arrived_runs H1 H2 (drive_moves 1 demo_barred)
    H3 demo_again_runs H4 H5 H6 (run_is _ _ Hrun)).
Defined.

(** [serve] from an empty directory to its shutdown, with a request for /healthz. *)
#[local] Instance demo_tracing : Tracing := mkTracing string None id.
Definition demo_loaded : Config :=
  match Config_load "config.toml" with inr cfg => cfg | inl _ => demo_config end.
Lemma config_loads_exactly_witness :
  config_read parse_addr demo_raw_config demo_loaded ∧ default_ttl_sstate_days (gc demo_loaded) = 30.
Proof.
  assert (Config_load "config.toml" = inr demo_loaded) as Hc by by_run.
  destruct (proj1 (proj1 (config_loads_exactly "config.toml") demo_loaded) Hc) as (raw & Hraw & Hread).
  assert (raw = demo_raw_config) as -> by (injection Hraw as <-; reflexivity).
  split; [exact Hread|]. by_run.
Defined.
Definition demo_boot := serve_boot demo_loaded (fresh demo_config) 0%nat.
Definition demo_healthz : Incoming :=
  mkIncoming (mkHttpRequest GET ["healthz"]%string EmptyString None []) None.
Definition demo_health := build_app demo_loaded demo_healthz demo_boot.1.2 100%nat.
Definition demo_process (s : App) (ph : Phase) (tk : bool) (l : list Incoming) : Process :=
  mkProcess s ph tk (init_tracing (logging demo_loaded) None) l.
Definition demo_alive : Response := mkResponse OK_200 [] (BodyText (line "ok")).
Lemma demo_serves :
  rtc (serve_step "config.toml") (starting (fresh demo_config))
    (demo_process demo_health.1.2 (Listening demo_loaded) (spawn_gc_ticker demo_loaded) [demo_healthz]).
Proof.
  assert (Config_load "config.toml" = inr demo_loaded) as Hc by by_run.
  apply (rtc_l _ _ (demo_process demo_boot.1.2 (Up demo_loaded) (spawn_gc_ticker demo_loaded) [])).
  { apply (serve_booted "config.toml" (fresh demo_config) None demo_loaded 0%nat demo_boot.1.2 demo_boot.2 Hc).
    apply run_is. by_run. }
  apply (rtc_l _ _ (demo_process demo_boot.1.2 (Listening demo_loaded) (spawn_gc_ticker demo_loaded) [])); [apply serve_bound|].
  apply rtc_once.
  apply (serve_request "config.toml" _ demo_loaded _ _ [] demo_healthz 100%nat (Some demo_alive) demo_health.1.2).
  apply (ends_in_time demo_loaded demo_healthz 100%nat _ demo_alive _ demo_health.2).
  apply (run_is demo_health). by_run.
Qed.
Lemma serve_lifetime_witness :
  app_ok demo_health.1.2 ∧ ∃ cfg, Config_load "config.toml" = inr cfg ∧ interval_secs (gc cfg) ≠ 0.
Proof.
  destruct (serve_lifetime "config.toml" (fresh demo_config) _ (fresh_ok demo_config) demo_serves)
    as (Hok & _ & _ & _ & _ & Htick).
  split; [exact Hok|]. assert (spawn_gc_ticker demo_loaded = true) as Ht by by_run.
  destruct (Htick Ht) as (cfg & Hc & Hi & _). exists cfg. exact (conj Hc Hi).
Defined.

#[local] Instance demo_client : HttpClient := mkHttpClient None.
#[local] Instance demo_dirs : Tree := mkTree (λ dir, [dir]) (λ _, demo_tree) (λ _, demo_tree_ok).

(** The upload that is dropped late has been stored. *)
Definition slow_request : HttpRequest := in_request slow_upload.
Lemma dropping_tears_nothing_witness :
  app_ok dropped_late.1.2 ∧
  put_took_place trace3 (authorization slow_request) Sstate "alpha" "slow" (body slow_request) dropped_late.1.2.
Proof.
  destruct timed_out_put_may_be_stored as (_ & _ & _ & Hlate & Hcached).
  destruct (dropping_tears_nothing hasty_config slow_upload 600 trace3 (Some timed_out) dropped_late.1.2
    (reachable_ok demo_config trace3 demo_reachable3) Hlate) as (Hok & _ & Hput & _).
  split; [exact Hok|].
  destruct (Hput slow_request (authorization slow_request) Sstate "alpha"%string "slow"%string (body slow_request) eq_refl eq_refl)
    as [(He & _ & _)|Htook]; [|exact Htook].
  apply cached_entry in Hcached as (e & Hat & _); [|exact Hok]. exfalso. simpl in Hat.
  assert (entry_at (app_db trace3) 1 Sstate "slow" = None) as Hn by by_run.
  unfold entry_at in *. rewrite He in Hat. rewrite Hn in Hat. discriminate Hat.
Defined.

(** ** Audit log *)

(** A pin by the demo admin: done, and told. *)
Definition demo_pin := admin_handler demo_config demo_admin (PinEntry 1 2) demo_app 500%nat.
Lemma admin_requests_are_audited_witness :
  ∃ resp t1 l, demo_pin.1.1 = Ok resp ∧ did (app_db demo_app) (PinEntry 1 2) t1 l ∧
    logs demo_admin l t1 (app_db demo_pin.1.2).
Proof.
  pose proof (admin_requests_are_audited demo_config demo_admin (PinEntry 1 2) demo_app 500%nat
    demo_pin.1.1 demo_pin.1.2 demo_pin.2 demo_app_ok (run_is demo_pin _ eq_refl)) as Hpost.
  assert (is_ok demo_pin.1.1 = true) as Hok by by_run.
  destruct demo_pin.1.1 as [resp|e|w]; [|discriminate Hok|discriminate Hok].
  destruct Hpost as (_ & t1 & l & Hd & Hl). exists resp, t1, l. exact (conj eq_refl (conj Hd Hl)).
Defined.

(** Two tokens are made at the same time; one client hangs up before its line. *)
Definition demo_begin (n : nat) (s : App) := admin_begin demo_config (demo_bearer 7) (CreateToken None) s n.
Definition begun_pending (r : res CoreError (Response + (AdminAuth * Pending)) * App * nat) : AdminAuth * Pending :=
  match r.1.1 with Ok (inr p) => p | _ => (demo_admin, mkPending (EmptyString, None, None) None no_content) end.
Definition demo_told := demo_begin 300 trace3.
Definition demo_untold := demo_begin 320 demo_told.1.2.
Definition demo_done : App := (admin_end (begun_pending demo_told) demo_untold.1.2 340%nat).1.2.
Lemma begun_ok r : (∃ p, r.1.1 = Ok (inr p)) → r = (Ok (inr (begun_pending r)), r.1.2, r.2).
Proof. destruct r as [[r s] n]. by intros [p [= ->]]. Qed.
Definition begins (r : res CoreError (Response + (AdminAuth * Pending)) * App * nat) : bool :=
  match r.1.1 with Ok (inr _) => true | _ => false end.
Lemma begins_ok r : begins r = true → ∃ p, r.1.1 = Ok (inr p).
Proof. destruct r as [[[[resp|p]|e|w] s] n]; try done. by exists p. Qed.

Lemma demo_admin_run :
  admin_run demo_config (mkWorld trace3 []) [begun_pending demo_told; begun_pending demo_untold] (mkWorld demo_done []).
Proof.
  pose proof (begun_ok _ (begins_ok demo_told eq_refl)) as H1.
  pose proof (begun_ok _ (begins_ok demo_untold eq_refl)) as H2.
  set (a := begun_pending demo_told) in *. set (b := begun_pending demo_untold) in *.
  refine (admin_more demo_config _ [a; b] [] (mkWorld demo_done [b]) _ _ (step_hung_up demo_config b demo_done [] [])).
  refine (admin_more demo_config _ [a; b] [] (mkWorld demo_untold.1.2 [b; a]) _ _
    (step_ended demo_config a 340%nat demo_untold.1.2 demo_done [b] [] eq_refl)).
  refine (admin_more demo_config _ [a] [b] (mkWorld demo_told.1.2 [a]) _ _ (step_begun demo_config _ _ _ _ _ _ _ _ H2)).
  refine (admin_more demo_config _ [] [a] _ _ _ (step_begun demo_config _ _ _ _ _ _ _ _ H1)).
  apply admin_start.
Qed.
Lemma audit_log_is_true_witness :
  ∃ row, log_of demo_done = log_of trace3 ++ [row] ∧
    [tells row] ⊆+ [deed (begun_pending demo_told); deed (begun_pending demo_untold)] ∧
    done_in demo_config (mkWorld trace3 []) [] (begun_pending demo_told) ∧
    done_in demo_config (mkWorld trace3 []) [begun_pending demo_told] (begun_pending demo_untold).
Proof.
  destruct (audit_log_is_true demo_config trace3 _ demo_done [] demo_admin_run
    (reachable_ok demo_config trace3 demo_reachable3)) as [(rows & Hrows & Hsub) Hdone].
  assert (length (log_of demo_done) = S (length (log_of trace3))) as Hlen by by_run.
  rewrite Hrows, length_app in Hlen. destruct rows as [|row [|? ?]]; [exfalso; simpl in Hlen; lia| |exfalso; simpl in Hlen; lia].
  exists row. split; [exact Hrows|]. split; [exact Hsub|]. split; [exact (Hdone [] _ _ eq_refl)|exact (Hdone [_] _ [] eq_refl)].
Defined.

(** ** The database *)

(** A first start on a machine without a database, and the tests' database. *)
Definition no_disk : Disk := mkDisk ∅ ∅ [].
Definition demo_connect := connect (database demo_config) no_disk 0%nat.
Lemma connect_keeps_rows_witness :
  is_ok demo_connect.1.1 = true ∧ dk_files demo_connect.1.2 !! "/srv/marmotte.db"%string = Some (mkDbFile [1] (Some empty_tables)) ∧
  dk_files (migrate_at "/srv/marmotte.db" demo_connect.1.2 9%nat).1.2 = dk_files demo_connect.1.2.
Proof.
  assert (is_ok demo_connect.1.1 = true) as Hok by by_run. split; [exact Hok|]. split; [by_run|].
  destruct (connect_keeps_rows (database demo_config) no_disk 0%nat demo_connect.1.1 demo_connect.1.2 demo_connect.2
    (run_is demo_connect _ eq_refl) I) as (_ & _ & Hagain).
  set (again := migrate_at "/srv/marmotte.db" demo_connect.1.2 9%nat).
  exact (Hagain Hok 9%nat again.1.1 again.1.2 again.2 (run_is again _ eq_refl)).
Defined.
Definition demo_memory := connect_memory no_disk 0%nat.
Lemma memory_pool_is_one_database_witness :
  ∃ pool f, demo_memory.1.1 = Ok pool ∧ seen demo_memory.1.2 pool 0 = Some f ∧ migrated empty_tables f.
Proof.
  pose proof (memory_pool_is_one_database no_disk 0%nat demo_memory.1.1 demo_memory.1.2 demo_memory.2
    (run_is demo_memory _ eq_refl)) as (_ & _ & Hpost).
  assert (is_ok demo_memory.1.1 = true) as Hok by by_run.
  destruct demo_memory.1.1 as [pool|e|w] eqn:Hr; [|discriminate Hok|discriminate Hok].
  assert (Z.to_nat (po_max_connections (pool_options pool)) = 1%nat) as Hmax by (injection Hr as <-; reflexivity).
  destruct (Hpost 0%nat) as (f & Hf & Hm); [rewrite Hmax; lia|]. exists pool, f. exact (conj eq_refl (conj Hf Hm)).
Defined.

(** ** Rows *)

(** A row with a pin of seven, and one with a kind that no CHECK lets in. *)
Definition demo_entry_row (kind : string) : Row :=
  list_to_map [("id", SqlInteger 4); ("project_id", SqlInteger 1); ("kind", SqlText kind);
    ("path", SqlText "a"); ("blob_hash", SqlText "00"); ("size_bytes", SqlInteger 3);
    ("created_at", SqlInteger 9); ("last_accessed", SqlInteger 9); ("pinned", SqlInteger 7)]%string.
Lemma stored_rows_decode_witness :
  (∃ e, Entry_from_row (demo_entry_row "downloads") = Ok e ∧ e_pinned e = true) ∧
  Entry_from_row (demo_entry_row "Downloads") =
    Err (ColumnDecode "kind" "invalid input: unknown kind: Downloads").
Proof.
  destruct stored_rows_decode as (_ & _ & _ & _ & [Hcheck Hkeeps _] & _ & Hkind).
  split; [|by apply (Hkind _ "Downloads"%string)].
  assert (columns_fit entries_columns (demo_entry_row "downloads") = true) as Hfit by by_run.
  assert (kind_check (demo_entry_row "downloads") = true) as Hok by by_run.
  destruct (proj1 (Hcheck _ Hfit) Hok) as [e He]. exists e. split; [exact He|].
  assert (mkColumn "pinned" INTEGER true ∈ entries_columns) as Hin by in_columns.
  pose proof (Hkeeps _ e Hfit He _ Hin) as Hp.
  destruct e as [? ? ? ? ? ? ? ? []]; [reflexivity|discriminate Hp].
Defined.
